(* ===== verification/_CoqProject ===== *)
-Q . S2P
Prelude.v
Externals.v
Domain.v
Records.v
Concrete.v
Metadata.v
MetadataView.v
MetadataRefinement.v
MetadataStore.v
MetadataClaims.v
Space.v
RecentUse.v
Filesystem.v
ArtifactFiles.v
FilesLemmas.v
FilesClaims.v
World.v
Channels.v
ChannelLemmas.v
Samples.v
ChannelClaims.v
Cache.v
CacheLemmas.v
CacheConsistency.v
CacheMaintenance.v
Shard.v
DiskTree.v
CacheClaims.v
Lists.v
Text.v
Ring.v
RingClaims.v
Discovery.v
DiscoveryClaims.v
Agent.v
AgentClaims.v
Http.v
HttpClaims.v
Negotiation.v
Web.v
Config.v
Proxy.v
Packages.v
ProxyLemmas.v
ProxyFetch.v
WebConcrete.v
ProxyClaims.v
Startup.v
StartupClaims.v
Manifest.v
Protocol.v
Cacheprog.v
CacheprogLemmas.v
CacheprogClaims.v
Wire.v
Threads.v
Concurrent.v
ConcurrentLemmas.v
Fences.v
FencedCalls.v
Stripes.v
StripedCalls.v
Drops.v
ConcurrentClaims.v
Telemetry.v
TelemetryClaims.v
Routes.v
RoutesClaims.v
Cli.v
Arguments.v
Server.v
ServerLemmas.v
ServerClaims.v
AgentProcess.v
AgentProcessClaims.v
SessionLabel.v
Dns.v
BuildCacheClaims.v
Main.v
Spans.v
