(* ===== verification/Prelude.v ===== *)
(** * Flywheel: a verification library for the disk-backed build cache

    Flywheel is a build and package cache.  A shard keeps artifact bodies on its disk and their
    metadata in RocksDB, serves Go, Bazel and generic build caches and package registries over
    HTTP, and reclaims space when the disk fills up; an agent in front of several shards routes
    each object to the one shard that owns it.  This library models the program's own code (under
    [src/src/]) and proves what makes it correct.  Crates are parameters: a class with the
    operations the code calls, a class of laws with the documented behaviour it relies on, and an
    instance of each on which the theorems are evaluated ([Externals], [Web]; [Concrete],
    [WebConcrete]).

    ** Files and the code they model

    - [Prelude]: byte strings, machine integers, the error monad [M] with [triple] and [preserves],
      tactics and hints, lemmas on lists and options.
    - [Externals], [Concrete]: [ulid], [hex], [sha2], [base64], [postcard], [rocksdb], zstd, the
      default hasher.  [Web], [WebConcrete]: [url], [reqwest], [serde_json], [lol_html].
    - [Domain], [Records]: identities, records and their codec ([artifact/], [channel/],
      [reference.rs], [storage/records.rs]).
    - [Metadata], [MetadataView], [MetadataRefinement], [MetadataStore], [MetadataClaims]:
      [storage/metadata/rocksdb.rs] on any RocksDB; the typed view it implements; the interface
      [MetadataStore] with [MetadataLaws] against which every service is proved.
    - [Space], [RecentUse]: [cache/space.rs] (interface [Reserver]) and [cache/recent_use.rs].
    - [Filesystem], [ArtifactFiles], [FilesLemmas], [FilesClaims]: [storage/local/], over a tree of
      files in which every system call can fail, torn writes included.  [DiskTree]: invariants of
      that tree.
    - [World]: the state services share.  [Channels], [ChannelLemmas], [ChannelClaims]:
      [channel/service.rs].  [Cache], [CacheLemmas], [CacheConsistency], [CacheMaintenance],
      [CacheClaims]: [cache/service.rs].  [Shard]: every state-changing call, in any order.
      [Samples]: a concrete shard.
    - [Threads]: programs over gates and stripes, a pool of them, its steps and a proof method for
      its invariants.  [Concurrent], [ConcurrentLemmas]: every operation of the two services as such a program
      ([cache/service.rs], [cache/stripes.rs], [channel/service.rs]).  [Fences], [FencedCalls]: what the
      gates protect; [Stripes], [StripedCalls]: what the stripes protect; [Drops]: what a call leaves behind
      when its client goes away; [ConcurrentClaims].
    - [Lists], [Text]: slice and string functions of the standard library.
    - [Ring], [RingClaims], [Discovery], [DiscoveryClaims], [Agent], [AgentClaims]: [agent/].
      [AgentProcess], [AgentProcessClaims]: the agent from its arguments to its pages and its discovery turns
      ([agent/mod.rs]).  [Dns]: the resolver of [agent/discovery.rs] and the agent's [run].
    - [Telemetry], [TelemetryClaims]: registration and the observation of prefetches ([telemetry.rs], and
      the agent's metrics in [agent/mod.rs]); counters are fields of the state they belong to.
    - [Http], [HttpClaims], [BuildCacheClaims]: the handlers of [transport/http/mod.rs].  [Routes], [RoutesClaims]: its
      route table, method routers, request identities and counting middleware.  [Negotiation], [Proxy], [ProxyLemmas],
      [ProxyFetch], [ProxyClaims]: [proxy/mod.rs].  [Packages]: [transport/http/packages.rs].
    - [Spans]: request identifiers and spans around both routers ([telemetry.rs], [agent/mod.rs],
      [transport/http/mod.rs]).
    - [Cli], [Arguments]: [cli.rs], the arguments, the options they are read from and what they
      configure.  [Main]: [main] of [main.rs], from a command line to the command it runs.  [Config], [Startup], [StartupClaims]:
      [config.rs], [lib.rs] and the maintenance burst of [main.rs].  [Server], [ServerLemmas], [ServerClaims]: the
      serving process of [main.rs], one lifetime after another.
    - [Manifest], [Protocol], [Cacheprog], [CacheprogLemmas], [CacheprogClaims]: the helper Go runs
      as its build cache ([manifest.rs], [cacheprog/]): session manifests, the reader of its input,
      its requests, prefetch and event loop (a step relation).  [Wire]: the responses it writes.  [SessionLabel]: the label
      a build's session goes by ([cacheprog/session.rs]).

    ** How the code is read

    An operation is a function [S -> result E A * S] with the source's errors; [?] is the bind of
    [M].  Errors of the store and of the disk are part of the model: the store may fail a write
    that it applied or one that it did not, any system call may fail and tear, and a theorem without a
    success hypothesis covers those runs; a write that nothing waits for may even be lost without an
    error (only the helper's [write_atomic] makes one).  Time is a stream of readings; the free-space sample, the
    resolver, the network, the random generator and the request stream are arguments; the delays of
    discovery are whole nanoseconds, cut out by the generator as the code does.  A [u64] is a [Z] with the source's
    saturating, wrapping or checked operation written out; a quality value is an IEEE binary32
    number.

    Locks: the operations are modelled twice.  As functions they run one after the other, in any
    order, and the theorems on contents, disk and handlers are about them.  As programs
    ([Concurrent]) they take and drop the gates and stripes where the source does and interleave
    between any two calls of the store, of the filesystem or of a locked section; a program run
    alone does what the function does ([lone_call_sequential]).  A gate is an object that outlives its entry
    in the registry, as an [Arc] does.  One call of the store or of the file layer is one step of a
    program, however many system calls it makes: staging a body, publishing it, removing a channel's
    files, a scan, the read and the write of one store operation; two writers of one key hold the same stripe or gate, except maintenance, which
    re-queues under a stripe but outside the gates, so a pool that deletes channels while maintenance
    runs is covered by no theorem on deletion (it is among the findings).  [refresh] is two steps
    where it is studied alone, because the source samples before it locks, and [requeue] is its read and its
    write where it meets a deletion ([MetadataClaims]).  A client may go away whenever its call waits or
    runs a call of its own: the guards it holds are dropped with it and so is its reservation, whose
    clean-up, and the store call it awaited, go on by themselves ([pool_move], [Drops]).  The helper's event loop
    interleaves the messages it reads, its running requests and the pieces of its prefetch in any
    order; prefetch bodies observed by shard and agent interleave in any order too.

    ** What the theorems show

    - Storage: what is published can be looked up and is what was published; each history of the
      metadata store is one of its typed view, faults included; the ledger never hands out more
      than was observed less the headroom, every exit settles its reservation, and every published
      file is intact, whatever fails; an artifact is always queued for reclamation.
    - Channels: credentials, the default channel, deletion that completes or is resumed whatever calls come
      in between; mutations need an active channel.
    - Concurrency: every schedule of calls completes, none waits for ever, clients that go away included; a channel whose deletion
      succeeded stays without rows whatever calls but maintenance run beside it; between deletions a row has its
      body but for one artifact of each maintenance pass, the one it is evicting or failed on; both hold with clients that go away,
      but for one whose write of a row or rename of a body is under way; four schedules show where the locks
      do not suffice, that one among them.
    - Maintenance: which artifacts a pass may take, its budgets, the hysteresis of its mode, and
      that a burst ends once space is back.
    - Start: over a sound store and intact files, as every process leaves them, a start that succeeds
      finishes the deletions an earlier process left half done and opens the default channel; every
      later sequence of calls keeps store, files, ledger and default channel so; over whole lifetimes of the process,
      requests, streamed bodies and maintenance included, permits, slots, flights, ledger, store and
      disk stay well formed, and the next start finds them so, whatever command lines the processes had.
    - Command line: what a command line is read as, with clap as a parameter, enters the theorems on whole
      processes; examples show one read and a number out of range refused.
    - HTTP: downloads deliver the bytes of their digest, acknowledged uploads are stored, ranges
      stay in the representation, slots are conserved; no request below a protected channel, on any
      route, gets past a missing credential, a malformed binding being refused before it; a build-cache
      key that was written is read back; the route table leaves its matcher no choice.
    - Telemetry: registration succeeds, and the prefetch counters account for every request and byte.
    - Proxy: only configured origins are contacted, a bounded number of times; permits and
      coalescing entries are returned; rewritten links lead back to what they replaced, when the
      proxy may fetch it; reference
      names are collision-free up to SHA-256; fetched packages are cached, fresh ones need no
      upstream; content negotiation honours the header; and what happens to a reference whose body
      was reclaimed.
    - Agent: all agents place alike, a removed member moves only its own keys, ejected members get
      no traffic until their window passes, each request goes to at most one shard, build-cache
      routes fail open, a request has one identifier in agent and shard, refresh tracks DNS and its loop is bounded; over the life of the process its
      counters balance, its pages report what it routes by, each discovery turn returns with a delay in the
      jittered bounds of the code; agent and shard agree on what a request is about; an empty DNS answer empties the ring, a
      failed one keeps it.
    - Helper: as long as no write is lost, the object directory holds only what its names say and answers
      name verified files;
      each request is answered once, the reply to a close last; what it writes is read back, under the field
      names Go uses, response by response, up to the first write that fails; every run ends; the reader does not
      depend on how its input is cut; merging manifests drops the oldest entries and no more than
      the limit demands; cleaning up spares live files; builds share a session exactly when module
      and platform agree.

    ** Bounds and fuel

    Redirects and retries recurse on the source's own limits, the discovery loop and the
    maintenance burst on the number of turns asked for; their theorems say how many turns are
    enough.  [read_messages] polls as often as it is told, and its theorem gives a number of polls, linear
    in the input, that suffices.  The helper's events descend in a well-founded order, so its loop
    needs no fuel, and neither does a pool of calls, whose steps descend into
    the rest of its programs.  All other recursion is structural.

    ** Not modelled

    What is left of the sources is calls of crates without state of the program's own: how clap splits a
    command line and writes numbers, how tower-http inserts a header, how axum matches a path (parameters
    with the laws they document), percent-decoding and JSON syntax (inputs), the prometheus text
    encoding, the opening of RocksDB's files, the format of log lines, sockets, signals and the mechanics of
    graceful shutdown.  The float arithmetic of the jitter is exact here.  The agent's counters are studied
    for clients that wait for their answers.  A client that goes away while its write of a row or its rename of a body is
    under way breaks what the theorems say of the others, which is a finding and not a theorem; a helper's
    request or download runs as one step of its loop. *)

From stdpp Require Export base gmap strings list fin_maps sorting.
From Stdlib Require Export ZArith Lia Ascii.

Open Scope Z_scope.

(** ** Byte strings

    Rust's [&[u8]], [Vec<u8>], [&str] and [String] are all byte strings here: a [String] is its
    UTF-8 encoding.  [lit] turns a literal of the source into one. *)

Abbreviation bytes := (list ascii) (only parsing).

Definition lit (s : string) : bytes := String.list_ascii_of_string s.

(** A 32-byte array, [[u8; 32]]: the length is part of the type, as it is in the source. *)
Record bytes32 := Bytes32 {
  b32 : bytes;
  b32_length : Nat.eqb (length b32) 32 = true
}.

Definition to_bytes32 (b : bytes) : option bytes32 :=
  match decide (Nat.eqb (length b) 32 = true) with
  | left H => Some (Bytes32 b H)
  | right _ => None
  end.

(** ** Machine integers

    A [u64] is a [Z] in [0, 2^64); every operation of the source that could leave the range is
    written out with the behaviour the source chose for it. *)

Definition u64_max : Z := 2 ^ 64 - 1.
Definition is_u64 (x : Z) : Prop := 0 <= x <= u64_max.

Definition saturating_add (a b : Z) : Z := Z.min (a + b) u64_max.
Definition saturating_sub (a b : Z) : Z := Z.max (a - b) 0.
Definition checked_add (a b : Z) : option Z := if a + b <=? u64_max then Some (a + b) else None.
Definition wrapping_add (a b : Z) : Z := (a + b) mod 2 ^ 64.
Definition wrapping_mul (a b : Z) : Z := (a * b) mod 2 ^ 64.

(** [to_be_bytes] of an [n]-byte unsigned integer, and [from_be_bytes]. *)
Fixpoint be_bytes (n : nat) (z : Z) : bytes :=
  match n with
  | O => []
  | S n => ascii_of_N (Z.to_N (z / 256 ^ Z.of_nat n) mod 256) :: be_bytes n z
  end.

Definition byte_value (c : ascii) : Z := Z.of_N (N_of_ascii c).

Definition be_value (b : bytes) : Z := fold_left (fun acc c => acc * 256 + byte_value c) b 0.

(** ** Byte order

    RocksDB compares keys bytewise, as does Rust's [Ord] on [&str]. *)

Fixpoint bytes_compare (a b : bytes) : comparison :=
  match a, b with
  | [], [] => Eq
  | [], _ :: _ => Lt
  | _ :: _, [] => Gt
  | x :: a, y :: b =>
      match N.compare (N_of_ascii x) (N_of_ascii y) with
      | Eq => bytes_compare a b
      | c => c
      end
  end.

Definition bytes_lt (a b : bytes) : Prop := bytes_compare a b = Lt.
Definition bytes_le (a b : bytes) : Prop := bytes_compare a b <> Gt.

#[export] Instance bytes_lt_dec a b : Decision (bytes_lt a b).
Proof. unfold bytes_lt. apply _. Defined.
#[export] Instance bytes_le_dec a b : Decision (bytes_le a b).
Proof. unfold bytes_le. apply _. Defined.

(** Whether [b] starts with [p]; [starts_with] of the source. *)
Fixpoint starts_with (p b : bytes) : bool :=
  match p, b with
  | [], _ => true
  | _ :: _, [] => false
  | x :: p, y :: b => bool_decide (x = y) && starts_with p b
  end.

(** ** Errors and state

    [result E A] is Rust's [Result<A, E>].  A fallible operation on a mutable component is a
    function from its state to a result and the state it leaves behind, which on an error is the
    state with everything done before the error still in it. *)

Inductive result (E A : Type) : Type :=
| Ok (a : A)
| Err (e : E).
Arguments Ok {E A} a.
Arguments Err {E A} e.

Definition is_ok {E A} (r : result E A) : bool := match r with Ok _ => true | Err _ => false end.

Definition map_err {E F A} (f : E -> F) (r : result E A) : result F A :=
  match r with Ok a => Ok a | Err e => Err (f e) end.

Definition M (S E A : Type) : Type := S -> result E A * S.

#[export] Instance M_ret {S E} : MRet (M S E) := fun A a s => (Ok a, s).
#[export] Instance M_bind {S E} : MBind (M S E) := fun A B k m s =>
  match m s with
  | (Ok a, s') => k a s'
  | (Err e, s') => (Err e, s')
  end.

Definition throw {S E A} (e : E) : M S E A := fun s => (Err e, s).
Definition get_state {S E} : M S E S := fun s => (Ok s, s).
Definition put_state {S E} (s' : S) : M S E unit := fun _ => (Ok tt, s').
Definition modify {S E} (f : S -> S) : M S E unit := fun s => (Ok tt, f s).

(** The [?] operator on a plain result, and on an option with the error to raise. *)
Definition lift {S E A} (r : result E A) : M S E A := fun s => (r, s).
Definition ok_or {S E A} (o : option A) (e : E) : M S E A :=
  match o with Some a => mret a | None => throw e end.

(** Reifies the outcome so that the caller can match on it ([match op.await { Ok.. Err.. }]). *)
Definition try {S E F A} (m : M S E A) : M S F (result E A) := fun s =>
  let '(r, s') := m s in (Ok r, s').

(** The [From] conversion [?] applies to an error crossing a component boundary. *)
Definition raising {S E F A} (f : E -> F) (m : M S E A) : M S F A := fun s =>
  let '(r, s') := m s in (map_err f r, s').

(** Runs an operation of a component inside a larger state. *)
Definition zoom {S T E A} (get : S -> T) (set : T -> S -> S) (m : M T E A) : M S E A := fun s =>
  let '(r, t) := m (get s) in (r, set t s).

(** [for x in xs { body }] with early exit through the error channel. *)
Fixpoint for_each {S E A} (body : A -> M S E unit) (xs : list A) : M S E unit :=
  match xs with
  | [] => mret tt
  | x :: xs => _ ← body x; for_each body xs
  end.

(** *** A small program logic

    [triple P m Q R]: from a state satisfying [P], [m] ends in [Q] when it succeeds and in [R]
    when it fails.  The operations are total, so this is total correctness. *)

Definition triple {S E A} (P : S -> Prop) (m : M S E A) (Q : A -> S -> Prop) (R : E -> S -> Prop)
    : Prop :=
  forall s, P s -> match m s with (Ok a, s') => Q a s' | (Err e, s') => R e s' end.

(** [m] keeps [I] whatever its outcome. *)
Definition preserves {S E A} (I : S -> Prop) (m : M S E A) : Prop :=
  triple I m (fun _ => I) (fun _ => I).

Create HintDb flywheel.

(** *** Tactics *)

(** Splits the next effect of a goal about [mbind]. *)
Ltac destruct_bind H :=
  unfold mbind, M_bind in H; cbn beta in H.

(** Case analysis on the scrutinee of an [if]/[match] on a boolean or decision in the goal. *)
Ltac case_bool :=
  match goal with
  | |- context [if ?b then _ else _] => destruct b eqn:?
  end.

Ltac zify_bool :=
  repeat match goal with
  | H : (_ <=? _) = true |- _ => apply Z.leb_le in H
  | H : (_ <=? _) = false |- _ => apply Z.leb_gt in H
  | H : (_ <? _) = true |- _ => apply Z.ltb_lt in H
  | H : (_ <? _) = false |- _ => apply Z.ltb_ge in H
  | H : (_ =? _) = true |- _ => apply Z.eqb_eq in H
  | H : (_ =? _) = false |- _ => apply Z.eqb_neq in H
  end.

(** ** Lemmas *)

(** *** Machine integers *)

Lemma u64_max_pos : 0 < u64_max.
Proof. reflexivity. Qed.

Lemma saturating_add_u64 a b : is_u64 a -> is_u64 b -> is_u64 (saturating_add a b).
Proof. unfold is_u64, saturating_add. lia. Qed.

Lemma saturating_sub_u64 a b : is_u64 a -> is_u64 b -> is_u64 (saturating_sub a b).
Proof. unfold is_u64, saturating_sub. lia. Qed.

Lemma saturating_add_exact a b : a + b <= u64_max -> saturating_add a b = a + b.
Proof. unfold saturating_add. lia. Qed.

Lemma saturating_sub_exact a b : b <= a -> saturating_sub a b = a - b.
Proof. unfold saturating_sub. lia. Qed.

Lemma saturating_add_le a b c : saturating_add a b <= c -> c < u64_max -> a + b <= c.
Proof. unfold saturating_add. lia. Qed.

#[export] Hint Resolve saturating_add_u64 saturating_sub_u64 : flywheel.

Lemma bytes32_eq (a b : bytes32) : b32 a = b32 b -> a = b.
Proof.
  destruct a as [a Ha], b as [b Hb]; cbn. intros ->. f_equal. apply proof_irrel.
Qed.

#[export] Instance bytes32_eq_dec : EqDecision bytes32.
Proof.
  intros a b. destruct (decide (b32 a = b32 b)) as [H|H].
  - left. by apply bytes32_eq.
  - right. intros ->. done.
Defined.

Lemma to_bytes32_b32 (b : bytes32) : to_bytes32 (b32 b) = Some b.
Proof.
  destruct b as [b H]. unfold to_bytes32; cbn. destruct (decide _) as [H'|]; [|done].
  f_equal. by apply bytes32_eq.
Qed.

Lemma to_bytes32_Some b d : to_bytes32 b = Some d <-> b = b32 d.
Proof.
  split.
  - unfold to_bytes32. destruct (decide _); [intros [= <-]; done|done].
  - intros ->. apply to_bytes32_b32.
Qed.

#[export] Instance bytes32_countable : Countable bytes32.
Proof. apply (inj_countable b32 to_bytes32), to_bytes32_b32. Defined.

Lemma length_b32 (b : bytes32) : length (b32 b) = 32%nat.
Proof. destruct b as [b H]; cbn. by apply Nat.eqb_eq. Qed.

(** *** Big-endian encoding *)

Lemma byte_value_range c : 0 <= byte_value c < 256.
Proof. unfold byte_value. pose proof (N_ascii_bounded c). lia. Qed.

Lemma length_be_bytes n z : length (be_bytes n z) = n.
Proof. induction n; cbn; auto. Qed.

Lemma byte_value_inj a b : byte_value a = byte_value b -> a = b.
Proof.
  unfold byte_value. intros H%N2Z.inj.
  rewrite <- (ascii_N_embedding a), H. apply ascii_N_embedding.
Qed.

Lemma be_digit_value n z :
  0 <= z -> byte_value (ascii_of_N (Z.to_N (z / 256 ^ Z.of_nat n) mod 256))
            = (z / 256 ^ Z.of_nat n) mod 256.
Proof.
  intros Hz. unfold byte_value. rewrite N_ascii_embedding by (apply N.mod_lt; lia).
  rewrite N2Z.inj_mod, Z2N.id; [done|].
  apply Z.div_pos; [lia|]. apply Z.pow_pos_nonneg; lia.
Qed.

Lemma be_value_acc b acc :
  fold_left (fun acc c => acc * 256 + byte_value c) b acc
  = acc * 256 ^ Z.of_nat (length b) + be_value b.
Proof.
  unfold be_value. revert acc. induction b as [|c b IH]; intros acc; cbn [fold_left length].
  - change (Z.of_nat 0) with 0. rewrite Z.pow_0_r. lia.
  - rewrite IH, (IH (0 * 256 + byte_value c)), Nat2Z.inj_succ, Z.pow_succ_r by lia. ring.
Qed.

Lemma be_value_cons c b :
  be_value (c :: b) = byte_value c * 256 ^ Z.of_nat (length b) + be_value b.
Proof. unfold be_value at 1. cbn [fold_left]. rewrite be_value_acc. ring. Qed.

Lemma be_value_range b : 0 <= be_value b < 256 ^ Z.of_nat (length b).
Proof.
  induction b as [|c b IH]; [cbn; lia|].
  rewrite be_value_cons. cbn [length]. rewrite Nat2Z.inj_succ, Z.pow_succ_r by lia.
  pose proof (byte_value_range c). nia.
Qed.

(** [from_be_bytes(to_be_bytes(z)) = z] modulo the width. *)
Lemma be_value_be_bytes n z : 0 <= z -> be_value (be_bytes n z) = z mod 256 ^ Z.of_nat n.
Proof.
  intros Hz. induction n as [|n IH].
  - cbn. by rewrite Z.mod_1_r.
  - cbn [be_bytes]. rewrite be_value_cons, length_be_bytes, IH, be_digit_value by done.
    rewrite Nat2Z.inj_succ, Z.pow_succ_r, (Z.mul_comm 256) by lia.
    rewrite Z.rem_mul_r by (try apply Z.pow_nonzero; lia). ring.
Qed.

Lemma be_value_u64 z : is_u64 z -> be_value (be_bytes 8 z) = z.
Proof.
  unfold is_u64, u64_max. intros Hz. rewrite be_value_be_bytes by lia.
  apply Z.mod_small. change (256 ^ Z.of_nat 8) with (2 ^ 64). lia.
Qed.

(** *** Byte order *)

Lemma bytes_compare_refl a : bytes_compare a a = Eq.
Proof. induction a as [|x a IH]; cbn; [done|]. by rewrite N.compare_refl. Qed.

Lemma N_of_ascii_inj x y : N_of_ascii x = N_of_ascii y -> x = y.
Proof. intros H. rewrite <- (ascii_N_embedding x), H. apply ascii_N_embedding. Qed.

Lemma bytes_compare_eq a b : bytes_compare a b = Eq <-> a = b.
Proof.
  split; [|intros ->; apply bytes_compare_refl].
  revert b. induction a as [|x a IH]; intros [|y b]; cbn; try done.
  destruct (N.compare_spec (N_of_ascii x) (N_of_ascii y)) as [H|H|H]; try done.
  intros ?. f_equal; [by apply N_of_ascii_inj|auto].
Qed.

Lemma bytes_compare_antisym a b : bytes_compare b a = CompOpp (bytes_compare a b).
Proof.
  revert b. induction a as [|x a IH]; intros [|y b]; cbn; try done.
  rewrite (N.compare_antisym (N_of_ascii x)).
  destruct (N.compare (N_of_ascii x) (N_of_ascii y)); cbn; auto.
Qed.

Lemma bytes_lt_trans a b c : bytes_lt a b -> bytes_lt b c -> bytes_lt a c.
Proof.
  unfold bytes_lt. revert b c. induction a as [|x a IH]; intros [|y b] [|z c]; cbn; try done.
  destruct (N.compare_spec (N_of_ascii x) (N_of_ascii y)) as [H1|H1|H1];
    destruct (N.compare_spec (N_of_ascii y) (N_of_ascii z)) as [H2|H2|H2]; try done; intros L1 L2;
    destruct (N.compare_spec (N_of_ascii x) (N_of_ascii z)) as [H3|H3|H3]; try lia; try done.
  eauto.
Qed.

Lemma bytes_le_lt_eq a b : bytes_le a b <-> bytes_lt a b \/ a = b.
Proof.
  unfold bytes_le, bytes_lt. rewrite <- (bytes_compare_eq a b).
  destruct (bytes_compare a b); split; intros; try tauto; try done;
    destruct_or?; done.
Qed.

#[export] Instance bytes_le_trans : Transitive bytes_le.
Proof.
  intros a b c. rewrite !bytes_le_lt_eq. intros [H1| ->] [H2| ->]; eauto using bytes_lt_trans.
Qed.

#[export] Instance bytes_le_total : Total bytes_le.
Proof.
  intros a b. unfold bytes_le. rewrite (bytes_compare_antisym a b).
  destruct (bytes_compare a b); cbn; auto; by left.
Qed.

#[export] Instance bytes_le_antisym : AntiSymm eq bytes_le.
Proof.
  intros a b. unfold bytes_le. rewrite (bytes_compare_antisym a b), <- (bytes_compare_eq a b).
  destruct (bytes_compare a b); cbn; done.
Qed.

Lemma bytes_le_refl a : bytes_le a a.
Proof. unfold bytes_le. by rewrite bytes_compare_refl. Qed.

Lemma bytes_lt_irrefl a : ~ bytes_lt a a.
Proof. unfold bytes_lt. by rewrite bytes_compare_refl. Qed.

Lemma bytes_le_not_lt a b : bytes_le a b <-> ~ bytes_lt b a.
Proof.
  unfold bytes_le, bytes_lt. rewrite (bytes_compare_antisym a b).
  destruct (bytes_compare a b); cbn; split; done.
Qed.

(** Heads of equal length are compared first. *)
Lemma bytes_compare_app a a' b b' :
  length a = length a' ->
  bytes_compare (a ++ b) (a' ++ b')
  = match bytes_compare a a' with Eq => bytes_compare b b' | c => c end.
Proof.
  revert a'. induction a as [|x a IH]; intros [|y a']; cbn; try done.
  intros [= H]. destruct (N.compare (N_of_ascii x) (N_of_ascii y)); auto.
Qed.

Lemma N_compare_byte x y : N.compare (N_of_ascii x) (N_of_ascii y) = (byte_value x ?= byte_value y).
Proof. unfold byte_value. by rewrite N2Z.inj_compare. Qed.

(** Two big-endian integers of one width compare as the integers do. *)
Lemma be_bytes_compare_value a b :
  length a = length b -> bytes_compare a b = (be_value a ?= be_value b).
Proof.
  revert b. induction a as [|x a IH]; intros [|y b]; cbn [length]; try done.
  intros [= H]. cbn [bytes_compare]. rewrite N_compare_byte, IH, !be_value_cons, H by done.
  pose proof (be_value_range a) as Ha. pose proof (be_value_range b) as Hb. rewrite H in Ha.
  symmetry. destruct (Z.compare_spec (byte_value x) (byte_value y)) as [E|E|E].
  - rewrite E. destruct (Z.compare_spec (be_value a) (be_value b)).
    + apply Z.compare_eq_iff. lia.
    + apply Z.compare_lt_iff. lia.
    + apply Z.compare_gt_iff. lia.
  - apply Z.compare_lt_iff. nia.
  - apply Z.compare_gt_iff. nia.
Qed.

Lemma be_bytes_compare n x y :
  0 <= x < 256 ^ Z.of_nat n -> 0 <= y < 256 ^ Z.of_nat n ->
  bytes_compare (be_bytes n x) (be_bytes n y) = (x ?= y).
Proof.
  intros Hx Hy. rewrite be_bytes_compare_value by (by rewrite !length_be_bytes).
  by rewrite !be_value_be_bytes, !Z.mod_small by lia.
Qed.

Lemma be_bytes_inj n x y :
  0 <= x < 256 ^ Z.of_nat n -> 0 <= y < 256 ^ Z.of_nat n -> be_bytes n x = be_bytes n y -> x = y.
Proof.
  intros Hx Hy H. apply Z.compare_eq. rewrite <- (be_bytes_compare n) by done.
  rewrite H. apply bytes_compare_refl.
Qed.

Lemma starts_with_spec p b : starts_with p b = true <-> exists r, b = p ++ r.
Proof.
  split.
  - revert b. induction p as [|x p IH]; intros b; cbn; [by exists b|].
    destruct b as [|y b]; [done|]. intros [H1%bool_decide_eq_true H2]%andb_prop.
    destruct (IH _ H2) as [r ->]. exists r. by rewrite H1.
  - intros [r ->]. induction p as [|x p IH]; cbn; [done|]. by rewrite bool_decide_eq_true_2.
Qed.

Lemma starts_with_app p b : starts_with p (p ++ b) = true.
Proof. apply starts_with_spec. eauto. Qed.

Lemma app_eq_len {A} (a a' b b' : list A) : length a = length a' -> a ++ b = a' ++ b' -> a = a' /\ b = b'.
Proof. intros. by apply app_inj_1. Qed.

(** The outcome of a run determines it together with the state it leaves. *)
Lemma run_eq {A B} (p : A * B) a : p.1 = a -> p = (a, p.2).
Proof. by destruct p as [x y]; cbn; intros ->. Qed.

(** A partial map that is injective on a list keeps its elements distinct. *)
Lemma NoDup_omap {A B} (f : A -> option B) l :
  (forall x y z, x ∈ l -> y ∈ l -> f x = Some z -> f y = Some z -> x = y) ->
  NoDup l -> NoDup (omap f l).
Proof.
  intros Hinj Hnd. induction Hnd as [|x l Hx Hnd IH]; cbn; [constructor|].
  assert (NoDup (omap f l)) by (apply IH; intros; eapply Hinj; [by right..|done|done]).
  destruct (f x) as [z|] eqn:Hfx; [|done]. apply NoDup_cons. split; [|done].
  intros (y & Hy & Hfy)%list_elem_of_omap. apply Hx.
  by rewrite (Hinj x y z (list_elem_of_here _ _) (list_elem_of_further _ _ _ Hy) Hfx Hfy).
Qed.

(** *** The program logic *)

Section Triples.
Context {S E : Type}.
Implicit Types (P : S -> Prop).

Lemma triple_ret {A} (a : A) P (Q : A -> S -> Prop) R :
  (forall s, P s -> Q a s) -> triple P (mret a : M S E A) Q R.
Proof. intros H s Hs. cbn. auto. Qed.

Lemma triple_throw {A} (e : E) P (Q : A -> S -> Prop) (R : E -> S -> Prop) :
  (forall s, P s -> R e s) -> triple P (throw e) Q R.
Proof. intros H s Hs. cbn. auto. Qed.

Lemma triple_bind {A B} (m : M S E A) (k : A -> M S E B) P Q Q' R :
  triple P m Q' R -> (forall a, triple (Q' a) (k a) Q R) -> triple P (m ≫= k) Q R.
Proof.
  intros Hm Hk s Hs. unfold mbind, M_bind. specialize (Hm s Hs).
  destruct (m s) as [[a|e] s']; [by apply Hk|done].
Qed.

Lemma triple_pure {A} (phi : Prop) (m : M S E A) P Q R :
  (phi -> triple P m Q R) -> triple (fun s => phi /\ P s) m Q R.
Proof. intros H s [Hphi Hs]. by apply H. Qed.

Lemma triple_conseq {A} (m : M S E A) (P P' : S -> Prop) (Q Q' : A -> S -> Prop)
    (R R' : E -> S -> Prop) :
  triple P' m Q' R' -> (forall s, P s -> P' s) -> (forall a s, Q' a s -> Q a s) ->
  (forall e s, R' e s -> R e s) -> triple P m Q R.
Proof.
  intros Hm HP HQ HR s Hs. specialize (Hm s (HP s Hs)). destruct (m s) as [[a|e] s']; auto.
Qed.

Lemma preserves_ret {A} I (a : A) : preserves I (mret a : M S E A).
Proof. by apply triple_ret. Qed.

Lemma preserves_throw {A} I (e : E) : preserves I (throw e : M S E A).
Proof. by apply triple_throw. Qed.

Lemma preserves_bind {A B} I (m : M S E A) (k : A -> M S E B) :
  preserves I m -> (forall a, preserves I (k a)) -> preserves I (m ≫= k).
Proof. intros Hm Hk. eapply triple_bind; [exact Hm|]. intros a. apply Hk. Qed.

Lemma preserves_get I : preserves I (get_state : M S E S).
Proof. intros s Hs. done. Qed.

Lemma preserves_modify I (f : S -> S) :
  (forall s, I s -> I (f s)) -> preserves I (modify f : M S E unit).
Proof. intros H s Hs. cbn. auto. Qed.

Lemma preserves_lift {A} I (r : result E A) : preserves I (lift r : M S E A).
Proof. intros s Hs. unfold lift. by destruct r. Qed.

Lemma preserves_ok_or {A} I (o : option A) (e : E) : preserves I (ok_or o e : M S E A).
Proof. destruct o; [apply preserves_ret|apply preserves_throw]. Qed.

Lemma preserves_try {F A} I (m : M S E A) : preserves I m -> preserves I (try m : M S F _).
Proof. intros H s Hs. unfold try. specialize (H s Hs). by destruct (m s) as [[a|e] s']. Qed.

(** [try] never fails, so any error postcondition will do. *)
Lemma triple_try {F A} (P : S -> Prop) (I : S -> Prop) (m : M S E A) (R : F -> S -> Prop) :
  triple P m (fun _ => I) (fun _ => I) -> triple P (try m : M S F _) (fun _ => I) R.
Proof. intros H s Hs. unfold try. specialize (H s Hs). by destruct (m s) as [[a|e] s']. Qed.

Lemma preserves_raising {F A} I (f : E -> F) (m : M S E A) :
  preserves I m -> preserves I (raising f m).
Proof. intros H s Hs. unfold raising. specialize (H s Hs). by destruct (m s) as [[a|e] s']. Qed.

Lemma preserves_for_each {A} I (body : A -> M S E unit) xs :
  (forall x, preserves I (body x)) -> preserves I (for_each body xs).
Proof.
  intros H. induction xs as [|x xs IH]; [apply preserves_ret|].
  apply preserves_bind; auto.
Qed.

Lemma preserves_zoom {T A} (get : S -> T) set I (J : T -> Prop) (m : M T E A) :
  (forall s, I s -> J (get s)) -> (forall s t, I s -> J t -> I (set t s)) ->
  preserves J m -> preserves I (zoom get set m).
Proof.
  intros Hg Hs Hm s HI. unfold zoom. specialize (Hm (get s) (Hg s HI)).
  destruct (m (get s)) as [[a|e] t]; cbn; auto.
Qed.

Lemma bind_ok {A B} (m : M S E A) (k : A -> M S E B) s b s' :
  (m ≫= k) s = (Ok b, s') <-> exists a s1, m s = (Ok a, s1) /\ k a s1 = (Ok b, s').
Proof.
  unfold mbind, M_bind. split.
  - destruct (m s) as [[a|e] s1]; [eauto|done].
  - intros (a & s1 & -> & ->). done.
Qed.
End Triples.

#[export] Hint Resolve preserves_ret preserves_throw preserves_bind preserves_get preserves_lift
  preserves_ok_or preserves_try preserves_raising preserves_for_each : flywheel.
