(* ===== verification/Externals.v ===== *)
(** * The crates Flywheel calls

    Flywheel's own code sits on crates whose sources are not part of the repository: [ulid],
    [sha2], [hex], [postcard], [rocksdb], [async-compression] (zstd) and the standard library's
    unspecified [DefaultHasher].  Each is an interface here: a class with the operations the code
    calls, and a class of laws with the documented behaviour the code relies on.  Everything else
    in the development is parametric in them; [Concrete.v] has an instance of each. *)

From S2P Require Import Prelude.

(** ** [ulid]: 26-character Crockford identifiers *)

Definition ULID_LEN : nat := 26.

Class UlidLib := {
  Ulid : Type;
  Ulid_eq_dec :: EqDecision Ulid;
  Ulid_countable :: Countable Ulid;
  (** [Ulid::nil()] *)
  ulid_nil : Ulid;
  (** [Ulid::array_to_str], which [Display] also uses *)
  ulid_array_to_str : Ulid -> bytes;
  (** [Ulid::from_string] *)
  ulid_from_string : bytes -> option Ulid
}.

(** The alphabet of the canonical text: ASCII digits and capital letters. *)
Definition is_crockford (c : ascii) : Prop := 48 <= byte_value c <= 57 \/ 65 <= byte_value c <= 90.

Class UlidLaws `{UlidLib} : Prop := {
  ulid_str_length u : length (ulid_array_to_str u) = ULID_LEN;
  ulid_str_alphabet u : Forall is_crockford (ulid_array_to_str u);
  ulid_from_to u : ulid_from_string (ulid_array_to_str u) = Some u
}.

(** ** [sha2]

    Feeding a [Sha256] hasher in pieces and finalizing it is the digest of the concatenation, so
    one function describes both uses. *)

Class Sha256Lib := {
  sha256 : bytes -> bytes32
}.

(** ** [hex] *)

Definition is_ascii_uppercase (c : ascii) : bool := (65 <=? byte_value c) && (byte_value c <=? 90).

Definition to_ascii_lowercase_byte (c : ascii) : ascii :=
  if is_ascii_uppercase c then ascii_of_N (N_of_ascii c + 32) else c.

Definition to_ascii_lowercase (s : bytes) : bytes := map to_ascii_lowercase_byte s.

Class HexLib := {
  (** [hex::encode] *)
  hex_encode : bytes -> bytes;
  (** [hex::decode_to_slice] into a 32-byte buffer *)
  hex_decode_to_slice32 : bytes -> option bytes32;
  (** [hex::decode] *)
  hex_decode : bytes -> option bytes
}.

Definition is_hex_digit (c : ascii) : bool :=
  ((48 <=? byte_value c) && (byte_value c <=? 57)) || ((97 <=? byte_value c) && (byte_value c <=? 102)).

Class HexLaws `{HexLib} : Prop := {
  hex_encode_length b : length (hex_encode b) = (2 * length b)%nat;
  hex_encode_lowercase b : Forall (fun c => is_ascii_uppercase c = false) (hex_encode b);
  hex_decode_encode d : hex_decode_to_slice32 (hex_encode (b32 d)) = Some d;
  (** the decoder reads either case; the encoder writes lowercase *)
  hex_encode_decode s d :
    hex_decode_to_slice32 s = Some d -> hex_encode (b32 d) = to_ascii_lowercase s;
  hex_encode_digits b : Forall (fun c => is_hex_digit c = true) (hex_encode b);
  hex_decode_any b : hex_decode (hex_encode b) = Some b;
  hex_decode_lower s b : hex_decode s = Some b -> hex_encode b = to_ascii_lowercase s
}.

(** ** [std::collections::hash_map::DefaultHasher]

    Its algorithm is unspecified; the code hashes a channel followed by a digest and reads a
    [u64]. *)

Class DefaultHasherLib `{UlidLib} := {
  default_hash : Ulid -> bytes32 -> Z
}.

Class DefaultHasherLaws `{DefaultHasherLib} : Prop := {
  default_hash_u64 c d : is_u64 (default_hash c d)
}.

(** ** [base64]: the URL-safe alphabet without padding, and the standard alphabet *)

Class Base64Lib := {
  base64_url_encode : bytes -> bytes;
  base64_url_decode : bytes -> option bytes;
  base64_std_decode : bytes -> option bytes
}.

(** ** [async-compression]: the zstd frame of the chunks written to one encoder *)

Class ZstdLib := {
  zstd_frame : list bytes -> bytes;
  zstd_decode : bytes -> option bytes
}.

Class ZstdLaws `{ZstdLib} : Prop := {
  zstd_decode_frame chunks : zstd_decode (zstd_frame chunks) = Some (concat chunks)
}.

(** ** [postcard] *)

Class Postcard (T : Type) := {
  postcard_to_stdvec : T -> result string bytes;
  postcard_from_bytes : bytes -> result string T
}.

Class PostcardLaws (T : Type) `{Postcard T} : Prop := {
  postcard_roundtrip v b : postcard_to_stdvec v = Ok b -> postcard_from_bytes b = Ok v
}.

(** ** [rocksdb]

    A store of column families.  [WriteBatch] collects operations that [write] applies as one
    unit.  [get_cf] stands for the handle lookup and the read together, so a missing family is
    one of its errors. *)

Inductive column_family := META | ARTIFACTS | REFERENCES | EVICTION | CHANNELS.

#[export] Instance column_family_eq_dec : EqDecision column_family.
Proof. solve_decision. Defined.

#[export] Instance column_family_countable : Countable column_family.
Proof.
  refine (inj_countable'
    (fun f => match f with META => 0 | ARTIFACTS => 1 | REFERENCES => 2 | EVICTION => 3 | CHANNELS => 4 end%nat)
    (fun n => match n with 0 => META | 1 => ARTIFACTS | 2 => REFERENCES | 3 => EVICTION | _ => CHANNELS end%nat) _).
  by intros [].
Defined.

Inductive batch_op :=
| PutCf (family : column_family) (key value : bytes)
| DeleteCf (family : column_family) (key : bytes)
| DeleteRangeCf (family : column_family) (from to : bytes).

(** What the store holds: the rows of every family. *)
Abbreviation rows := (gmap (column_family * bytes) bytes).

Definition apply_op (r : rows) (op : batch_op) : rows :=
  match op with
  | PutCf f k v => <[(f, k) := v]> r
  | DeleteCf f k => delete (f, k) r
  | DeleteRangeCf f lo hi =>
      filter (fun kv => ~ (kv.1.1 = f /\ bytes_le lo kv.1.2 /\ bytes_lt kv.1.2 hi)) r
  end.

Definition apply_batch (batch : list batch_op) (r : rows) : rows := fold_left apply_op batch r.

(** The rows of one family at or past [from], in key order: what a forward iterator visits. *)
Definition key_le (a b : bytes * bytes) : Prop := bytes_le a.1 b.1.
#[export] Instance key_le_dec a b : Decision (key_le a b).
Proof. unfold key_le. apply _. Defined.

Definition family_rows (f : column_family) (r : rows) : list (bytes * bytes) :=
  omap (fun kv => if decide (kv.1.1 = f) then Some (kv.1.2, kv.2) else None) (map_to_list r).

Definition scan (f : column_family) (from : bytes) (r : rows) : list (bytes * bytes) :=
  merge_sort key_le (filter (fun kv => bytes_le from kv.1) (family_rows f r)).

Class RocksDB (DB : Type) := {
  get_cf : column_family -> bytes -> DB -> result string (option bytes);
  (** [write_opt]; the flag is [WriteOptions::set_sync] *)
  write_opt : bool -> list batch_op -> DB -> result string unit * DB;
  (** a forward iterator from a key: the items it yields, and the error that ended it, if any *)
  iterator_cf : column_family -> bytes -> DB -> list (bytes * bytes) * option string;
  property_int_value : DB -> result string (option Z)
}.

Class RocksDBLaws (DB : Type) `{RocksDB DB} := {
  rows_of : DB -> rows;
  get_cf_ok f k db v : get_cf f k db = Ok v -> v = rows_of db !! (f, k);
  write_opt_ok sync b db db' :
    write_opt sync b db = (Ok tt, db') -> rows_of db' = apply_batch b (rows_of db);
  (** a batch is atomic: a failed write applied all of it or none of it *)
  write_opt_err sync b db e db' :
    write_opt sync b db = (Err e, db') ->
    rows_of db' = rows_of db \/ rows_of db' = apply_batch b (rows_of db);
  iterator_cf_ok f from db items :
    iterator_cf f from db = (items, None) -> items = scan f from (rows_of db);
  iterator_cf_err f from db items e :
    iterator_cf f from db = (items, Some e) -> items `prefix_of` scan f from (rows_of db)
}.
Arguments rows_of {DB _ _} db.

(** ** Lemmas *)

Lemma ulid_str_inj `{UlidLaws} u v : ulid_array_to_str u = ulid_array_to_str v -> u = v.
Proof. intros E. apply (f_equal ulid_from_string) in E. rewrite !ulid_from_to in E. congruence. Qed.

Lemma hex_encode_inj `{HexLaws} b b' : hex_encode b = hex_encode b' -> b = b'.
Proof. intros E. apply (f_equal hex_decode) in E. rewrite !hex_decode_any in E. congruence. Qed.

Lemma to_ascii_lowercase_id s :
  Forall (fun c => is_ascii_uppercase c = false) s -> to_ascii_lowercase s = s.
Proof.
  unfold to_ascii_lowercase. induction 1 as [|c s Hc _ IH]; cbn; [done|].
  unfold to_ascii_lowercase_byte at 1. by rewrite Hc, IH.
Qed.

Lemma to_ascii_lowercase_length s : length (to_ascii_lowercase s) = length s.
Proof. apply length_map. Qed.

(** *** Iteration *)

Lemma elem_of_family_rows f r k v : (k, v) ∈ family_rows f r <-> r !! (f, k) = Some v.
Proof.
  unfold family_rows. rewrite list_elem_of_omap. split.
  - intros ([[f' k'] v'] & Hin & Heq). apply elem_of_map_to_list in Hin. cbn in Heq.
    destruct (decide (f' = f)); by simplify_eq.
  - intros Hl. exists ((f, k), v). split; [by apply elem_of_map_to_list|]. cbn. by rewrite decide_True.
Qed.

Lemma NoDup_family_keys f r : NoDup (family_rows f r).*1.
Proof.
  unfold family_rows.
  assert (forall l : list (column_family * bytes * bytes), NoDup l.*1 ->
    NoDup (omap (fun kv => if decide (kv.1.1 = f) then Some (kv.1.2, kv.2) else None) l).*1) as H.
  { induction l as [|[[f' k] v] l IH]; cbn; [constructor|].
    rewrite NoDup_cons. intros [Hni Hnd]. destruct (decide (f' = f)) as [->|]; cbn; [|auto].
    apply NoDup_cons. split; [|auto]. intros Hin. apply Hni.
    apply list_elem_of_fmap in Hin as ([k' v'] & -> & Hin). apply list_elem_of_omap in Hin as ([[f2 k2] v2] & Hin & Heq).
    cbn in Heq. destruct (decide (f2 = f)); simplify_eq. cbn.
    apply list_elem_of_fmap. by exists ((f, k'), v'). }
  apply H, NoDup_fst_map_to_list.
Qed.

#[export] Instance key_le_trans : Transitive key_le.
Proof. intros a b c. unfold key_le. apply bytes_le_trans. Qed.
#[export] Instance key_le_total : Total key_le.
Proof. intros a b. unfold key_le. apply bytes_le_total. Qed.

Lemma elem_of_scan f from r k v :
  (k, v) ∈ scan f from r <-> r !! (f, k) = Some v /\ bytes_le from k.
Proof.
  unfold scan. rewrite merge_sort_Permutation, list_elem_of_filter, elem_of_family_rows. cbn. tauto.
Qed.

Lemma scan_sorted f from r : StronglySorted key_le (scan f from r).
Proof. apply StronglySorted_merge_sort; apply _. Qed.

Lemma scan_NoDup f from r : NoDup (scan f from r).*1.
Proof.
  unfold scan. rewrite merge_sort_Permutation.
  eapply sublist_NoDup; [apply NoDup_family_keys with (f := f) (r := r)|].
  apply fmap_sublist, sublist_filter.
Qed.
