(* ===== verification/Domain.v ===== *)
(** * Domain types

    The identities and records every component shares: [artifact/], [channel/identity.rs],
    [channel/policy.rs], [channel/registry.rs], [channel/token.rs], [reference.rs] and the types
    of [storage/metadata/mod.rs]. *)

From S2P Require Import Prelude Externals.

(** ** Artifact identity ([artifact/identity.rs]) *)

Record Digest := mkDigest { digest_array : bytes32 }.

Inductive IdentityError := UnsupportedAlgorithm | InvalidDigest.

Record ArtifactId := mkArtifactId { digest : Digest }.

Definition from_bytes (b : bytes32) : Digest := mkDigest b.
Definition as_bytes (d : Digest) : bytes := b32 (digest_array d).
Definition from_digest (d : Digest) : ArtifactId := mkArtifactId d.

Definition ALGORITHM : bytes := lit "sha256".

Section Identity.
Context `{HexLib}.

(** [Digest::parse]: uppercase is refused before the decoder, which would accept it. *)
Definition Digest_parse (value : bytes) : result IdentityError Digest :=
  if existsb is_ascii_uppercase value then Err InvalidDigest
  else match hex_decode_to_slice32 value with
       | Some b => Ok (mkDigest b)
       | None => Err InvalidDigest
       end.

(** [Display for Digest] *)
Definition Digest_to_string (d : Digest) : bytes := hex_encode (as_bytes d).

(** [ArtifactId::parse] *)
Definition ArtifactId_parse (algorithm digest : bytes) : result IdentityError ArtifactId :=
  if decide (algorithm = ALGORITHM) then
    match Digest_parse digest with
    | Ok d => Ok (mkArtifactId d)
    | Err e => Err e
    end
  else Err UnsupportedAlgorithm.

(** [Display for ArtifactId] *)
Definition ArtifactId_to_string (a : ArtifactId) : bytes :=
  ALGORITHM ++ lit ":" ++ Digest_to_string (digest a).
End Identity.

(** ** Artifact metadata ([artifact/metadata.rs]) *)

Inductive StoredEncoding := Identity | Zstd.

Record ArtifactMetadata := {
  content_len : Z;
  content_type : option bytes;
  created_at : Z;
  eligible_at : Z;
  stored_len : Z;
  encoding : StoredEncoding
}.

(** The fields are machine integers. *)
Definition metadata_wf (m : ArtifactMetadata) : Prop :=
  is_u64 (content_len m) /\ is_u64 (created_at m) /\ is_u64 (eligible_at m) /\ is_u64 (stored_len m).

Definition set_eligible_at (m : ArtifactMetadata) (t : Z) : ArtifactMetadata :=
  {| content_len := content_len m; content_type := content_type m; created_at := created_at m;
     eligible_at := t; stored_len := stored_len m; encoding := encoding m |}.

(** ** References ([reference.rs]) *)

Definition MAX_REFERENCE_LEN : nat := 512.

Definition is_ascii_alphanumeric (c : ascii) : bool :=
  let v := byte_value c in
  ((48 <=? v) && (v <=? 57)) || ((65 <=? v) && (v <=? 90)) || ((97 <=? v) && (v <=? 122)).

Definition is_reference_byte (c : ascii) : bool :=
  is_ascii_alphanumeric c
  || bool_decide (c = "-"%char) || bool_decide (c = "_"%char)
  || bool_decide (c = "."%char) || bool_decide (c = "~"%char).

Inductive ReferenceError := InvalidReference.

(** [Reference::is_valid] *)
Definition Reference_is_valid (value : bytes) : bool :=
  negb (Nat.eqb (length value) 0) && Nat.leb (length value) MAX_REFERENCE_LEN
  && forallb is_reference_byte value.

(** [Reference::parse]; the reference is the validated text. *)
Definition Reference_parse (value : bytes) : result ReferenceError bytes :=
  if Reference_is_valid value then Ok value else Err InvalidReference.

(** ** Channels ([channel/]) *)

Section Channels.
Context `{UL : UlidLib}.

Record ChannelId := mkChannelId { channel_ulid : Ulid }.

Inductive ChannelIdError := InvalidChannelId.

(** [ChannelId::DEFAULT] *)
Definition DEFAULT : ChannelId := mkChannelId ulid_nil.

(** [ChannelId::as_key]: the canonical text, which is also what [Display] writes. *)
Definition as_key (c : ChannelId) : bytes := ulid_array_to_str (channel_ulid c).

Definition ChannelId_to_string (c : ChannelId) : bytes := ulid_array_to_str (channel_ulid c).

(** [ChannelId::from_str] accepts only the canonical spelling. *)
Definition ChannelId_from_str (value : bytes) : result ChannelIdError ChannelId :=
  match ulid_from_string value with
  | None => Err InvalidChannelId
  | Some parsed =>
      let channel := mkChannelId parsed in
      if decide (ChannelId_to_string channel = value) then Ok channel else Err InvalidChannelId
  end.

#[export] Instance ChannelId_eq_dec : EqDecision ChannelId.
Proof. solve_decision. Defined.

#[export] Instance ChannelId_countable : Countable ChannelId.
Proof. refine (inj_countable' channel_ulid mkChannelId _). by intros []. Defined.

(** [TokenDigest] and [Access] *)
Record TokenDigest := mkTokenDigest { token_digest : bytes32 }.

Inductive Access := Open | Token (d : TokenDigest).

Definition is_protected (a : Access) : bool := match a with Token _ => true | Open => false end.

Inductive Lifecycle := Active | Deleting.

Record ChannelRecord := {
  channel_id : ChannelId;
  access : Access;
  expiry_seconds : Z;
  state : Lifecycle;
  channel_created_at : Z
}.

(** The two updates the code makes to a record: [record.state = ..] and
    [record.expiry_seconds = ..]. *)
Definition set_state (r : ChannelRecord) (s : Lifecycle) : ChannelRecord :=
  {| channel_id := channel_id r; access := access r; expiry_seconds := expiry_seconds r;
     state := s; channel_created_at := channel_created_at r |}.

Definition set_expiry (r : ChannelRecord) (e : Z) : ChannelRecord :=
  {| channel_id := channel_id r; access := access r; expiry_seconds := e;
     state := state r; channel_created_at := channel_created_at r |}.
End Channels.

Section Tokens.
Context `{Sha256Lib} `{Base64Lib}.

(** [ChannelToken::generate], from the 32 random bytes it draws. *)
Definition ChannelToken_generate (secret : bytes32) : bytes :=
  lit "flywheel_" ++ base64_url_encode (b32 secret).

(** [ChannelToken::digest] *)
Definition ChannelToken_digest (token : bytes) : TokenDigest := mkTokenDigest (sha256 token).

(** [TokenDigest::verify]; [ct_eq] is equality. *)
Definition verify (d : TokenDigest) (candidate : bytes) : bool :=
  bool_decide (token_digest d = sha256 candidate).
End Tokens.

(** ** Metadata store vocabulary ([storage/metadata/mod.rs]) *)

Record ReferenceRecord := {
  ref_artifact : ArtifactId;
  updated_at : Z;
  etag : option bytes;
  last_modified : option bytes
}.

Inductive Durability := Durable | BestEffort.

Record Candidate := { cand_eligible_at : Z; cand_artifact : ArtifactId }.

Inductive Evicted := Removed (stored_len : Z) | Stale.

(** ** Decidable equality *)

#[export] Instance Digest_eq_dec : EqDecision Digest.
Proof. solve_decision. Defined.
#[export] Instance Digest_countable : Countable Digest.
Proof. refine (inj_countable' digest_array mkDigest _). by intros []. Defined.
#[export] Instance ArtifactId_eq_dec : EqDecision ArtifactId.
Proof. solve_decision. Defined.
#[export] Instance ArtifactId_countable : Countable ArtifactId.
Proof. refine (inj_countable' digest mkArtifactId _). by intros []. Defined.
#[export] Instance StoredEncoding_eq_dec : EqDecision StoredEncoding.
Proof. solve_decision. Defined.
#[export] Instance ArtifactMetadata_eq_dec : EqDecision ArtifactMetadata.
Proof. solve_decision. Defined.
#[export] Instance Lifecycle_eq_dec : EqDecision Lifecycle.
Proof. solve_decision. Defined.
#[export] Instance TokenDigest_eq_dec : EqDecision TokenDigest.
Proof. solve_decision. Defined.
#[export] Instance Access_eq_dec : EqDecision Access.
Proof. solve_decision. Defined.
#[export] Instance ReferenceRecord_eq_dec : EqDecision ReferenceRecord.
Proof. solve_decision. Defined.
#[export] Instance Durability_eq_dec : EqDecision Durability.
Proof. solve_decision. Defined.

(** ** Lemmas *)

Lemma as_bytes_length d : length (as_bytes d) = 32%nat.
Proof. apply length_b32. Qed.

Lemma as_bytes_inj d e : as_bytes d = as_bytes e -> d = e.
Proof. destruct d, e. unfold as_bytes; cbn. intros ?. f_equal. by apply bytes32_eq. Qed.

Lemma existsb_uppercase_false s :
  existsb is_ascii_uppercase s = false <-> Forall (fun c => is_ascii_uppercase c = false) s.
Proof.
  induction s as [|c s IH]; cbn; [done|]. rewrite Forall_cons, orb_false_iff. tauto.
Qed.

Section IdentityLemmas.
Context `{HX : HexLaws}.

Lemma Digest_parse_to_string d : Digest_parse (Digest_to_string d) = Ok d.
Proof.
  unfold Digest_parse, Digest_to_string, as_bytes.
  rewrite (proj2 (existsb_uppercase_false _)) by apply hex_encode_lowercase.
  rewrite hex_decode_encode. by destruct d.
Qed.

Lemma Digest_parse_ok s d : Digest_parse s = Ok d -> Digest_to_string d = s.
Proof.
  unfold Digest_parse, Digest_to_string, as_bytes.
  destruct (existsb is_ascii_uppercase s) eqn:U; [done|].
  destruct (hex_decode_to_slice32 s) as [b|] eqn:D; [|done]. intros [= <-]; cbn.
  apply hex_encode_decode in D as ->. by apply to_ascii_lowercase_id, existsb_uppercase_false.
Qed.

Lemma Digest_to_string_length d : length (Digest_to_string d) = 64%nat.
Proof. unfold Digest_to_string. by rewrite hex_encode_length, as_bytes_length. Qed.
End IdentityLemmas.

Section ChannelLemmas.
Context `{UL : UlidLaws}.

Lemma as_key_length c : length (as_key c) = ULID_LEN.
Proof. apply ulid_str_length. Qed.

Lemma as_key_inj c d : as_key c = as_key d -> c = d.
Proof. destruct c, d. unfold as_key; cbn. intros ?. f_equal. by apply ulid_str_inj. Qed.

Lemma ChannelId_from_str_ok s c : ChannelId_from_str s = Ok c <-> ChannelId_to_string c = s.
Proof.
  unfold ChannelId_from_str, ChannelId_to_string. split.
  - destruct (ulid_from_string s) as [u|]; [|done]. case_decide; [|done]. by intros [= <-].
  - intros <-. rewrite ulid_from_to. destruct c; cbn. by rewrite decide_True.
Qed.
End ChannelLemmas.
