(* ===== verification/Records.v ===== *)
(** * Durable records ([storage/records.rs])

    A record is one schema-version byte followed by its postcard payload. *)

From S2P Require Import Prelude Externals.

Definition SCHEMA_VERSION : ascii := ascii_of_N 1.

Inductive RecordError :=
| Empty
| UnsupportedVersion (version : ascii)
| Encode (message : string)
| Decode (message : string).

Section Records.
Context {T : Type} `{PC : Postcard T}.

Definition encode_record (value : T) : result RecordError bytes :=
  match postcard_to_stdvec value with
  | Err e => Err (Encode e)
  | Ok payload => Ok (SCHEMA_VERSION :: payload)
  end.

Definition decode_record (b : bytes) : result RecordError T :=
  match b with
  | [] => Err Empty
  | version :: payload =>
      if decide (version = SCHEMA_VERSION) then map_err Decode (postcard_from_bytes payload)
      else Err (UnsupportedVersion version)
  end.

(** A stored record reads back as the value written. *)
Lemma decode_encode_record `{!PostcardLaws T} v b : encode_record v = Ok b -> decode_record b = Ok v.
Proof.
  unfold encode_record, decode_record. destruct (postcard_to_stdvec v) as [p|e] eqn:E; [|done].
  intros [= <-]. rewrite decide_True by done. by rewrite (postcard_roundtrip _ _ E).
Qed.
End Records.
