(* ===== verification/Concrete.v ===== *)
(** * Concrete instances of the external interfaces

    Every law class of [Externals.v] is inhabited: this file gives one instance of each, small
    enough to evaluate, on which the theorems of the development are applied to concrete inputs.
    [hex] is the real codec; the identifiers, the digest, the frame and the record codec are
    simple functions with the documented properties.  None of them is an [Instance] by default:
    a section that evaluates declares the ones it uses. *)

From S2P Require Import Prelude Externals Domain Records.

(** ** [ulid]: 26 characters of the alphabet *)

Definition is_crockford_b (c : ascii) : bool :=
  ((48 <=? byte_value c) && (byte_value c <=? 57)) || ((65 <=? byte_value c) && (byte_value c <=? 90)).

Definition valid_ulid (s : bytes) : bool := Nat.eqb (length s) ULID_LEN && forallb is_crockford_b s.

Record ToyUlid := mkToyUlid { toy_text : bytes; toy_valid : valid_ulid toy_text = true }.

Definition toy_parse (s : bytes) : option ToyUlid :=
  match decide (valid_ulid s = true) with
  | left H => Some (mkToyUlid s H)
  | right _ => None
  end.

Lemma ToyUlid_eq (a b : ToyUlid) : toy_text a = toy_text b -> a = b.
Proof. destruct a as [a Ha], b as [b Hb]; cbn. intros ->. f_equal. apply proof_irrel. Qed.

Lemma toy_parse_text u : toy_parse (toy_text u) = Some u.
Proof.
  destruct u as [s H]. unfold toy_parse; cbn. destruct (decide _) as [H'|]; [|done].
  f_equal. by apply ToyUlid_eq.
Qed.

#[export] Instance ToyUlid_eq_dec : EqDecision ToyUlid.
Proof.
  intros a b. destruct (decide (toy_text a = toy_text b)) as [H|H].
  - left. by apply ToyUlid_eq.
  - right. by intros ->.
Defined.
#[export] Instance ToyUlid_countable : Countable ToyUlid.
Proof. apply (inj_countable toy_text toy_parse), toy_parse_text. Defined.

Definition toy_nil : ToyUlid := mkToyUlid (lit "00000000000000000000000000") eq_refl.

Definition toy_ulid : UlidLib := {|
  Ulid := ToyUlid; ulid_nil := toy_nil; ulid_array_to_str := toy_text; ulid_from_string := toy_parse |}.

Lemma toy_ulid_laws : @UlidLaws toy_ulid.
Proof.
  split; cbn.
  - intros [s Hs]. cbn. pose proof Hs as [H _]%andb_prop. by apply Nat.eqb_eq.
  - intros [s Hs]. cbn. pose proof Hs as [_ H]%andb_prop. apply Forall_forall. intros c Hc.
    rewrite List.forallb_forall in H. specialize (H c). rewrite <- list_elem_of_In in H.
    specialize (H Hc). unfold is_crockford_b in H. unfold is_crockford.
    apply orb_prop in H as [H|H]; apply andb_prop in H as [H1 H2]; zify_bool; lia.
  - apply toy_parse_text.
Qed.

(** ** [sha2]: the first 32 bytes, padded *)

Lemma pad_length b : Nat.eqb (length (take 32 (b ++ replicate 32 "000"%char))) 32 = true.
Proof. apply Nat.eqb_eq. rewrite length_take, length_app, length_replicate. lia. Qed.

(** The proof of a true boolean, in its canonical form, so that values compare by evaluation. *)
Definition canonical {b : bool} : b = true -> b = true :=
  match b with true => fun _ => eq_refl | false => fun H => H end.

Definition toy_sha256 : Sha256Lib := {| sha256 := fun b => Bytes32 _ (canonical (pad_length b)) |}.

(** ** [hex] *)

Definition nibble_char (n : N) : ascii :=
  if N.ltb n 10 then ascii_of_N (48 + n) else ascii_of_N (87 + n).

Definition char_nibble (c : ascii) : option N :=
  let v := N_of_ascii c in
  if N.leb 48 v && N.leb v 57 then Some (v - 48)%N
  else if N.leb 97 v && N.leb v 102 then Some (v - 87)%N
  else if N.leb 65 v && N.leb v 70 then Some (v - 55)%N
  else None.

Fixpoint real_hex_encode (b : bytes) : bytes :=
  match b with
  | [] => []
  | c :: b => nibble_char (N_of_ascii c / 16) :: nibble_char (N_of_ascii c mod 16) :: real_hex_encode b
  end.

Definition hex_pair (x y : ascii) : option ascii :=
  match char_nibble x, char_nibble y with
  | Some h, Some l => Some (ascii_of_N (h * 16 + l))
  | _, _ => None
  end.

Fixpoint real_hex_decode (s : bytes) : option bytes :=
  match s with
  | [] => Some []
  | [_] => None
  | x :: y :: s =>
      match hex_pair x y, real_hex_decode s with
      | Some c, Some b => Some (c :: b)
      | _, _ => None
      end
  end.

Definition real_hex : HexLib := {|
  hex_encode := real_hex_encode;
  hex_decode_to_slice32 := fun s => b ← real_hex_decode s; to_bytes32 b;
  hex_decode := real_hex_decode
|}.

Lemma hex_pair_encode c : hex_pair (nibble_char (N_of_ascii c / 16)) (nibble_char (N_of_ascii c mod 16)) = Some c.
Proof. by destruct c as [[] [] [] [] [] [] [] []]. Qed.

Lemma nibble_lower c :
  is_ascii_uppercase (nibble_char (N_of_ascii c / 16)) = false
  /\ is_ascii_uppercase (nibble_char (N_of_ascii c mod 16)) = false.
Proof. by destruct c as [[] [] [] [] [] [] [] []]. Qed.

Lemma char_nibble_lower x n :
  char_nibble x = Some n -> (n < 16)%N /\ nibble_char n = to_ascii_lowercase_byte x.
Proof. destruct x as [[] [] [] [] [] [] [] []]; cbv; intros [= <-]; done. Qed.

Lemma hex_pair_lower x y c :
  hex_pair x y = Some c ->
  nibble_char (N_of_ascii c / 16) = to_ascii_lowercase_byte x
  /\ nibble_char (N_of_ascii c mod 16) = to_ascii_lowercase_byte y.
Proof.
  unfold hex_pair. destruct (char_nibble x) as [h|] eqn:Hx; [|done].
  destruct (char_nibble y) as [l|] eqn:Hy; [|done]. intros [= <-].
  apply char_nibble_lower in Hx as [Hh <-], Hy as [Hl <-].
  rewrite N_ascii_embedding by lia.
  split; f_equal.
  - symmetry. apply (N.div_unique _ _ _ l); lia.
  - symmetry. apply (N.mod_unique _ _ h l); lia.
Qed.

Lemma nibble_digits c :
  is_hex_digit (nibble_char (N_of_ascii c / 16)) = true /\ is_hex_digit (nibble_char (N_of_ascii c mod 16)) = true.
Proof. by destruct c as [[] [] [] [] [] [] [] []]. Qed.

Lemma real_hex_decode_encode b : real_hex_decode (real_hex_encode b) = Some b.
Proof.
  induction b as [|c b IH]; [done|]. cbn [real_hex_encode real_hex_decode]. by rewrite hex_pair_encode, IH.
Qed.

Lemma real_hex_encode_decode s b : real_hex_decode s = Some b -> real_hex_encode b = to_ascii_lowercase s.
Proof.
  assert (forall n (s b : bytes), (length s <= n)%nat -> real_hex_decode s = Some b ->
            real_hex_encode b = to_ascii_lowercase s) as H; [|by apply (H (length s))].
  clear s b. induction n as [|n IH]; intros [|x [|y s]] b Hn Hs; cbn in *; simplify_eq; try done; try lia.
  destruct (hex_pair x y) as [c|] eqn:Hp; [|done].
  destruct (real_hex_decode s) as [b'|] eqn:Hd; [|done]. simplify_eq. cbn.
  apply hex_pair_lower in Hp as [-> ->]. f_equal. f_equal. apply IH; [lia|done].
Qed.

Lemma real_hex_laws : @HexLaws real_hex.
Proof.
  split; cbn.
  - induction b as [|c b IH]; cbn; [done|]. rewrite IH. lia.
  - induction b as [|c b IH]; cbn; [done|]. destruct (nibble_lower c). by repeat constructor.
  - intros d. rewrite real_hex_decode_encode. cbn. apply to_bytes32_b32.
  - intros s d. destruct (real_hex_decode s) as [b|] eqn:Hs; [|done]. cbn.
    intros ->%to_bytes32_Some. by apply real_hex_encode_decode.
  - induction b as [|c b IH]; cbn; [done|]. destruct (nibble_digits c). by repeat constructor.
  - apply real_hex_decode_encode.
  - apply real_hex_encode_decode.
Qed.

(** ** [async-compression]: a one-byte frame header *)

Definition toy_zstd : ZstdLib := {|
  zstd_frame := fun chunks => "Z"%char :: concat chunks;
  zstd_decode := fun b => match b with c :: b => if decide (c = "Z"%char) then Some b else None | [] => None end
|}.

Lemma toy_zstd_laws : @ZstdLaws toy_zstd.
Proof. split. intros chunks. cbn. done. Qed.

(** ** [base64] *)

Definition toy_base64 : Base64Lib := {|
  base64_url_encode := real_hex_encode; base64_url_decode := real_hex_decode;
  base64_std_decode := real_hex_decode |}.

(** ** [DefaultHasher] *)

Definition toy_hasher : @DefaultHasherLib toy_ulid := {|
  default_hash := fun u d => be_value (take 8 (b32 d)) |}.

Lemma toy_hasher_laws : @DefaultHasherLaws _ toy_hasher.
Proof.
  split. intros u d. cbn. pose proof (be_value_range (take 8 (b32 d))) as H.
  rewrite length_take, length_b32 in H. change (256 ^ Z.of_nat (8 `min` 32)) with (2 ^ 64) in H.
  unfold is_u64, u64_max. lia.
Qed.

(** ** [postcard]: the value's number, in binary *)

Fixpoint positive_bytes (p : positive) : bytes :=
  match p with
  | xH => []
  | xO p => "0"%char :: positive_bytes p
  | xI p => "1"%char :: positive_bytes p
  end.

Fixpoint bytes_positive (b : bytes) : option positive :=
  match b with
  | [] => Some xH
  | c :: b =>
      match bytes_positive b with
      | None => None
      | Some p => if decide (c = "0"%char) then Some (xO p)
                  else if decide (c = "1"%char) then Some (xI p) else None
      end
  end.

Lemma bytes_positive_bytes p : bytes_positive (positive_bytes p) = Some p.
Proof. induction p as [p IH|p IH|]; cbn; rewrite ?IH; done. Qed.

Definition toy_postcard (T : Type) `{Countable T} : Postcard T := {|
  postcard_to_stdvec := fun v => Ok (positive_bytes (encode v));
  postcard_from_bytes := fun b =>
    match bytes_positive b ≫= decode with
    | Some v => Ok v
    | None => Err "malformed"%string
    end
|}.

Lemma toy_postcard_laws T `{Countable T} : @PostcardLaws T (toy_postcard T).
Proof. split. intros v b [= <-]. cbn. rewrite bytes_positive_bytes. cbn. by rewrite decode_encode. Qed.

#[export] Instance StoredEncoding_countable : Countable StoredEncoding.
Proof.
  refine (inj_countable' (fun e => match e with Identity => true | Zstd => false end)
            (fun b => if b then Identity else Zstd) _). by intros [].
Defined.
#[export] Instance ArtifactMetadata_countable : Countable ArtifactMetadata.
Proof.
  refine (inj_countable'
    (fun m => (content_len m, content_type m, created_at m, eligible_at m, stored_len m, encoding m))
    (fun t => let '(a, b, c, d, e, f) := t in
       {| content_len := a; content_type := b; created_at := c; eligible_at := d; stored_len := e; encoding := f |}) _).
  by intros [].
Defined.
#[export] Instance ReferenceRecord_countable : Countable ReferenceRecord.
Proof.
  refine (inj_countable' (fun r => (ref_artifact r, updated_at r, etag r, last_modified r))
    (fun t => let '(a, b, c, d) := t in
       {| ref_artifact := a; updated_at := b; etag := c; last_modified := d |}) _).
  by intros [].
Defined.
#[export] Instance TokenDigest_countable : Countable TokenDigest.
Proof. refine (inj_countable' token_digest mkTokenDigest _). by intros []. Defined.
#[export] Instance Access_countable : Countable Access.
Proof.
  refine (inj_countable' (fun a => match a with Open => None | Token d => Some d end)
    (fun o => match o with None => Open | Some d => Token d end) _). by intros [].
Defined.
#[export] Instance Lifecycle_countable : Countable Lifecycle.
Proof.
  refine (inj_countable' (fun s => match s with Active => true | Deleting => false end)
            (fun b => if b then Active else Deleting) _). by intros [].
Defined.
#[export] Instance ChannelRecord_eq_dec `{UlidLib} : EqDecision ChannelRecord.
Proof. solve_decision. Defined.
#[export] Instance ChannelRecord_countable `{UlidLib} : Countable ChannelRecord.
Proof.
  refine (inj_countable'
    (fun r => (channel_id r, access r, expiry_seconds r, state r, channel_created_at r))
    (fun t => let '(a, b, c, d, e) := t in
       {| channel_id := a; access := b; expiry_seconds := c; state := d; channel_created_at := e |}) _).
  by intros [].
Defined.

(** ** [rocksdb]: rows in memory, with a script of write faults *)

(** How the next writes end: success, or a failure that did or did not apply. *)
Record MemDB := { mem_rows : rows; mem_faults : list (option bool) }.

Definition mem_write (b : list batch_op) (db : MemDB) : result string unit * MemDB :=
  match mem_faults db with
  | [] => (Ok tt, {| mem_rows := apply_batch b (mem_rows db); mem_faults := [] |})
  | None :: fs => (Ok tt, {| mem_rows := apply_batch b (mem_rows db); mem_faults := fs |})
  | Some applied :: fs =>
      (Err "io error"%string,
       {| mem_rows := if applied then apply_batch b (mem_rows db) else mem_rows db; mem_faults := fs |})
  end.

Definition mem_rocksdb : RocksDB MemDB := {|
  get_cf := fun f k db => Ok (mem_rows db !! (f, k));
  write_opt := fun _ => mem_write;
  iterator_cf := fun f from db => (scan f from (mem_rows db), None);
  property_int_value := fun db => Ok (Some 0)
|}.

Definition mem_rocksdb_laws : @RocksDBLaws MemDB mem_rocksdb.
Proof.
  refine (@Build_RocksDBLaws MemDB mem_rocksdb mem_rows _ _ _ _ _); cbn.
  - by intros f k db v [= <-].
  - intros _ b [r [|[x|] fs]] db'; unfold mem_write; cbn; by intros [= <-].
  - intros _ b [r [|[x|] fs]] e db'; unfold mem_write; cbn; intros [= <- <-]; cbn.
    destruct x; auto.
  - by intros f from db items [= <-].
  - by intros f from db items e [=].
Defined.

Definition empty_db : MemDB := {| mem_rows := ∅; mem_faults := [] |}.

(** Sample identities for the concrete runs. *)
Definition channel_a : @ChannelId toy_ulid :=
  @mkChannelId toy_ulid (mkToyUlid (lit "01AAAAAAAAAAAAAAAAAAAAAAAA") eq_refl).
Definition channel_b : @ChannelId toy_ulid :=
  @mkChannelId toy_ulid (mkToyUlid (lit "01BBBBBBBBBBBBBBBBBBBBBBBB") eq_refl).

Lemma channels_differ : channel_b ≠ channel_a.
Proof. apply (bool_decide_eq_false_1 (channel_b = channel_a)). vm_compute. reflexivity. Qed.

Definition sample_artifact (content : string) : ArtifactId :=
  mkArtifactId (mkDigest (@sha256 toy_sha256 (lit content))).
