(* ===== verification/Metadata.v ===== *)
(** * The metadata store ([storage/metadata/rocksdb.rs])

    [RocksMetadata] on an arbitrary RocksDB: its key encodings and every operation, one definition
    per method. *)

From S2P Require Import Prelude Externals Domain Records.

Inductive MetadataError :=
| Store (message : string)
| IncompatibleStore (recorded : bytes)
| AlreadyExists
| RecordFailure (e : RecordError).

Definition STORE_FORMAT_KEY : bytes := lit "store-format".
Definition STORE_FORMAT : bytes := lit "flywheel-channel-cache-v1".

(** ** Keys *)

Section Keys.
Context `{UL : UlidLib}.

Definition artifact_key (channel : ChannelId) (artifact : ArtifactId) : bytes :=
  as_key channel ++ as_bytes (digest artifact).

Definition reference_key (channel : ChannelId) (reference : bytes) : bytes :=
  as_key channel ++ reference.

Definition eviction_key (channel : ChannelId) (eligible_at : Z) (artifact : ArtifactId) : bytes :=
  as_key channel ++ be_bytes 8 eligible_at ++ as_bytes (digest artifact).

Definition DEADLINE_AT : nat := ULID_LEN.
Definition DIGEST_AT : nat := DEADLINE_AT + 8.

(** Splits a queue key; only the whole-key length is checked. *)
Definition decode_eviction_key (key : bytes) : result MetadataError (Z * ArtifactId) :=
  if Nat.eqb (length key) (DIGEST_AT + 32) then
    match to_bytes32 (drop DIGEST_AT key) with
    | Some d => Ok (be_value (take 8 (drop DEADLINE_AT key)), from_digest (from_bytes d))
    | None => Err (Store "invalid eviction key")
    end
  else Err (Store "invalid eviction key").

(** [prefix[25] += 1] on a [u8]. *)
Fixpoint prefix_end (prefix : bytes) : bytes :=
  match prefix with
  | [] => []
  | [c] => [ascii_of_N ((N_of_ascii c + 1) mod 256)]
  | c :: rest => c :: prefix_end rest
  end.
End Keys.

(** ** Operations *)

Section Operations.
Context `{UL : UlidLib} {DB : Type} `{RK : RocksDB DB}.
Context `{PA : Postcard ArtifactMetadata} `{PR : Postcard ReferenceRecord}
  `{PC : Postcard ChannelRecord}.

Definition read (f : column_family) (key : bytes) : M DB MetadataError (option bytes) := fun db =>
  (map_err Store (get_cf f key db), db).

Definition write_sync (batch : list batch_op) : M DB MetadataError unit := fun db =>
  let '(r, db') := write_opt true batch db in (map_err Store r, db').

(** [database.write]: no fsync *)
Definition write_plain (batch : list batch_op) : M DB MetadataError unit := fun db =>
  let '(r, db') := write_opt false batch db in (map_err Store r, db').

Definition write (batch : list batch_op) (durability : Durability) : M DB MetadataError unit :=
  match durability with
  | Durable => write_sync batch
  | BestEffort => write_plain batch
  end.

(** [encode_record(..)?] and [.map(decode_record).transpose()] *)
Definition encoded {T} `{Postcard T} (v : T) : M DB MetadataError bytes :=
  lift (map_err RecordFailure (encode_record v)).

Definition decoded {T} `{Postcard T} (b : bytes) : M DB MetadataError T :=
  lift (map_err RecordFailure (decode_record b)).

Definition decode_opt {T} `{Postcard T} (o : option bytes) : M DB MetadataError (option T) :=
  match o with
  | None => mret None
  | Some b => v ← decoded b; mret (Some v)
  end.

Definition verify_store_format : M DB MetadataError unit :=
  recorded ← read META STORE_FORMAT_KEY;
  match recorded with
  | Some recorded =>
      if decide (recorded = STORE_FORMAT) then mret tt else throw (IncompatibleStore recorded)
  | None => write_sync [PutCf META STORE_FORMAT_KEY STORE_FORMAT]
  end.

Definition health : M DB MetadataError unit := fun db =>
  match property_int_value db with
  | Ok _ => (Ok tt, db)
  | Err e => (Err (Store e), db)
  end.

Definition commit_publication (channel : ChannelId) (artifact : ArtifactId)
    (metadata : ArtifactMetadata) (reference : option (bytes * ReferenceRecord))
    (durability : Durability) : M DB MetadataError bool :=
  let key := artifact_key channel artifact in
  found ← read ARTIFACTS key;
  let exists_ := bool_decide (is_Some found) in
  published ← (if exists_ then mret [] else
    record ← encoded metadata;
    mret [PutCf ARTIFACTS key record;
          PutCf EVICTION (eviction_key channel (eligible_at metadata) artifact) []]);
  bound ← (match reference with
           | None => mret []
           | Some (name, record) =>
               record ← encoded record; mret [PutCf REFERENCES (reference_key channel name) record]
           end);
  _ ← write (published ++ bound) durability;
  mret (negb exists_).

Definition artifact (channel : ChannelId) (artifact : ArtifactId)
    : M DB MetadataError (option ArtifactMetadata) :=
  found ← read ARTIFACTS (artifact_key channel artifact); decode_opt found.

Definition remove_artifact (channel : ChannelId) (artifact : ArtifactId)
    : M DB MetadataError unit :=
  let key := artifact_key channel artifact in
  found ← read ARTIFACTS key;
  queue_row ← (match found with
               | None => mret []
               | Some b =>
                   metadata ← (decoded b : M DB MetadataError ArtifactMetadata);
                   mret [DeleteCf EVICTION (eviction_key channel (eligible_at metadata) artifact)]
               end);
  write_plain (queue_row ++ [DeleteCf ARTIFACTS key]).

Definition bind_reference (channel : ChannelId) (reference : bytes) (record : ReferenceRecord)
    (durability : Durability) : M DB MetadataError unit :=
  record ← encoded record;
  write [PutCf REFERENCES (reference_key channel reference) record] durability.

Definition reference (channel : ChannelId) (reference : bytes)
    : M DB MetadataError (option ReferenceRecord) :=
  found ← read REFERENCES (reference_key channel reference); decode_opt found.

Definition delete_reference (channel : ChannelId) (reference : bytes) : M DB MetadataError unit :=
  write_sync [DeleteCf REFERENCES (reference_key channel reference)].

(** The loop of [reclaim_candidates] over what the iterator yields. *)
Fixpoint collect_candidates (prefix : bytes) (limit : nat) (items : list (bytes * bytes))
    (failure : option string) (found : nat) : result MetadataError (list Candidate) :=
  match items with
  | [] => match failure with Some e => Err (Store e) | None => Ok [] end
  | (key, _) :: items =>
      if negb (starts_with prefix key) || Nat.leb limit found then Ok []
      else match decode_eviction_key key with
           | Err e => Err e
           | Ok (eligible_at, artifact) =>
               match collect_candidates prefix limit items failure (S found) with
               | Err e => Err e
               | Ok rest =>
                   Ok ({| cand_eligible_at := eligible_at; cand_artifact := artifact |} :: rest)
               end
           end
  end.

Definition reclaim_candidates (channel : ChannelId) (limit : nat)
    : M DB MetadataError (list Candidate) := fun db =>
  let '(items, failure) := iterator_cf EVICTION (as_key channel) db in
  (collect_candidates (as_key channel) limit items failure 0, db).

Definition requeue (channel : ChannelId) (artifact : ArtifactId)
    (old_eligible_at new_eligible_at : Z) : M DB MetadataError unit :=
  let key := artifact_key channel artifact in
  found ← read ARTIFACTS key;
  match found with
  | None => mret tt
  | Some b =>
      metadata ← (decoded b : M DB MetadataError ArtifactMetadata);
      if negb (eligible_at metadata =? old_eligible_at) then mret tt
      else
        record ← encoded (set_eligible_at metadata new_eligible_at);
        write_plain [DeleteCf EVICTION (eviction_key channel old_eligible_at artifact);
                     PutCf EVICTION (eviction_key channel new_eligible_at artifact) [];
                     PutCf ARTIFACTS key record]
  end.

Definition evict (channel : ChannelId) (artifact : ArtifactId) (eligible_at_ : Z)
    : M DB MetadataError Evicted :=
  let key := artifact_key channel artifact in
  let queue_row := DeleteCf EVICTION (eviction_key channel eligible_at_ artifact) in
  found ← read ARTIFACTS key;
  '(batch, outcome) ← (match found with
    | Some b =>
        metadata ← (decoded b : M DB MetadataError ArtifactMetadata);
        if negb (eligible_at metadata =? eligible_at_) then mret ([queue_row], Stale)
        else mret ([DeleteCf ARTIFACTS key; queue_row], Removed (stored_len metadata))
    | None => mret ([queue_row], Stale)
    end);
  _ ← write_plain batch;
  mret outcome.

Definition create_channel (record : ChannelRecord) : M DB MetadataError unit :=
  let key := as_key (channel_id record) in
  found ← read CHANNELS key;
  match found with
  | Some _ => throw AlreadyExists
  | None => b ← encoded record; write_sync [PutCf CHANNELS key b]
  end.

Definition channel (id : ChannelId) : M DB MetadataError (option ChannelRecord) :=
  found ← read CHANNELS (as_key id); decode_opt found.

Definition store_channel (record : ChannelRecord) : M DB MetadataError unit :=
  b ← encoded record; write_sync [PutCf CHANNELS (as_key (channel_id record)) b].

(** [collect] stops at the first error the iterator or the decoder reports. *)
Fixpoint collect_channels (items : list (bytes * bytes)) (failure : option string)
    : result MetadataError (list ChannelRecord) :=
  match items with
  | [] => match failure with Some e => Err (Store e) | None => Ok [] end
  | (_, b) :: items =>
      match decode_record b with
      | Err e => Err (RecordFailure e)
      | Ok r => match collect_channels items failure with
                | Err e => Err e
                | Ok rest => Ok (r :: rest)
                end
      end
  end.

(** [IteratorMode::Start] is the iterator from the empty key. *)
Definition channels : M DB MetadataError (list ChannelRecord) := fun db =>
  let '(items, failure) := iterator_cf CHANNELS [] db in (collect_channels items failure, db).

Definition delete_channel_data (id : ChannelId) : M DB MetadataError unit :=
  let prefix := as_key id in
  let end_ := prefix_end prefix in
  write_sync (map (fun name => DeleteRangeCf name prefix end_) [ARTIFACTS; REFERENCES; EVICTION]).

Definition finish_channel_deletion (id : ChannelId) : M DB MetadataError unit :=
  write_sync [DeleteCf CHANNELS (as_key id)].
End Operations.
