(* ===== verification/MetadataView.v ===== *)
(** * The typed view of the metadata store

    What [RocksMetadata] promises its clients: four typed collections (channels, artifacts,
    references, eviction queue) and one atomic transition per operation.  [represents] says which
    rows stand for a view, [refines] that an operation implements a transition, faults included. *)

From S2P Require Import Prelude Externals Domain Records Metadata.

Section View.
Context `{UL : UlidLib}.

Record MetaView := {
  mv_channels : gmap ChannelId ChannelRecord;
  mv_artifacts : gmap (ChannelId * ArtifactId) ArtifactMetadata;
  mv_references : gmap (ChannelId * bytes) ReferenceRecord;
  mv_queue : gset (ChannelId * Z * ArtifactId)
}.

Definition empty_view : MetaView := {|
  mv_channels := ∅; mv_artifacts := ∅; mv_references := ∅; mv_queue := ∅ |}.

(** ** Transitions *)

Definition with_channels f (v : MetaView) : MetaView := {|
  mv_channels := f (mv_channels v); mv_artifacts := mv_artifacts v;
  mv_references := mv_references v; mv_queue := mv_queue v |}.
Definition with_artifacts f (v : MetaView) : MetaView := {|
  mv_channels := mv_channels v; mv_artifacts := f (mv_artifacts v);
  mv_references := mv_references v; mv_queue := mv_queue v |}.
Definition with_references f (v : MetaView) : MetaView := {|
  mv_channels := mv_channels v; mv_artifacts := mv_artifacts v;
  mv_references := f (mv_references v); mv_queue := mv_queue v |}.
Definition with_queue f (v : MetaView) : MetaView := {|
  mv_channels := mv_channels v; mv_artifacts := mv_artifacts v;
  mv_references := mv_references v; mv_queue := f (mv_queue v) |}.

(** A transition answers and moves the view. *)
Definition transition A : Type := MetaView -> result MetadataError A * MetaView.

Definition v_put_artifact c a m (v : MetaView) : MetaView :=
  with_queue (fun q => {[ (c, eligible_at m, a) ]} ∪ q) (with_artifacts <[(c, a) := m]> v).

Definition v_bind c (reference : option (bytes * ReferenceRecord)) (v : MetaView) : MetaView :=
  match reference with
  | None => v
  | Some (name, record) => with_references <[(c, name) := record]> v
  end.

(** An identity is created at most once; publishing it again only rebinds the reference. *)
Definition v_commit_publication c a m reference : transition bool := fun v =>
  match mv_artifacts v !! (c, a) with
  | Some _ => (Ok false, v_bind c reference v)
  | None => (Ok true, v_bind c reference (v_put_artifact c a m v))
  end.

Definition v_artifact c a : transition (option ArtifactMetadata) := fun v =>
  (Ok (mv_artifacts v !! (c, a)), v).

Definition v_drop_row c t a (v : MetaView) : MetaView := with_queue (fun q => q ∖ {[ (c, t, a) ]}) v.

Definition v_remove_artifact c a : transition unit := fun v =>
  match mv_artifacts v !! (c, a) with
  | None => (Ok tt, v)
  | Some m => (Ok tt, with_artifacts (delete (c, a)) (v_drop_row c (eligible_at m) a v))
  end.

Definition v_bind_reference c name record : transition unit := fun v =>
  (Ok tt, with_references <[(c, name) := record]> v).

Definition v_reference c name : transition (option ReferenceRecord) := fun v =>
  (Ok (mv_references v !! (c, name)), v).

Definition v_delete_reference c name : transition unit := fun v =>
  (Ok tt, with_references (delete (c, name)) v).

(** The queue of one channel, oldest deadline first, equal deadlines by digest. *)
Definition cand_le (x y : Candidate) : Prop :=
  cand_eligible_at x < cand_eligible_at y
  \/ (cand_eligible_at x = cand_eligible_at y
      /\ bytes_le (as_bytes (digest (cand_artifact x))) (as_bytes (digest (cand_artifact y)))).

#[export] Instance cand_le_dec x y : Decision (cand_le x y).
Proof. unfold cand_le. apply _. Defined.

Definition queue_of (c : ChannelId) (v : MetaView) : list Candidate :=
  omap (fun row => if decide (row.1.1 = c)
                   then Some {| cand_eligible_at := row.1.2; cand_artifact := row.2 |}
                   else None) (elements (mv_queue v)).

Definition oldest (c : ChannelId) (v : MetaView) : list Candidate :=
  merge_sort cand_le (queue_of c v).

Definition v_reclaim_candidates c limit : transition (list Candidate) := fun v =>
  (Ok (take limit (oldest c v)), v).

Definition v_requeue c a old new : transition unit := fun v =>
  match mv_artifacts v !! (c, a) with
  | None => (Ok tt, v)
  | Some m =>
      if eligible_at m =? old
      then (Ok tt, v_put_artifact c a (set_eligible_at m new) (v_drop_row c old a v))
      else (Ok tt, v)
  end.

Definition v_evict c a t : transition Evicted := fun v =>
  match mv_artifacts v !! (c, a) with
  | Some m =>
      if eligible_at m =? t
      then (Ok (Removed (stored_len m)), v_drop_row c t a (with_artifacts (delete (c, a)) v))
      else (Ok Stale, v_drop_row c t a v)
  | None => (Ok Stale, v_drop_row c t a v)
  end.

Definition v_create_channel record : transition unit := fun v =>
  match mv_channels v !! channel_id record with
  | Some _ => (Err AlreadyExists, v)
  | None => (Ok tt, with_channels <[channel_id record := record]> v)
  end.

Definition v_channel c : transition (option ChannelRecord) := fun v => (Ok (mv_channels v !! c), v).

Definition v_store_channel record : transition unit := fun v =>
  (Ok tt, with_channels <[channel_id record := record]> v).

Definition chan_le (x y : ChannelRecord) : Prop :=
  bytes_le (as_key (channel_id x)) (as_key (channel_id y)).

#[export] Instance chan_le_dec x y : Decision (chan_le x y).
Proof. unfold chan_le. apply _. Defined.

(** Channels are visited in the order of their identifiers. *)
Definition registry (v : MetaView) : list ChannelRecord :=
  merge_sort chan_le (map_to_list (mv_channels v)).*2.

Definition v_channels : transition (list ChannelRecord) := fun v => (Ok (registry v), v).

(** Everything stored under a channel, its record apart. *)
Definition wipe (c : ChannelId) (v : MetaView) : MetaView := {|
  mv_channels := mv_channels v;
  mv_artifacts := filter (fun kv => kv.1.1 ≠ c) (mv_artifacts v);
  mv_references := filter (fun kv => kv.1.1 ≠ c) (mv_references v);
  mv_queue := filter (fun row => row.1.1 ≠ c) (mv_queue v)
|}.

Definition v_delete_channel_data c : transition unit := fun v => (Ok tt, wipe c v).

Definition v_finish_channel_deletion c : transition unit := fun v =>
  (Ok tt, with_channels (delete c) v).
End View.

(** ** Implementing a transition *)

(** Errors the environment causes: an I/O error of the store, or a value postcard refuses. *)
Definition fault (e : MetadataError) : Prop :=
  (exists s, e = Store s) \/ (exists s, e = RecordFailure (Encode s)).

(** Under the representation [R], the operation implements the transition; on a fault it has
    happened completely or not at all. *)
Definition implements `{UL : UlidLib} {S A} (R : MetaView -> S -> Prop) (op : M S MetadataError A)
    (spec : transition A) : Prop :=
  forall s v, R v s ->
  let '(r, v') := spec v in
  match op s with
  | (Ok x, s') => r = Ok x /\ R v' s'
  | (Err e, s') => (r = Err e /\ R v' s') \/ (fault e /\ (R v s' \/ R v' s'))
  end.

(** ** Representation *)

Section Representation.
Context `{UL : UlidLib} {DB : Type} `{RK : RocksDB DB}.
Context `{PA : Postcard ArtifactMetadata} `{PR : Postcard ReferenceRecord}
  `{PC : Postcard ChannelRecord}.

Definition decodes {T} `{Postcard T} (row : option bytes) (value : option T) : Prop :=
  match row, value with
  | None, None => True
  | Some b, Some v => decode_record b = Ok v
  | _, _ => False
  end.

Record represents (v : MetaView) (r : rows) : Prop := {
  rep_artifacts c a : decodes (r !! (ARTIFACTS, artifact_key c a)) (mv_artifacts v !! (c, a));
  rep_references c n : decodes (r !! (REFERENCES, reference_key c n)) (mv_references v !! (c, n));
  rep_channels c : decodes (r !! (CHANNELS, as_key c)) (mv_channels v !! c);
  rep_queue c t a :
    is_u64 t -> is_Some (r !! (EVICTION, eviction_key c t a)) <-> (c, t, a) ∈ mv_queue v;
  rep_queue_keys k b :
    r !! (EVICTION, k) = Some b -> exists c t a, is_u64 t /\ k = eviction_key c t a;
  rep_channel_keys k b : r !! (CHANNELS, k) = Some b -> exists c, k = as_key c;
  rep_queue_u64 c t a : (c, t, a) ∈ mv_queue v -> is_u64 t;
  rep_artifact_u64 c a m : mv_artifacts v !! (c, a) = Some m -> is_u64 (eligible_at m);
  rep_channel_id c record : mv_channels v !! c = Some record -> channel_id record = c
}.

Definition refines `{!RocksDBLaws DB} {A} (op : M DB MetadataError A) (spec : transition A)
    : Prop :=
  implements (fun v db => represents v (rows_of db)) op spec.
End Representation.
