(* ===== verification/MetadataRefinement.v ===== *)
(** * [RocksMetadata] refines the typed view

    The byte-level facts (keys of different identities never collide, queue keys sort by deadline,
    a channel's key range holds its keys and no others) and the refinement of every operation. *)

From S2P Require Import Prelude Externals Domain Records Metadata MetadataView.

(** ** Keys *)

Lemma prefix_end_range p q rest :
  p ≠ [] -> length q = length p -> (forall c, last p = Some c -> byte_value c < 255) ->
  bytes_le p (q ++ rest) /\ bytes_lt (q ++ rest) (prefix_end p) <-> q = p.
Proof.
  revert q. induction p as [|x p IH]; intros q Hne Hlen Hlast; [done|].
  destruct q as [|y q]; [done|]. destruct p as [|x' p].
  - destruct q; [|done]. unfold bytes_le, bytes_lt. cbn.
    specialize (Hlast x eq_refl). unfold byte_value in Hlast.
    rewrite N.mod_small by lia. rewrite N_ascii_embedding by lia.
    destruct (N.compare_spec (N_of_ascii x) (N_of_ascii y)) as [H|H|H];
      destruct (N.compare_spec (N_of_ascii y) (N_of_ascii x + 1)) as [H'|H'|H']; try lia.
    + split; [intros _; by rewrite (N_of_ascii_inj _ _ H)|]. intros [= ->]. split; [|done]. by destruct rest.
    + split; [|intros [= ->]; lia]. intros [_ H2]. by destruct rest.
    + split; [by intros []|intros [= ->]; lia].
    + split; [|intros [= ->]; lia]. by intros [? _].
  - cbn [prefix_end]. unfold bytes_le, bytes_lt. cbn [app bytes_compare].
    rewrite (N.compare_antisym (N_of_ascii x) (N_of_ascii y)).
    destruct (N.compare_spec (N_of_ascii x) (N_of_ascii y)) as [H|H|H]; cbn [CompOpp].
    + apply N_of_ascii_inj in H as ->. rewrite (IH q); [|done|cbn in *; lia|exact Hlast].
      split; congruence.
    + split; [by intros []|intros [= -> ->]; lia].
    + split; [by intros []|intros [= -> ->]; lia].
Qed.

Section Keys.
Context {UL : UlidLib} {ULL : UlidLaws}.

Lemma as_key_app_inj c c' x y : as_key c ++ x = as_key c' ++ y -> c = c' /\ x = y.
Proof.
  intros [H ->]%app_eq_len; [|by rewrite !as_key_length]. split; [by apply as_key_inj|done].
Qed.

Lemma artifact_key_inj c a c' a' : artifact_key c a = artifact_key c' a' -> c = c' /\ a = a'.
Proof.
  intros [-> H%as_bytes_inj]%as_key_app_inj. destruct a, a'; cbn in *; by subst.
Qed.

Lemma reference_key_inj c n c' n' : reference_key c n = reference_key c' n' -> c = c' /\ n = n'.
Proof. apply as_key_app_inj. Qed.

Lemma eviction_key_inj c t a c' t' a' :
  is_u64 t -> is_u64 t' -> eviction_key c t a = eviction_key c' t' a' -> c = c' /\ t = t' /\ a = a'.
Proof.
  unfold is_u64, u64_max. intros Ht Ht' [-> H]%as_key_app_inj.
  apply app_eq_len in H as [H1 H2%as_bytes_inj]; [|by rewrite !length_be_bytes].
  split; [done|]. split; [|destruct a, a'; cbn in *; by subst].
  eapply be_bytes_inj, H1; change (256 ^ Z.of_nat 8) with (2 ^ 64); lia.
Qed.

(** [decode_eviction_key] inverts [eviction_key]. *)
Lemma decode_eviction_key_spec c t a :
  is_u64 t -> decode_eviction_key (eviction_key c t a) = Ok (t, a).
Proof.
  intros Ht. unfold decode_eviction_key, eviction_key, DIGEST_AT, DEADLINE_AT.
  rewrite !length_app, as_key_length, length_be_bytes, as_bytes_length. cbn [Nat.eqb ULID_LEN Nat.add].
  rewrite (app_assoc (as_key c)), drop_app_length'; [|by rewrite length_app, as_key_length, length_be_bytes].
  unfold as_bytes at 1. rewrite to_bytes32_b32.
  rewrite <- app_assoc, drop_app_length'; [|by rewrite as_key_length].
  rewrite take_app_length' by (by rewrite length_be_bytes). rewrite be_value_u64 by done.
  by destruct a as [[]].
Qed.

Lemma as_key_last c b : last (as_key c) = Some b -> byte_value b < 255.
Proof.
  intros H. assert (b ∈ as_key c) as Hin by (apply last_Some in H as [l ->]; set_solver).
  pose proof (ulid_str_alphabet (channel_ulid c)) as HF. rewrite Forall_forall in HF.
  specialize (HF b Hin). unfold is_crockford in HF. lia.
Qed.

(** The range a channel deletion removes holds that channel's keys and no others. *)
Lemma channel_range c c' rest :
  bytes_le (as_key c) (as_key c' ++ rest) /\ bytes_lt (as_key c' ++ rest) (prefix_end (as_key c))
  <-> c' = c.
Proof.
  rewrite prefix_end_range.
  - split; [apply as_key_inj|by intros ->].
  - intros H. pose proof (as_key_length c) as HL. by rewrite H in HL.
  - by rewrite !as_key_length.
  - apply as_key_last.
Qed.

Lemma starts_with_key c c' rest : starts_with (as_key c) (as_key c' ++ rest) = true <-> c = c'.
Proof.
  rewrite starts_with_spec. split.
  - intros [r Hr]. apply as_key_app_inj in Hr as [-> _]. done.
  - intros ->. eauto.
Qed.

(** Within a channel, queue keys sort by deadline and then by digest. *)
Lemma eviction_key_order c t a t' a' :
  is_u64 t -> is_u64 t' ->
  bytes_le (eviction_key c t a) (eviction_key c t' a')
  <-> cand_le {| cand_eligible_at := t; cand_artifact := a |}
              {| cand_eligible_at := t'; cand_artifact := a' |}.
Proof.
  unfold is_u64, u64_max. intros Ht Ht'. unfold bytes_le, eviction_key, cand_le. cbn [cand_eligible_at cand_artifact].
  rewrite bytes_compare_app by done. rewrite bytes_compare_refl.
  rewrite bytes_compare_app by (by rewrite !length_be_bytes).
  rewrite be_bytes_compare by (change (256 ^ Z.of_nat 8) with (2 ^ 64); lia).
  unfold bytes_le. destruct (Z.compare_spec t t') as [->|H|H].
  - split; [right; done|]. intros [?|[_ ?]]; [lia|done].
  - split; [left; done|]. done.
  - split; [done|]. intros [?|[? _]]; lia.
Qed.
End Keys.

(** ** Rows and views move together *)

Section Updates.
Context {UL : UlidLib} {ULL : UlidLaws}.
Context {PA : Postcard ArtifactMetadata} {PAL : PostcardLaws ArtifactMetadata}.
Context {PR : Postcard ReferenceRecord} {PRL : PostcardLaws ReferenceRecord}.
Context {PC : Postcard ChannelRecord} {PCL : PostcardLaws ChannelRecord}.
Implicit Types (v : MetaView) (r : rows).

Lemma decodes_insert `{Countable K} {T} `{Postcard T} (m : gmap K T) (k k' : K) (x : T)
    (f : column_family) (key key' b : bytes) r :
  decode_record b = Ok x -> (key = key' -> k = k') -> (k = k' -> key = key') ->
  decodes (r !! (f, key')) (m !! k') ->
  decodes (<[(f, key) := b]> r !! (f, key')) (<[k := x]> m !! k').
Proof.
  intros Hb Hinj Hcong Hd. destruct (decide (k = k')) as [->|Hne].
  - rewrite (Hcong eq_refl), !lookup_insert_eq. done.
  - rewrite !lookup_insert_ne; [done|done|]. intros [=]. auto.
Qed.

Lemma decodes_delete `{Countable K} {T} `{Postcard T} (m : gmap K T) (k k' : K)
    (f : column_family) (key key' : bytes) r :
  (key = key' -> k = k') -> (k = k' -> key = key') ->
  decodes (r !! (f, key')) (m !! k') ->
  decodes (delete (f, key) r !! (f, key')) (delete k m !! k').
Proof.
  intros Hinj Hcong Hd. destruct (decide (k = k')) as [->|Hne].
  - rewrite (Hcong eq_refl), !lookup_delete_eq. done.
  - rewrite !lookup_delete_ne; [done|done|]. intros [=]. auto.
Qed.

Ltac other_family :=
  intros; rewrite ?lookup_insert_ne, ?lookup_delete_ne in * by done; eauto.

Lemma rep_put_artifact v r c a m b :
  represents v r -> encode_record m = Ok b -> is_u64 (eligible_at m) ->
  represents (with_artifacts <[(c, a) := m]> v) (<[(ARTIFACTS, artifact_key c a) := b]> r).
Proof.
  intros [HA HR HC HQ HQK HCK HQU HAU HCI] Hb Hm.
  split; cbn [mv_artifacts mv_references mv_channels mv_queue with_artifacts]; try (other_family; fail).
  - intros c' a'. apply decodes_insert; [by apply decode_encode_record| | |done].
    + by intros [-> ->]%artifact_key_inj.
    + by intros [= -> ->].
  - intros c' a' m'. rewrite lookup_insert. case_decide; [by intros [= <-]|]. apply HAU.
Qed.

Lemma rep_delete_artifact v r c a :
  represents v r ->
  represents (with_artifacts (delete (c, a)) v) (delete (ARTIFACTS, artifact_key c a) r).
Proof.
  intros [HA HR HC HQ HQK HCK HQU HAU HCI].
  split; cbn [mv_artifacts mv_references mv_channels mv_queue with_artifacts]; try (other_family; fail).
  - intros c' a'. apply decodes_delete; [| |done].
    + by intros [-> ->]%artifact_key_inj.
    + by intros [= -> ->].
  - intros c' a' m'. rewrite lookup_delete. case_decide; [done|]. apply HAU.
Qed.

Lemma rep_put_reference v r c n x b :
  represents v r -> encode_record x = Ok b ->
  represents (with_references <[(c, n) := x]> v) (<[(REFERENCES, reference_key c n) := b]> r).
Proof.
  intros [HA HR HC HQ HQK HCK HQU HAU HCI] Hb.
  split; cbn [mv_artifacts mv_references mv_channels mv_queue with_references]; try (other_family; fail).
  intros c' n'. apply decodes_insert; [by apply decode_encode_record| | |done].
  - by intros [-> ->]%reference_key_inj.
  - by intros [= -> ->].
Qed.

Lemma rep_delete_reference v r c n :
  represents v r ->
  represents (with_references (delete (c, n)) v) (delete (REFERENCES, reference_key c n) r).
Proof.
  intros [HA HR HC HQ HQK HCK HQU HAU HCI].
  split; cbn [mv_artifacts mv_references mv_channels mv_queue with_references]; try (other_family; fail).
  intros c' n'. apply decodes_delete; [| |done].
  - by intros [-> ->]%reference_key_inj.
  - by intros [= -> ->].
Qed.

Lemma rep_put_channel v r x b :
  represents v r -> encode_record x = Ok b ->
  represents (with_channels <[channel_id x := x]> v)
    (<[(CHANNELS, as_key (channel_id x)) := b]> r).
Proof.
  intros [HA HR HC HQ HQK HCK HQU HAU HCI] Hb.
  split; cbn [mv_artifacts mv_references mv_channels mv_queue with_channels]; try (other_family; fail).
  - intros c'. apply decodes_insert; [by apply decode_encode_record|apply as_key_inj|by intros ->|done].
  - intros k b'. rewrite lookup_insert. case_decide as E; [|eauto].
    injection E as <-. eauto.
  - intros c' x'. rewrite lookup_insert. case_decide; [by intros [= <-]|]. eauto.
Qed.

Lemma rep_delete_channel v r c :
  represents v r ->
  represents (with_channels (delete c) v) (delete (CHANNELS, as_key c) r).
Proof.
  intros [HA HR HC HQ HQK HCK HQU HAU HCI].
  split; cbn [mv_artifacts mv_references mv_channels mv_queue with_channels]; try (other_family; fail).
  - intros c'. apply decodes_delete; [apply as_key_inj|by intros ->|done].
  - intros k b. rewrite lookup_delete. case_decide; [done|]. apply HCK.
  - intros c' x'. rewrite lookup_delete. case_decide; [done|]. eauto.
Qed.

Lemma rep_put_row v r c t a :
  represents v r -> is_u64 t ->
  represents (with_queue (fun q => {[ (c, t, a) ]} ∪ q) v)
    (<[(EVICTION, eviction_key c t a) := []]> r).
Proof.
  intros [HA HR HC HQ HQK HCK HQU HAU HCI] Ht.
  split; cbn [mv_artifacts mv_references mv_channels mv_queue with_queue]; try (other_family; fail).
  - intros c' t' a' Ht'. rewrite lookup_insert. case_decide as E.
    + injection E as E. apply eviction_key_inj in E as (-> & -> & ->); [|done..]. set_solver.
    + rewrite HQ by done. set_unfold. split; [by right|]. intros [[= -> -> ->]|?]; done.
  - intros k b'. rewrite lookup_insert. case_decide as E; [|eauto]. injection E as <-. eauto.
  - intros c' t' a' [[= -> -> ->]%elem_of_singleton|?]%elem_of_union; eauto.
Qed.

Lemma rep_drop_row v r c t a :
  represents v r -> is_u64 t ->
  represents (v_drop_row c t a v) (delete (EVICTION, eviction_key c t a) r).
Proof.
  intros [HA HR HC HQ HQK HCK HQU HAU HCI] Ht. unfold v_drop_row.
  split; cbn [mv_artifacts mv_references mv_channels mv_queue with_queue]; try (other_family; fail).
  - intros c' t' a' Ht'. rewrite lookup_delete. case_decide as E.
    + injection E as E. apply eviction_key_inj in E as (-> & -> & ->); [|done..].
      split; [by intros [? ?]|set_solver].
    + rewrite HQ by done. set_unfold. split; [|by intros []]. intros ?. split; [done|].
      by intros [= -> -> ->].
  - intros k b. rewrite lookup_delete. case_decide; [done|]. apply HQK.
  - intros c' t' a' [? _]%elem_of_difference; eauto.
Qed.
End Updates.

(** ** Channel deletion *)

Definition delete_ranges (lo hi : bytes) : list batch_op :=
  map (fun name => DeleteRangeCf name lo hi) [ARTIFACTS; REFERENCES; EVICTION].

Lemma lookup_delete_range (f f' : column_family) (lo hi k : bytes) (r : rows) :
  apply_op r (DeleteRangeCf f lo hi) !! (f', k)
  = if decide (f' = f /\ bytes_le lo k /\ bytes_lt k hi) then None else r !! (f', k).
Proof.
  cbn [apply_op]. apply option_eq. intros b. rewrite map_lookup_filter_Some. cbn [fst snd].
  case_decide; naive_solver.
Qed.

Lemma lookup_delete_ranges (f : column_family) (lo hi k : bytes) (r : rows) :
  apply_batch (delete_ranges lo hi) r !! (f, k)
  = if decide (f ≠ CHANNELS /\ f ≠ META /\ bytes_le lo k /\ bytes_lt k hi) then None else r !! (f, k).
Proof.
  unfold apply_batch, delete_ranges. cbn [map fold_left]. rewrite !lookup_delete_range.
  destruct f; repeat case_decide; naive_solver.
Qed.

Section Wipe.
Context {UL : UlidLib} {ULL : UlidLaws}.
Context {PA : Postcard ArtifactMetadata} {PR : Postcard ReferenceRecord} {PC : Postcard ChannelRecord}.
Implicit Types (v : MetaView) (r : rows).

Lemma lookup_wiped (f : column_family) c c' (rest : bytes) r :
  f ≠ CHANNELS -> f ≠ META ->
  apply_batch (delete_ranges (as_key c) (prefix_end (as_key c))) r !! (f, as_key c' ++ rest)
  = if decide (c' = c) then None else r !! (f, as_key c' ++ rest).
Proof.
  intros Hc Hm. rewrite lookup_delete_ranges.
  destruct (decide (c' = c)) as [->|Hne].
  - rewrite decide_True; [done|]. by rewrite channel_range.
  - rewrite decide_False; [done|]. rewrite channel_range. naive_solver.
Qed.

Lemma decodes_wiped {T} `{Postcard T} {K} `{Countable K} (m : gmap (ChannelId * K) T) row c c' k :
  decodes row (m !! (c', k)) ->
  decodes (if decide (c' = c) then None else row)
    (filter (fun kv => kv.1.1 ≠ c) m !! (c', k)).
Proof.
  intros Hd. case_decide as E.
  - rewrite map_lookup_filter_None_2; [done|]. right. cbn. intros ? _ ?. congruence.
  - destruct (m !! (c', k)) as [x|] eqn:Hm.
    + rewrite map_lookup_filter_Some_2 with (x := x); done.
    + rewrite map_lookup_filter_None_2; [done|]. by left.
Qed.

Lemma rep_wipe v r c :
  represents v r ->
  represents (wipe c v) (apply_batch (delete_ranges (as_key c) (prefix_end (as_key c))) r).
Proof.
  intros [HA HR HC HQ HQK HCK HQU HAU HCI].
  split; cbn [mv_artifacts mv_references mv_channels mv_queue wipe].
  - intros c' a. unfold artifact_key. rewrite lookup_wiped by done. by apply decodes_wiped, HA.
  - intros c' n. unfold reference_key. rewrite lookup_wiped by done. by apply decodes_wiped, HR.
  - intros c'. rewrite lookup_delete_ranges, decide_False by naive_solver. apply HC.
  - intros c' t a Ht. unfold eviction_key. rewrite lookup_wiped, elem_of_filter by done. cbn.
    rewrite <- HQ by done. case_decide; [|naive_solver]. split; [by intros [? ?]|naive_solver].
  - intros k b. rewrite lookup_delete_ranges. case_decide; [done|]. apply HQK.
  - intros k b. rewrite lookup_delete_ranges. case_decide; [done|]. apply HCK.
  - intros c' t a [_ Hin]%elem_of_filter. eauto.
  - intros c' a m [Hm _]%map_lookup_filter_Some. eauto.
  - eauto.
Qed.
End Wipe.

(** ** Refinement *)

Section Refinement.
Context {UL : UlidLib} {ULL : UlidLaws}.
Context {PA : Postcard ArtifactMetadata} {PAL : PostcardLaws ArtifactMetadata}.
Context {PR : Postcard ReferenceRecord} {PRL : PostcardLaws ReferenceRecord}.
Context {PC : Postcard ChannelRecord} {PCL : PostcardLaws ChannelRecord}.
Context {DB : Type} {RK : RocksDB DB} {RKL : RocksDBLaws DB}.
Implicit Types (v : MetaView) (db : DB).

Lemma fault_store s : fault (Store s).
Proof. left. eauto. Qed.
Lemma fault_encode s : fault (RecordFailure (Encode s)).
Proof. right. eauto. Qed.
Hint Resolve fault_store fault_encode : core.

(** Reads and batches, from the laws of the store. *)
Lemma read_spec f k db :
  (exists s, read f k db = (Err (Store s), db))
  \/ read f k db = (Ok (rows_of db !! (f, k)), db).
Proof.
  unfold read. destruct (get_cf f k db) as [o|s] eqn:E; [right|left; eauto].
  by rewrite (get_cf_ok _ _ _ _ E).
Qed.

Lemma write_spec b d db :
  exists db',
  (write b d db = (Ok tt, db') /\ rows_of db' = apply_batch b (rows_of db))
  \/ (exists s, write b d db = (Err (Store s), db')
       /\ (rows_of db' = rows_of db \/ rows_of db' = apply_batch b (rows_of db))).
Proof.
  assert (forall sync, exists db',
    let w := (let '(r, db') := write_opt sync b db in (map_err Store r, db')) in
    (w = (Ok tt, db') /\ rows_of db' = apply_batch b (rows_of db))
    \/ (exists s, w = (Err (Store s), db')
         /\ (rows_of db' = rows_of db \/ rows_of db' = apply_batch b (rows_of db)))) as H.
  { intros sync. destruct (write_opt sync b db) as [[[]|s] db'] eqn:E; exists db'; cbn.
    - left. split; [done|]. by apply (write_opt_ok _ _ _ _ E).
    - right. exists s. split; [done|]. by apply (write_opt_err _ _ _ _ _ E). }
  destruct d; [apply (H true)|apply (H false)].
Qed.

Lemma encoded_spec {T} `{Postcard T} (x : T) db :
  (exists s, encoded (DB := DB) x db = (Err (RecordFailure (Encode s)), db))
  \/ (exists b, encoded (DB := DB) x db = (Ok b, db) /\ encode_record x = Ok b).
Proof.
  unfold encoded, lift, encode_record. destruct (postcard_to_stdvec x) as [p|s]; cbn.
  - right. eauto.
  - left. eauto.
Qed.

(** A write whose batch stands for the move from [v] to [v'], however it ends. *)
Lemma write_moves v v' b d db :
  represents v (rows_of db) -> represents v' (apply_batch b (rows_of db)) ->
  match write b d db with
  | (Ok _, db') => represents v' (rows_of db')
  | (Err e, db') => fault e /\ (represents v (rows_of db') \/ represents v' (rows_of db'))
  end.
Proof.
  intros Hv Hv'. destruct (write_spec b d db) as (db' & [[-> ->]|(s & -> & [-> | ->])]); auto.
Qed.

(** Reading one row and decoding it. *)
Lemma read_decoded {T} `{Postcard T} f k (x : option T) db :
  decodes (rows_of db !! (f, k)) x ->
  (exists s, (found ← read f k; decode_opt found) db = (Err (Store s), db))
  \/ (found ← read f k; decode_opt found) db = (Ok x, db).
Proof.
  intros Hd. unfold mbind, M_bind.
  destruct (read_spec f k db) as [[s ->]| ->]; [eauto|right].
  unfold decode_opt, decodes in *. destruct (rows_of db !! _) as [b|], x as [x|]; try done.
  unfold decoded, mbind, M_bind, lift. by rewrite Hd.
Qed.

Lemma artifact_refines c a : refines (artifact c a) (v_artifact c a).
Proof.
  intros db v Hv. cbn. unfold artifact.
  destruct (read_decoded ARTIFACTS (artifact_key c a) _ db (rep_artifacts v _ Hv c a))
    as [[s ->]| ->]; auto.
Qed.

Lemma reference_refines c n : refines (reference c n) (v_reference c n).
Proof.
  intros db v Hv. cbn. unfold reference.
  destruct (read_decoded REFERENCES (reference_key c n) _ db (rep_references v _ Hv c n))
    as [[s ->]| ->]; auto.
Qed.

Lemma channel_refines c : refines (channel c) (v_channel c).
Proof.
  intros db v Hv. cbn. unfold channel.
  destruct (read_decoded CHANNELS (as_key c) _ db (rep_channels v _ Hv c)) as [[s ->]| ->]; auto.
Qed.

(** A single write whose effect on the view is known. *)
Lemma write_refines v v' b d db :
  represents v (rows_of db) -> represents v' (apply_batch b (rows_of db)) ->
  match write b d db with
  | (Ok x, db') => (Ok tt : result MetadataError unit) = Ok x /\ represents v' (rows_of db')
  | (Err e, db') =>
      ((Ok tt : result MetadataError unit) = Err e /\ represents v' (rows_of db'))
      \/ (fault e /\ (represents v (rows_of db') \/ represents v' (rows_of db')))
  end.
Proof.
  intros Hv Hv'. pose proof (write_moves v v' b d db Hv Hv') as H.
  destruct (write b d db) as [[[]|e] db']; auto.
Qed.

Lemma delete_reference_refines c n : refines (delete_reference c n) (v_delete_reference c n).
Proof.
  intros db v Hv. cbn. apply (write_refines v _ _ Durable); [done|]. by apply rep_delete_reference.
Qed.

Lemma delete_channel_data_refines c : refines (delete_channel_data c) (v_delete_channel_data c).
Proof.
  intros db v Hv. cbn. apply (write_refines v _ _ Durable); [done|]. by apply rep_wipe.
Qed.

Lemma finish_channel_deletion_refines c :
  refines (finish_channel_deletion c) (v_finish_channel_deletion c).
Proof.
  intros db v Hv. cbn. apply (write_refines v _ _ Durable); [done|]. by apply rep_delete_channel.
Qed.

Lemma bind_reference_refines c n x d : refines (bind_reference c n x d) (v_bind_reference c n x).
Proof.
  intros db v Hv. cbn. unfold bind_reference, mbind, M_bind.
  destruct (encoded_spec x db) as [[s ->]|(b & -> & Hb)]; [auto|].
  apply write_refines; [done|]. by apply rep_put_reference.
Qed.

Lemma store_channel_refines x : refines (store_channel x) (v_store_channel x).
Proof.
  intros db v Hv. cbn. unfold store_channel, mbind, M_bind.
  destruct (encoded_spec x db) as [[s ->]|(b & -> & Hb)]; [auto|].
  apply (write_refines v _ _ Durable); [done|]. by apply rep_put_channel.
Qed.

Lemma create_channel_refines x : refines (create_channel x) (v_create_channel x).
Proof.
  intros db v Hv. unfold v_create_channel, create_channel, mbind, M_bind.
  pose proof (rep_channels v _ Hv (channel_id x)) as Hd.
  destruct (read_spec CHANNELS (as_key (channel_id x)) db) as [[s ->]| ->].
  { destruct (mv_channels v !! _); auto. }
  unfold decodes in Hd.
  destruct (rows_of db !! _), (mv_channels v !! channel_id x); try done; [cbn; auto|].
  destruct (encoded_spec x db) as [[s ->]|(b & -> & Hb)]; [auto|].
  apply (write_refines v _ _ Durable); [done|]. by apply rep_put_channel.
Qed.

(** Reading the artifact row a transition is about to change. *)
Lemma read_artifact_row v db c a :
  represents v (rows_of db) ->
  (exists s, read ARTIFACTS (artifact_key c a) db = (Err (Store s), db))
  \/ (read ARTIFACTS (artifact_key c a) db = (Ok None, db) /\ mv_artifacts v !! (c, a) = None)
  \/ (exists b m, read ARTIFACTS (artifact_key c a) db = (Ok (Some b), db)
        /\ (decoded b : M DB MetadataError ArtifactMetadata) db = (Ok m, db)
        /\ mv_artifacts v !! (c, a) = Some m /\ is_u64 (eligible_at m)).
Proof.
  intros Hv. pose proof (rep_artifacts v _ Hv c a) as Hd. unfold decodes in Hd.
  destruct (read_spec ARTIFACTS (artifact_key c a) db) as [[s ->]| ->]; [eauto|right].
  destruct (rows_of db !! _) as [b|], (mv_artifacts v !! (c, a)) as [m|] eqn:Hm; try done; [|auto].
  right. exists b, m. split; [done|]. split; [|split; [done|by eapply rep_artifact_u64]].
  unfold decoded, lift. by rewrite Hd.
Qed.

Lemma remove_artifact_refines c a : refines (remove_artifact c a) (v_remove_artifact c a).
Proof.
  intros db v Hv. unfold v_remove_artifact, remove_artifact, mbind, M_bind.
  destruct (read_artifact_row v db c a Hv) as [[s ->]|[[-> Hm]|(b & m & -> & Hb & Hm & Hu)]].
  - destruct (mv_artifacts v !! _); auto.
  - rewrite Hm. cbn [mret M_ret app]. apply (write_refines v _ _ BestEffort); [done|].
    cbn. rewrite delete_id; [done|]. pose proof (rep_artifacts v _ Hv c a) as Hd. rewrite Hm in Hd.
    unfold decodes in Hd. by destruct (rows_of db !! _).
  - rewrite Hm, Hb. cbn [mret M_ret app]. apply (write_refines v _ _ BestEffort); [done|].
    cbn. apply rep_delete_artifact. by apply rep_drop_row.
Qed.

Lemma rep_set_artifact v r c a m b :
  represents v r -> encode_record m = Ok b -> is_u64 (eligible_at m) ->
  represents (v_put_artifact c a m v)
    (<[(EVICTION, eviction_key c (eligible_at m) a) := []]>
       (<[(ARTIFACTS, artifact_key c a) := b]> r)).
Proof. intros Hv Hb Hm. apply rep_put_row; [|done]. by apply rep_put_artifact. Qed.

Lemma requeue_refines c a old new :
  is_u64 old -> is_u64 new -> refines (requeue c a old new) (v_requeue c a old new).
Proof.
  intros Hold Hnew db v Hv. unfold v_requeue, requeue, mbind, M_bind.
  destruct (read_artifact_row v db c a Hv) as [[s ->]|[[-> Hm]|(b & m & -> & Hb & Hm & Hu)]].
  - destruct (mv_artifacts v !! _) as [m|]; [destruct (_ =? _)|]; auto.
  - by rewrite Hm.
  - rewrite Hm, Hb. destruct (eligible_at m =? old); cbn [negb]; [|done].
    destruct (encoded_spec (set_eligible_at m new) db) as [[s ->]|(b' & -> & Hb')]; [auto|].
    apply (write_refines v _ _ BestEffort); [done|]. cbn. rewrite insert_insert_ne by done.
    apply (rep_set_artifact (v_drop_row c old a v) _ c a (set_eligible_at m new)); [|done..].
    by apply rep_drop_row.
Qed.

(** A write followed by an answer computed beforehand. *)
Lemma write_then_refines {A} v v' b d (x : A) db :
  represents v (rows_of db) -> represents v' (apply_batch b (rows_of db)) ->
  match (let '(r, db1) := write b d db in
         match r with Ok _ => (mret x : M DB MetadataError A) db1 | Err e => (Err e, db1) end) with
  | (Ok y, db') => (Ok x : result MetadataError A) = Ok y /\ represents v' (rows_of db')
  | (Err e, db') =>
      ((Ok x : result MetadataError A) = Err e /\ represents v' (rows_of db'))
      \/ (fault e /\ (represents v (rows_of db') \/ represents v' (rows_of db')))
  end.
Proof.
  intros Hv Hv'. pose proof (write_moves v v' b d db Hv Hv') as H.
  destruct (write b d db) as [[[]|e] db']; cbn; auto.
Qed.

Lemma evict_refines c a t : is_u64 t -> refines (evict c a t) (v_evict c a t).
Proof.
  intros Ht db v Hv. unfold v_evict, evict, mbind, M_bind.
  destruct (read_artifact_row v db c a Hv) as [[s ->]|[[-> Hm]|(b & m & -> & Hb & Hm & Hu)]].
  - destruct (mv_artifacts v !! _) as [m|]; [destruct (_ =? _)|]; auto.
  - rewrite Hm. cbn [mret M_ret].
    apply (write_then_refines v _ _ BestEffort); [done|]. by apply rep_drop_row.
  - rewrite Hm, Hb. destruct (eligible_at m =? t); cbn [negb mret M_ret];
      (apply (write_then_refines v _ _ BestEffort); [done|]); [|by apply rep_drop_row].
    by apply rep_drop_row, Ht; apply rep_delete_artifact.
Qed.

Lemma apply_batch_app b1 b2 r : apply_batch (b1 ++ b2) r = apply_batch b2 (apply_batch b1 r).
Proof. apply fold_left_app. Qed.

(** The optional reference of a publication: its batch and its effect. *)
Lemma bound_spec c (name : option (bytes * ReferenceRecord)) db :
  let m := (match name with
            | None => mret []
            | Some (name, record) =>
                record ← encoded record; mret [PutCf REFERENCES (reference_key c name) record]
            end : M DB MetadataError (list batch_op)) in
  (exists s, m db = (Err (RecordFailure (Encode s)), db))
  \/ exists ops, m db = (Ok ops, db)
       /\ forall v r, represents v r -> represents (v_bind c name v) (apply_batch ops r).
Proof.
  destruct name as [[name x]|]; cbn; [|right; eauto].
  unfold mbind, M_bind. destruct (encoded_spec x db) as [[s ->]|(b & -> & Hb)]; [eauto|right].
  eexists. split; [done|]. intros v r Hv. by apply rep_put_reference.
Qed.

Lemma commit_publication_refines c a m name d :
  is_u64 (eligible_at m) ->
  refines (commit_publication c a m name d) (v_commit_publication c a m name).
Proof.
  intros Hm db v Hv. pose proof (bound_spec c name db) as HB. cbv zeta in HB.
  unfold v_commit_publication, commit_publication. unfold mbind, M_bind in *.
  destruct (read_artifact_row v db c a Hv) as [[s ->]|[[-> Ha]|(b & m' & -> & _ & Ha & _)]].
  - destruct (mv_artifacts v !! _); auto.
  - rewrite Ha, bool_decide_eq_false_2 by (by intros [? ?]).
    destruct (encoded_spec m db) as [[s ->]|(b & -> & Hb)]; [auto|]. cbn [mret M_ret].
    destruct HB as [[s ->]|(ops & -> & Hops)]; [auto|].
    apply (write_then_refines v); [done|]. rewrite apply_batch_app. apply Hops.
    by apply rep_set_artifact.
  - rewrite Ha, bool_decide_eq_true_2 by eauto. cbn [mret M_ret].
    destruct HB as [[s ->]|(ops & -> & Hops)]; [auto|].
    apply (write_then_refines v); [done|]. by apply Hops.
Qed.

(** *** Scans *)

#[export] Instance cand_le_trans : Transitive cand_le.
Proof.
  intros x y z. unfold cand_le. intros [?|[? ?]] [?|[? ?]]; try (left; lia).
  right. split; [lia|]. by etransitivity.
Qed.
#[export] Instance cand_le_total : Total cand_le.
Proof.
  intros x y. unfold cand_le.
  destruct (Z.lt_total (cand_eligible_at x) (cand_eligible_at y)) as [H|[H|H]]; auto.
  destruct (bytes_le_total (as_bytes (digest (cand_artifact x))) (as_bytes (digest (cand_artifact y)))); auto.
Qed.
Lemma cand_le_antisym x y : cand_le x y -> cand_le y x -> x = y.
Proof.
  unfold cand_le. destruct x as [t [d]], y as [t' [d']]; cbn. intros [?|[? H1]] [?|[? H2]]; try lia.
  subst. do 2 f_equal. by apply as_bytes_inj, (anti_symm bytes_le).
Qed.

#[export] Instance chan_le_trans : Transitive chan_le.
Proof. intros x y z. unfold chan_le. apply bytes_le_trans. Qed.
#[export] Instance chan_le_total : Total chan_le.
Proof. intros x y. unfold chan_le. apply bytes_le_total. Qed.

Definition queue_key (k : bytes) : Prop := exists c t a, is_u64 t /\ k = eviction_key c t a.

Definition candidate_of (c : ChannelId) (row : bytes * bytes) : option Candidate :=
  if starts_with (as_key c) row.1 then
    match decode_eviction_key row.1 with
    | Ok (t, a) => Some {| cand_eligible_at := t; cand_artifact := a |}
    | Err _ => None
    end
  else None.

Lemma candidate_of_key c c' t a b :
  is_u64 t ->
  candidate_of c (eviction_key c' t a, b)
  = if decide (c = c') then Some {| cand_eligible_at := t; cand_artifact := a |} else None.
Proof.
  intros Ht. unfold candidate_of. cbn [fst]. unfold eviction_key at 1.
  case_decide as E.
  - rewrite (proj2 (starts_with_key c c' _)) by done. by rewrite decode_eviction_key_spec.
  - destruct (starts_with _ _) eqn:Hs; [|done]. by apply starts_with_key in Hs.
Qed.

(** Past the first foreign key, no key of the channel follows. *)
Lemma candidates_exhausted c c' t a b items :
  is_u64 t -> c ≠ c' -> bytes_le (as_key c) (eviction_key c' t a) ->
  Forall (key_le (eviction_key c' t a, b)) items -> Forall (fun row => queue_key row.1) items ->
  omap (candidate_of c) items = [].
Proof.
  intros Ht Hne Hle Hall Hwf. induction items as [|[k b'] items IH]; [done|]. cbn.
  apply Forall_cons in Hall as [Hk Hall], Hwf as [(c2 & t2 & a2 & Ht2 & Hk2) Hwf]. cbn in Hk2. subst k.
  rewrite candidate_of_key by done. case_decide as E; [|auto]. subst c2. exfalso.
  unfold key_le in Hk. cbn [fst] in Hk. unfold bytes_le, eviction_key in Hle, Hk.
  rewrite bytes_compare_app in Hk by (by rewrite !as_key_length).
  rewrite <- (app_nil_r (as_key c)), bytes_compare_app in Hle by (by rewrite !as_key_length).
  rewrite (bytes_compare_antisym (as_key c)) in Hk.
  destruct (bytes_compare (as_key c) (as_key c')) eqn:Hc; cbn in *; try done.
  by apply bytes_compare_eq, as_key_inj in Hc.
Qed.

Lemma collect_candidates_spec c limit failure items rest n :
  (failure = None -> rest = []) ->
  StronglySorted key_le (items ++ rest) -> Forall (fun row => queue_key row.1) (items ++ rest) ->
  Forall (fun row => bytes_le (as_key c) row.1) (items ++ rest) ->
  collect_candidates (as_key c) limit items failure n
    = Ok (take (limit - n) (omap (candidate_of c) (items ++ rest)))
  \/ exists e, failure = Some e
       /\ collect_candidates (as_key c) limit items failure n = Err (Store e).
Proof.
  intros Hf. revert n. induction items as [|[k b] items IH]; intros n Hs Hwf Hge; cbn.
  - destruct failure as [e|]; [eauto|]. left. rewrite Hf by done. by destruct (limit - n)%nat.
  - cbn in Hs, Hwf, Hge. apply StronglySorted_inv in Hs as [Hs Hall].
    apply Forall_cons in Hwf as [(c' & t & a & Ht & Hk) Hwf], Hge as [Hk' Hge]. cbn in Hk, Hk'. subst k.
    rewrite candidate_of_key by done. destruct (decide (c = c')) as [<-|Hne].
    + assert (starts_with (as_key c) (eviction_key c t a) = true) as -> by apply starts_with_app.
      cbn [negb orb].
      destruct (Nat.leb_spec limit n) as [Hl|Hl].
      * left. by replace (limit - n)%nat with 0%nat by lia.
      * rewrite decode_eviction_key_spec by done.
        destruct (IH (S n) Hs Hwf Hge) as [-> |(e & -> & ->)]; [left|right; by exists e].
        replace (limit - n)%nat with (S (limit - S n)) by lia. done.
    + destruct (starts_with (as_key c) (eviction_key c' t a)) eqn:Hsw;
        [unfold eviction_key in Hsw; by apply starts_with_key in Hsw|]. cbn [negb orb].
      left. by rewrite (candidates_exhausted c c' t a b), take_nil.
Qed.

Lemma candidates_sorted c items :
  StronglySorted key_le items -> Forall (fun row => queue_key row.1) items ->
  StronglySorted cand_le (omap (candidate_of c) items).
Proof.
  induction 1 as [|[k b] items Hs IH Hall]; [constructor|].
  intros [(c' & t & a & Ht & Hk) Hwf]%Forall_cons. cbn in Hk. subst k. cbn.
  rewrite candidate_of_key by done. case_decide as E; [subst c'|auto]. constructor; [auto|].
  apply Forall_forall. intros x Hx. apply list_elem_of_omap in Hx as ([k' b'] & Hin & Hc).
  rewrite Forall_forall in Hall, Hwf. destruct (Hwf _ Hin) as (c2 & t2 & a2 & Ht2 & Hk2).
  cbn in Hk2. subst k'. rewrite candidate_of_key in Hc by done. case_decide; simplify_eq.
  specialize (Hall _ Hin). unfold key_le in Hall; cbn [fst] in Hall.
  by apply eviction_key_order in Hall.
Qed.

Lemma elem_of_oldest c v x :
  x ∈ oldest c v <-> (c, cand_eligible_at x, cand_artifact x) ∈ mv_queue v.
Proof.
  unfold oldest, queue_of. rewrite merge_sort_Permutation, list_elem_of_omap. split.
  - intros ([[c' t] a] & Hin%elem_of_elements & Hc). cbn in Hc. case_decide; simplify_eq. done.
  - intros Hin. eexists (_, _, _). split; [by apply elem_of_elements|]. cbn. rewrite decide_True by done.
    by destruct x.
Qed.

Lemma oldest_sorted c v : StronglySorted cand_le (oldest c v).
Proof. apply StronglySorted_merge_sort; apply _. Qed.

Lemma NoDup_oldest c v : NoDup (oldest c v).
Proof.
  unfold oldest, queue_of. rewrite merge_sort_Permutation. apply NoDup_omap; [|apply NoDup_elements].
  intros [[c1 t1] a1] [[c2 t2] a2] y _ _. cbn. do 2 case_decide; intros; by simplify_eq.
Qed.

Lemma elem_of_candidates c v r x :
  represents v r ->
  x ∈ omap (candidate_of c) (scan EVICTION (as_key c) r)
  <-> (c, cand_eligible_at x, cand_artifact x) ∈ mv_queue v.
Proof.
  intros Hv. rewrite list_elem_of_omap. split.
  - intros ([k b] & Hin & Hc). apply elem_of_scan in Hin as [Hk _].
    destruct (rep_queue_keys _ _ Hv _ _ Hk) as (c' & t & a & Ht & ->).
    rewrite candidate_of_key in Hc by done. case_decide; simplify_eq. cbn. apply (rep_queue _ _ Hv); eauto.
  - intros Hin. pose proof (rep_queue_u64 _ _ Hv _ _ _ Hin) as Ht.
    apply (rep_queue _ _ Hv) in Hin as [b Hb]; [|done].
    eexists (_, b). split.
    + apply elem_of_scan. split; [done|]. unfold bytes_le, eviction_key.
      rewrite <- (app_nil_r (as_key c)) at 1. rewrite bytes_compare_app by done.
      rewrite bytes_compare_refl. by destruct (_ ++ _).
    + rewrite candidate_of_key, decide_True by done. by destruct x.
Qed.

(** A sorted scan of distinct keys holds each candidate once. *)
Lemma NoDup_candidates c items :
  NoDup items.*1 -> Forall (fun row => queue_key row.1) items ->
  NoDup (omap (candidate_of c) items).
Proof.
  intros Hnd Hwf. rewrite Forall_forall in Hwf.
  apply NoDup_omap; [|by eapply NoDup_fmap_1]. intros [k1 b1] [k2 b2] z H1 H2 E1 E2.
  assert (k1 = k2) as ->.
  { destruct (Hwf _ H1) as (c1 & t1 & a1 & Ht1 & Hk1), (Hwf _ H2) as (c2 & t2 & a2 & Ht2 & Hk2).
    cbn in Hk1, Hk2. subst. rewrite candidate_of_key in E1, E2 by done.
    do 2 case_decide; by simplify_eq. }
  f_equal. apply list_elem_of_lookup in H1 as [i Hi], H2 as [j Hj].
  assert (i = j) as ->; [|by simplify_eq].
  eapply (NoDup_lookup items.*1 i j k2); [done|by rewrite list_lookup_fmap, Hi|by rewrite list_lookup_fmap, Hj].
Qed.

Lemma candidates_oldest c v r :
  represents v r -> omap (candidate_of c) (scan EVICTION (as_key c) r) = oldest c v.
Proof.
  intros Hv.
  assert (Forall (fun row => queue_key row.1) (scan EVICTION (as_key c) r)) as Hwf.
  { apply Forall_forall. intros [k b] [Hk _]%elem_of_scan. by eapply rep_queue_keys. }
  eapply (StronglySorted_unique_strong cand_le).
  - intros x y _ _. apply cand_le_antisym.
  - apply candidates_sorted; [apply scan_sorted|done].
  - apply oldest_sorted.
  - apply NoDup_Permutation.
    + apply NoDup_candidates; [apply scan_NoDup|done].
    + apply NoDup_oldest.
    + intros x. rewrite elem_of_candidates by done. by rewrite elem_of_oldest.
Qed.

Lemma reclaim_candidates_refines c limit :
  refines (reclaim_candidates c limit) (v_reclaim_candidates c limit).
Proof.
  intros db v Hv. unfold v_reclaim_candidates, reclaim_candidates.
  destruct (iterator_cf EVICTION (as_key c) db) as [items failure] eqn:Hit.
  assert (exists rest, scan EVICTION (as_key c) (rows_of db) = items ++ rest
                       /\ (failure = None -> rest = [])) as (rest & Hscan & Hnone).
  { destruct failure as [e|].
    - apply iterator_cf_err in Hit as [rest Hr]. by exists rest.
    - apply iterator_cf_ok in Hit as ->. exists []. by rewrite app_nil_r. }
  destruct (collect_candidates_spec c limit failure items rest 0 Hnone) as [-> |(e & -> & ->)].
  - rewrite <- Hscan. apply scan_sorted.
  - rewrite <- Hscan. apply Forall_forall. intros [k b] [Hk _]%elem_of_scan. by eapply rep_queue_keys.
  - rewrite <- Hscan. apply Forall_forall. by intros [k b] [_ Hk]%elem_of_scan.
  - rewrite <- Hscan, (candidates_oldest c v), Nat.sub_0_r by done. done.
  - right. split; [|by left]. left. eauto.
Qed.

(** *** The registry scan *)

Definition channel_row (v : MetaView) (row : bytes * bytes) (record : ChannelRecord) : Prop :=
  row.1 = as_key (channel_id record) /\ mv_channels v !! channel_id record = Some record.

Lemma collect_channels_spec v r failure items :
  represents v r -> (forall k b, (k, b) ∈ items -> r !! (CHANNELS, k) = Some b) ->
  match failure with
  | Some e => collect_channels items failure = Err (Store e)
  | None => exists records,
      collect_channels items failure = Ok records /\ Forall2 (channel_row v) items records
  end.
Proof.
  intros Hv. induction items as [|[k b] items IH]; intros Hin; cbn.
  { destruct failure; [done|]. by exists []. }
  assert (r !! (CHANNELS, k) = Some b) as Hk by (apply Hin; set_solver).
  destruct (rep_channel_keys _ _ Hv _ _ Hk) as [c ->].
  pose proof (rep_channels _ _ Hv c) as Hd. rewrite Hk in Hd. unfold decodes in Hd.
  destruct (mv_channels v !! c) as [record|] eqn:Hc; [|done]. rewrite Hd.
  destruct failure as [e|]; [rewrite IH by set_solver; done|].
  destruct IH as (records & -> & HF); [set_solver|].
  eexists; split; [done|]. constructor; [|done]. unfold channel_row. cbn.
  by rewrite (rep_channel_id _ _ Hv _ _ Hc).
Qed.

Lemma channel_rows_sorted v items records :
  Forall2 (channel_row v) items records -> StronglySorted key_le items ->
  StronglySorted chan_le records.
Proof.
  induction 1 as [|[k b] record items records [Hk _] HF IH]; [constructor|].
  intros [Hs Hall]%StronglySorted_inv. constructor; [auto|]. cbn in Hk. subst k.
  apply Forall_forall. intros y Hy. apply list_elem_of_lookup in Hy as [i Hi].
  destruct (Forall2_lookup_r _ _ _ _ _ HF Hi) as ([k' b'] & Hrow & Hk' & _). cbn in Hk'. subst k'.
  rewrite Forall_forall in Hall. specialize (Hall _ (list_elem_of_lookup_2 _ _ _ Hrow)). exact Hall.
Qed.

Lemma channel_rows_ids v items records :
  Forall2 (channel_row v) items records -> items.*1 = as_key <$> (channel_id <$> records).
Proof. induction 1 as [|[k b] record items records [Hk _] HF IH]; cbn in *; congruence. Qed.

Lemma elem_of_registry v record :
  (forall c x, mv_channels v !! c = Some x -> channel_id x = c) ->
  record ∈ registry v <-> mv_channels v !! channel_id record = Some record.
Proof.
  intros Hid. unfold registry. rewrite merge_sort_Permutation, list_elem_of_fmap. split.
  - intros ([c x] & -> & Hin%elem_of_map_to_list). cbn. by rewrite (Hid _ _ Hin).
  - intros H. exists (channel_id record, record). split; [done|]. by apply elem_of_map_to_list.
Qed.

Lemma NoDup_registry v :
  (forall c x, mv_channels v !! c = Some x -> channel_id x = c) -> NoDup (registry v).
Proof.
  intros Hid. unfold registry. rewrite merge_sort_Permutation.
  apply NoDup_fmap_2_strong; [|apply NoDup_map_to_list].
  intros [c x] [c' x'] H%elem_of_map_to_list H'%elem_of_map_to_list. cbn. intros ->.
  f_equal. apply Hid in H, H'. congruence.
Qed.

Lemma registry_unique v records :
  (forall c x, mv_channels v !! c = Some x -> channel_id x = c) ->
  StronglySorted chan_le records -> NoDup (channel_id <$> records) ->
  (forall x, x ∈ records <-> mv_channels v !! channel_id x = Some x) -> registry v = records.
Proof.
  intros Hid Hs Hnd Hin. eapply (StronglySorted_unique_strong chan_le).
  - intros x y Hx Hy Hxy Hyx. apply elem_of_registry in Hx; [|done]. apply Hin in Hy.
    assert (channel_id x = channel_id y) as E by (by apply as_key_inj, (anti_symm bytes_le)).
    rewrite E in Hx. congruence.
  - apply StronglySorted_merge_sort; apply _.
  - done.
  - apply NoDup_Permutation; [by apply NoDup_registry|by eapply NoDup_fmap_1|].
    intros x. by rewrite elem_of_registry, Hin.
Qed.

Lemma channels_refines : refines channels v_channels.
Proof.
  intros db v Hv. unfold v_channels, channels.
  destruct (iterator_cf CHANNELS [] db) as [items failure] eqn:Hit.
  pose proof (collect_channels_spec v (rows_of db) failure items Hv) as HC.
  destruct failure as [e|].
  - apply iterator_cf_err in Hit as [rest Hr]. rewrite HC.
    + right. split; [|by left]. left. eauto.
    + intros k b Hin. apply (elem_of_scan CHANNELS [] (rows_of db)). rewrite Hr. set_solver.
  - apply iterator_cf_ok in Hit as ->. destruct HC as (records & -> & HF).
    { by intros k b [? _]%elem_of_scan. }
    split; [|done]. f_equal. apply registry_unique.
    + apply (rep_channel_id _ _ Hv).
    + eapply channel_rows_sorted; [done|apply scan_sorted].
    + pose proof (scan_NoDup CHANNELS [] (rows_of db)) as Hnd.
      rewrite (channel_rows_ids _ _ _ HF) in Hnd. by eapply NoDup_fmap_1.
    + intros x. split.
      * intros [i Hi]%list_elem_of_lookup.
        destruct (Forall2_lookup_r _ _ _ _ _ HF Hi) as (row & _ & _ & Hx). done.
      * intros Hx. pose proof (rep_channels _ _ Hv (channel_id x)) as Hd. rewrite Hx in Hd.
        destruct (rows_of db !! (CHANNELS, as_key (channel_id x))) as [b|] eqn:Hb; [|done].
        assert ((as_key (channel_id x), b) ∈ scan CHANNELS [] (rows_of db)) as [i Hi]%list_elem_of_lookup.
        { apply elem_of_scan. split; [done|]. by destruct (as_key _). }
        destruct (Forall2_lookup_l _ _ _ _ _ HF Hi) as (y & Hy & Hk & Hm). cbn in Hk.
        apply as_key_inj in Hk. rewrite <- Hk in Hm. rewrite Hx in Hm. injection Hm as ->.
        by eapply list_elem_of_lookup_2.
Qed.

(** *** Opening *)

Lemma represents_meta (v : MetaView) (r : rows) k b : represents v r -> represents v (<[(META, k) := b]> r).
Proof.
  intros [H1 H2 H3 H4 H5 H6 H7 H8 H9].
  split; intros *; rewrite ?lookup_insert_ne by done;
    first [apply H1|apply H2|apply H3|apply H4|apply H5|apply H6|apply H7|apply H8|apply H9].
Qed.

(** Checking the format of an opened store, or recording it in a new one, changes no view. *)
Lemma verify_store_format_keeps (v : MetaView) (db : DB) :
  represents v (rows_of db) -> represents v (rows_of (verify_store_format db).2).
Proof.
  intros Hv. unfold verify_store_format, read, mbind, M_bind. destruct (get_cf META STORE_FORMAT_KEY db) as [[x|]|e]; cbn.
  - by case_decide.
  - unfold write_sync. destruct (write_opt true _ db) as [[[]|e] db'] eqn:E; cbn.
    + apply write_opt_ok in E as ->. by apply represents_meta.
    + apply write_opt_err in E as [-> | ->]; [done|by apply represents_meta].
  - done.
Qed.
End Refinement.
