(* ===== verification/MetadataStore.v ===== *)
(** * The metadata store as an interface

    [MetadataStore] is what the services above the store call, [MetadataLaws] what they rely on:
    each operation implements its transition of the typed view.  [RocksMetadata] is the instance;
    every client is proved against the interface.  A history of operations, faults included, is
    then a history of the view. *)

From S2P Require Import Prelude Externals Domain Records Metadata MetadataView MetadataRefinement.

Section Interface.
Context {UL : UlidLib}.

Class MetadataStore (S : Type) := {
  ms_commit_publication : ChannelId -> ArtifactId -> ArtifactMetadata ->
    option (bytes * ReferenceRecord) -> Durability -> M S MetadataError bool;
  ms_artifact : ChannelId -> ArtifactId -> M S MetadataError (option ArtifactMetadata);
  ms_remove_artifact : ChannelId -> ArtifactId -> M S MetadataError unit;
  ms_bind_reference : ChannelId -> bytes -> ReferenceRecord -> Durability -> M S MetadataError unit;
  ms_reference : ChannelId -> bytes -> M S MetadataError (option ReferenceRecord);
  ms_delete_reference : ChannelId -> bytes -> M S MetadataError unit;
  ms_reclaim_candidates : ChannelId -> nat -> M S MetadataError (list Candidate);
  ms_requeue : ChannelId -> ArtifactId -> Z -> Z -> M S MetadataError unit;
  ms_evict : ChannelId -> ArtifactId -> Z -> M S MetadataError Evicted;
  ms_create_channel : ChannelRecord -> M S MetadataError unit;
  ms_channel : ChannelId -> M S MetadataError (option ChannelRecord);
  ms_store_channel : ChannelRecord -> M S MetadataError unit;
  ms_channels : M S MetadataError (list ChannelRecord);
  ms_delete_channel_data : ChannelId -> M S MetadataError unit;
  ms_finish_channel_deletion : ChannelId -> M S MetadataError unit;
  ms_health : M S MetadataError unit;
  (** [RocksMetadata::open], once the crate has opened the files *)
  ms_open : M S MetadataError unit
}.

Class MetadataLaws (S : Type) {MS : MetadataStore S} := {
  stands_for : MetaView -> S -> Prop;
  commit_publication_law c a m name d :
    is_u64 (eligible_at m) ->
    implements stands_for (ms_commit_publication c a m name d) (v_commit_publication c a m name);
  artifact_law c a : implements stands_for (ms_artifact c a) (v_artifact c a);
  remove_artifact_law c a : implements stands_for (ms_remove_artifact c a) (v_remove_artifact c a);
  bind_reference_law c n x d :
    implements stands_for (ms_bind_reference c n x d) (v_bind_reference c n x);
  reference_law c n : implements stands_for (ms_reference c n) (v_reference c n);
  delete_reference_law c n :
    implements stands_for (ms_delete_reference c n) (v_delete_reference c n);
  reclaim_candidates_law c limit :
    implements stands_for (ms_reclaim_candidates c limit) (v_reclaim_candidates c limit);
  requeue_law c a old new :
    is_u64 old -> is_u64 new -> implements stands_for (ms_requeue c a old new) (v_requeue c a old new);
  evict_law c a t : is_u64 t -> implements stands_for (ms_evict c a t) (v_evict c a t);
  create_channel_law x : implements stands_for (ms_create_channel x) (v_create_channel x);
  channel_law c : implements stands_for (ms_channel c) (v_channel c);
  store_channel_law x : implements stands_for (ms_store_channel x) (v_store_channel x);
  channels_law : implements stands_for ms_channels v_channels;
  delete_channel_data_law c :
    implements stands_for (ms_delete_channel_data c) (v_delete_channel_data c);
  finish_channel_deletion_law c :
    implements stands_for (ms_finish_channel_deletion c) (v_finish_channel_deletion c);
  health_law : implements stands_for ms_health (fun v => (Ok tt, v));
  (** opening may fail, and changes no view *)
  open_law v s : stands_for v s -> stands_for v (ms_open s).2;
  (** The facts about any view a store stands for. *)
  view_queue_u64 v s c t a : stands_for v s -> (c, t, a) ∈ mv_queue v -> is_u64 t;
  view_channel_id v s c x : stands_for v s -> mv_channels v !! c = Some x -> channel_id x = c
}.
End Interface.

(** ** The implementation *)

Section Implementation.
Context {UL : UlidLib} {ULL : UlidLaws}.
Context {PA : Postcard ArtifactMetadata} {PAL : PostcardLaws ArtifactMetadata}.
Context {PR : Postcard ReferenceRecord} {PRL : PostcardLaws ReferenceRecord}.
Context {PC : Postcard ChannelRecord} {PCL : PostcardLaws ChannelRecord}.
Context {DB : Type} {RK : RocksDB DB} {RKL : RocksDBLaws DB}.

#[export] Instance RocksMetadata : MetadataStore DB := {
  ms_commit_publication := commit_publication;
  ms_artifact := artifact;
  ms_remove_artifact := remove_artifact;
  ms_bind_reference := bind_reference;
  ms_reference := reference;
  ms_delete_reference := delete_reference;
  ms_reclaim_candidates := reclaim_candidates;
  ms_requeue := requeue;
  ms_evict := evict;
  ms_create_channel := create_channel;
  ms_channel := channel;
  ms_store_channel := store_channel;
  ms_channels := channels;
  ms_delete_channel_data := delete_channel_data;
  ms_finish_channel_deletion := finish_channel_deletion;
  ms_health := health;
  ms_open := verify_store_format
}.

#[export] Instance RocksMetadata_laws : MetadataLaws DB.
Proof.
  refine {| stands_for := fun v db => represents v (rows_of db) |}.
  - intros. by apply commit_publication_refines.
  - apply artifact_refines.
  - apply remove_artifact_refines.
  - apply bind_reference_refines.
  - apply reference_refines.
  - apply delete_reference_refines.
  - apply reclaim_candidates_refines.
  - intros. by apply requeue_refines.
  - intros. by apply evict_refines.
  - apply create_channel_refines.
  - apply channel_refines.
  - apply store_channel_refines.
  - apply channels_refines.
  - apply delete_channel_data_refines.
  - apply finish_channel_deletion_refines.
  - intros db v Hv. cbn. unfold health. destruct (property_int_value db); [done|]. right. split; [|by left].
    left. eauto.
  - apply verify_store_format_keeps.
  - intros v db c t a Hv. apply (rep_queue_u64 _ _ Hv).
  - intros v db c x Hv. apply (rep_channel_id _ _ Hv).
Defined.
End Implementation.

(** ** Histories *)

Section Histories.
Context {UL : UlidLib}.

Inductive command :=
| CommitPublication (c : ChannelId) (a : ArtifactId) (m : ArtifactMetadata)
    (name : option (bytes * ReferenceRecord)) (d : Durability)
| ReadArtifact (c : ChannelId) (a : ArtifactId)
| RemoveArtifact (c : ChannelId) (a : ArtifactId)
| BindReference (c : ChannelId) (n : bytes) (x : ReferenceRecord) (d : Durability)
| ReadReference (c : ChannelId) (n : bytes)
| DeleteReference (c : ChannelId) (n : bytes)
| ReclaimCandidates (c : ChannelId) (limit : nat)
| Requeue (c : ChannelId) (a : ArtifactId) (old new : Z)
| Evict (c : ChannelId) (a : ArtifactId) (t : Z)
| CreateChannel (x : ChannelRecord)
| ReadChannel (c : ChannelId)
| StoreChannel (x : ChannelRecord)
| ReadChannels
| DeleteChannelData (c : ChannelId)
| FinishChannelDeletion (c : ChannelId).

Inductive response :=
| RUnit
| RBool (b : bool)
| RArtifact (m : option ArtifactMetadata)
| RReference (x : option ReferenceRecord)
| RCandidates (l : list Candidate)
| REvicted (e : Evicted)
| RChannel (x : option ChannelRecord)
| RChannels (l : list ChannelRecord).

(** The deadlines a caller passes are machine integers. *)
Definition command_wf (cmd : command) : Prop :=
  match cmd with
  | CommitPublication _ _ m _ _ => is_u64 (eligible_at m)
  | Requeue _ _ old new => is_u64 old /\ is_u64 new
  | Evict _ _ t => is_u64 t
  | _ => True
  end.

Definition answering {S A} (f : A -> response) (op : M S MetadataError A)
    : M S MetadataError response := x ← op; mret (f x).

Definition execute {S} `{!MetadataStore S} (cmd : command) : M S MetadataError response :=
  match cmd with
  | CommitPublication c a m name d => answering RBool (ms_commit_publication c a m name d)
  | ReadArtifact c a => answering RArtifact (ms_artifact c a)
  | RemoveArtifact c a => answering (fun _ => RUnit) (ms_remove_artifact c a)
  | BindReference c n x d => answering (fun _ => RUnit) (ms_bind_reference c n x d)
  | ReadReference c n => answering RReference (ms_reference c n)
  | DeleteReference c n => answering (fun _ => RUnit) (ms_delete_reference c n)
  | ReclaimCandidates c limit => answering RCandidates (ms_reclaim_candidates c limit)
  | Requeue c a old new => answering (fun _ => RUnit) (ms_requeue c a old new)
  | Evict c a t => answering REvicted (ms_evict c a t)
  | CreateChannel x => answering (fun _ => RUnit) (ms_create_channel x)
  | ReadChannel c => answering RChannel (ms_channel c)
  | StoreChannel x => answering (fun _ => RUnit) (ms_store_channel x)
  | ReadChannels => answering RChannels ms_channels
  | DeleteChannelData c => answering (fun _ => RUnit) (ms_delete_channel_data c)
  | FinishChannelDeletion c => answering (fun _ => RUnit) (ms_finish_channel_deletion c)
  end.

Definition v_answering {A} (f : A -> response) (spec : transition A) : transition response :=
  fun v => let '(r, v') := spec v in
           (match r with Ok x => Ok (f x) | Err e => Err e end, v').

Definition v_execute (cmd : command) : transition response :=
  match cmd with
  | CommitPublication c a m name _ => v_answering RBool (v_commit_publication c a m name)
  | ReadArtifact c a => v_answering RArtifact (v_artifact c a)
  | RemoveArtifact c a => v_answering (fun _ => RUnit) (v_remove_artifact c a)
  | BindReference c n x _ => v_answering (fun _ => RUnit) (v_bind_reference c n x)
  | ReadReference c n => v_answering RReference (v_reference c n)
  | DeleteReference c n => v_answering (fun _ => RUnit) (v_delete_reference c n)
  | ReclaimCandidates c limit => v_answering RCandidates (v_reclaim_candidates c limit)
  | Requeue c a old new => v_answering (fun _ => RUnit) (v_requeue c a old new)
  | Evict c a t => v_answering REvicted (v_evict c a t)
  | CreateChannel x => v_answering (fun _ => RUnit) (v_create_channel x)
  | ReadChannel c => v_answering RChannel (v_channel c)
  | StoreChannel x => v_answering (fun _ => RUnit) (v_store_channel x)
  | ReadChannels => v_answering RChannels v_channels
  | DeleteChannelData c => v_answering (fun _ => RUnit) (v_delete_channel_data c)
  | FinishChannelDeletion c => v_answering (fun _ => RUnit) (v_finish_channel_deletion c)
  end.

(** Runs every command, recording each outcome. *)
Fixpoint run_history {S} `{!MetadataStore S} (cmds : list command) (s : S)
    : list (result MetadataError response) * S :=
  match cmds with
  | [] => ([], s)
  | cmd :: cmds =>
      let '(r, s1) := execute cmd s in
      let '(rs, s2) := run_history cmds s1 in (r :: rs, s2)
  end.

(** The histories the view allows: each command answers and moves as its transition, or faults
    and has happened completely or not at all. *)
Inductive allowed : MetaView -> list command -> list (result MetadataError response) -> MetaView -> Prop :=
| allowed_nil v : allowed v [] [] v
| allowed_step v cmd r v1 cmds rs v2 :
    v_execute cmd v = (r, v1) -> allowed v1 cmds rs v2 -> allowed v (cmd :: cmds) (r :: rs) v2
| allowed_fault v cmd e v1 v' cmds rs v2 :
    fault e -> v_execute cmd v = (v1, v') -> allowed v cmds rs v2 ->
    allowed v (cmd :: cmds) (Err e :: rs) v2
| allowed_fault_applied v cmd e r v1 cmds rs v2 :
    fault e -> v_execute cmd v = (r, v1) -> allowed v1 cmds rs v2 ->
    allowed v (cmd :: cmds) (Err e :: rs) v2.

Section Refinement.
Context {S : Type} {MS : MetadataStore S} {ML : MetadataLaws S}.

Lemma answering_implements {A} R (f : A -> response) (op : M S MetadataError A) spec :
  implements R op spec -> implements R (answering f op) (v_answering f spec).
Proof.
  intros H s v Hv. unfold v_answering, answering, mbind, M_bind. specialize (H s v Hv).
  destruct (spec v) as [r v'], (op s) as [[x|e] s'].
  - destruct H as [-> ?]. done.
  - destruct H as [[-> ?]|?]; [by left|by right].
Qed.

Lemma execute_implements cmd :
  command_wf cmd -> implements stands_for (execute cmd) (v_execute cmd).
Proof.
  destruct cmd; cbn; intros Hwf; apply answering_implements.
  - by apply commit_publication_law.
  - apply artifact_law.
  - apply remove_artifact_law.
  - apply bind_reference_law.
  - apply reference_law.
  - apply delete_reference_law.
  - apply reclaim_candidates_law.
  - destruct Hwf. by apply requeue_law.
  - by apply evict_law.
  - apply create_channel_law.
  - apply channel_law.
  - apply store_channel_law.
  - apply channels_law.
  - apply delete_channel_data_law.
  - apply finish_channel_deletion_law.
Qed.

Lemma run_history_allowed cmds s v :
  Forall command_wf cmds -> stands_for v s ->
  let '(rs, s') := run_history cmds s in exists v', allowed v cmds rs v' /\ stands_for v' s'.
Proof.
  revert s v. induction cmds as [|cmd cmds IH]; intros s v; cbn [run_history].
  { intros _ Hv. eexists; split; [constructor|done]. }
  intros [Hc Hcs]%Forall_cons Hv. pose proof (execute_implements cmd Hc s v Hv) as H.
  destruct (v_execute cmd v) as [r v1] eqn:Hspec, (execute cmd s) as [[x|e] s1].
  - destruct H as [-> H1]. specialize (IH s1 v1 Hcs H1).
    destruct (run_history cmds s1) as [rs s2]. destruct IH as (v' & ? & ?).
    eauto using allowed.
  - destruct H as [[-> H1]|[Hf [H1|H1]]]; specialize (IH s1 _ Hcs H1);
      destruct (run_history cmds s1) as [rs s2]; destruct IH as (v' & ? & ?);
      eauto using allowed.
Qed.
End Refinement.
End Histories.
