(* ===== verification/MetadataClaims.v ===== *)
(** * What the metadata store guarantees

    The properties of [RocksMetadata] stated on the rows themselves, and the evaluation of each on
    a concrete store. *)

From S2P Require Import Prelude Externals Domain Records Concrete Metadata MetadataView MetadataRefinement MetadataStore.

(** The store a fresh process finds: one publication in channel [a], its binding, a second
    artifact with an earlier deadline, and one artifact of channel [b]. *)
Section Samples.
#[local] Existing Instances toy_ulid mem_rocksdb.
#[local] Instance sample_pa : Postcard ArtifactMetadata := toy_postcard _.
#[local] Instance sample_pr : Postcard ReferenceRecord := toy_postcard _.
#[local] Instance sample_pc : Postcard ChannelRecord := toy_postcard _.

Definition sample_metadata (t : Z) : ArtifactMetadata :=
  {| content_len := 3; content_type := None; created_at := 10; eligible_at := t;
     stored_len := 3; encoding := Identity |}.

Definition sample_binding (content : string) : ReferenceRecord :=
  {| ref_artifact := sample_artifact content; updated_at := 10; etag := None; last_modified := None |}.

Definition sample_commands : list command := [
  CommitPublication channel_a (sample_artifact "one") (sample_metadata 500)
    (Some (lit "latest", sample_binding "one")) Durable;
  CommitPublication channel_a (sample_artifact "two") (sample_metadata 300) None BestEffort;
  CommitPublication channel_b (sample_artifact "one") (sample_metadata 400) None BestEffort ].

Definition sample_db : MemDB := (run_history sample_commands empty_db).2.
End Samples.

Section Claims.
Context {UL : UlidLib} {ULL : UlidLaws}.
Context {PA : Postcard ArtifactMetadata} {PAL : PostcardLaws ArtifactMetadata}.
Context {PR : Postcard ReferenceRecord} {PRL : PostcardLaws ReferenceRecord}.
Context {PC : Postcard ChannelRecord} {PCL : PostcardLaws ChannelRecord}.
Context {DB : Type} {RK : RocksDB DB} {RKL : RocksDBLaws DB}.

Lemma empty_represents (r : rows) : r = ∅ -> represents empty_view r.
Proof.
  intros ->. split; cbn; intros *; rewrite ?lookup_empty. all: done.
Qed.

(** C2: Every sequence of metadata operations on RocksDB, with any of them failing, is a sequence
    of transitions of the typed view: each success answers and moves as its transition says, and
    each failed write has happened completely or not at all. *)
Theorem metadata_history_refines (cmds : list command) (db : DB) (v : MetaView) :
  Forall command_wf cmds -> represents v (rows_of db) ->
  let '(rs, db') := run_history cmds db in
  exists v', allowed v cmds rs v' /\ represents v' (rows_of db').
Proof. intros Hwf Hv. exact (run_history_allowed cmds db v Hwf Hv). Qed.

(** Deleting a channel's data removes exactly the rows under that channel: every artifact,
    reference and queue row of the channel is gone, every row of another channel is untouched,
    and so is the registry. *)
Theorem delete_channel_data_exact (c : ChannelId) (db db' : DB) :
  delete_channel_data c db = (Ok tt, db') ->
  (forall (f : column_family) c' (rest : bytes), f ∈ [ARTIFACTS; REFERENCES; EVICTION] ->
     rows_of db' !! (f, as_key c' ++ rest)
     = if decide (c' = c) then None else rows_of db !! (f, as_key c' ++ rest))
  /\ (forall k : bytes, rows_of db' !! (CHANNELS, k) = rows_of db !! (CHANNELS, k)).
Proof.
  unfold delete_channel_data, write_sync. intros H.
  destruct (write_opt true _ db) as [[[]|e] db1] eqn:Hw; [|done]. injection H as <-.
  apply write_opt_ok in Hw as ->. split.
  - intros f c' rest Hf. apply lookup_wiped; set_solver.
  - intros k. etrans; [apply (lookup_delete_ranges CHANNELS)|]. rewrite decide_False; [done|]. by intros (? & ? & ?).
Qed.

(** The reclaim scan of a channel returns its queue oldest deadline first, without
    repetition, and returns everything when the limit allows; a candidate it leaves out is no
    older than any it returns. *)
Theorem reclaim_candidates_oldest_first (c : ChannelId) limit (db db' : DB) v l :
  represents v (rows_of db) -> reclaim_candidates c limit db = (Ok l, db') ->
  StronglySorted cand_le l /\ NoDup l /\ (length l <= limit)%nat
  /\ (forall x, x ∈ l -> (c, cand_eligible_at x, cand_artifact x) ∈ mv_queue v)
  /\ (forall x, (c, cand_eligible_at x, cand_artifact x) ∈ mv_queue v -> x ∉ l ->
        length l = limit /\ Forall (fun y => cand_le y x) l).
Proof.
  intros Hv Hr. pose proof (reclaim_candidates_refines c limit db v Hv) as H. rewrite Hr in H.
  cbn in H. destruct H as [[= <-] _].
  pose proof (oldest_sorted c v) as Hs.
  pose proof (NoDup_oldest c v) as Hnd. rewrite <- (take_drop limit (oldest c v)) in Hs, Hnd.
  apply NoDup_app in Hnd as (Hnd & _ & _). apply StronglySorted_app in Hs as (Hall & Hs & _).
  split; [done|]. split; [done|]. split; [rewrite length_take; lia|]. split.
  - intros x Hx. apply elem_of_oldest. rewrite <- (take_drop limit). set_solver.
  - intros x Hx Hni. apply elem_of_oldest in Hx. rewrite <- (take_drop limit), elem_of_app in Hx.
    destruct Hx as [?|Hx]; [done|]. split.
    + rewrite length_take. destruct (decide (limit <= length (oldest c v))%nat); [lia|].
      rewrite drop_ge in Hx by lia. set_solver.
    + apply Forall_forall. intros y Hy. by apply Hall.
Qed.

(** A queue key decodes to the deadline and artifact it was made from, and two keys of one
    channel compare bytewise as their deadlines do, equal deadlines as their digests. *)
Theorem eviction_key_codec (c : ChannelId) t a t' a' :
  is_u64 t -> is_u64 t' ->
  decode_eviction_key (eviction_key c t a) = Ok (t, a)
  /\ (bytes_le (eviction_key c t a) (eviction_key c t' a')
      <-> t < t' \/ (t = t' /\ bytes_le (as_bytes (digest a)) (as_bytes (digest a')))).
Proof.
  intros Ht Ht'. split; [by apply decode_eviction_key_spec|]. by rewrite eviction_key_order.
Qed.
End Claims.

Section Witnesses.
#[local] Existing Instances toy_ulid toy_ulid_laws mem_rocksdb mem_rocksdb_laws.
#[local] Existing Instances sample_pa sample_pr sample_pc.
#[local] Instance sample_pal : PostcardLaws ArtifactMetadata := toy_postcard_laws _.
#[local] Instance sample_prl : PostcardLaws ReferenceRecord := toy_postcard_laws _.
#[local] Instance sample_pcl : PostcardLaws ChannelRecord := toy_postcard_laws _.

Lemma sample_commands_wf : Forall command_wf sample_commands.
Proof. repeat constructor; vm_compute; done. Qed.

Lemma metadata_history_refines_witness :
  let '(rs, db') := run_history sample_commands empty_db in
  exists v', allowed empty_view sample_commands rs v' /\ represents v' (rows_of db').
Proof.
  exact (metadata_history_refines sample_commands empty_db empty_view sample_commands_wf
           (empty_represents _ eq_refl)).
Defined.

Definition wiped_db : MemDB := (delete_channel_data channel_a sample_db).2.

Lemma sample_wiped : delete_channel_data channel_a sample_db = (Ok tt, wiped_db).
Proof. apply run_eq. vm_compute. reflexivity. Qed.

Lemma delete_channel_data_exact_witness :
  rows_of wiped_db !! (ARTIFACTS, artifact_key channel_b (sample_artifact "one"))
  = rows_of sample_db !! (ARTIFACTS, artifact_key channel_b (sample_artifact "one")).
Proof.
  destruct (delete_channel_data_exact channel_a sample_db wiped_db sample_wiped) as [H _].
  etrans; [apply (H ARTIFACTS channel_b (as_bytes (digest (sample_artifact "one")))); set_solver|].
  rewrite decide_False; [reflexivity|exact channels_differ].
Defined.

(** The oldest of channel [a]'s two artifacts is the second one published. *)
Lemma sample_oldest :
  reclaim_candidates channel_a 1 sample_db
  = (Ok [ {| cand_eligible_at := 300; cand_artifact := sample_artifact "two" |} ], sample_db).
Proof. unfold reclaim_candidates. cbn [iterator_cf mem_rocksdb]. f_equal. Qed.

Lemma sample_represented : exists v, represents v (rows_of sample_db).
Proof.
  pose proof (run_history_allowed sample_commands empty_db empty_view sample_commands_wf
                (empty_represents _ eq_refl)) as H.
  unfold sample_db. destruct (run_history sample_commands empty_db) as [rs db'].
  destruct H as (v & _ & Hv). by exists v.
Qed.

Lemma reclaim_candidates_oldest_first_witness :
  exists v, StronglySorted cand_le [ {| cand_eligible_at := 300; cand_artifact := sample_artifact "two" |} ]
    /\ represents v (rows_of sample_db).
Proof.
  destruct sample_represented as [v Hv]. exists v. split; [|exact Hv].
  destruct (reclaim_candidates_oldest_first channel_a 1 sample_db sample_db v _ Hv sample_oldest) as [H _].
  exact H.
Defined.

Lemma eviction_key_codec_witness :
  decode_eviction_key (eviction_key channel_a 300 (sample_artifact "two")) = Ok (300, sample_artifact "two").
Proof.
  apply (eviction_key_codec channel_a 300 (sample_artifact "two") 500 (sample_artifact "one"));
    vm_compute; split; discriminate.
Defined.
End Witnesses.

(** ** Between a read and a write

    A call of the store is several calls of RocksDB.  Whoever changes a row of an artifact holds its
    stripe, so the row a call read is still there when it writes; except that the deletion of a
    channel wipes its rows under the channel's gate, which a re-queueing does not hold. *)

Section Halves.
Context {UL : UlidLib} {PA : Postcard ArtifactMetadata} {DB : Type} {RK : RocksDB DB}.

(** What [requeue] does with the row it read. *)
Definition requeue_write (channel : ChannelId) (artifact : ArtifactId) (old_eligible_at new_eligible_at : Z) (b : bytes) : M DB MetadataError unit :=
  metadata ← (decoded b : M DB MetadataError ArtifactMetadata);
  if negb (eligible_at metadata =? old_eligible_at) then mret tt
  else
    record ← encoded (set_eligible_at metadata new_eligible_at);
    write_plain [DeleteCf EVICTION (eviction_key channel old_eligible_at artifact);
                 PutCf EVICTION (eviction_key channel new_eligible_at artifact) [];
                 PutCf ARTIFACTS (artifact_key channel artifact) record].

Lemma requeue_halves channel artifact old_eligible_at new_eligible_at :
  requeue channel artifact old_eligible_at new_eligible_at
  = (found ← read ARTIFACTS (artifact_key channel artifact);
     match found with None => mret tt | Some b => requeue_write channel artifact old_eligible_at new_eligible_at b end).
Proof. reflexivity. Qed.
End Halves.

Section Interrupted.
#[local] Existing Instances toy_ulid mem_rocksdb sample_pa sample_pr sample_pc.

(** The channel is deleted between the halves. *)
Definition deleted_db : MemDB := (finish_channel_deletion channel_a (delete_channel_data channel_a sample_db).2).2.

Lemma requeue_outlives_a_deletion :
  match (read ARTIFACTS (artifact_key channel_a (sample_artifact "two")) sample_db).1 with
  | Ok (Some b) =>
      let db := (requeue_write channel_a (sample_artifact "two") 300 900 b deleted_db).2 in
      match (channel channel_a db).1, (artifact channel_a (sample_artifact "two") db).1 with
      | Ok None, Ok (Some row) => eligible_at row =? 900
      | _, _ => false
      end
  | _ => false
  end = true.
Proof. vm_compute. reflexivity. Qed.
End Interrupted.
