(* ===== verification/Space.v ===== *)
(** * The space ledger ([cache/space.rs]) and the [Reserver] interface ([storage/local/mod.rs])

    Disk safety rests on a ledger of one free-space observation, the outstanding reservations and
    the bytes committed since the observation.  Every method takes the one mutex for its whole
    body, so each is one atomic step on [State]; [refresh] is the exception, because it samples
    the filesystem before it takes the mutex, and is therefore two steps here. *)

From S2P Require Import Prelude.

(** ** What staging relies on *)

Class Reserver (R : Type) := {
  try_reserve : Z -> R -> bool * R;
  release : Z -> R -> R;
  commit : Z -> R -> R
}.

(** [holds r t]: [t] bytes are reserved and neither released nor committed.  The laws are what a
    reservation needs to account for its own share whatever the others hold. *)
Class ReserverLaws (R : Type) `{Reserver R} := {
  holds : R -> Z -> Prop;
  committed : R -> Z;
  holds_range r t : holds r t -> is_u64 t;
  try_reserve_true b r r' t :
    0 <= b -> try_reserve b r = (true, r') -> holds r t ->
    holds r' (t + b) /\ committed r' = committed r;
  try_reserve_false b r r' : try_reserve b r = (false, r') -> r' = r;
  release_law b r t :
    0 <= b <= t -> holds r t -> holds (release b r) (t - b) /\ committed (release b r) = committed r;
  commit_law b r t :
    0 <= b <= t -> holds r t ->
    holds (commit b r) (t - b) /\ committed (commit b r) = saturating_add (committed r) b
}.

(** ** The ledger *)

Record SpacePolicy := {
  low_watermark : Z;
  high_watermark : Z;
  emergency_headroom : Z
}.

Inductive Mode := Normal | Reclaiming.

#[export] Instance Mode_eq_dec : EqDecision Mode.
Proof. solve_decision. Defined.

Record SpaceSnapshot := { snap_free_observed : Z; snap_reserved : Z; snap_committed_since : Z }.

Record State := {
  free_observed : Z;
  reserved : Z;
  committed_since : Z;
  degraded_ : bool;
  reclaiming : bool
}.

Definition set_reserved (s : State) (x : Z) : State :=
  {| free_observed := free_observed s; reserved := x; committed_since := committed_since s;
     degraded_ := degraded_ s; reclaiming := reclaiming s |}.
Definition set_committed_since (s : State) (x : Z) : State :=
  {| free_observed := free_observed s; reserved := reserved s; committed_since := x;
     degraded_ := degraded_ s; reclaiming := reclaiming s |}.
Definition set_reclaiming (s : State) (b : bool) : State :=
  {| free_observed := free_observed s; reserved := reserved s; committed_since := committed_since s;
     degraded_ := degraded_ s; reclaiming := b |}.

(** A [SpaceLedger] is its policy and its guarded state; the source of observations is an input
    of [refresh]. *)
Record SpaceLedger := { policy : SpacePolicy; ledger_state : State }.

Definition with_state (l : SpaceLedger) (s : State) : SpaceLedger :=
  {| policy := policy l; ledger_state := s |}.

(** [StatvfsFreeSpace::free_bytes], from the counts [statvfs] reports, if it succeeds. *)
Definition statvfs_free_bytes (stats : option (Z * Z)) : option Z :=
  match stats with
  | Some (f_bavail, f_frsize) => Some (Z.min (f_bavail * f_frsize) u64_max)
  | None => None
  end.

(** The locked half of [refresh], given what the sample taken before the lock returned. *)
Definition refresh (observation : option Z) (l : SpaceLedger) : SpaceLedger :=
  let s := ledger_state l in
  with_state l
    (match observation with
     | Some free =>
         {| free_observed := free; reserved := reserved s; committed_since := 0;
            degraded_ := false; reclaiming := reclaiming s |}
     | None =>
         {| free_observed := free_observed s; reserved := reserved s;
            committed_since := committed_since s; degraded_ := true; reclaiming := reclaiming s |}
     end).

Definition SpaceLedger_new (p : SpacePolicy) (first : option Z) : SpaceLedger :=
  refresh first
    {| policy := p;
       ledger_state := {| free_observed := 0; reserved := 0; committed_since := 0;
                   degraded_ := true; reclaiming := false |} |}.

Definition available_locked (l : SpaceLedger) (s : State) : Z :=
  let spoken_for :=
    saturating_add (saturating_add (reserved s) (committed_since s)) (emergency_headroom (policy l)) in
  saturating_sub (free_observed s) spoken_for.

Definition mode (l : SpaceLedger) : Mode * SpaceLedger :=
  let s := ledger_state l in
  let available := available_locked l s in
  if reclaiming s then
    if high_watermark (policy l) <=? available
    then (Normal, with_state l (set_reclaiming s false))
    else (Reclaiming, l)
  else if available <? low_watermark (policy l)
  then (Reclaiming, with_state l (set_reclaiming s true))
  else (Normal, l).

Definition degraded (l : SpaceLedger) : bool := degraded_ (ledger_state l).

Definition snapshot (l : SpaceLedger) : SpaceSnapshot :=
  {| snap_free_observed := free_observed (ledger_state l); snap_reserved := reserved (ledger_state l);
     snap_committed_since := committed_since (ledger_state l) |}.

Definition SpaceLedger_try_reserve (b : Z) (l : SpaceLedger) : bool * SpaceLedger :=
  let s := ledger_state l in
  if degraded_ s then (false, l)
  else if available_locked l s <? b then (false, l)
  else (true, with_state l (set_reserved s (saturating_add (reserved s) b))).

Definition SpaceLedger_release (b : Z) (l : SpaceLedger) : SpaceLedger :=
  let s := ledger_state l in with_state l (set_reserved s (saturating_sub (reserved s) b)).

Definition SpaceLedger_commit (b : Z) (l : SpaceLedger) : SpaceLedger :=
  let s := set_reserved (ledger_state l) (saturating_sub (reserved (ledger_state l)) b) in
  with_state l (set_committed_since s (saturating_add (committed_since s) b)).

#[export] Instance SpaceLedger_reserver : Reserver SpaceLedger := {
  try_reserve := SpaceLedger_try_reserve;
  release := SpaceLedger_release;
  commit := SpaceLedger_commit
}.

(** *** Sequences of calls *)

Inductive ledger_call :=
| CallRefresh (observation : option Z)
| CallReserve (b : Z)
| CallRelease (b : Z)
| CallCommit (b : Z)
| CallMode.

#[export] Instance ledger_call_eq_dec : EqDecision ledger_call.
Proof. solve_decision. Defined.

Definition ledger_step (c : ledger_call) (l : SpaceLedger) : SpaceLedger :=
  match c with
  | CallRefresh o => refresh o l
  | CallReserve b => (SpaceLedger_try_reserve b l).2
  | CallRelease b => SpaceLedger_release b l
  | CallCommit b => SpaceLedger_commit b l
  | CallMode => (mode l).2
  end.

Definition ledger_run (cs : list ledger_call) (l : SpaceLedger) : SpaceLedger :=
  fold_left (fun l c => ledger_step c l) cs l.

(** The capacity available at each call of [mode] in the run, newest first, on top of the
    earlier ones. *)
Fixpoint mode_history (cs : list ledger_call) (l : SpaceLedger) (seen : list Z) : list Z :=
  match cs with
  | [] => seen
  | CallMode :: cs => mode_history cs (mode l).2 (available_locked l (ledger_state l) :: seen)
  | c :: cs => mode_history cs (ledger_step c l) seen
  end.

(** The byte counts a caller passes are machine integers. *)
Definition call_wf (c : ledger_call) : Prop :=
  match c with
  | CallRefresh (Some free) => is_u64 free
  | CallRefresh None | CallMode => True
  | CallReserve b | CallRelease b | CallCommit b => is_u64 b
  end.

Definition ledger_wf (l : SpaceLedger) : Prop :=
  is_u64 (free_observed (ledger_state l)) /\ is_u64 (reserved (ledger_state l))
  /\ is_u64 (committed_since (ledger_state l)) /\ is_u64 (emergency_headroom (policy l))
  /\ is_u64 (low_watermark (policy l)) /\ is_u64 (high_watermark (policy l)).

(** What the ledger hands out never exceeds the observation less the emergency headroom. *)
Definition solvent (l : SpaceLedger) : Prop :=
  reserved (ledger_state l) + committed_since (ledger_state l) + emergency_headroom (policy l)
  <= free_observed (ledger_state l).

(** Calls that follow the protocol: no new observation, and only outstanding bytes are settled. *)
Fixpoint settles (cs : list ledger_call) (l : SpaceLedger) : Prop :=
  match cs with
  | [] => True
  | c :: cs =>
      match c with
      | CallRefresh _ => False
      | CallRelease b | CallCommit b => 0 <= b <= reserved (ledger_state l)
      | CallReserve b => is_u64 b
      | CallMode => True
      end /\ settles cs (ledger_step c l)
  end.

(** Hysteresis, over the capacities seen at past calls of [mode], newest first: reclaiming is on
    when capacity fell below the low mark and has not reached the high mark since. *)
Definition hysteresis (p : SpacePolicy) (seen : list Z) : Prop :=
  exists recent x older,
    seen = recent ++ x :: older /\ x < low_watermark p /\ Forall (fun y => y < high_watermark p) recent.

(** ** Lemmas *)

Lemma available_exact l :
  ledger_wf l ->
  available_locked l (ledger_state l)
  = Z.max 0 (free_observed (ledger_state l)
             - (reserved (ledger_state l) + committed_since (ledger_state l) + emergency_headroom (policy l))).
Proof.
  intros (Hf & Hr & Hc & Hh & _). unfold available_locked, saturating_sub, saturating_add, is_u64 in *. lia.
Qed.

Lemma ledger_step_policy c l : policy (ledger_step c l) = policy l.
Proof.
  destruct c; cbn; try done.
  - unfold SpaceLedger_try_reserve. by repeat case_match.
  - unfold mode. by repeat case_match.
Qed.

Lemma ledger_run_policy cs l : policy (ledger_run cs l) = policy l.
Proof.
  unfold ledger_run. revert l. induction cs as [|c cs IH]; intros l; cbn; [done|].
  by rewrite IH, ledger_step_policy.
Qed.

Lemma ledger_step_wf c l : call_wf c -> ledger_wf l -> ledger_wf (ledger_step c l).
Proof.
  intros Hc Hl. pose proof Hl as (Hf & Hr & Hcs & Hh & Hlo & Hhi).
  assert (is_u64 0) by (vm_compute; split; discriminate).
  destruct c as [[free|]|b|b|b|]; cbn in *.
  - by repeat split; try apply Hc; try apply Hr; cbn; try apply Hh; try apply Hlo; try apply Hhi.
  - done.
  - unfold SpaceLedger_try_reserve. repeat case_match; try done. cbn.
    unfold ledger_wf; cbn. eauto 10 with flywheel.
  - unfold SpaceLedger_release, ledger_wf; cbn. eauto 10 with flywheel.
  - unfold SpaceLedger_commit, ledger_wf; cbn. eauto 10 with flywheel.
  - unfold mode. by repeat case_match.
Qed.

Lemma ledger_run_wf cs l : Forall call_wf cs -> ledger_wf l -> ledger_wf (ledger_run cs l).
Proof.
  unfold ledger_run. revert l. induction cs as [|c cs IH]; intros l; cbn; [done|].
  intros [Hc Hcs]%Forall_cons Hl. apply IH; [done|]. by apply ledger_step_wf.
Qed.

Lemma SpaceLedger_new_wf p first :
  is_u64 (emergency_headroom p) -> is_u64 (low_watermark p) -> is_u64 (high_watermark p) ->
  (forall free, first = Some free -> is_u64 free) -> ledger_wf (SpaceLedger_new p first).
Proof.
  intros H1 H2 H3 Hf. assert (is_u64 0) by (vm_compute; split; discriminate).
  destruct first; unfold ledger_wf, SpaceLedger_new, refresh; cbn; eauto 10.
Qed.

Lemma try_reserve_granted b l l' :
  ledger_wf l -> 0 <= b -> SpaceLedger_try_reserve b l = (true, l') ->
  degraded_ (ledger_state l) = false /\ is_u64 b
  /\ (0 < b -> reserved (ledger_state l) + b + committed_since (ledger_state l) + emergency_headroom (policy l)
               <= free_observed (ledger_state l))
  /\ l' = with_state l (set_reserved (ledger_state l) (saturating_add (reserved (ledger_state l)) b)).
Proof.
  intros Hl Hb. unfold SpaceLedger_try_reserve.
  destruct (degraded_ (ledger_state l)) eqn:Hd; [done|].
  destruct (available_locked l (ledger_state l) <? b) eqn:Ha; [done|]. intros [= <-].
  apply Z.ltb_ge in Ha. rewrite available_exact in Ha by done.
  pose proof Hl as (Hf & Hr & Hc & Hh & _). unfold is_u64 in *. repeat split; lia.
Qed.

(** The ledger is a [Reserver]. *)
#[export] Instance SpaceLedger_reserver_laws : ReserverLaws SpaceLedger.
Proof.
  refine {| holds := fun l t => ledger_wf l /\ reserved (ledger_state l) = t;
            committed := fun l => committed_since (ledger_state l) |}.
  - intros l t [(_ & Hr & _) <-]. exact Hr.
  - intros b l l' t Hpos Hr [Hl <-]. cbn in Hr. pose proof Hr as (_ & Hb & Hs & Heq)%try_reserve_granted; [|done..].
    pose proof (ledger_step_wf (CallReserve b) l Hb Hl) as Hwf. cbn in Hwf. rewrite Hr in Hwf. subst l'. cbn in *.
    split; [|done]. split; [done|]. destruct Hl as (Hf & Hre & Hc & Hh & _).
    unfold saturating_add, is_u64 in *. destruct (decide (0 < b)); [specialize (Hs ltac:(lia))|]; lia.
  - intros b l l'. cbn. unfold SpaceLedger_try_reserve. repeat case_match; congruence.
  - intros b l t Hb [Hl <-]. pose proof (proj1 (proj2 Hl)) as Hr.
    assert (is_u64 b) by (unfold is_u64 in *; lia).
    split; [|done]. split; [by apply (ledger_step_wf (CallRelease b))|]. cbn.
    apply saturating_sub_exact. lia.
  - intros b l t Hb [Hl <-]. pose proof (proj1 (proj2 Hl)) as Hr.
    assert (is_u64 b) by (unfold is_u64 in *; lia).
    split; [|done]. split; [by apply (ledger_step_wf (CallCommit b))|]. cbn.
    apply saturating_sub_exact. lia.
Defined.

Lemma hysteresis_cons p x seen :
  hysteresis p (x :: seen) <-> x < low_watermark p \/ (x < high_watermark p /\ hysteresis p seen).
Proof.
  split.
  - intros ([|y recent] & z & older & Heq & Hz & HF); cbn in Heq; simplify_eq; [by left|].
    apply Forall_cons in HF as [Hy HF]. right. split; [done|]. by exists recent, z, older.
  - intros [H|(H & recent & z & older & -> & Hz & HF)].
    + by exists [], x, seen.
    + exists (x :: recent), z, older. auto.
Qed.

Lemma mode_step l :
  (mode l).1 = (if reclaiming (ledger_state (mode l).2) then Reclaiming else Normal)
  /\ reclaiming (ledger_state (mode l).2)
     = (if reclaiming (ledger_state l) then available_locked l (ledger_state l) <? high_watermark (policy l)
        else available_locked l (ledger_state l) <? low_watermark (policy l)).
Proof.
  unfold mode. destruct (reclaiming (ledger_state l)) eqn:Hr.
  - destruct (Z.leb_spec (high_watermark (policy l)) (available_locked l (ledger_state l))); cbn; rewrite ?Hr;
      split; try done; symmetry; [apply Z.ltb_ge|apply Z.ltb_lt]; lia.
  - destruct (available_locked l (ledger_state l) <? low_watermark (policy l)) eqn:Hl; cbn; by rewrite ?Hr.
Qed.

Lemma other_calls_keep_reclaiming c l :
  c ≠ CallMode -> reclaiming (ledger_state (ledger_step c l)) = reclaiming (ledger_state l).
Proof.
  destruct c as [[]| | | |]; cbn; try done. intros _. unfold SpaceLedger_try_reserve. by repeat case_match.
Qed.

Lemma reclaiming_history cs l seen :
  low_watermark (policy l) <= high_watermark (policy l) ->
  reclaiming (ledger_state l) = true <-> hysteresis (policy l) seen ->
  reclaiming (ledger_state (ledger_run cs l)) = true <-> hysteresis (policy l) (mode_history cs l seen).
Proof.
  intros Hp. revert l seen Hp. induction cs as [|c cs IH]; intros l seen Hp Hinv; [done|].
  unfold ledger_run. cbn [fold_left]. fold (ledger_run cs (ledger_step c l)).
  rewrite <- (ledger_step_policy c l). destruct (decide (c = CallMode)) as [->|Hc].
  - cbn [mode_history ledger_step].
    assert (policy (mode l).2 = policy l) as HP by apply (ledger_step_policy CallMode).
    apply IH; rewrite HP; [done|]. rewrite hysteresis_cons, <- Hinv.
    destruct (mode_step l) as [_ ->]. destruct (reclaiming (ledger_state l)); rewrite Z.ltb_lt; [|naive_solver].
    split; [auto|]. intros [?|[? _]]; lia.
  - replace (mode_history (c :: cs) l seen) with (mode_history cs (ledger_step c l) seen)
      by (destruct c; done).
    apply IH; rewrite ledger_step_policy; [done|]. by rewrite other_calls_keep_reclaiming.
Qed.

Lemma solvent_step c l :
  ledger_wf l -> solvent l -> settles [c] l -> solvent (ledger_step c l).
Proof.
  intros Hl Hs [Hc _]. pose proof Hl as (Hf & Hr & Hcs & Hh & _). unfold solvent in *.
  rewrite ledger_step_policy. destruct c as [o|b|b|b|]; cbn in Hc; try done; cbn.
  - destruct (SpaceLedger_try_reserve b l) as [[] l'] eqn:E; cbn.
    + apply try_reserve_granted in E as (_ & _ & Hg & ->); [|done|apply Hc]. cbn.
      unfold saturating_add, is_u64 in *. destruct (decide (0 < b)); [specialize (Hg ltac:(lia))|]; lia.
    + by rewrite (@try_reserve_false _ _ SpaceLedger_reserver_laws b l l' E).
  - unfold saturating_sub. lia.
  - unfold saturating_sub, saturating_add. lia.
  - unfold mode. by repeat case_match.
Qed.

Lemma settles_wf c l : ledger_wf l -> settles [c] l -> call_wf c.
Proof. intros (_ & Hr & _) [Hc _]. destruct c; cbn in *; try done; unfold is_u64 in *; lia. Qed.

Lemma solvent_run cs l : ledger_wf l -> solvent l -> settles cs l -> solvent (ledger_run cs l).
Proof.
  revert l. induction cs as [|c cs IH]; intros l Hl Hs; [done|]. intros [Hc Hcs].
  assert (settles [c] l) as H1 by (cbn; done).
  apply (IH (ledger_step c l)); [|by apply solvent_step|done].
  apply ledger_step_wf; [|done]. by eapply settles_wf.
Qed.

(** ** Properties *)

(** Once a reservation is granted, reserved plus committed bytes plus the emergency headroom
    stay within the observed free space through any further reservations, releases, commits and
    mode checks: staging never spends into the headroom. *)
Theorem ledger_admission_safe (b : Z) (l l' : SpaceLedger) (cs : list ledger_call) :
  ledger_wf l -> is_u64 b -> 0 < b -> SpaceLedger_try_reserve b l = (true, l') -> settles cs l' ->
  reserved (ledger_state (ledger_run cs l')) + committed_since (ledger_state (ledger_run cs l'))
    + emergency_headroom (policy l)
  <= free_observed (ledger_state l).
Proof.
  intros Hl Hb Hpos Hr Hcs.
  assert (solvent l') as Hs.
  { pose proof Hl as (Hf & Hre & Hc & Hh & _). apply try_reserve_granted in Hr as (_ & _ & Hg & ->); [|done|lia].
    unfold solvent; cbn. unfold saturating_add. lia. }
  assert (ledger_wf l') as Hwf.
  { pose proof (ledger_step_wf (CallReserve b) l Hb Hl) as H. cbn in H. by rewrite Hr in H. }
  pose proof (solvent_run cs l' Hwf Hs Hcs) as H. unfold solvent in H.
  apply try_reserve_granted in Hr as (_ & _ & _ & Heq); [|done|lia].
  assert (forall cs l0, settles cs l0 -> free_observed (ledger_state (ledger_run cs l0)) = free_observed (ledger_state l0)) as Hfree.
  { clear. intros cs. induction cs as [|c cs IH]; intros l0; [done|]. intros [Hc Hcs].
    unfold ledger_run. cbn [fold_left]. fold (ledger_run cs (ledger_step c l0)). rewrite IH by done.
    destruct c; cbn in *; try done; [unfold SpaceLedger_try_reserve|unfold mode]; by repeat case_match. }
  rewrite Hfree, ledger_run_policy in H by done. rewrite Heq in H at 3 4. exact H.
Qed.

Definition sample_policy : SpacePolicy :=
  {| low_watermark := 20; high_watermark := 40; emergency_headroom := 10 |}.
Definition sample_ledger : SpaceLedger := SpaceLedger_new sample_policy (Some 100).

Lemma sample_ledger_wf : ledger_wf sample_ledger.
Proof. vm_compute. repeat split; discriminate. Qed.

Lemma ledger_admission_safe_witness :
  reserved (ledger_state (ledger_run [CallCommit 30; CallReserve 50] (SpaceLedger_try_reserve 40 sample_ledger).2))
    + committed_since (ledger_state (ledger_run [CallCommit 30; CallReserve 50] (SpaceLedger_try_reserve 40 sample_ledger).2))
    + 10 <= 100.
Proof.
  apply (ledger_admission_safe 40 sample_ledger _ [CallCommit 30; CallReserve 50]).
  - exact sample_ledger_wf.
  - vm_compute; split; discriminate.
  - reflexivity.
  - reflexivity.
  - vm_compute; repeat split; discriminate.
Defined.

(** The maintenance mode follows the watermarks with hysteresis: after any sequence of calls
    from a new ledger, [mode] reports Reclaiming exactly when the capacity at some check fell below
    the low watermark and at no later check reached the high watermark. *)
Theorem mode_hysteresis (p : SpacePolicy) (first : option Z) (cs : list ledger_call) :
  low_watermark p <= high_watermark p ->
  let l := SpaceLedger_new p first in
  (mode (ledger_run cs l)).1 = Reclaiming
  <-> hysteresis p (available_locked (ledger_run cs l) (ledger_state (ledger_run cs l)) :: mode_history cs l []).
Proof.
  intros Hp l. assert (policy l = p) as Hpol by (by destruct first).
  assert (reclaiming (ledger_state l) = true <-> hysteresis (policy l) []) as H0.
  { split; [by destruct first|]. intros ([] & ? & ? & ? & _); done. }
  pose proof (reclaiming_history cs l [] ltac:(by rewrite Hpol) H0) as H. rewrite Hpol in H.
  rewrite hysteresis_cons, <- H. destruct (mode_step (ledger_run cs l)) as [-> ->].
  rewrite ledger_run_policy, Hpol.
  destruct (reclaiming (ledger_state (ledger_run cs l))).
  - destruct (Z.ltb_spec (available_locked (ledger_run cs l) (ledger_state (ledger_run cs l))) (high_watermark p));
      split; try done; [by right|]. intros [?|[? _]]; lia.
  - destruct (Z.ltb_spec (available_locked (ledger_run cs l) (ledger_state (ledger_run cs l))) (low_watermark p));
      naive_solver lia.
Qed.

(** The capacity falls to 10, is back at 30 between the marks, and is still reclaiming. *)
Lemma mode_hysteresis_witness :
  (mode (ledger_run [CallReserve 80; CallMode; CallRelease 20] sample_ledger)).1 = Reclaiming.
Proof.
  apply (mode_hysteresis sample_policy (Some 100) [CallReserve 80; CallMode; CallRelease 20]); [discriminate|].
  exists [30], 10, []. split; [reflexivity|]. split; [reflexivity|]. repeat constructor.
Defined.

(** *** The window in [refresh] *)

(** The ledger beside the disk it accounts for.  A commit writes its bytes to the disk. *)
Record disk_ledger := { disk_free : Z; disk_books : SpaceLedger }.

Definition disk_commit (b : Z) (d : disk_ledger) : disk_ledger :=
  {| disk_free := disk_free d - b; disk_books := SpaceLedger_commit b (disk_books d) |}.
Definition disk_sample (d : disk_ledger) : option Z := Some (disk_free d).
Definition disk_refresh (sample : option Z) (d : disk_ledger) : disk_ledger :=
  {| disk_free := disk_free d; disk_books := refresh sample (disk_books d) |}.

(** The books promise no more than the disk has. *)
Definition covered (d : disk_ledger) : Prop :=
  free_observed (ledger_state (disk_books d)) - committed_since (ledger_state (disk_books d)) <= disk_free d.

(** A refresh whose sample and reset are one step keeps the books covered by the disk, but the
    code samples before it takes the lock: whenever a reserved commit of [b] > 0 bytes lands in
    between, the reset erases it and the ledger believes in [b] bytes the disk does not have. *)
Theorem refresh_can_lose_a_commit (d : disk_ledger) (b : Z) :
  0 < b ->
  covered (disk_refresh (disk_sample d) d)
  /\ let raced := disk_refresh (disk_sample d) (disk_commit b d) in
     ~ covered raced
     /\ free_observed (ledger_state (disk_books raced)) - committed_since (ledger_state (disk_books raced))
        = disk_free raced + b.
Proof. intros Hb. unfold covered, disk_commit; cbn. lia. Qed.

Lemma refresh_can_lose_a_commit_witness :
  ~ covered (disk_refresh (Some 100) (disk_commit 30 {| disk_free := 100; disk_books := sample_ledger |})).
Proof.
  apply (refresh_can_lose_a_commit {| disk_free := 100; disk_books := sample_ledger |} 30). reflexivity.
Defined.
