(* ===== verification/RecentUse.v ===== *)
(** * Recency of use ([cache/recent_use.rs])

    Two Bloom filters of 64-bit words.  A mark goes to the active one; a rotation clears the
    other and makes it active.  The words are relaxed atomics and each call is one step here:
    a lost race between a mark and a rotation only costs cache quality. *)

From S2P Require Import Prelude Externals Domain Concrete.

Definition PROBES : nat := 4.

Record RecentUse := {
  filter0 : list Z;
  filter1 : list Z;
  bits : Z;
  active : Z
}.

Definition new_words (words : nat) : list Z := replicate words 0.

(** [bits.div_ceil(64)] *)
Definition RecentUse_new (width : Z) : RecentUse :=
  let words := Z.to_nat ((width + 63) / 64) in
  {| filter0 := new_words words; filter1 := new_words words; bits := Z.of_nat words * 64; active := 0 |}.

(** [&self.filters[i]], and its in-place update. *)
Definition filter_at (r : RecentUse) (i : Z) : list Z := if i =? 0 then filter0 r else filter1 r.
Definition set_filter (r : RecentUse) (i : Z) (words : list Z) : RecentUse :=
  if i =? 0
  then {| filter0 := words; filter1 := filter1 r; bits := bits r; active := active r |}
  else {| filter0 := filter0 r; filter1 := words; bits := bits r; active := active r |}.

Section Recency.
Context {UL : UlidLib} {DH : DefaultHasherLib}.

Definition positions (r : RecentUse) (channel : ChannelId) (artifact : ArtifactId) : list Z :=
  let seed := default_hash (channel_ulid channel) (digest_array (digest artifact)) in
  let start := Z.land seed 0xffffffff in
  let step := Z.lor (Z.shiftr seed 32) 1 in
  map (fun probe => wrapping_add start (wrapping_mul step (Z.of_nat probe)) mod bits r) (seq 0 PROBES).

(** [fetch_or] of one bit; a position is always in range ([positions_in_range]). *)
Definition set_bit (words : list Z) (position : Z) : list Z :=
  alter (fun w => Z.lor w (Z.shiftl 1 (position mod 64))) (Z.to_nat (position / 64)) words.

Definition mark (channel : ChannelId) (artifact : ArtifactId) (r : RecentUse) : RecentUse :=
  let i := Z.land (active r) 1 in
  set_filter r i (fold_left set_bit (positions r channel artifact) (filter_at r i)).

Definition test_bit (words : list Z) (position : Z) : bool :=
  match words !! Z.to_nat (position / 64) with
  | Some w => negb (Z.land w (Z.shiftl 1 (position mod 64)) =? 0)
  | None => false
  end.

Definition contains (r : RecentUse) (i : Z) (ps : list Z) : bool := forallb (test_bit (filter_at r i)) ps.

Definition seen (channel : ChannelId) (artifact : ArtifactId) (r : RecentUse) : bool :=
  let ps := positions r channel artifact in contains r 0 ps || contains r 1 ps.

Definition rotate (r : RecentUse) : RecentUse :=
  let next := Z.lxor (Z.land (active r) 1) 1 in
  let cleared := set_filter r next (map (fun _ => 0) (filter_at r next)) in
  {| filter0 := filter0 cleared; filter1 := filter1 cleared; bits := bits cleared; active := next |}.

(** *** Sequences of calls *)

Inductive recency_call :=
| CallMark (c : ChannelId) (a : ArtifactId)
| CallRotate.

Definition recency_step (r : RecentUse) (call : recency_call) : RecentUse :=
  match call with CallMark c a => mark c a r | CallRotate => rotate r end.

Definition recency_run (calls : list recency_call) (r : RecentUse) : RecentUse :=
  fold_left recency_step calls r.

Fixpoint rotations (calls : list recency_call) : nat :=
  match calls with
  | [] => 0
  | CallMark _ _ :: calls => rotations calls
  | CallRotate :: calls => S (rotations calls)
  end.

Record recency_wf (r : RecentUse) : Prop := {
  wf_bits : bits r = Z.of_nat (length (filter0 r)) * 64;
  wf_length : length (filter1 r) = length (filter0 r);
  wf_nonempty : (0 < length (filter0 r))%nat;
  wf_active : active r = 0 \/ active r = 1;
  wf_words : Forall (Z.le 0) (filter0 r) /\ Forall (Z.le 0) (filter1 r)
}.

(** ** Lemmas *)

Lemma land_bit_test w k : 0 <= k -> negb (Z.land w (Z.shiftl 1 k) =? 0) = Z.testbit w k.
Proof.
  intros Hk. rewrite Z.shiftl_1_l. destruct (Z.testbit w k) eqn:Ht.
  - apply negb_true_iff, Z.eqb_neq. intros H0. apply (f_equal (fun z => Z.testbit z k)) in H0.
    rewrite Z.land_spec, Z.pow2_bits_true, Ht, Z.bits_0 in H0 by done. done.
  - apply negb_false_iff, Z.eqb_eq, Z.bits_inj'. intros n Hn.
    rewrite Z.land_spec, Z.bits_0, Z.pow2_bits_eqb by done.
    destruct (Z.eqb_spec k n) as [->|]; [by rewrite Ht|]. apply andb_false_r.
Qed.

Lemma test_bit_spec words p :
  test_bit words p
  = match words !! Z.to_nat (p / 64) with Some w => Z.testbit w (p mod 64) | None => false end.
Proof.
  unfold test_bit. case_match; [|done]. apply land_bit_test, Z.mod_pos_bound. lia.
Qed.

Lemma length_set_bit words p : length (set_bit words p) = length words.
Proof. apply length_alter. Qed.

Lemma length_set_bits ps words : length (fold_left set_bit ps words) = length words.
Proof. revert words. induction ps as [|p ps IH]; intros words; cbn; [done|]. by rewrite IH, length_set_bit. Qed.

Lemma test_set_bit words p q : test_bit words q = true -> test_bit (set_bit words p) q = true.
Proof.
  rewrite !test_bit_spec. unfold set_bit.
  destruct (decide (Z.to_nat (p / 64) = Z.to_nat (q / 64))) as [E|E].
  - rewrite E, list_lookup_alter_eq. destruct (words !! _) as [w|]; [|done].
    cbn [fmap option_fmap option_map]. rewrite Z.lor_spec. intros ->. done.
  - by rewrite list_lookup_alter_ne.
Qed.

Lemma test_set_bit_same words p :
  0 <= p < Z.of_nat (length words) * 64 -> test_bit (set_bit words p) p = true.
Proof.
  intros Hp. rewrite test_bit_spec. unfold set_bit. rewrite list_lookup_alter_eq.
  assert (Z.to_nat (p / 64) < length words)%nat as Hlt.
  { assert (p / 64 < Z.of_nat (length words)) by (apply Z.div_lt_upper_bound; lia).
    pose proof (Z.div_pos p 64). lia. }
  destruct (lookup_lt_is_Some_2 words _ Hlt) as [w ->].
  cbn [fmap option_fmap option_map]. pose proof (Z.mod_pos_bound p 64 ltac:(lia)).
  rewrite Z.lor_spec, Z.shiftl_1_l, Z.pow2_bits_true by lia. apply orb_true_r.
Qed.

Lemma test_set_bits_mono ps words q :
  test_bit words q = true -> test_bit (fold_left set_bit ps words) q = true.
Proof. revert words. induction ps as [|p ps IH]; intros words Hq; cbn; [done|]. by apply IH, test_set_bit. Qed.

Lemma set_bits_all ps words :
  Forall (fun p => 0 <= p < Z.of_nat (length words) * 64) ps ->
  forallb (test_bit (fold_left set_bit ps words)) ps = true.
Proof.
  intros HF. apply List.forallb_forall. intros q Hq%list_elem_of_In.
  revert words HF. induction ps as [|p ps IH]; intros words HF; [set_solver|].
  apply Forall_cons in HF as [Hp HF]. cbn. apply elem_of_cons in Hq as [->|Hq].
  - by apply test_set_bits_mono, test_set_bit_same.
  - apply IH; [done|]. by rewrite length_set_bit.
Qed.

Lemma positions_range r c a :
  recency_wf r -> Forall (fun p => 0 <= p < bits r) (positions r c a).
Proof.
  intros [Hb _ Hn _ _]. unfold positions. apply Forall_fmap, Forall_forall. intros i _. cbn.
  apply Z.mod_pos_bound. lia.
Qed.

Lemma length_filter_at r i : recency_wf r -> length (filter_at r i) = length (filter0 r).
Proof. intros [_ Hl _ _ _]. unfold filter_at. by case_match. Qed.

Lemma positions_bits r r' c a : bits r' = bits r -> positions r' c a = positions r c a.
Proof. unfold positions. by intros ->. Qed.

Lemma set_bits_nonneg ps words :
  Forall (Z.le 0) words -> Forall (Z.le 0) (fold_left set_bit ps words).
Proof.
  revert words. induction ps as [|p ps IH]; intros words HF; cbn; [done|]. apply IH.
  unfold set_bit. apply Forall_alter; [done|]. intros w _ Hw. apply Z.lor_nonneg.
  split; [done|]. apply Z.shiftl_nonneg. lia.
Qed.

Lemma active_land r : recency_wf r -> Z.land (active r) 1 = active r.
Proof. intros [_ _ _ [-> | ->] _]; done. Qed.

(** The two values of the active index, and the index a rotation moves to. *)
Lemma active_cases r :
  recency_wf r ->
  (active r = 0 /\ Z.lxor (Z.land (active r) 1) 1 = 1)
  \/ (active r = 1 /\ Z.lxor (Z.land (active r) 1) 1 = 0).
Proof. intros [_ _ _ [-> | ->] _]; auto. Qed.

Lemma mark_wf c a r : recency_wf r -> recency_wf (mark c a r).
Proof.
  intros Hr. pose proof Hr as [Hb Hl Hn Ha [H0 H1]]. unfold mark, set_filter, filter_at.
  generalize (positions r c a) as ps. intros ps.
  rewrite active_land by done. destruct Ha as [-> | ->]; cbn; split; cbn; rewrite ?length_set_bits; auto using set_bits_nonneg.
Qed.

Lemma rotate_wf r : recency_wf r -> recency_wf (rotate r).
Proof.
  intros Hr. pose proof Hr as [Hb Hl Hn Ha [H0 H1]].
  assert (forall l, Forall (Z.le 0) (map (fun _ : Z => 0) l)) as Hz.
  { intros l. apply Forall_fmap, Forall_forall. cbn. lia. }
  unfold rotate, set_filter, filter_at.
  destruct (active_cases r Hr) as [[_ ->]|[_ ->]]; split; cbn; rewrite ?length_map; auto.
Qed.

Lemma step_wf r call : recency_wf r -> recency_wf (recency_step r call).
Proof. destruct call; cbn; auto using mark_wf, rotate_wf. Qed.

Lemma step_bits r call : bits (recency_step r call) = bits r.
Proof. destruct call; cbn; [unfold mark, set_filter|unfold rotate, set_filter]; by case_match. Qed.

Lemma contains_mark r c a i ps : contains r i ps = true -> contains (mark c a r) i ps = true.
Proof.
  unfold contains. rewrite !List.forallb_forall. intros H p Hp. specialize (H p Hp).
  unfold mark, set_filter. unfold filter_at in *. generalize (positions r c a) as qs. intros qs.
  destruct (i =? 0) eqn:Hi, (Z.land (active r) 1 =? 0) eqn:Ha; cbn; auto using test_set_bits_mono.
Qed.

Lemma mark_contains r c a :
  recency_wf r -> contains (mark c a r) (active (mark c a r)) (positions r c a) = true.
Proof.
  intros Hr. pose proof Hr as [Hb Hl _ Ha _].
  pose proof (positions_range r c a Hr) as HP. rewrite Hb in HP.
  unfold contains, mark, set_filter, filter_at. revert HP. generalize (positions r c a) as ps. intros ps HP.
  rewrite active_land by done. destruct Ha as [E|E]; rewrite E; cbn; rewrite ?E; apply set_bits_all; cbn; rewrite ?Hl; done.
Qed.

(** A rotation keeps the filter that was active. *)
Lemma rotate_contains r ps :
  recency_wf r -> contains r (active r) ps = true -> contains (rotate r) (active r) ps = true.
Proof.
  intros Hr. unfold contains, rotate, set_filter, filter_at.
  destruct (active_cases r Hr) as [[E ->]|[E ->]]; rewrite E; done.
Qed.

Lemma mark_active r c a : active (mark c a r) = active r.
Proof. unfold mark, set_filter. by case_match. Qed.

Lemma contains_seen r i c a :
  i = 0 \/ i = 1 -> contains r i (positions r c a) = true -> seen c a r = true.
Proof. unfold seen. intros [-> | ->] ->; [done|apply orb_true_r]. Qed.

Lemma rotations_cons call calls :
  rotations (call :: calls) = ((if call then 0 else 1) + rotations calls)%nat.
Proof. by destruct call. Qed.

(** Marks alone never lose a filter. *)
Lemma run_marks_contains calls r i ps :
  rotations calls = 0%nat -> contains r i ps = true -> contains (recency_run calls r) i ps = true.
Proof.
  unfold recency_run. revert r. induction calls as [|call calls IH]; intros r; [done|].
  rewrite rotations_cons. destruct call; cbn; [|done]. intros H0 Hc. apply IH; [done|]. by apply contains_mark.
Qed.

(** One rotation at most keeps a mark of the active filter. *)
Lemma run_keeps_mark calls r ps :
  recency_wf r -> (rotations calls <= 1)%nat -> contains r (active r) ps = true ->
  exists i, (i = 0 \/ i = 1) /\ contains (recency_run calls r) i ps = true.
Proof.
  unfold recency_run. revert r. induction calls as [|call calls IH]; intros r Hr.
  { intros _ H. exists (active r). split; [apply (wf_active _ Hr)|done]. }
  rewrite rotations_cons. destruct call as [c a|]; cbn; intros Hrot Hc.
  - apply IH; [by apply mark_wf|lia|]. rewrite mark_active. by apply contains_mark.
  - exists (active r). split; [apply (wf_active _ Hr)|].
    apply run_marks_contains; [lia|]. by apply rotate_contains.
Qed.

Lemma run_wf calls r : recency_wf r -> recency_wf (recency_run calls r) /\ bits (recency_run calls r) = bits r.
Proof.
  unfold recency_run. revert r. induction calls as [|call calls IH]; intros r Hr; [done|]. cbn.
  destruct (IH (recency_step r call)) as [? ->]; [by apply step_wf|]. by rewrite step_bits.
Qed.

Lemma new_wf width : 0 < width -> recency_wf (RecentUse_new width).
Proof.
  intros Hw. assert (1 <= (width + 63) / 64) by (apply Z.div_le_lower_bound; lia).
  split; cbn; unfold new_words; rewrite ?length_replicate; auto; [lia|].
  split; apply Forall_replicate; lia.
Qed.

(** Nothing is in a cleared filter. *)
Lemma cleared_contains l p ps : forallb (test_bit (map (fun _ : Z => 0) l)) (p :: ps) = false.
Proof.
  cbn [forallb]. rewrite test_bit_spec. change (map (fun _ : Z => 0) l) with ((fun _ : Z => 0) <$> l).
  rewrite list_lookup_fmap. destruct (l !! _); cbn [fmap option_fmap option_map]; [by rewrite Z.testbit_0_l|done].
Qed.

Lemma rotate_twice r :
  recency_wf r ->
  filter0 (rotate (rotate r)) = map (fun _ => 0) (filter0 r)
  /\ filter1 (rotate (rotate r)) = map (fun _ => 0) (filter1 r).
Proof.
  intros Hr. unfold rotate, set_filter, filter_at.
  destruct (active_cases r Hr) as [[_ ->]|[_ ->]]; cbn; done.
Qed.

(** ** Properties *)

(** A use is never forgotten early: after a mark, any sequence of further marks with at most
    one rotation still reports the artifact as recently used. *)
Theorem mark_survives_one_rotation (r : RecentUse) c a calls :
  recency_wf r -> (rotations calls <= 1)%nat ->
  seen c a (recency_run calls (mark c a r)) = true.
Proof.
  intros Hr Hc. pose proof (mark_contains r c a Hr) as Hm.
  destruct (run_keeps_mark calls (mark c a r) _ (mark_wf c a r Hr) Hc Hm) as (i & Hi & H).
  eapply contains_seen; [exact Hi|]. destruct (run_wf calls (mark c a r) (mark_wf c a r Hr)) as [_ Hb].
  rewrite (positions_bits r); [done|]. rewrite Hb. apply (step_bits r (CallMark c a)).
Qed.

(** Two rotations without a use in between forget everything, so an unused artifact becomes
    reclaimable whatever the filters held. *)
Theorem two_rotations_forget (r : RecentUse) c a :
  recency_wf r -> seen c a (rotate (rotate r)) = false.
Proof.
  intros Hr. destruct (rotate_twice r Hr) as [H0 H1]. unfold seen, contains, filter_at. cbn [Z.eqb].
  rewrite H0, H1. destruct (positions (rotate (rotate r)) c a) as [|p ps] eqn:E; [done|].
  by rewrite !cleared_contains.
Qed.

(** Every probe position lies inside the filter, so indexing the words never panics, for any
    hash and any configured width. *)
Theorem positions_in_range (width : Z) calls c a :
  0 < width ->
  let r := recency_run calls (RecentUse_new width) in
  Forall (fun p => (Z.to_nat (p / 64) < length (filter0 r))%nat
                   /\ (Z.to_nat (p / 64) < length (filter1 r))%nat) (positions r c a)
  /\ length (positions r c a) = PROBES.
Proof.
  intros Hw r. destruct (run_wf calls (RecentUse_new width) (new_wf width Hw)) as [Hr _]. fold r in Hr.
  split; [|done]. pose proof (positions_range r c a Hr) as HP. rewrite (wf_bits _ Hr) in HP.
  eapply Forall_impl; [exact HP|]. cbn. intros p Hp. rewrite (wf_length _ Hr).
  assert (p / 64 < Z.of_nat (length (filter0 r))) by (apply Z.div_lt_upper_bound; lia).
  pose proof (Z.div_pos p 64). lia.
Qed.
End Recency.

Section Witnesses.
#[local] Existing Instances toy_ulid toy_hasher.

Lemma mark_survives_one_rotation_witness :
  seen channel_a (sample_artifact "one")
    (recency_run [CallRotate; CallMark channel_b (sample_artifact "two")]
       (mark channel_a (sample_artifact "one") (RecentUse_new 128))) = true.
Proof.
  apply (mark_survives_one_rotation (RecentUse_new 128) channel_a (sample_artifact "one")
           [CallRotate; CallMark channel_b (sample_artifact "two")]).
  - apply new_wf. reflexivity.
  - vm_compute. reflexivity.
Defined.

Lemma two_rotations_forget_witness :
  seen channel_a (sample_artifact "one")
    (rotate (rotate (mark channel_a (sample_artifact "one") (RecentUse_new 128)))) = false.
Proof.
  apply (two_rotations_forget (mark channel_a (sample_artifact "one") (RecentUse_new 128))).
  apply mark_wf, new_wf. reflexivity.
Defined.

Lemma positions_in_range_witness :
  length (positions (RecentUse_new 100) channel_a (sample_artifact "one")) = PROBES.
Proof. apply (positions_in_range 100 [] channel_a (sample_artifact "one")). reflexivity. Defined.
End Witnesses.
