(* ===== verification/Filesystem.v ===== *)
(** * The filesystem the artifact store runs on

    What [storage/local/artifact_files.rs] uses of [tokio::fs]: a tree of directories and regular
    files, and system calls that may fail at any point.  An injected failure reports an error that
    says nothing about existence (the kinds [NotFound] and [AlreadyExists] are only reported when
    true); a torn write leaves a prefix, a torn recursive removal has removed some subtrees (it works
    bottom-up), a torn directory creation has made some of the ancestors. *)

From S2P Require Import Prelude.

Abbreviation path := (list (list ascii)) (only parsing).

Inductive node := Directory | File (content : bytes).

#[export] Instance node_eq_dec : EqDecision node.
Proof. solve_decision. Defined.

Inductive io_error := IoNotFound | IoAlreadyExists | IoOther (message : string).

#[export] Instance io_error_eq_dec : EqDecision io_error.
Proof. solve_decision. Defined.

(** One injected failure: what the call reports, and how far it got; a write that nothing waits for
    may be lost without a report. *)
Record io_fault := {
  fault_message : string;
  fault_progress : nat;
  fault_removed : list path;
  fault_lost : bool
}.

Abbreviation tree := (gmap (list (list ascii)) node).

(** The tree, and how the next calls end; past the script every call runs to completion. *)
Record FS := { nodes : tree; script : list (option io_fault) }.

Definition syscall {A : Type} (act : tree -> result io_error A * tree) (torn : io_fault -> tree -> tree)
    : M FS io_error A := fun fs =>
  match script fs with
  | Some f :: rest => (Err (IoOther (fault_message f)), {| nodes := torn f (nodes fs); script := rest |})
  | None :: rest => let '(r, t) := act (nodes fs) in (r, {| nodes := t; script := rest |})
  | [] => let '(r, t) := act (nodes fs) in (r, {| nodes := t; script := [] |})
  end.

(** The root of the filesystem is a directory that is always there. *)
Definition is_dir (t : tree) (p : path) : bool :=
  match p with [] => true | _ => bool_decide (t !! p = Some Directory) end.

Definition parent (p : path) : path := removelast p.

(** Every ancestor of [p] below the root, then [p] itself. *)
Definition ancestors (p : path) : list path := map (fun n => take n p) (seq 1 (length p)).

Definition make_dir (t : tree) (p : path) : tree :=
  match t !! p with None => <[p := Directory]> t | Some _ => t end.

Definition is_file (t : tree) (p : path) : bool :=
  match t !! p with Some (File _) => true | _ => false end.

Definition create_dir_all (p : path) : M FS io_error unit :=
  syscall
    (fun t => if existsb (is_file t) (ancestors p) then (Err (IoOther "not a directory"), t)
              else (Ok tt, fold_left make_dir (ancestors p) t))
    (fun f t => if existsb (is_file t) (ancestors p) then t
                else fold_left make_dir (take (fault_progress f) (ancestors p)) t).

(** [OpenOptions::new().create_new(true).write(true).open(path)] *)
Definition open_new (p : path) : M FS io_error unit :=
  syscall
    (fun t => match t !! p with
              | Some _ => (Err IoAlreadyExists, t)
              | None => if is_dir t (parent p) then (Ok tt, <[p := File []]> t) else (Err IoNotFound, t)
              end)
    (fun _ t => t).

Definition append_to (chunk : bytes) (n : node) : node :=
  match n with File content => File (content ++ chunk) | Directory => Directory end.

(** A write through an open handle. *)
Definition write_file (p : path) (chunk : bytes) : M FS io_error unit :=
  syscall (fun t => (Ok tt, alter (append_to chunk) p t))
          (fun f t => alter (append_to (take (fault_progress f) chunk)) p t).

(** The last write of a [tokio::fs::File] that is dropped without a flush: it is carried out in the
    background, and when that fails nobody is told. *)
Definition write_unflushed (p : path) (chunk : bytes) : M FS io_error unit := fun fs =>
  match script fs with
  | Some f :: rest =>
      if fault_lost f then (Ok tt, {| nodes := alter (append_to (take (fault_progress f) chunk)) p (nodes fs); script := rest |})
      else write_file p chunk fs
  | _ => write_file p chunk fs
  end.

(** A call that changes nothing: flushes, fsyncs, reading a directory entry or its type. *)
Definition touch : M FS io_error unit := syscall (fun t => (Ok tt, t)) (fun _ t => t).

(** [metadata().len()] of a regular file. *)
Definition file_len (p : path) : M FS io_error Z :=
  syscall (fun t => match t !! p with
                    | Some (File content) => (Ok (Z.of_nat (length content)), t)
                    | Some Directory => (Ok 0, t)
                    | None => (Err IoNotFound, t)
                    end)
          (fun _ t => t).

Definition try_exists (p : path) : M FS io_error bool :=
  syscall (fun t => (Ok (is_dir t p || bool_decide (is_Some (t !! p))), t)) (fun _ t => t).

(** [metadata(p).is_dir()] *)
Definition stat_is_dir (p : path) : M FS io_error bool :=
  syscall (fun t => if is_dir t p then (Ok true, t)
                    else match t !! p with Some _ => (Ok false, t) | None => (Err IoNotFound, t) end)
          (fun _ t => t).

Definition remove_file (p : path) : M FS io_error unit :=
  syscall (fun t => match t !! p with
                    | None => (Err IoNotFound, t)
                    | Some Directory => (Err (IoOther "is a directory"), t)
                    | Some (File _) => (Ok tt, delete p t)
                    end)
          (fun _ t => t).

(** POSIX [rename] of a regular file: an existing regular file at the target is replaced. *)
Definition rename (from to : path) : M FS io_error unit :=
  syscall (fun t => match t !! from with
                    | Some (File content) =>
                        match t !! to with
                        | Some Directory => (Err (IoOther "is a directory"), t)
                        | _ => if is_dir t (parent to)
                               then (Ok tt, <[to := File content]> (delete from t))
                               else (Err IoNotFound, t)
                        end
                    | Some Directory => (Err (IoOther "is a directory"), t)
                    | None => (Err IoNotFound, t)
                    end)
          (fun _ t => t).

(** The name of [q] when it is an entry of the directory [p]. *)
Definition entry_of (p q : path) : option bytes :=
  if decide (parent q = p) then last q else None.

(** [read_dir], in no particular order. *)
Definition children (p : path) (t : tree) : list (bytes * node) :=
  omap (fun kv => match entry_of p kv.1 with Some name => Some (name, kv.2) | None => None end)
       (map_to_list t).

Definition read_dir (p : path) : M FS io_error (list (bytes * node)) :=
  syscall (fun t => if is_dir t p then (Ok (children p t), t)
                    else match t !! p with
                         | Some _ => (Err (IoOther "not a directory"), t)
                         | None => (Err IoNotFound, t)
                         end)
          (fun _ t => t).

(** Whether [q] is [p] or below it. *)
Definition below (p q : path) : bool := bool_decide (p `prefix_of` q).

Definition remove_dir_all (p : path) : M FS io_error unit :=
  syscall (fun t => match t !! p with
                    | None => (Err IoNotFound, t)
                    | Some (File _) => (Err (IoOther "not a directory"), t)
                    | Some Directory => (Ok tt, filter (fun kv => below p kv.1 = false) t)
                    end)
          (fun f t => filter (fun kv => existsb (fun r => below p r && below r kv.1) (fault_removed f) = false) t).

(** No write is lost. *)
Definition lossless (fs : FS) : Prop := Forall (fun f => fault_lost <$> f ≠ Some true) (script fs).

(** ** Lemmas *)

Lemma syscall_lossless {A : Type} (act : tree -> result io_error A * tree) torn : preserves lossless (syscall act torn).
Proof.
  intros [t sc] H. unfold lossless, syscall in *. cbn in *. destruct H as [|f sc Hf H]; [by destruct (act t) as [[] t']|].
  destruct f as [f|]; [done|]. by destruct (act t) as [[] t'].
Qed.

Lemma write_unflushed_lossless p chunk fs : lossless fs -> write_unflushed p chunk fs = write_file p chunk fs.
Proof.
  unfold lossless, write_unflushed. destruct (script fs) as [|[f|] sc]; [done| |done]. intros H. apply Forall_inv in H. cbn in H.
  by destruct (fault_lost f).
Qed.

(** A call keeps an invariant of the tree when both its completion and its failure do. *)
Lemma syscall_preserves {A : Type} (I : tree -> Prop) (act : tree -> result io_error A * tree) torn :
  (forall t, I t -> I (act t).2) -> (forall f t, I t -> I (torn f t)) ->
  preserves (fun fs => I (nodes fs)) (syscall act torn).
Proof.
  intros Ha Ht fs HI. unfold syscall. destruct (script fs) as [|[f|] rest]; cbn; [|by apply Ht|];
    specialize (Ha _ HI); by destruct (act (nodes fs)) as [[] t].
Qed.

(** A successful call is its action. *)
Lemma syscall_ok {A : Type} (act : tree -> result io_error A * tree) torn fs a fs' :
  syscall act torn fs = (Ok a, fs') -> act (nodes fs) = (Ok a, nodes fs').
Proof.
  unfold syscall. destruct (script fs) as [|[f|] rest]; [|done|];
    destruct (act (nodes fs)) as [r t]; intros [= -> <-]; done.
Qed.

(** A failed call is its action reporting the error, or an injected failure. *)
Lemma syscall_err {A : Type} (act : tree -> result io_error A * tree) torn fs e fs' :
  syscall act torn fs = (Err e, fs') ->
  act (nodes fs) = (Err e, nodes fs') \/ exists f, IoOther (fault_message f) = e /\ nodes fs' = torn f (nodes fs).
Proof.
  unfold syscall. destruct (script fs) as [|[f|] rest].
  - destruct (act (nodes fs)) as [r t]. intros [= -> <-]. by left.
  - intros [= <- <-]. right. by exists f.
  - destruct (act (nodes fs)) as [r t]. intros [= -> <-]. by left.
Qed.

Lemma lookup_make_dir t p q :
  make_dir t p !! q = t !! q \/ (q = p /\ t !! q = None /\ make_dir t p !! q = Some Directory).
Proof.
  unfold make_dir. destruct (t !! p) eqn:Hp; [by left|].
  destruct (decide (q = p)) as [->|]; [right; by rewrite lookup_insert_eq|left; by rewrite lookup_insert_ne].
Qed.

(** Making directories leaves every file and every existing entry alone. *)
Lemma lookup_make_dirs ps t q :
  fold_left make_dir ps t !! q = t !! q
  \/ (q ∈ ps /\ t !! q = None /\ fold_left make_dir ps t !! q = Some Directory).
Proof.
  revert t. induction ps as [|p ps IH]; intros t; cbn; [by left|].
  destruct (IH (make_dir t p)) as [E|(Hin & Hn & E)], (lookup_make_dir t p q) as [E'|(-> & Hn' & E')];
    rewrite ?E, ?E' in *; try (left; congruence); right; split; try set_solver; by rewrite ?E'.
Qed.

Lemma make_dirs_created ps t p :
  p ∈ ps -> existsb (is_file t) ps = false -> fold_left make_dir ps t !! p = Some Directory.
Proof.
  revert t. induction ps as [|q ps IH]; intros t; cbn; [set_solver|].
  intros Hp [Hq Hps]%orb_false_iff.
  assert (make_dir t q !! q = Some Directory) as Hmq.
  { unfold make_dir. unfold is_file in Hq. destruct (t !! q) as [[]|] eqn:E; [done|done|].
    by rewrite lookup_insert_eq. }
  apply elem_of_cons in Hp as [->|Hp].
  - destruct (lookup_make_dirs ps (make_dir t q) q) as [-> |(_ & Hn & _)]; [done|congruence].
  - apply IH; [done|]. apply not_true_is_false. intros (x & Hx & Hf)%existsb_exists.
    assert (is_file t x = true) as Hfx.
    { unfold is_file in *. destruct (lookup_make_dir t q x) as [E|(-> & _ & E)]; rewrite E in Hf; done. }
    assert (existsb (is_file t) ps = true) by (apply existsb_exists; eauto). congruence.
Qed.

Lemma elem_of_ancestors_self p : p ≠ [] -> p ∈ ancestors p.
Proof.
  intros Hp. unfold ancestors. apply list_elem_of_fmap. exists (length p).
  split; [by rewrite firstn_all|]. apply elem_of_seq. destruct p; [done|]. cbn. lia.
Qed.

Lemma elem_of_ancestors p q : q ∈ ancestors p -> q `prefix_of` p /\ q ≠ [].
Proof.
  unfold ancestors. intros (n & -> & [H1 H2]%elem_of_seq)%list_elem_of_fmap. split.
  - exists (drop n p). by rewrite take_drop.
  - intros E. apply (f_equal length) in E. rewrite length_take in E. cbn in E. lia.
Qed.

Lemma parent_app p x : parent (p ++ [x]) = p.
Proof. apply removelast_last. Qed.

(** Nothing is an ancestor of its own parent. *)
Lemma not_own_ancestor (q : path) : q ≠ [] -> q ∉ ancestors (parent q).
Proof.
  intros Hq [[r Hr] _]%elem_of_ancestors. apply (f_equal length) in Hr.
  destruct q as [|x q _] using rev_ind; [done|]. rewrite parent_app, !length_app in Hr. cbn in Hr. lia.
Qed.
