(* ===== verification/ArtifactFiles.v ===== *)
(** * Staging and publication of artifact bodies ([storage/local/artifact_files.rs])

    A body is streamed into a temporary file under a reservation of the space ledger, hashed on
    the way, and renamed to its digest path.  The reservation records what the filesystem may
    hold for it, and every exit settles it: commit, release, awaited discard, or the asynchronous
    cleanup of a cancelled request. *)

From S2P Require Import Prelude Externals Domain Space Filesystem.

Inductive LocalError :=
| Io (e : io_error)
| Stream (message : string)
| TooLarge
| OutOfSpace
| DigestMismatch
| InvalidChannelDirectory (component : bytes)
| Task.

Inductive ReservationState := Vacant | Temporary (p : path) | Published.

Record Reservation := { outstanding : Z; reservation_state : ReservationState }.

Definition Reservation_new : Reservation := {| outstanding := 0; reservation_state := Vacant |}.

Definition set_outstanding (r : Reservation) (x : Z) : Reservation :=
  {| outstanding := x; reservation_state := reservation_state r |}.
Definition mark_temporary (p : path) (r : Reservation) : Reservation :=
  {| outstanding := outstanding r; reservation_state := Temporary p |}.
Definition mark_vacant (r : Reservation) : Reservation :=
  {| outstanding := outstanding r; reservation_state := Vacant |}.
Definition mark_published (r : Reservation) : Reservation :=
  {| outstanding := outstanding r; reservation_state := Published |}.

Record ArtifactFiles := { root : path; reservation_extent : Z }.

(** [ArtifactFiles::open] *)
Definition ArtifactFiles_open (root_ : path) (extent : Z) : M FS LocalError ArtifactFiles :=
  _ ← raising Io (create_dir_all root_);
  mret {| root := root_; reservation_extent := Z.max extent 1 |}.

Record StagedArtifact := {
  staged_path : path;
  staged_digest : Digest;
  staged_len : Z;
  staged_stored_len : Z;
  staged_encoding : StoredEncoding;
  staged_reservation : Reservation
}.

Inductive FilePublication := Created (r : Reservation) | Existing (r : Reservation).

(** A request body: the chunks the stream yields, an error ending it. *)
Abbreviation body_stream := (list (result string (list ascii))) (only parsing).

Inductive StageOutcome := Ready (staged : StagedArtifact) | Rejected (stream : body_stream).

(** The encoder writes its frame when it is shut down; what it writes before is not observable. *)
Inductive StageWriter := WIdentity (file : path) | WZstd (file : path) (written : list bytes).

Section Files.
Context {UL : UlidLib} {HX : HexLib} {SH : Sha256Lib} {ZS : ZstdLib} {R : Type} {RS : Reserver R}.

(** What the artifact store works on: the disk and the ledger. *)
Record Local := { l_fs : FS; l_space : R }.

(** The same with the reservation an operation holds as [&mut Reservation]. *)
Record Staging := { s_fs : FS; s_space : R; s_res : Reservation }.

Definition hold (r : Reservation) (w : Local) : Staging :=
  {| s_fs := l_fs w; s_space := l_space w; s_res := r |}.
Definition let_go (s : Staging) : Local := {| l_fs := s_fs s; l_space := s_space s |}.

Definition on_res (f : Reservation -> Reservation) : M Staging LocalError unit :=
  modify (fun s => {| s_fs := s_fs s; s_space := s_space s; s_res := f (s_res s) |}).

(** [tokio::fs::..().await?] *)
Definition fs_op {A} (m : M FS io_error A) : M Staging LocalError A :=
  raising Io (zoom s_fs (fun fs s => {| s_fs := fs; s_space := s_space s; s_res := s_res s |}) m).

Definition l_fs_op {A} (m : M FS io_error A) : M Local LocalError A :=
  raising Io (zoom l_fs (fun fs w => {| l_fs := fs; l_space := l_space w |}) m).

(** ** Reservations *)

Definition reserve (b : Z) : M Staging LocalError bool := fun s =>
  let grown := set_outstanding (s_res s) (saturating_add (outstanding (s_res s)) b) in
  if b =? 0 then (Ok true, {| s_fs := s_fs s; s_space := s_space s; s_res := grown |})
  else
    let '(granted, space) := try_reserve b (s_space s) in
    if granted then (Ok true, {| s_fs := s_fs s; s_space := space; s_res := grown |})
    else (Ok false, {| s_fs := s_fs s; s_space := space; s_res := s_res s |}).

(** [Reservation::commit] *)
Definition Reservation_commit (b : Z) (r : Reservation) (space : R) : R :=
  let committed := Z.min b (outstanding r) in
  let space := commit committed space in
  let slack := outstanding r - committed in
  if 0 <? slack then release slack space else space.

(** [PendingSettlement], the capacity a clean-up answers for: releasing it, committing it, and
    dropping it with neither done *)
Definition settlement_release (settlement : Z) (space : R) : R := release settlement space.
Definition settlement_commit (settlement : Z) (space : R) : R := commit settlement space.
Definition settlement_drop (settlement : Z) (space : R) : R := if 0 <? settlement then commit settlement space else space.

Definition settle_removal (removed : result io_error unit) (settlement : Z) (space : R) : R :=
  match removed with
  | Ok _ => settlement_release settlement space
  | Err IoNotFound => settlement_release settlement space
  | Err _ => settlement_commit settlement space
  end.

(** Removes a temporary file and settles what it was holding. *)
Definition remove_and_settle (p : path) (settlement : Z) (w : Local) : Local :=
  let '(removed, fs) := remove_file p (l_fs w) in
  {| l_fs := fs; l_space := settle_removal removed settlement (l_space w) |}.

(** [schedule_removal] with the task it spawns: [runtime] says whether there is a runtime to spawn
    it on, [finishes] whether the task runs before shutdown cancels it. *)
Definition schedule_removal (runtime finishes : bool) (p : path) (settlement : Z) (w : Local) : Local :=
  if runtime then
    if finishes then remove_and_settle p settlement w
    else {| l_fs := l_fs w; l_space := settlement_drop settlement (l_space w) |}
  else {| l_fs := l_fs w; l_space := settlement_commit settlement (l_space w) |}.

(** [Reservation::discard]; [Reservation::settlement] takes all that is outstanding *)
Definition discard (r : Reservation) (w : Local) : Local :=
  match reservation_state r with
  | Vacant => {| l_fs := l_fs w; l_space := settlement_release (outstanding r) (l_space w) |}
  | Temporary p => remove_and_settle p (outstanding r) w
  | Published => {| l_fs := l_fs w; l_space := settlement_commit (outstanding r) (l_space w) |}
  end.

(** [Drop for Reservation] *)
Definition drop_reservation (runtime finishes : bool) (r : Reservation) (w : Local) : Local :=
  match reservation_state r with
  | Vacant =>
      if outstanding r =? 0 then w
      else {| l_fs := l_fs w; l_space := settlement_release (outstanding r) (l_space w) |}
  | Published =>
      if outstanding r =? 0 then w
      else {| l_fs := l_fs w; l_space := settlement_commit (outstanding r) (l_space w) |}
  | Temporary p => schedule_removal runtime finishes p (outstanding r) w
  end.

(** ** Paths *)

Definition channel_dir (files : ArtifactFiles) (channel : ChannelId) : path :=
  root files ++ [ChannelId_to_string channel].

Definition artifact_path (files : ArtifactFiles) (channel : ChannelId) (artifact : ArtifactId) : path :=
  let d := Digest_to_string (digest artifact) in
  channel_dir files channel ++ [lit "sha256"; take 2 d; take 2 (drop 2 d); d].

Definition temporary_path (files : ArtifactFiles) (channel : ChannelId) (name : bytes) : path :=
  channel_dir files channel ++ [lit "tmp"; name ++ lit ".part"].

(** ** Staging *)

Definition StageWriter_new (file : path) (encoding : StoredEncoding) : StageWriter :=
  match encoding with Identity => WIdentity file | Zstd => WZstd file [] end.

Definition write_all (w : StageWriter) (chunk : bytes) : M Staging LocalError StageWriter :=
  match w with
  | WIdentity file => _ ← fs_op (write_file file chunk); mret w
  | WZstd file written => _ ← fs_op touch; mret (WZstd file (written ++ [chunk]))
  end.

Definition finish (w : StageWriter) : M Staging LocalError path :=
  match w with
  | WIdentity file => _ ← fs_op touch; mret file
  | WZstd file written => _ ← fs_op (write_file file (zstd_frame written)); mret file
  end.

(** [while len > reservation.outstanding { .. }]: the fuel is the number of extents missing. *)
Fixpoint extend (extent len : Z) (fuel : nat) : M Staging LocalError unit :=
  match fuel with
  | O => mret tt
  | S fuel =>
      s ← get_state;
      if outstanding (s_res s) <? len then
        granted ← reserve extent;
        if (granted : bool) then extend extent len fuel else throw OutOfSpace
      else mret tt
  end.

Definition extend_fuel (extent len : Z) (s : Staging) : nat :=
  Z.to_nat ((len - outstanding (s_res s) + extent - 1) / extent).

(** The loop over the stream; [hashed] is what the hasher has been fed. *)
Fixpoint pump (files : ArtifactFiles) (max_bytes : Z) (stream : body_stream) (w : StageWriter)
    (hashed : bytes) (len : Z) : M Staging LocalError (StageWriter * bytes * Z) :=
  match stream with
  | [] => mret (w, hashed, len)
  | Err e :: _ => throw (Stream e)
  | Ok chunk :: stream =>
      len ← ok_or (checked_add len (Z.of_nat (length chunk))) TooLarge;
      _ ← (if max_bytes <? len then throw TooLarge else mret tt);
      s ← get_state;
      _ ← extend (reservation_extent files) len (extend_fuel (reservation_extent files) len s);
      w ← write_all w chunk;
      pump files max_bytes stream w (hashed ++ chunk) len
  end.

Definition stage_reserved (files : ArtifactFiles) (channel : ChannelId) (name : bytes)
    (stream : body_stream) (max_bytes : Z) (durability : Durability) (encoding : StoredEncoding)
    : M Staging LocalError (path * Digest * Z * Z) :=
  _ ← fs_op (create_dir_all (channel_dir files channel ++ [lit "tmp"]));
  let path := temporary_path files channel name in
  _ ← on_res (mark_temporary path);
  _ ← fs_op (open_new path);
  '(w, hashed, len) ← pump files max_bytes stream (StageWriter_new path encoding) [] 0;
  file ← finish w;
  stored_len ← (match encoding with
                | Identity => mret len
                | Zstd => fs_op (file_len file)
                end);
  s ← get_state;
  _ ← (if outstanding (s_res s) <? stored_len then
         granted ← reserve (stored_len - outstanding (s_res s));
         if (granted : bool) then mret tt else throw OutOfSpace
       else mret tt);
  _ ← (match durability with Durable => fs_op touch | BestEffort => mret tt end);
  mret (path, from_bytes (sha256 hashed), len, stored_len).

(** [ArtifactFiles::stage]; [name] is the fresh identifier of the temporary file. *)
Definition stage (files : ArtifactFiles) (channel : ChannelId) (name : bytes)
    (stream : body_stream) (max_bytes : Z) (content_length : option Z) (durability : Durability)
    (encoding : StoredEncoding) : M Local LocalError StageOutcome := fun w =>
  let initial := match content_length with
                 | Some length => Z.min length max_bytes
                 | None => reservation_extent files
                 end in
  match reserve initial (hold Reservation_new w) with
  | (Ok true, s) =>
      match stage_reserved files channel name stream max_bytes durability encoding s with
      | (Ok (path, digest, len, stored_len), s) =>
          (Ok (Ready {| staged_path := path; staged_digest := digest; staged_len := len;
                        staged_stored_len := stored_len; staged_encoding := encoding;
                        staged_reservation := s_res s |}), let_go s)
      | (Err e, s) => (Err e, discard (s_res s) (let_go s))
      end
  | (Ok false, s) => (Ok (Rejected stream), let_go s)
  | (Err e, s) => (Err e, let_go s)
  end.

(** ** Publication *)

Definition publish_reserved (files : ArtifactFiles) (channel : ChannelId) (artifact : ArtifactId)
    (staged_path : path) (digest_ : Digest) (durability : Durability) : M Staging LocalError bool :=
  if decide (digest_ = digest artifact) then
    let final_path := artifact_path files channel artifact in
    _ ← fs_op (create_dir_all (parent final_path));
    present ← fs_op (try_exists final_path);
    if (present : bool) then
      _ ← fs_op (remove_file staged_path);
      _ ← on_res mark_vacant;
      mret false
    else
      renamed ← try (fs_op (rename staged_path final_path));
      match (renamed : result LocalError unit) with
      | Ok _ =>
          _ ← on_res mark_published;
          _ ← (match durability with Durable => fs_op touch | BestEffort => mret tt end);
          mret true
      | Err (Io IoAlreadyExists) =>
          _ ← fs_op (remove_file staged_path);
          _ ← on_res mark_vacant;
          mret false
      | Err e => throw e
      end
  else throw DigestMismatch.

(** [ArtifactFiles::publish] *)
Definition publish (files : ArtifactFiles) (channel : ChannelId) (artifact : ArtifactId)
    (staged : StagedArtifact) (durability : Durability) : M Local LocalError FilePublication := fun w =>
  match publish_reserved files channel artifact (staged_path staged) (staged_digest staged) durability
          (hold (staged_reservation staged) w) with
  | (Ok created, s) => (Ok ((if (created : bool) then Created else Existing) (s_res s)), let_go s)
  | (Err e, s) => (Err e, discard (s_res s) (let_go s))
  end.

(** ** The rest of the store *)

Definition files_health (files : ArtifactFiles) : M Local LocalError unit :=
  dir ← l_fs_op (stat_is_dir (root files));
  if (dir : bool) then mret tt else throw (Io (IoOther "artifact root is not a directory")).

Definition remove (files : ArtifactFiles) (channel : ChannelId) (artifact : ArtifactId)
    : M Local LocalError unit :=
  removed ← try (l_fs_op (remove_file (artifact_path files channel artifact)));
  match (removed : result LocalError unit) with
  | Ok _ => mret tt
  | Err (Io IoNotFound) => mret tt
  | Err e => throw e
  end.

Definition remove_channel (files : ArtifactFiles) (channel : ChannelId) : M Local LocalError unit :=
  removed ← try (l_fs_op (remove_dir_all (channel_dir files channel)));
  match (removed : result LocalError unit) with
  | Ok _ => mret tt
  | Err (Io IoNotFound) => mret tt
  | Err e => throw e
  end.

(** [read_dir] whose [NotFound] the caller turns into no entries. *)
Definition read_dir_or_none (p : path) : M Local LocalError (option (list (bytes * node))) :=
  entries ← try (l_fs_op (read_dir p));
  match (entries : result LocalError _) with
  | Ok entries => mret (Some entries)
  | Err (Io IoNotFound) => mret None
  | Err e => throw e
  end.

(** [while let Some(entry) = entries.next_entry().await? { .. }] *)
Definition for_entries (body : bytes * node -> M Local LocalError unit) (entries : list (bytes * node))
    : M Local LocalError unit :=
  _ ← for_each (fun entry => _ ← l_fs_op touch; body entry) entries; l_fs_op touch.

Definition remove_temporary_files (files : ArtifactFiles) : M Local LocalError unit :=
  channels ← read_dir_or_none (root files);
  match channels with
  | None => mret tt
  | Some channels =>
      for_entries (fun channel =>
        let directory := root files ++ [channel.1; lit "tmp"] in
        entries ← read_dir_or_none directory;
        match entries with
        | None => mret tt
        | Some entries =>
            for_entries (fun file =>
              _ ← l_fs_op touch;
              match file.2 with
              | File _ => l_fs_op (remove_file (directory ++ [file.1]))
              | Directory => mret tt
              end) entries
        end) channels
  end.

(** A directory loop that accumulates findings and may stop early: [body] returns what it has
    found so far and whether the scan ends here. *)
Fixpoint scan_entries {A} (body : bytes * node -> list A -> M Local LocalError (list A * bool))
    (entries : list (bytes * node)) (found : list A) : M Local LocalError (list A * bool) :=
  match entries with
  | [] => _ ← l_fs_op touch; mret (found, false)
  | entry :: entries =>
      _ ← l_fs_op touch;
      '(found, stop) ← body entry found;
      if (stop : bool) then mret (found, true) else scan_entries body entries found
  end.

(** The check that opens every loop body of the scan, and the entry's type. *)
Definition scan_step {A} (limit : nat) (want : node -> bool)
    (body : bytes -> list A -> M Local LocalError (list A * bool))
    (entry : bytes * node) (found : list A) : M Local LocalError (list A * bool) :=
  if Nat.leb limit (length found) then mret (found, true)
  else
    _ ← l_fs_op touch;
    if want entry.2 then body entry.1 found else mret (found, false).

Definition want_dir (n : node) : bool := match n with Directory => true | File _ => false end.
Definition want_file (n : node) : bool := negb (want_dir n).

(** [scan_channel_files]: three levels of directories, the last holding the files. *)
Definition scan_channel_files (channel : ChannelId) (sha256_dir : path) (limit : nat)
    (found : list (ChannelId * ArtifactId)) : M Local LocalError (list (ChannelId * ArtifactId)) :=
  prefixes ← read_dir_or_none sha256_dir;
  match prefixes with
  | None => mret found
  | Some prefixes =>
      '(found, _) ← scan_entries (scan_step limit want_dir (fun prefix found =>
        subprefixes ← l_fs_op (read_dir (sha256_dir ++ [prefix]));
        scan_entries (scan_step limit want_dir (fun subprefix found =>
          entries ← l_fs_op (read_dir (sha256_dir ++ [prefix; subprefix]));
          scan_entries (scan_step limit want_file (fun name found =>
            mret (match ArtifactId_parse ALGORITHM name with
                  | Ok artifact => found ++ [(channel, artifact)]
                  | Err _ => found
                  end, false))) entries found)) subprefixes found)) prefixes found;
      mret found
  end.

Definition orphan_scan (files : ArtifactFiles) (limit : nat)
    : M Local LocalError (list (ChannelId * ArtifactId)) :=
  channels ← read_dir_or_none (root files);
  match channels with
  | None => mret []
  | Some channels =>
      '(found, _) ← scan_entries (scan_step limit want_dir (fun component found =>
        channel ← lift (map_err (fun _ => InvalidChannelDirectory component) (ChannelId_from_str component));
        found ← scan_channel_files channel (root files ++ [component; lit "sha256"]) limit found;
        mret (found, false))) channels [];
      mret found
  end.
End Files.
Arguments Local R : clear implicits.
Arguments Staging R : clear implicits.
