(* ===== verification/FilesLemmas.v ===== *)
(** * Lemmas on staging and publication

    Accounting (whatever fails, the ledger holds what the live reservations hold), framing (an
    operation touches its own paths), and what a successful staging or publication leaves on
    disk. *)

From S2P Require Import Prelude Externals Domain Space Filesystem ArtifactFiles.

Section Accounting.
Context {UL : UlidLib} {HX : HexLib} {SH : Sha256Lib} {ZS : ZstdLib}.
Context {R : Type} {RS : Reserver R} {RL : ReserverLaws R}.
Implicit Types (s : Staging R) (w : Local R).

(** Beside [rest] bytes of other reservations, the ledger holds this one's. *)
Definition accounts (rest : Z) s : Prop :=
  holds (s_space s) (rest + outstanding (s_res s)) /\ 0 <= outstanding (s_res s).

Lemma fs_op_preserves {A} (I : Staging R -> Prop) (m : M FS io_error A) :
  (forall fs s, I s -> I {| s_fs := fs; s_space := s_space s; s_res := s_res s |}) ->
  preserves I (fs_op m).
Proof.
  intros H s Hs. unfold fs_op, raising, zoom. specialize (H (m (s_fs s)).2 s Hs).
  by destruct (m (s_fs s)) as [[] fs].
Qed.

Lemma on_res_preserves (I : Staging R -> Prop) f :
  (forall s, I s -> I {| s_fs := s_fs s; s_space := s_space s; s_res := f (s_res s) |}) ->
  preserves I (on_res f).
Proof. intros H. by apply preserves_modify. Qed.

Lemma fs_op_accounts {A} rest (m : M FS io_error A) : preserves (accounts rest) (fs_op m).
Proof. apply fs_op_preserves. done. Qed.

Lemma reserve_spec rest b s :
  0 <= rest -> 0 <= b -> accounts rest s ->
  match reserve b s with
  | (Ok true, s') => accounts rest s' /\ s_fs s' = s_fs s
      /\ outstanding (s_res s') = outstanding (s_res s) + b
      /\ reservation_state (s_res s') = reservation_state (s_res s)
      /\ committed (s_space s') = committed (s_space s)
  | (Ok false, s') => s' = s
  | (Err _, _) => False
  end.
Proof.
  intros Hrest Hb [Hh Ho]. unfold reserve. destruct (Z.eqb_spec b 0) as [->|Hne].
  - cbn. pose proof (holds_range _ _ Hh) as Hr. unfold is_u64 in Hr.
    rewrite saturating_add_exact by lia. rewrite Z.add_0_r. done.
  - destruct (try_reserve b (s_space s)) as [[] sp] eqn:Ht.
    + destruct (try_reserve_true b _ _ _ Hb Ht Hh) as [Hh' Hc].
      pose proof (holds_range _ _ Hh') as Hr. unfold is_u64 in Hr. unfold accounts. cbn.
      rewrite saturating_add_exact by lia. rewrite Z.add_assoc. repeat split; [done|lia|done].
    + apply try_reserve_false in Ht as ->. by destruct s.
Qed.

Lemma reserve_accounts rest b : 0 <= rest -> 0 <= b -> preserves (accounts rest) (reserve b).
Proof.
  intros Hr Hb s Hs. pose proof (reserve_spec rest b s Hr Hb Hs) as H.
  destruct (reserve b s) as [[[]|] s']; [apply H|by subst|done].
Qed.

Lemma extend_accounts rest extent len fuel :
  0 <= rest -> 0 <= extent -> preserves (accounts rest) (extend extent len fuel).
Proof.
  intros Hr He. induction fuel as [|fuel IH]; [apply preserves_ret|]. cbn.
  apply preserves_bind; [apply preserves_get|]. intros s. case_bool; [|apply preserves_ret].
  apply preserves_bind; [by apply reserve_accounts|]. intros [|]; [exact IH|apply preserves_throw].
Qed.

Lemma write_all_accounts rest wr chunk : preserves (accounts rest) (write_all wr chunk).
Proof.
  destruct wr; apply preserves_bind; intros; auto using fs_op_accounts, preserves_ret.
Qed.

Lemma finish_accounts rest wr : preserves (accounts rest) (finish wr).
Proof. destruct wr; apply preserves_bind; intros; auto using fs_op_accounts, preserves_ret. Qed.

Definition files_wf (files : ArtifactFiles) : Prop := 1 <= reservation_extent files <= u64_max.

Lemma pump_accounts rest files max_bytes stream wr hashed len :
  0 <= rest -> files_wf files -> preserves (accounts rest) (pump files max_bytes stream wr hashed len).
Proof.
  intros Hr Hf. revert wr hashed len. induction stream as [|[chunk|e] stream IH]; intros wr hashed len; cbn.
  - apply preserves_ret.
  - apply preserves_bind; [apply preserves_ok_or|]. intros len'.
    apply preserves_bind; [case_bool; auto with flywheel|]. intros _.
    apply preserves_bind; [apply preserves_get|]. intros s.
    apply preserves_bind; [apply extend_accounts; [done|unfold files_wf in Hf; lia]|]. intros _.
    apply preserves_bind; [apply write_all_accounts|]. intros wr'. apply IH.
  - apply preserves_throw.
Qed.

Lemma stage_reserved_accounts rest files channel name stream max_bytes durability encoding :
  0 <= rest -> files_wf files ->
  preserves (accounts rest) (stage_reserved files channel name stream max_bytes durability encoding).
Proof.
  intros Hr Hf. unfold stage_reserved.
  apply preserves_bind; [apply fs_op_accounts|]. intros _.
  apply preserves_bind; [by apply on_res_preserves|]. intros _.
  apply preserves_bind; [apply fs_op_accounts|]. intros _.
  apply preserves_bind; [by apply pump_accounts|]. intros [[wr hashed] len].
  apply preserves_bind; [apply finish_accounts|]. intros file.
  apply preserves_bind; [destruct encoding; auto using fs_op_accounts, preserves_ret|]. intros stored.
  apply preserves_bind; [apply preserves_get|]. intros s.
  apply preserves_bind.
  { case_bool; [|apply preserves_ret]. zify_bool.
    apply preserves_bind; [apply reserve_accounts; lia|]. intros [|]; auto with flywheel. }
  intros _. apply preserves_bind; [destruct durability; auto using fs_op_accounts, preserves_ret|].
  intros _. apply preserves_ret.
Qed.

Lemma publish_reserved_accounts rest files channel artifact p d durability :
  preserves (accounts rest) (publish_reserved files channel artifact p d durability).
Proof.
  unfold publish_reserved. case_decide; [|apply preserves_throw].
  apply preserves_bind; [apply fs_op_accounts|]. intros _.
  apply preserves_bind; [apply fs_op_accounts|]. intros [|].
  - apply preserves_bind; [apply fs_op_accounts|]. intros _.
    apply preserves_bind; [by apply on_res_preserves|]. intros _. apply preserves_ret.
  - apply preserves_bind; [apply preserves_try, fs_op_accounts|]. intros [[]|[[]| | | | | |]];
      auto with flywheel; repeat (apply preserves_bind; [|intros _]);
      destruct durability; auto using fs_op_accounts, on_res_preserves, preserves_ret.
Qed.

(** Publishing settles nothing. *)
Lemma publish_reserved_res files channel artifact p d durability b :
  preserves (fun s => outstanding (s_res s) = b) (publish_reserved (R:=R) files channel artifact p d durability).
Proof.
  assert (forall A (m : M FS io_error A), preserves (fun s : Staging R => outstanding (s_res s) = b) (fs_op m)) as Hfs.
  { intros A m. by apply fs_op_preserves. }
  unfold publish_reserved. case_decide; [|apply preserves_throw].
  apply preserves_bind; [apply Hfs|]. intros _. apply preserves_bind; [apply Hfs|]. intros [|].
  - apply preserves_bind; [apply Hfs|]. intros _.
    apply preserves_bind; [by apply on_res_preserves|]. intros _. apply preserves_ret.
  - apply preserves_bind; [apply preserves_try, Hfs|]. intros [[]|[[]| | | | | |]];
      auto with flywheel; repeat (apply preserves_bind; [|intros _]);
      destruct durability; auto using on_res_preserves, preserves_ret.
Qed.

(** Settling a reservation gives back exactly what it held. *)
Lemma settled_holds rest b sp (released : bool) :
  0 <= rest -> 0 <= b -> holds sp (rest + b) ->
  holds (if released then release b sp else commit b sp) rest.
Proof.
  intros Hr Hb Hh. destruct released.
  - destruct (release_law b sp (rest + b)) as [H _]; [lia|done|]. by rewrite Z.add_simpl_r in H.
  - destruct (commit_law b sp (rest + b)) as [H _]; [lia|done|]. by rewrite Z.add_simpl_r in H.
Qed.

Lemma remove_and_settle_holds rest p b w :
  0 <= rest -> 0 <= b -> holds (l_space w) (rest + b) -> holds (l_space (remove_and_settle p b w)) rest.
Proof.
  intros Hr Hb Hh. unfold remove_and_settle. destruct (remove_file p (l_fs w)) as [removed fs]. cbn.
  destruct removed as [[]|[]]; cbn.
  - by apply (settled_holds rest b _ true).
  - by apply (settled_holds rest b _ true).
  - by apply (settled_holds rest b _ false).
  - by apply (settled_holds rest b _ false).
Qed.

Lemma discard_holds rest r w :
  0 <= rest -> 0 <= outstanding r -> holds (l_space w) (rest + outstanding r) ->
  holds (l_space (discard r w)) rest.
Proof.
  intros Hr Hb Hh. unfold discard. destruct (reservation_state r); cbn.
  - by apply (settled_holds rest _ _ true).
  - by apply remove_and_settle_holds.
  - by apply (settled_holds rest _ _ false).
Qed.

Lemma drop_holds runtime finishes rest r w :
  0 <= rest -> 0 <= outstanding r -> holds (l_space w) (rest + outstanding r) ->
  holds (l_space (drop_reservation runtime finishes r w)) rest.
Proof.
  intros Hr Hb Hh. unfold drop_reservation.
  assert (outstanding r = 0 -> holds (l_space w) rest) as H0.
  { intros E. by rewrite E, Z.add_0_r in Hh. }
  destruct (reservation_state r); [destruct (Z.eqb_spec (outstanding r) 0)| |destruct (Z.eqb_spec (outstanding r) 0)]; cbn; auto.
  - by apply (settled_holds rest _ _ true).
  - unfold schedule_removal, settlement_drop. destruct runtime; [destruct finishes; [|destruct (Z.ltb_spec 0 (outstanding r))]|]; cbn.
    + by apply remove_and_settle_holds.
    + by apply (settled_holds rest _ _ false).
    + apply H0. lia.
    + by apply (settled_holds rest _ _ false).
  - by apply (settled_holds rest _ _ false).
Qed.

Lemma Reservation_commit_spec rest b r sp :
  0 <= rest -> 0 <= b <= outstanding r -> holds sp (rest + outstanding r) ->
  holds (Reservation_commit b r sp) rest
  /\ committed (Reservation_commit b r sp) = saturating_add (committed sp) b.
Proof.
  intros Hr Hb Hh. unfold Reservation_commit. rewrite Z.min_l by lia.
  destruct (commit_law b sp (rest + outstanding r)) as [Hh' Hc]; [lia|done|].
  destruct (Z.ltb_spec 0 (outstanding r - b)).
  - destruct (release_law (outstanding r - b) (commit b sp) (rest + outstanding r - b)) as [Hh2 Hc2];
      [lia|done|]. split; [|congruence]. by replace rest with (rest + outstanding r - b - (outstanding r - b)) by lia.
  - split; [|done]. by replace rest with (rest + outstanding r - b) by lia.
Qed.

(** The loop exits with its condition false: the fuel is enough. *)
Lemma extend_enough rest extent len fuel s s' :
  0 <= rest -> 1 <= extent -> accounts rest s -> len - outstanding (s_res s) <= Z.of_nat fuel * extent ->
  extend extent len fuel s = (Ok tt, s') ->
  len <= outstanding (s_res s') /\ s_fs s' = s_fs s
  /\ reservation_state (s_res s') = reservation_state (s_res s)
  /\ committed (s_space s') = committed (s_space s).
Proof.
  intros Hr He. revert s. induction fuel as [|fuel IH]; intros s Hs Hfuel; cbn.
  { intros [= <-]. repeat split. lia. }
  unfold mbind, M_bind, get_state. destruct (Z.ltb_spec (outstanding (s_res s)) len) as [Hlt|Hge].
  - pose proof (reserve_spec rest extent s Hr ltac:(lia) Hs) as H.
    destruct (reserve extent s) as [[[]|e] s1]; [|done|done].
    destruct H as (Hs1 & Hfs & Ho & Hst & Hc). intros Hrun.
    destruct (IH s1 Hs1 ltac:(rewrite Ho; lia) Hrun) as (? & ? & ? & ?). repeat split; congruence || lia.
  - intros [= <-]. repeat split. lia.
Qed.

Lemma extend_fuel_enough extent len s :
  1 <= extent ->
  len - outstanding (s_res s) <= Z.of_nat (extend_fuel extent len s) * extent.
Proof.
  intros He. unfold extend_fuel. set (d := len - outstanding (s_res s)).
  destruct (Z.le_gt_cases d 0); [lia|].
  rewrite Z2Nat.id by (apply Z.div_pos; lia).
  pose proof (Z.div_mod (d + extent - 1) extent ltac:(lia)).
  pose proof (Z.mod_pos_bound (d + extent - 1) extent ltac:(lia)). lia.
Qed.

Lemma reserve_fs b s : s_fs (reserve b s).2 = s_fs s.
Proof. unfold reserve. destruct (b =? 0); [done|]. by destruct (try_reserve b (s_space s)) as [[] sp]. Qed.

(** Extending touches nothing on disk. *)
Lemma extend_fs extent len fuel s : s_fs (extend extent len fuel s).2 = s_fs s.
Proof.
  revert s. induction fuel as [|fuel IH]; intros s; [done|]. cbn. unfold mbind, M_bind, get_state.
  case_bool; [|done]. pose proof (reserve_fs extent s) as E.
  destruct (reserve extent s) as [[[]|] s1]; cbn in *; by rewrite ?IH.
Qed.
End Accounting.

(** ** What is on disk *)

Section Disk.
Context {UL : UlidLib} {ULL : UlidLaws} {HX : HexLib} {HXL : HexLaws} {SH : Sha256Lib}.
Context {ZS : ZstdLib} {ZSL : ZstdLaws} {R : Type} {RS : Reserver R} {RL : ReserverLaws R}.
Implicit Types (s : Staging R) (w : Local R) (t : tree).

(** The stored form of a body under an encoding. *)
Definition stored_as (encoding : StoredEncoding) (content body : bytes) : Prop :=
  match encoding with
  | Identity => content = body
  | Zstd => zstd_decode content = Some body
  end.

(** The content can be served as the artifact: it is the stored form of a body with its digest. *)
Definition intact_content (artifact : ArtifactId) (content : bytes) : Prop :=
  exists encoding body, stored_as encoding content body /\ sha256 body = digest_array (digest artifact).

(** Every published file is intact. *)
Definition intact (files : ArtifactFiles) t : Prop :=
  forall c a content, t !! artifact_path files c a = Some (File content) -> intact_content a content.

(** The regular files other than [p] are those of [t0]. *)
Definition keeps_files (p : path) (t0 t : tree) : Prop :=
  forall q content, q ≠ p -> t !! q = Some (File content) <-> t0 !! q = Some (File content).

Lemma artifact_path_inj files c a c' a' :
  artifact_path files c a = artifact_path files c' a' -> c = c' /\ a = a'.
Proof.
  unfold artifact_path, channel_dir. rewrite <- !(assoc_L (++)). intros H%app_inv_head.
  injection H as Hc _ _ Hd. split.
  - apply as_key_inj. exact Hc.
  - apply (f_equal Digest_parse) in Hd. rewrite !Digest_parse_to_string in Hd.
    destruct a, a'; cbn in *; congruence.
Qed.

Lemma artifact_path_ne files c a : artifact_path files c a ≠ [].
Proof. unfold artifact_path, channel_dir. by destruct (root files). Qed.

Lemma artifact_not_temporary files c a c' n : artifact_path files c a ≠ temporary_path files c' n.
Proof.
  unfold artifact_path, temporary_path, channel_dir. rewrite <- !(assoc_L (++)).
  intros H%app_inv_head. injection H as _ H. done.
Qed.

(** *** System calls and invariants of the tree *)

Lemma fs_op_tree {A : Type} (I : tree -> Prop) (m : M FS io_error A) :
  preserves (fun fs => I (nodes fs)) m ->
  preserves (fun s => I (nodes (s_fs s))) (fs_op m).
Proof.
  intros Hm s Hs. unfold fs_op, raising, zoom. specialize (Hm (s_fs s) Hs).
  by destruct (m (s_fs s)) as [[] fs].
Qed.

Lemma fs_op_ok {A : Type} (act : tree -> result io_error A * tree) torn s a s' :
  fs_op (syscall act torn) s = (Ok a, s') ->
  act (nodes (s_fs s)) = (Ok a, nodes (s_fs s')) /\ s_space s' = s_space s /\ s_res s' = s_res s.
Proof.
  unfold fs_op, raising, zoom. destruct (syscall act torn (s_fs s)) as [[x|e] fs] eqn:E; [|done].
  intros [= <- <-]. cbn. by apply syscall_ok in E.
Qed.

Lemma pure_call_preserves {A : Type} (I : tree -> Prop) (act : tree -> result io_error A) :
  preserves (fun fs => I (nodes fs)) (syscall (fun t => (act t, t)) (fun _ t => t)).
Proof. by apply syscall_preserves. Qed.

Lemma touch_preserves I : preserves (fun fs => I (nodes fs)) touch.
Proof. by apply syscall_preserves. Qed.

Lemma file_len_preserves I p : preserves (fun fs => I (nodes fs)) (file_len p).
Proof. apply syscall_preserves; [|done]. intros t Ht. by repeat case_match. Qed.

Lemma try_exists_preserves I p : preserves (fun fs => I (nodes fs)) (try_exists p).
Proof. by apply syscall_preserves. Qed.

Lemma read_dir_preserves I p : preserves (fun fs => I (nodes fs)) (read_dir p).
Proof. apply syscall_preserves; [|done]. intros t Ht. by repeat case_match. Qed.

Lemma create_dir_all_preserves (I : tree -> Prop) p :
  (forall ps t, ps ⊆ ancestors p -> I t -> I (fold_left make_dir ps t)) ->
  preserves (fun fs => I (nodes fs)) (create_dir_all p).
Proof.
  intros H. apply syscall_preserves.
  - intros t Ht. case_match; cbn; auto.
  - intros f t Ht. case_match; [done|]. apply H; [|done]. intros q Hq. rewrite <- (take_drop (fault_progress f)). apply elem_of_app. by left.
Qed.

Lemma open_new_preserves (I : tree -> Prop) p :
  (forall t, I t -> I (<[p := File []]> t)) -> preserves (fun fs => I (nodes fs)) (open_new p).
Proof. intros H. apply syscall_preserves; [|done]. intros t Ht. repeat case_match; cbn; auto. Qed.

Lemma write_file_preserves (I : tree -> Prop) p chunk :
  (forall x t, I t -> I (alter (append_to x) p t)) ->
  preserves (fun fs => I (nodes fs)) (write_file p chunk).
Proof. intros H. apply syscall_preserves; intros; cbn; auto. Qed.

Lemma remove_file_preserves (I : tree -> Prop) p :
  (forall t, I t -> I (delete p t)) -> preserves (fun fs => I (nodes fs)) (remove_file p).
Proof. intros H. apply syscall_preserves; [|done]. intros t Ht. repeat case_match; cbn; auto. Qed.

Lemma rename_preserves (I : tree -> Prop) p q :
  (forall content t, I t -> t !! p = Some (File content) -> I (<[q := File content]> (delete p t))) ->
  preserves (fun fs => I (nodes fs)) (rename p q).
Proof. intros H. apply syscall_preserves; [|done]. intros t Ht. repeat case_match; cbn; eauto. Qed.

Lemma make_dirs_files ps t q content :
  fold_left make_dir ps t !! q = Some (File content) <-> t !! q = Some (File content).
Proof. destruct (lookup_make_dirs ps t q) as [-> |(_ & -> & ->)]; done. Qed.

(** *** Framing *)

Lemma keeps_refl p t : keeps_files p t t.
Proof. done. Qed.

Lemma keeps_make_dirs p t0 ps t : keeps_files p t0 t -> keeps_files p t0 (fold_left make_dir ps t).
Proof. intros H q content Hq. rewrite make_dirs_files. by apply H. Qed.

Lemma keeps_insert p t0 n t : keeps_files p t0 t -> keeps_files p t0 (<[p := n]> t).
Proof. intros H q content Hq. rewrite lookup_insert_ne by done. by apply H. Qed.

Lemma keeps_alter p t0 f t : keeps_files p t0 t -> keeps_files p t0 (alter f p t).
Proof. intros H q content Hq. rewrite lookup_alter_ne by done. by apply H. Qed.

Lemma keeps_delete p t0 t : keeps_files p t0 t -> keeps_files p t0 (delete p t).
Proof. intros H q content Hq. rewrite lookup_delete_ne by done. by apply H. Qed.

Hint Resolve touch_preserves file_len_preserves try_exists_preserves keeps_make_dirs keeps_insert
  keeps_alter keeps_delete : core.

(** What an invariant of the tree must withstand to survive staging into [p]. *)
Record staging_closed (I : tree -> Prop) (dir p : path) : Prop := {
  sc_dirs ps t : ps ⊆ ancestors dir -> I t -> I (fold_left make_dir ps t);
  sc_open t : I t -> I (<[p := File []]> t);
  sc_write x t : I t -> I (alter (append_to x) p t)
}.

Lemma keeps_closed dir p t0 : staging_closed (keeps_files p t0) dir p.
Proof. split; auto. Qed.

(** The file a writer writes to. *)
Definition writer_file (wr : StageWriter) : path :=
  match wr with WIdentity p => p | WZstd p _ => p end.

Lemma pump_tree I dir p files max_bytes stream wr hashed len :
  staging_closed I dir p -> writer_file wr = p ->
  preserves (fun s => I (nodes (s_fs s))) (pump files max_bytes stream wr hashed len).
Proof.
  intros HI. revert wr hashed len. induction stream as [|[chunk|e] stream IH]; intros wr hashed len Hp; cbn.
  - apply preserves_ret.
  - apply preserves_bind; [apply preserves_ok_or|]. intros len'.
    apply preserves_bind; [case_bool; auto with flywheel|]. intros _.
    apply preserves_bind; [apply preserves_get|]. intros s0.
    apply preserves_bind.
    { intros s Hs. pose proof (extend_fs (reservation_extent files) len'
        (extend_fuel (reservation_extent files) len' s0) s) as E.
      destruct (extend _ _ _ s) as [[] s']; cbn in E; by rewrite E. }
    intros _. eapply triple_bind with (Q' := fun wr' s => writer_file wr' = p /\ I (nodes (s_fs s))).
    + destruct wr as [p'|p' written]; cbn in Hp; subst p'; cbn.
      * eapply triple_bind; [apply fs_op_tree, write_file_preserves, (sc_write _ _ _ HI)|]. intros x. by apply triple_ret.
      * eapply triple_bind; [apply fs_op_tree; auto|]. intros x. by apply triple_ret.
    + intros wr' s [Hp' Hs]. by apply IH.
  - apply preserves_throw.
Qed.

Lemma pump_file files max_bytes stream wr hashed len s wr' hashed' len' s' :
  pump files max_bytes stream wr hashed len s = (Ok (wr', hashed', len'), s') ->
  writer_file wr' = writer_file wr.
Proof.
  revert wr hashed len s. induction stream as [|[chunk|e] stream IH]; intros wr hashed len s; cbn; [by intros [= <-]| |done].
  intros H. apply bind_ok in H as (len1 & s1 & _ & H). apply bind_ok in H as (u1 & s2 & _ & H).
  apply bind_ok in H as (s3 & s4 & _ & H). apply bind_ok in H as (u2 & s5 & _ & H).
  apply bind_ok in H as (wr1 & s6 & Hw & H). rewrite (IH _ _ _ _ H).
  destruct wr; cbn in Hw; apply bind_ok in Hw as (u3 & s7 & _ & [= <- <-]); done.
Qed.

Lemma stage_reserved_tree I files channel name stream max_bytes durability encoding :
  let p := temporary_path files channel name in
  staging_closed I (channel_dir files channel ++ [lit "tmp"]) p ->
  preserves (fun s => I (nodes (s_fs s)))
    (stage_reserved files channel name stream max_bytes durability encoding).
Proof.
  intros p HI. unfold stage_reserved.
  apply preserves_bind; [apply fs_op_tree, create_dir_all_preserves, (sc_dirs _ _ _ HI)|]. intros _.
  apply preserves_bind; [by apply on_res_preserves|]. intros _.
  apply preserves_bind; [apply fs_op_tree, open_new_preserves, (sc_open _ _ _ HI)|]. intros _. fold p.
  eapply triple_bind with (Q' := fun o s => writer_file o.1.1 = p /\ I (nodes (s_fs s))).
  { intros s Hs. assert (writer_file (StageWriter_new p encoding) = p) as Hw by (by destruct encoding).
    pose proof (pump_tree I _ p files max_bytes stream _ [] 0 HI Hw s Hs) as HK.
    destruct (pump _ _ _ _ _ _ s) as [[[[wr h] l]|e] s'] eqn:E; [|done].
    split; [|done]. cbn. rewrite (pump_file _ _ _ _ _ _ _ _ _ _ _ E). done. }
  intros [[wr hashed] len]. cbn [fst]. apply triple_pure. intros Hw.
  apply preserves_bind.
  { destruct wr; cbn in Hw; cbn; (apply preserves_bind; [|intros _; apply preserves_ret]).
    - apply fs_op_tree, touch_preserves.
    - apply fs_op_tree, write_file_preserves. rewrite Hw. apply (sc_write _ _ _ HI). }
  intros file.
  apply preserves_bind; [destruct encoding; [apply preserves_ret|apply fs_op_tree; auto]|]. intros stored.
  apply preserves_bind; [apply preserves_get|]. intros s.
  apply preserves_bind.
  { case_bool; [|apply preserves_ret]. apply preserves_bind; [|intros [|]; auto with flywheel].
    intros s1 Hs1. pose proof (reserve_fs (stored - outstanding (s_res s)) s1) as E.
    destruct (reserve _ s1) as [[] s2]; cbn in E; by rewrite E. }
  intros _. apply preserves_bind; [destruct durability; [apply fs_op_tree; auto|apply preserves_ret]|].
  intros _. apply preserves_ret.
Qed.
(** The only path a staging reservation ever guards is its own temporary file. *)
Definition guards (p : path) s : Prop :=
  forall q, reservation_state (s_res s) = Temporary q -> q = p.

Lemma reserve_state b s : reservation_state (s_res (reserve b s).2) = reservation_state (s_res s).
Proof. unfold reserve. destruct (b =? 0); [done|]. by destruct (try_reserve b (s_space s)) as [[] sp]. Qed.

Lemma reserve_guards p b : preserves (guards p) (reserve b).
Proof.
  intros s Hs. unfold guards in *. pose proof (reserve_state b s) as E.
  destruct (reserve b s) as [[] s']; cbn in E; by rewrite E.
Qed.

Lemma fs_op_guards {A : Type} p (m : M FS io_error A) : preserves (guards p) (fs_op m).
Proof. by apply fs_op_preserves. Qed.

Lemma extend_guards p extent len fuel : preserves (guards p) (extend extent len fuel).
Proof.
  induction fuel as [|fuel IH]; [apply preserves_ret|]. cbn.
  apply preserves_bind; [apply preserves_get|]. intros s. case_bool; [|apply preserves_ret].
  apply preserves_bind; [apply reserve_guards|]. intros [|]; [exact IH|apply preserves_throw].
Qed.

Lemma write_all_guards p wr chunk : preserves (guards p) (write_all wr chunk).
Proof. destruct wr; apply preserves_bind; intros; auto using fs_op_guards, preserves_ret. Qed.

Lemma pump_guards p files max_bytes stream wr hashed len :
  preserves (guards p) (pump files max_bytes stream wr hashed len).
Proof.
  revert wr hashed len. induction stream as [|[chunk|e] stream IH]; intros wr hashed len; cbn;
    [apply preserves_ret| |apply preserves_throw].
  apply preserves_bind; [apply preserves_ok_or|]. intros len'.
  apply preserves_bind; [case_bool; auto with flywheel|]. intros _.
  apply preserves_bind; [apply preserves_get|]. intros s0.
  apply preserves_bind; [apply extend_guards|]. intros _.
  apply preserves_bind; [apply write_all_guards|]. auto.
Qed.

Lemma stage_reserved_guards files channel name stream max_bytes durability encoding :
  preserves (guards (temporary_path files channel name))
    (stage_reserved files channel name stream max_bytes durability encoding).
Proof.
  unfold stage_reserved. apply preserves_bind; [apply fs_op_guards|]. intros _.
  apply preserves_bind; [apply on_res_preserves; by intros s _ q [= <-]|]. intros _.
  apply preserves_bind; [apply fs_op_guards|]. intros _.
  apply preserves_bind; [apply pump_guards|]. intros [[wr hashed] len].
  apply preserves_bind.
  { destruct wr; apply preserves_bind; intros; auto using fs_op_guards, preserves_ret. }
  intros file. apply preserves_bind; [destruct encoding; auto using fs_op_guards, preserves_ret|]. intros stored.
  apply preserves_bind; [apply preserves_get|]. intros s.
  apply preserves_bind.
  { case_bool; [|apply preserves_ret]. apply preserves_bind; [apply reserve_guards|].
    intros [|]; auto with flywheel. }
  intros _. apply preserves_bind; [destruct durability; auto using fs_op_guards, preserves_ret|].
  intros _. apply preserves_ret.
Qed.

Lemma stage_reserved_state files channel name stream max_bytes durability encoding s e s' q :
  stage_reserved files channel name stream max_bytes durability encoding s = (Err e, s') ->
  reservation_state (s_res s) = Vacant -> reservation_state (s_res s') = Temporary q ->
  q = temporary_path files channel name.
Proof.
  intros E Hv Hq. pose proof (stage_reserved_guards files channel name stream max_bytes durability encoding s) as H.
  rewrite E in H. apply H; [|done]. intros x Hx. congruence.
Qed.

(** *** What staging writes *)

(** The writer has written, or buffered, exactly what was hashed. *)
Definition writer_ok (p : path) (encoding : StoredEncoding) (hashed : bytes) (wr : StageWriter) t : Prop :=
  match encoding, wr with
  | Identity, WIdentity f => f = p /\ t !! p = Some (File hashed)
  | Zstd, WZstd f written => f = p /\ concat written = hashed /\ t !! p = Some (File [])
  | _, _ => False
  end.

Lemma write_all_ok p encoding hashed wr chunk s wr' s' :
  writer_ok p encoding hashed wr (nodes (s_fs s)) -> write_all wr chunk s = (Ok wr', s') ->
  writer_ok p encoding (hashed ++ chunk) wr' (nodes (s_fs s'))
  /\ s_space s' = s_space s /\ s_res s' = s_res s.
Proof.
  destruct encoding, wr as [f|f written]; cbn; try done.
  - intros [-> Hp] (u & s1 & Hw & [= <- <-])%bind_ok. apply fs_op_ok in Hw as ([= _ <-] & -> & ->).
    rewrite lookup_alter_eq, Hp. done.
  - intros (-> & <- & Hp) (u & s1 & Hw & [= <- <-])%bind_ok. apply fs_op_ok in Hw as ([= _ <-] & -> & ->).
    rewrite List.concat_app. cbn. by rewrite app_nil_r.
Qed.

Lemma finish_ok p encoding hashed wr s file s' :
  writer_ok p encoding hashed wr (nodes (s_fs s)) -> finish wr s = (Ok file, s') ->
  file = p /\ (exists content, nodes (s_fs s') !! p = Some (File content) /\ stored_as encoding content hashed)
  /\ s_space s' = s_space s /\ s_res s' = s_res s.
Proof.
  destruct encoding, wr as [f|f written]; cbn; try done.
  - intros [-> Hp] (u & s1 & Hw & [= <- <-])%bind_ok. apply fs_op_ok in Hw as ([= _ E] & -> & ->).
    rewrite <- E. split; [done|]. split; [by exists hashed|done].
  - intros (-> & <- & Hp) (u & s1 & Hw & [= <- <-])%bind_ok. apply fs_op_ok in Hw as ([= _ <-] & -> & ->).
    rewrite lookup_alter_eq, Hp. cbn. split; [done|]. split; [|done]. eexists. split; [done|].
    apply zstd_decode_frame.
Qed.

Lemma pump_ok p encoding rest files max_bytes stream wr hashed len s wr' hashed' len' s' :
  0 <= rest -> files_wf files -> accounts rest s ->
  writer_ok p encoding hashed wr (nodes (s_fs s)) ->
  len = Z.of_nat (length hashed) -> len <= outstanding (s_res s) -> len <= max_bytes ->
  pump files max_bytes stream wr hashed len s = (Ok (wr', hashed', len'), s') ->
  exists chunks, stream = Ok <$> chunks /\ hashed' = hashed ++ concat chunks
    /\ writer_ok p encoding hashed' wr' (nodes (s_fs s'))
    /\ len' = Z.of_nat (length hashed') /\ len' <= outstanding (s_res s') /\ len' <= max_bytes
    /\ reservation_state (s_res s') = reservation_state (s_res s).
Proof.
  intros Hr Hf. revert wr hashed len s. induction stream as [|[chunk|e] stream IH];
    intros wr hashed len s Hs Hw Hl Ho Hm; cbn; [| |done].
  { intros [= <- <- <- <-]. exists []. cbn. by rewrite app_nil_r. }
  intros H. apply bind_ok in H as (len1 & s1 & Hlen & H).
  unfold checked_add in Hlen. destruct (Z.leb_spec (len + Z.of_nat (length chunk)) u64_max); [|done].
  cbn in Hlen. injection Hlen as <- <-.
  apply bind_ok in H as (u1 & s2 & Hmax & H).
  destruct (Z.ltb_spec max_bytes (len + Z.of_nat (length chunk))) as [|Hle]; [done|].
  injection Hmax as _ <-. apply bind_ok in H as (s3 & s4 & [= <- <-] & H).
  apply bind_ok in H as ([] & s5 & Hext & H). apply bind_ok in H as (wr1 & s6 & Hwr & H).
  pose proof (extend_accounts rest (reservation_extent files) (len + Z.of_nat (length chunk))
    (extend_fuel (reservation_extent files) (len + Z.of_nat (length chunk)) s) Hr ltac:(unfold files_wf in Hf; lia) s Hs) as Hs5.
  rewrite Hext in Hs5. pose proof Hf as [Hf1 _].
  apply (extend_enough rest) in Hext as (Ho5 & Hfs & Hst & _); [|done..|by apply extend_fuel_enough].
  rewrite <- Hfs in Hw. apply (write_all_ok p encoding hashed) in Hwr as (Hw6 & Hsp & Hres); [|done].
  edestruct IH as (chunks & -> & -> & Hw' & Hl' & Ho' & Hm' & Hst'); [| | | | |exact H|].
  - unfold accounts. rewrite Hsp, Hres. exact Hs5.
  - exact Hw6.
  - rewrite length_app. lia.
  - by rewrite Hres.
  - done.
  - rewrite Hres in Hst'. exists (chunk :: chunks). cbn. rewrite (assoc_L (++)).
    repeat split; try done. by rewrite Hst', Hst.
Qed.

(** The temporary file holds the stored form of the body. *)
Definition staged_on (rest : Z) (p : path) (encoding : StoredEncoding) (body : bytes) s : Prop :=
  accounts rest s /\ reservation_state (s_res s) = Temporary p
  /\ exists content, nodes (s_fs s) !! p = Some (File content) /\ stored_as encoding content body.

Lemma open_staging_ok rest files channel name s u s' :
  let p := temporary_path files channel name in
  accounts rest s ->
  (_ ← fs_op (create_dir_all (channel_dir files channel ++ [lit "tmp"]));
   _ ← on_res (mark_temporary p); fs_op (open_new p)) s = (Ok u, s') ->
  accounts rest s' /\ reservation_state (s_res s') = Temporary p
  /\ nodes (s_fs s') !! p = Some (File []).
Proof.
  intros p Hs H. apply bind_ok in H as (u1 & s1 & H1 & H). apply bind_ok in H as (u2 & s2 & H2 & H3).
  pose proof (fs_op_accounts rest (create_dir_all (channel_dir files channel ++ [lit "tmp"])) s Hs) as Hs1.
  rewrite H1 in Hs1. injection H2 as _ <-. apply fs_op_ok in H3 as (H3 & Hsp & Hres). cbn in H3, Hsp, Hres.
  destruct (nodes (s_fs s1) !! p) eqn:Hp1; [done|].
  destruct (is_dir (nodes (s_fs s1)) (parent p)); [|done]. injection H3 as _ Ht.
  split; [|split].
  - unfold accounts. rewrite Hsp, Hres. exact Hs1.
  - by rewrite Hres.
  - by rewrite <- Ht, lookup_insert_eq.
Qed.

(** The steps after the body is on disk: measure, reserve the difference, sync. *)
Lemma stage_tail_ok rest (p : path) encoding body durability s (d : Digest) (stored : Z) s' (len : Z) :
  0 <= rest -> staged_on rest p encoding body s -> len = Z.of_nat (length body) ->
  (stored_len ← (match encoding with Identity => mret len | Zstd => fs_op (file_len p) end);
   s ← get_state;
   _ ← (if outstanding (s_res s) <? stored_len then
          granted ← reserve (stored_len - outstanding (s_res s));
          if (granted : bool) then mret tt else throw OutOfSpace
        else mret tt);
   _ ← (match durability with Durable => fs_op touch | BestEffort => mret tt end);
   mret (p, d, len, stored_len) : M (Staging R) LocalError _) s = (Ok (p, d, len, stored), s') ->
  reservation_state (s_res s') = Temporary p /\ stored <= outstanding (s_res s')
  /\ exists content, nodes (s_fs s') !! p = Some (File content) /\ stored_as encoding content body
       /\ stored = Z.of_nat (length content).
Proof.
  intros Hr (Hs & Hst & content & Hc & Hstored) Hlen H. apply bind_ok in H as (stored1 & s6 & H6 & H).
  assert (stored1 = Z.of_nat (length content) /\ nodes (s_fs s6) = nodes (s_fs s) /\ s_res s6 = s_res s
          /\ s_space s6 = s_space s) as (-> & Hn6 & Hres6 & Hsp6).
  { destruct encoding.
    - injection H6 as <- <-. cbn in Hstored. by subst.
    - apply fs_op_ok in H6 as (H6 & Hsp & Hres). cbn in H6. rewrite Hc in H6. by injection H6 as <- <-. }
  apply bind_ok in H as (sx & s7 & [= <- <-] & H). apply bind_ok in H as (u4 & s8 & H8 & H).
  apply bind_ok in H as (u5 & s9 & H9 & H). injection H as <- <-.
  assert (nodes (s_fs s8) = nodes (s_fs s6) /\ Z.of_nat (length content) <= outstanding (s_res s8)
          /\ reservation_state (s_res s8) = reservation_state (s_res s6)) as (Hn8 & Ho8 & Hst8).
  { destruct (Z.ltb_spec (outstanding (s_res s6)) (Z.of_nat (length content))) as [Hlt|Hge];
      [|injection H8 as _ <-; by repeat split].
    apply bind_ok in H8 as ([] & s10 & Hres & H8); [|done]. injection H8 as _ <-.
    assert (accounts rest s6) as Hs6 by (unfold accounts; rewrite Hsp6, Hres6; exact Hs).
    pose proof (reserve_spec rest (Z.of_nat (length content) - outstanding (s_res s6)) s6 Hr ltac:(lia) Hs6) as HS.
    rewrite Hres in HS. destruct HS as (_ & -> & Ho10 & Hst10 & _). repeat split; [lia|done]. }
  assert (nodes (s_fs s9) = nodes (s_fs s8) /\ s_res s9 = s_res s8) as [Hn9 Hres9].
  { destruct durability; [|by injection H9 as _ <-]. apply fs_op_ok in H9 as ([= _ E] & _ & ?). done. }
  rewrite Hres9, Hn9, Hn8, Hn6, Hst8, Hres6. repeat split; [done|done|]. by exists content.
Qed.

(** A complete staging. *)
Lemma stage_reserved_ok rest files channel name stream max_bytes durability encoding s p d len stored s' :
  0 <= rest -> files_wf files -> 0 <= max_bytes -> accounts rest s ->
  stage_reserved files channel name stream max_bytes durability encoding s = (Ok (p, d, len, stored), s') ->
  p = temporary_path files channel name
  /\ exists chunks content, stream = Ok <$> chunks
    /\ d = from_bytes (sha256 (concat chunks)) /\ len = Z.of_nat (length (concat chunks)) /\ len <= max_bytes
    /\ nodes (s_fs s') !! p = Some (File content) /\ stored_as encoding content (concat chunks)
    /\ stored = Z.of_nat (length content) /\ stored <= outstanding (s_res s')
    /\ reservation_state (s_res s') = Temporary p.
Proof.
  intros Hr Hf Hmax Hs H. unfold stage_reserved in H. set (q := temporary_path files channel name) in *.
  apply bind_ok in H as (u1 & s1 & H1 & H). apply bind_ok in H as (u2 & s2 & H2 & H).
  apply bind_ok in H as (u3 & s3 & H3 & H). apply bind_ok in H as ([[wr hashed] len1] & s4 & H4 & H).
  apply bind_ok in H as (file & s5 & H5 & H).
  destruct (open_staging_ok rest files channel name s u3 s3 Hs) as (Hs3 & Hst3 & Hp3).
  { apply bind_ok. exists u1, s1. split; [done|]. apply bind_ok. by exists u2, s2. }
  assert (writer_ok q encoding [] (StageWriter_new q encoding) (nodes (s_fs s3))) as Hw3 by (by destruct encoding).
  pose proof (pump_accounts rest files max_bytes stream (StageWriter_new q encoding) [] 0 Hr Hf s3 Hs3) as Hs4.
  rewrite H4 in Hs4. pose proof Hs3 as [_ Ho3].
  apply (pump_ok q encoding rest) in H4 as (chunks & -> & -> & Hw4 & -> & Ho4 & Hm4 & Hst4); [|done..].
  destruct (finish_ok _ _ _ _ _ _ _ Hw4 H5) as (-> & (content & Hc5 & Hstored) & Hsp5 & Hres5).
  cbn [app] in *.
  assert (staged_on rest q encoding (concat chunks) s5) as Hs5.
  { split; [unfold accounts; rewrite Hsp5, Hres5; exact Hs4|]. split; [by rewrite Hres5, Hst4|eauto]. }
  assert (p = q /\ d = from_bytes (sha256 (concat chunks)) /\ len = Z.of_nat (length (concat chunks))) as (-> & -> & ->).
  { repeat (apply bind_ok in H as (? & ? & _ & H)). by injection H as <- <- <- <- <-. }
  split; [done|].
  apply (stage_tail_ok rest q encoding (concat chunks)) in H as (Hst & Ho & content' & Hc' & Hst' & ->); [|done..].
  exists chunks, content'. by repeat split.
Qed.
(** *** Publication *)

Lemma fs_op_err {A : Type} (act : tree -> result io_error A * tree) torn s e s' :
  fs_op (syscall act torn) s = (Err e, s') ->
  s_space s' = s_space s /\ s_res s' = s_res s
  /\ exists x, e = Io x
     /\ (act (nodes (s_fs s)) = (Err x, nodes (s_fs s'))
         \/ exists f, x = IoOther (fault_message f) /\ nodes (s_fs s') = torn f (nodes (s_fs s))).
Proof.
  unfold fs_op, raising, zoom. destruct (syscall act torn (s_fs s)) as [[x|x] fs] eqn:E; [done|].
  intros [= <- <-]. cbn. split; [done|]. split; [done|]. exists x. split; [done|].
  apply syscall_err in E as [?|(f & <- & ?)]; [by left|]. right. by exists f.
Qed.

(** POSIX rename never reports that its target exists. *)
Lemma rename_not_exists p q s s' : fs_op (rename p q) s ≠ (Err (Io IoAlreadyExists), s').
Proof.
  intros H. apply fs_op_err in H as (_ & _ & x & [= <-] & [H|(f & [=] & _)]).
  repeat case_match; by simplify_eq.
Qed.

Lemma publish_reserved_ok files channel artifact p d durability content created s s' :
  nodes (s_fs s) !! p = Some (File content) -> p ≠ artifact_path files channel artifact ->
  publish_reserved files channel artifact p d durability s = (Ok created, s') ->
  d = digest artifact /\ nodes (s_fs s') !! p = None /\ s_space s' = s_space s
  /\ outstanding (s_res s') = outstanding (s_res s)
  /\ if created : bool
     then nodes (s_fs s') !! artifact_path files channel artifact = Some (File content)
          /\ reservation_state (s_res s') = Published
          /\ nodes (s_fs s) !! artifact_path files channel artifact = None
     else is_Some (nodes (s_fs s') !! artifact_path files channel artifact)
          /\ reservation_state (s_res s') = Vacant
          /\ nodes (s_fs s') !! artifact_path files channel artifact
             = nodes (s_fs s) !! artifact_path files channel artifact.
Proof.
  intros Hp Hne. unfold publish_reserved. case_decide as Hd; [|done].
  assert (artifact_path files channel artifact ≠ []) as Hq by apply artifact_path_ne.
  set (q := artifact_path files channel artifact) in *. clearbody q.
  intros (u1 & s1 & H1 & H)%bind_ok. apply bind_ok in H as (present & s2 & H2 & H).
  apply fs_op_ok in H1 as (H1 & Hsp1 & Hres1), H2 as (H2 & Hsp2 & Hres2).
  assert (nodes (s_fs s2) !! p = Some (File content) /\ nodes (s_fs s2) !! q = nodes (s_fs s) !! q) as [Hp2 Hq2].
  { cbn in H1, H2. injection H2 as _ <-. destruct (existsb _ _); [done|]. injection H1 as _ <-.
    split; [by apply make_dirs_files|]. destruct (lookup_make_dirs (ancestors (parent q)) (nodes (s_fs s)) q) as [|(Hin & _)];
      [done|]. exfalso. by apply not_own_ancestor in Hin. }
  destruct present.
  - apply bind_ok in H as (u3 & s3 & H3 & H). apply bind_ok in H as (u4 & s4 & H4 & H).
    injection H as <- <-. injection H4 as _ <-. apply fs_op_ok in H3 as (H3 & Hsp3 & Hres3).
    cbn in H3. rewrite Hp2 in H3. injection H3 as _ H3. cbn.
    rewrite <- H3, lookup_delete_eq, lookup_delete_ne, Hsp3, Hsp2, Hres3, Hres2, Hres1 by done.
    repeat split; try done. cbn in H2. injection H2 as H2 Hs2. rewrite <- Hs2 in *.
    apply orb_prop in H2 as [H2|H2]; [|by apply bool_decide_eq_true in H2].
    unfold is_dir in H2. destruct q; [done|]. apply bool_decide_eq_true in H2. by rewrite H2.
  - apply bind_ok in H as (renamed & s3 & H3 & H). unfold try in H3.
    destruct (fs_op (rename p q) s2) as [r s3'] eqn:H4. injection H3 as <- <-.
    destruct r as [[]|[[]| | | | | |]]; try done; [|by apply rename_not_exists in H4].
    apply fs_op_ok in H4 as (H4 & Hsp4 & Hres4). rewrite Hp2 in H4.
    assert (nodes (s_fs s3') = <[q := File content]> (delete p (nodes (s_fs s2)))) as Hn.
    { repeat case_match; by simplify_eq. }
    apply bind_ok in H as (u4 & s4 & H5 & H). injection H5 as _ <-.
    apply bind_ok in H as (u5 & s5 & H6 & H). injection H as <- <-.
    assert (nodes (s_fs s5) = nodes (s_fs s3') /\ s_res s5 = mark_published (s_res s3')
            /\ s_space s5 = s_space s3') as (Hn5 & Hres5 & Hsp5).
    { destruct durability; [|by injection H6 as _ <-]. by apply fs_op_ok in H6 as ([= _ <-] & -> & ->). }
    rewrite Hn5, Hn, Hres5, Hsp5. cbn. rewrite lookup_insert_ne, lookup_delete_eq, lookup_insert_eq by done.
    rewrite Hsp4, Hsp2, Hres4, Hres2, Hres1. repeat split; try done.
    rewrite <- Hq2. cbn in H2. injection H2 as H2 <-. apply orb_false_iff in H2 as [_ H2].
    apply bool_decide_eq_false in H2. destruct (nodes (s_fs s1) !! q); [exfalso; eauto|done].
Qed.

(** *** Integrity of the published files *)

Lemma intact_mono files t t' :
  (forall c a content, t' !! artifact_path files c a = Some (File content) ->
     t !! artifact_path files c a = Some (File content)) ->
  intact files t -> intact files t'.
Proof. intros H HI c a content Hc. by eapply HI, H. Qed.

Lemma intact_keeps files c n t0 t :
  keeps_files (temporary_path files c n) t0 t -> intact files t0 -> intact files t.
Proof.
  intros HK. apply intact_mono. intros c' a content Hc. apply HK in Hc; [done|].
  apply artifact_not_temporary.
Qed.

(** While a publication is under way: the published files are intact, and the staged path holds
    the staged content or nothing. *)
Definition publishing (files : ArtifactFiles) (p : path) (content : bytes) t : Prop :=
  intact files t /\ (forall x, t !! p = Some (File x) -> x = content).

Lemma publishing_make_dirs files p content ps t :
  publishing files p content t -> publishing files p content (fold_left make_dir ps t).
Proof.
  intros [HI Hp]. split.
  - eapply intact_mono; [|exact HI]. intros c a x. by rewrite make_dirs_files.
  - intros x. rewrite make_dirs_files. apply Hp.
Qed.

Lemma publishing_delete files p content q t :
  publishing files p content t -> publishing files p content (delete q t).
Proof.
  intros [HI Hp]. split.
  - eapply intact_mono; [|exact HI]. intros c a x. rewrite lookup_delete_Some. tauto.
  - intros x. rewrite lookup_delete_Some. intros [_ ?]. auto.
Qed.

Lemma publish_reserved_publishing files channel artifact p d durability content :
  p ≠ artifact_path files channel artifact ->
  (d = digest artifact -> intact_content artifact content) ->
  preserves (fun s => publishing files p content (nodes (s_fs s)))
    (publish_reserved files channel artifact p d durability).
Proof.
  intros Hne Hd. unfold publish_reserved. case_decide as E; [specialize (Hd E)|apply preserves_throw].
  assert (forall q, preserves (fun s => publishing files p content (nodes (s_fs s))) (fs_op (remove_file q))) as Hrm.
  { intros q. apply (fs_op_tree (publishing files p content)), remove_file_preserves.
    intros. by apply publishing_delete. }
  assert (forall f, preserves (fun s => publishing files p content (nodes (s_fs s))) (on_res f)) as Hres.
  { intros f. by apply on_res_preserves. }
  apply preserves_bind.
  { apply (fs_op_tree (publishing files p content)), create_dir_all_preserves. intros. by apply publishing_make_dirs. }
  intros _. apply preserves_bind; [apply (fs_op_tree (publishing files p content)); auto|]. intros [|].
  - apply preserves_bind; [apply Hrm|]. intros _. apply preserves_bind; [apply Hres|]. intros _. apply preserves_ret.
  - apply preserves_bind.
    { apply preserves_try, (fs_op_tree (publishing files p content)), rename_preserves.
      intros x t [HI Hp] Hx. apply Hp in Hx as ->. split.
      - intros c a x. destruct (decide (artifact_path files c a = artifact_path files channel artifact)) as [Eq|Nq].
        + rewrite Eq, lookup_insert_eq. intros [= <-]. by apply artifact_path_inj in Eq as [-> ->].
        + rewrite lookup_insert_ne by done. rewrite lookup_delete_Some. intros [_ ?]. eauto.
      - intros x. rewrite lookup_insert_ne, lookup_delete_eq by done. done. }
    intros [[]|[[]| | | | | |]]; auto with flywheel; repeat (apply preserves_bind; [|intros _]);
      destruct durability; auto using preserves_ret; apply (fs_op_tree (publishing files p content)); auto.
Qed.

Lemma discard_tree (I : tree -> Prop) r w :
  (forall p t, reservation_state r = Temporary p -> I t -> I (delete p t)) ->
  I (nodes (l_fs w)) -> I (nodes (l_fs (discard r w))).
Proof.
  intros H HI. unfold discard. destruct (reservation_state r) as [|p|] eqn:E; [done| |done].
  unfold remove_and_settle. pose proof (remove_file_preserves I p (fun t Ht => H p t eq_refl Ht) (l_fs w) HI) as HP.
  by destruct (remove_file p (l_fs w)) as [[] fs].
Qed.

Lemma l_fs_op_tree {A : Type} (I : tree -> Prop) (m : M FS io_error A) :
  preserves (fun fs => I (nodes fs)) m ->
  preserves (fun w => I (nodes (l_fs w))) (l_fs_op m : M (Local R) LocalError A).
Proof.
  intros Hm w Hw. unfold l_fs_op, raising, zoom. specialize (Hm (l_fs w) Hw).
  by destruct (m (l_fs w)) as [[] fs].
Qed.

Lemma remove_intact files channel artifact :
  preserves (fun w => intact files (nodes (l_fs w))) (remove files channel artifact : M (Local R) LocalError unit).
Proof.
  unfold remove. apply preserves_bind.
  - apply preserves_try, (l_fs_op_tree (intact files)), remove_file_preserves. intros t Ht.
    eapply intact_mono; [|exact Ht]. intros c a x. rewrite lookup_delete_Some. tauto.
  - intros [[]|[[]| | | | | |]]; auto with flywheel.
Qed.

Lemma remove_channel_intact files channel :
  preserves (fun w => intact files (nodes (l_fs w))) (remove_channel files channel : M (Local R) LocalError unit).
Proof.
  unfold remove_channel. apply preserves_bind.
  - apply preserves_try, (l_fs_op_tree (intact files)), syscall_preserves.
    + intros t Ht. repeat case_match; cbn; try done. eapply intact_mono; [|exact Ht].
      intros c a x. by rewrite map_lookup_filter_Some; intros [? _].
    + intros f t Ht. eapply intact_mono; [|exact Ht]. intros c a x. by rewrite map_lookup_filter_Some; intros [? _].
  - intros [[]|[[]| | | | | |]]; auto with flywheel.
Qed.
(** *** Whole operations *)

(** The amounts a request carries are not negative. *)
Definition request_wf (max_bytes : Z) (content_length : option Z) : Prop :=
  0 <= max_bytes /\ (forall n, content_length = Some n -> 0 <= n).

Lemma stage_admitted (rest : Z) files max_bytes content_length w :
  0 <= rest -> files_wf files -> request_wf max_bytes content_length -> holds (l_space w) rest ->
  let initial := match content_length with
                 | Some length => Z.min length max_bytes
                 | None => reservation_extent files
                 end in
  0 <= initial /\ accounts rest (hold Reservation_new w).
Proof.
  intros Hr [Hf _] [Hm Hc] Hh. split.
  - destruct content_length as [n|]; [specialize (Hc n eq_refl)|]; lia.
  - unfold accounts. cbn. rewrite Z.add_0_r. split; [done|lia].
Qed.

(** A staged body whose file is the stored form of the request's body. *)
Record staged_ok (files : ArtifactFiles) (channel : ChannelId) (name : bytes) (stream : list (result string bytes))
    (max_bytes : Z) (encoding : StoredEncoding) (t : tree) (staged : StagedArtifact)
    (body content : bytes) : Prop := {
  so_stream : exists chunks, stream = Ok <$> chunks /\ body = concat chunks;
  so_digest : staged_digest staged = from_bytes (sha256 body);
  so_len : staged_len staged = Z.of_nat (length body);
  so_max : staged_len staged <= max_bytes;
  so_path : staged_path staged = temporary_path files channel name;
  so_file : t !! staged_path staged = Some (File content);
  so_stored : stored_as (staged_encoding staged) content body;
  so_stored_len : staged_stored_len staged = Z.of_nat (length content);
  so_encoding : staged_encoding staged = encoding;
  so_covered : staged_stored_len staged <= outstanding (staged_reservation staged);
  so_state : reservation_state (staged_reservation staged) = Temporary (staged_path staged)
}.

Lemma stage_spec rest files channel name stream max_bytes content_length durability encoding w :
  0 <= rest -> files_wf files -> request_wf max_bytes content_length -> holds (l_space w) rest ->
  let '(r, w') := stage files channel name stream max_bytes content_length durability encoding w in
  keeps_files (temporary_path files channel name) (nodes (l_fs w)) (nodes (l_fs w'))
  /\ match r with
     | Ok (Ready staged) =>
         holds (l_space w') (rest + outstanding (staged_reservation staged))
         /\ exists body content, staged_ok files channel name stream max_bytes encoding (nodes (l_fs w')) staged body content
     | Ok (Rejected stream') => w' = w /\ stream' = stream
     | Err _ => holds (l_space w') rest
     end.
Proof.
  intros Hr Hf Hq Hh. destruct (stage_admitted rest files max_bytes content_length w Hr Hf Hq Hh) as [Hi Ha].
  unfold stage. set (initial := match content_length with Some _ => _ | None => _ end) in *.
  pose proof (reserve_spec rest initial _ Hr Hi Ha) as Hres.
  destruct (reserve initial (hold Reservation_new w)) as [[[]|e] s]; [|subst s; by destruct w|done].
  destruct Hres as (Hs & Hfs & _ & Hst & _). set (p := temporary_path files channel name).
  pose proof (stage_reserved_tree _ files channel name stream max_bytes durability encoding
    (keeps_closed _ _ (nodes (l_fs w))) s ltac:(cbn beta; rewrite Hfs; apply keeps_refl)) as HK.
  pose proof (stage_reserved_accounts rest files channel name stream max_bytes durability encoding Hr Hf s Hs) as HA.
  destruct (stage_reserved _ _ _ _ _ _ _ s) as [[[[[q d] len] stored]|e] s'] eqn:E.
  - split; [exact HK|]. split; [apply HA|].
    apply (stage_reserved_ok rest) in E as (-> & chunks & content & -> & -> & -> & ? & ? & ? & -> & ? & ?);
      [|done..|by destruct Hq|done].
    exists (concat chunks), content. split; cbn; try done. by exists chunks.
  - destruct HA as [HA Ho]. split; [|by apply discard_holds].
    apply (discard_tree (keeps_files p (nodes (l_fs w)))); [|exact HK].
    intros q t Hst' Ht. assert (q = p) as ->; [|by apply keeps_delete].
    eapply stage_reserved_state; [exact E| |exact Hst']. by rewrite Hst.
Qed.

Lemma staged_intact files channel name stream max_bytes encoding t staged body content artifact :
  staged_ok files channel name stream max_bytes encoding t staged body content ->
  staged_digest staged = digest artifact -> intact_content artifact content.
Proof.
  intros Hs Hd. exists (staged_encoding staged), body. split; [apply Hs|].
  rewrite <- Hd, (so_digest _ _ _ _ _ _ _ _ _ _ Hs). done.
Qed.

Lemma publish_spec rest files channel artifact staged durability content w :
  0 <= rest -> 0 <= outstanding (staged_reservation staged) ->
  holds (l_space w) (rest + outstanding (staged_reservation staged)) ->
  nodes (l_fs w) !! staged_path staged = Some (File content) ->
  staged_path staged ≠ artifact_path files channel artifact ->
  let '(r, w') := publish files channel artifact staged durability w in
  match r with
  | Ok outcome =>
      staged_digest staged = digest artifact /\ nodes (l_fs w') !! staged_path staged = None
      /\ holds (l_space w') (rest + outstanding (staged_reservation staged))
      /\ l_space w' = l_space w
      /\ match outcome with
         | Created r =>
             nodes (l_fs w') !! artifact_path files channel artifact = Some (File content)
             /\ reservation_state r = Published /\ outstanding r = outstanding (staged_reservation staged)
         | Existing r =>
             is_Some (nodes (l_fs w') !! artifact_path files channel artifact)
             /\ reservation_state r = Vacant /\ outstanding r = outstanding (staged_reservation staged)
         end
  | Err _ => holds (l_space w') rest
  end.
Proof.
  intros Hr Ho Hh Hp Hne. unfold publish.
  pose proof (publish_reserved_accounts rest files channel artifact (staged_path staged) (staged_digest staged)
    durability (hold (staged_reservation staged) w) (conj Hh Ho)) as HA.
  destruct (publish_reserved _ _ _ _ _ _ _) as [[created|e] s] eqn:E.
  - apply (publish_reserved_ok _ _ _ _ _ _ content) in E as (-> & Hp' & Hsp & Hos & Hc); [|done..].
    cbn in Hsp, Hos. split; [done|]. split; [done|]. cbn. rewrite Hsp. split; [done|]. split; [done|].
    destruct created; destruct Hc as (? & ? & _); by repeat split.
  - destruct HA as [HA Ho']. by apply discard_holds.
Qed.

Lemma publish_intact files channel artifact staged durability content w :
  intact files (nodes (l_fs w)) -> nodes (l_fs w) !! staged_path staged = Some (File content) ->
  staged_path staged ≠ artifact_path files channel artifact ->
  (staged_digest staged = digest artifact -> intact_content artifact content) ->
  intact files (nodes (l_fs (publish files channel artifact staged durability w).2)).
Proof.
  intros HI Hp Hne Hd. unfold publish.
  pose proof (publish_reserved_publishing files channel artifact (staged_path staged) (staged_digest staged)
    durability content Hne Hd (hold (staged_reservation staged) w)) as HP.
  destruct (publish_reserved _ _ _ _ _ _ _) as [[created|e] s].
  - apply HP. split; [done|]. cbn. intros x. rewrite Hp. by intros [= <-].
  - cbn. apply (discard_tree (intact files)).
    + intros q t _ Ht. eapply intact_mono; [|exact Ht]. intros c a x. rewrite lookup_delete_Some. tauto.
    + apply HP. split; [done|]. cbn. intros x. rewrite Hp. by intros [= <-].
Qed.
End Disk.
