(* ===== verification/FilesClaims.v ===== *)
(** * What staging and publication guarantee

    The properties of [ArtifactFiles] and [Reservation], for any ledger, any request stream and
    any schedule of I/O failures. *)

From S2P Require Import Prelude Externals Domain Concrete Space Filesystem ArtifactFiles FilesLemmas.

Section Claims.
Context {UL : UlidLib} {ULL : UlidLaws} {HX : HexLib} {HXL : HexLaws} {SH : Sha256Lib}.
Context {ZS : ZstdLib} {ZSL : ZstdLaws} {R : Type} {RS : Reserver R} {RL : ReserverLaws R}.

(** Whatever the stream does and whichever system calls fail, staging accounts for its space
    exactly: beside the [rest] bytes other requests hold, a staged body still holds its reservation
    and that covers the stored file; a rejected body leaves the disk and the ledger as they were and hands the
    stream back unread; a failed staging holds nothing. *)
Theorem stage_accounting (rest : Z) files channel name stream max_bytes content_length durability encoding
    (w : Local R) :
  0 <= rest -> files_wf files -> request_wf max_bytes content_length -> holds (l_space w) rest ->
  match stage files channel name stream max_bytes content_length durability encoding w with
  | (Ok (Ready staged), w') =>
      holds (l_space w') (rest + outstanding (staged_reservation staged))
      /\ 0 <= staged_stored_len staged <= outstanding (staged_reservation staged)
  | (Ok (Rejected stream'), w') => w' = w /\ stream' = stream
  | (Err _, w') => holds (l_space w') rest
  end.
Proof.
  intros Hr Hf Hq Hh.
  pose proof (stage_spec rest files channel name stream max_bytes content_length durability encoding w Hr Hf Hq Hh) as H.
  destruct (stage files channel name stream max_bytes content_length durability encoding w) as [[[staged|stream']|e] w'];
    destruct H as [_ H]; [|done..]. destruct H as [Hh' (body & content & Hs)]. split; [done|].
  pose proof (so_covered _ _ _ _ _ _ _ _ _ _ Hs). rewrite (so_stored_len _ _ _ _ _ _ _ _ _ _ Hs) in *. lia.
Qed.

(** However a reservation ends (awaited discard, cancellation with or without a runtime and
    with the cleanup task finishing or not, or a commit of at most what is outstanding), the ledger
    holds exactly what the other reservations hold: no capacity leaks and none is handed out
    twice. *)
Theorem reservation_always_settles (rest : Z) (r : Reservation) (w : Local R) runtime finishes b :
  0 <= rest -> 0 <= b <= outstanding r -> holds (l_space w) (rest + outstanding r) ->
  holds (l_space (discard r w)) rest
  /\ holds (l_space (drop_reservation runtime finishes r w)) rest
  /\ holds (Reservation_commit b r (l_space w)) rest
  /\ committed (Reservation_commit b r (l_space w)) = saturating_add (committed (l_space w)) b.
Proof.
  intros Hr Hb Hh. split; [apply discard_holds; [done|lia|done]|].
  split; [apply drop_holds; [done|lia|done]|]. by apply Reservation_commit_spec.
Qed.

(** A staged body is the request's body: the stream ended without error, the digest and length
    are those of its bytes, the length is within the limit, and the temporary file holds their
    stored form with the recorded size; no other regular file changed, on success or on failure. *)
Theorem stage_faithful (rest : Z) files channel name stream max_bytes content_length durability encoding
    (w : Local R) :
  0 <= rest -> files_wf files -> request_wf max_bytes content_length -> holds (l_space w) rest ->
  let '(r, w') := stage files channel name stream max_bytes content_length durability encoding w in
  keeps_files (temporary_path files channel name) (nodes (l_fs w)) (nodes (l_fs w'))
  /\ forall staged, r = Ok (Ready staged) ->
     exists chunks content, stream = Ok <$> chunks
       /\ staged_digest staged = from_bytes (sha256 (concat chunks))
       /\ staged_len staged = Z.of_nat (length (concat chunks)) /\ staged_len staged <= max_bytes
       /\ staged_path staged = temporary_path files channel name
       /\ nodes (l_fs w') !! staged_path staged = Some (File content)
       /\ stored_as (staged_encoding staged) content (concat chunks)
       /\ staged_stored_len staged = Z.of_nat (length content)
       /\ staged_encoding staged = encoding.
Proof.
  intros Hr Hf Hq Hh.
  pose proof (stage_spec rest files channel name stream max_bytes content_length durability encoding w Hr Hf Hq Hh) as H.
  destruct (stage files channel name stream max_bytes content_length durability encoding w) as [r w'].
  destruct H as [HK H]. split; [done|]. intros staged ->. destruct H as [_ (body & content & Hs)].
  destruct (so_stream _ _ _ _ _ _ _ _ _ _ Hs) as (chunks & -> & ->). exists chunks, content.
  by destruct Hs.
Qed.

(** Publishing installs only the body its identity names: a success means the staged digest is
    the artifact's; a created file holds the staged content at the digest path, its temporary file
    is gone and its reservation still held; an existing one is left in place and the temporary file
    removed. *)
Theorem publish_faithful files channel artifact staged durability content (w w' : Local R) outcome :
  nodes (l_fs w) !! staged_path staged = Some (File content) ->
  staged_path staged ≠ artifact_path files channel artifact ->
  publish files channel artifact staged durability w = (Ok outcome, w') ->
  staged_digest staged = digest artifact
  /\ nodes (l_fs w') !! staged_path staged = None
  /\ l_space w' = l_space w
  /\ match outcome with
     | Created r =>
         nodes (l_fs w') !! artifact_path files channel artifact = Some (File content)
         /\ reservation_state r = Published /\ outstanding r = outstanding (staged_reservation staged)
     | Existing r =>
         is_Some (nodes (l_fs w') !! artifact_path files channel artifact)
         /\ reservation_state r = Vacant /\ outstanding r = outstanding (staged_reservation staged)
     end.
Proof.
  intros Hp Hne. unfold publish.
  destruct (publish_reserved _ _ _ _ _ _ _) as [[created|e] s] eqn:E; [|done]. intros [= <- <-].
  apply (publish_reserved_ok _ _ _ _ _ _ content) in E as (-> & Hp' & Hsp & Ho & Hc); [|done..].
  split; [done|]. split; [done|]. split; [done|]. destruct created; destruct Hc as (? & ? & _); by repeat split.
Qed.
End Claims.

Section Witnesses.
#[local] Existing Instances toy_ulid toy_ulid_laws real_hex real_hex_laws toy_sha256 toy_zstd toy_zstd_laws.

Definition sample_files : ArtifactFiles := {| root := [lit "data"]; reservation_extent := 8 |}.

(** An empty disk whose third call from now fails. *)
Definition sample_local (faults : list (option io_fault)) : Local SpaceLedger :=
  {| l_fs := {| nodes := {[ [lit "data"] := Directory ]}; script := faults |}; l_space := sample_ledger |}.

Definition sample_stream : list (result string bytes) := [Ok (lit "hello "); Ok (lit "world")].

Definition disk_full : io_fault :=
  {| fault_message := "no space left on device"; fault_progress := 3; fault_removed := []; fault_lost := false |}.

Lemma sample_holds faults : holds (l_space (sample_local faults)) 0.
Proof. split; [exact sample_ledger_wf|reflexivity]. Qed.

Lemma sample_files_wf : files_wf sample_files.
Proof. vm_compute. split; discriminate. Qed.

Lemma sample_request : request_wf 100 None.
Proof. split; [discriminate|done]. Qed.

Definition failed_stage : result LocalError StageOutcome * Local SpaceLedger :=
  stage sample_files channel_a (lit "t") sample_stream 100 None Durable Identity
    (sample_local [None; None; None; Some disk_full]).

Lemma sample_failed : failed_stage.1 = Err (Io (IoOther "no space left on device")).
Proof. vm_compute. reflexivity. Qed.

(** A write that fails half way: the ledger is back to zero. *)
Lemma stage_accounting_witness : holds (l_space failed_stage.2) 0.
Proof.
  pose proof (stage_accounting 0 sample_files channel_a (lit "t") sample_stream 100 None Durable Identity
    (sample_local [None; None; None; Some disk_full]) ltac:(discriminate) sample_files_wf sample_request
    (sample_holds _)) as H.
  fold failed_stage in H. rewrite (run_eq _ _ sample_failed) in H. exact H.
Defined.

Definition staged_sample : StagedArtifact := {|
  staged_path := temporary_path sample_files channel_a (lit "t");
  staged_digest := from_bytes (sha256 (lit "hello world"));
  staged_len := 11; staged_stored_len := 11; staged_encoding := Identity;
  staged_reservation := {| outstanding := 16;
    reservation_state := Temporary (temporary_path sample_files channel_a (lit "t")) |} |}.

Definition staged_world : Local SpaceLedger :=
  (stage sample_files channel_a (lit "t") sample_stream 100 None Durable Identity (sample_local [])).2.

Lemma sample_staged :
  (stage sample_files channel_a (lit "t") sample_stream 100 None Durable Identity (sample_local [])).1
  = Ok (Ready staged_sample).
Proof. vm_compute. reflexivity. Qed.

Lemma stage_faithful_witness : staged_len staged_sample <= 100.
Proof.
  pose proof (stage_faithful 0 sample_files channel_a (lit "t") sample_stream 100 None Durable Identity
    (sample_local []) ltac:(discriminate) sample_files_wf sample_request (sample_holds _)) as H.
  rewrite (run_eq _ _ sample_staged) in H. destruct H as [_ H].
  destruct (H staged_sample eq_refl) as (chunks & content & _ & _ & _ & Hle & _). exact Hle.
Defined.

Lemma staged_world_holds : holds (l_space staged_world) 16.
Proof. split; [vm_compute; repeat split; discriminate|vm_compute; reflexivity]. Qed.

Lemma reservation_always_settles_witness :
  holds (l_space (discard (staged_reservation staged_sample) staged_world)) 0.
Proof.
  destruct (reservation_always_settles 0 (staged_reservation staged_sample) staged_world true true 0
    ltac:(discriminate) ltac:(split; discriminate) staged_world_holds) as [H _].
  exact H.
Defined.

Lemma publish_faithful_witness :
  nodes (l_fs (publish sample_files channel_a (sample_artifact "hello world") staged_sample Durable staged_world).2)
    !! staged_path staged_sample = None.
Proof.
  destruct (publish sample_files channel_a (sample_artifact "hello world") staged_sample Durable staged_world)
    as [r w'] eqn:E.
  assert (exists outcome, r = Ok outcome) as [outcome ->].
  { apply (f_equal fst) in E. vm_compute in E. subst r. by eexists. }
  destruct (publish_faithful sample_files channel_a (sample_artifact "hello world") staged_sample Durable
              (lit "hello world") staged_world w' outcome) as (_ & H & _).
  - vm_compute. reflexivity.
  - apply not_eq_sym, artifact_not_temporary.
  - exact E.
  - exact H.
Defined.
End Witnesses.
