(* ===== verification/World.v ===== *)
(** * The shared state of one shard

    What [AppState] ties together and every service mutates: the metadata store, the disk, the
    space ledger, the recency filters, the lifecycle gates, the maintenance cursor, the clock and
    the counters of [telemetry.rs]. *)

From S2P Require Import Prelude Externals Domain Metadata MetadataStore Space RecentUse Filesystem ArtifactFiles.

(** ** Counters ([telemetry.rs]) *)

Record Metrics := {
  requests : Z;
  hits : Z;
  misses : Z;
  bytes_read : Z;
  bytes_written : Z;
  authorization_denials : Z;
  maintenance_reclaimed : Z;
  maintenance_requeued : Z;
  build_cache_bypasses : Z;
  raw_pressure_errors : Z;
  foreground_in_flight : Z;
  foreground_rejections : Z;
  free_observed_bytes : Z;
  reserved_bytes : Z;
  committed_since_bytes : Z
}.

Definition zero_metrics : Metrics := {|
  requests := 0; hits := 0; misses := 0; bytes_read := 0; bytes_written := 0;
  authorization_denials := 0; maintenance_reclaimed := 0; maintenance_requeued := 0;
  build_cache_bypasses := 0; raw_pressure_errors := 0; foreground_in_flight := 0;
  foreground_rejections := 0; free_observed_bytes := 0; reserved_bytes := 0;
  committed_since_bytes := 0 |}.

(** [saturating_i64] *)
Definition saturating_i64 (x : Z) : Z := Z.min x (2 ^ 63 - 1).

Definition metric_hit (bytes : Z) (m : Metrics) : Metrics := {|
  requests := requests m; hits := hits m + 1; misses := misses m; bytes_read := bytes_read m + bytes;
  bytes_written := bytes_written m; authorization_denials := authorization_denials m;
  maintenance_reclaimed := maintenance_reclaimed m; maintenance_requeued := maintenance_requeued m;
  build_cache_bypasses := build_cache_bypasses m; raw_pressure_errors := raw_pressure_errors m;
  foreground_in_flight := foreground_in_flight m; foreground_rejections := foreground_rejections m;
  free_observed_bytes := free_observed_bytes m; reserved_bytes := reserved_bytes m;
  committed_since_bytes := committed_since_bytes m |}.

Definition metric_miss (m : Metrics) : Metrics := {|
  requests := requests m; hits := hits m; misses := misses m + 1; bytes_read := bytes_read m;
  bytes_written := bytes_written m; authorization_denials := authorization_denials m;
  maintenance_reclaimed := maintenance_reclaimed m; maintenance_requeued := maintenance_requeued m;
  build_cache_bypasses := build_cache_bypasses m; raw_pressure_errors := raw_pressure_errors m;
  foreground_in_flight := foreground_in_flight m; foreground_rejections := foreground_rejections m;
  free_observed_bytes := free_observed_bytes m; reserved_bytes := reserved_bytes m;
  committed_since_bytes := committed_since_bytes m |}.

Definition metric_written (bytes : Z) (m : Metrics) : Metrics := {|
  requests := requests m; hits := hits m; misses := misses m; bytes_read := bytes_read m;
  bytes_written := bytes_written m + bytes; authorization_denials := authorization_denials m;
  maintenance_reclaimed := maintenance_reclaimed m; maintenance_requeued := maintenance_requeued m;
  build_cache_bypasses := build_cache_bypasses m; raw_pressure_errors := raw_pressure_errors m;
  foreground_in_flight := foreground_in_flight m; foreground_rejections := foreground_rejections m;
  free_observed_bytes := free_observed_bytes m; reserved_bytes := reserved_bytes m;
  committed_since_bytes := committed_since_bytes m |}.

Definition metric_reclaimed (count : Z) (m : Metrics) : Metrics := {|
  requests := requests m; hits := hits m; misses := misses m; bytes_read := bytes_read m;
  bytes_written := bytes_written m; authorization_denials := authorization_denials m;
  maintenance_reclaimed := maintenance_reclaimed m + count; maintenance_requeued := maintenance_requeued m;
  build_cache_bypasses := build_cache_bypasses m; raw_pressure_errors := raw_pressure_errors m;
  foreground_in_flight := foreground_in_flight m; foreground_rejections := foreground_rejections m;
  free_observed_bytes := free_observed_bytes m; reserved_bytes := reserved_bytes m;
  committed_since_bytes := committed_since_bytes m |}.

Definition metric_requeued (m : Metrics) : Metrics := {|
  requests := requests m; hits := hits m; misses := misses m; bytes_read := bytes_read m;
  bytes_written := bytes_written m; authorization_denials := authorization_denials m;
  maintenance_reclaimed := maintenance_reclaimed m; maintenance_requeued := maintenance_requeued m + 1;
  build_cache_bypasses := build_cache_bypasses m; raw_pressure_errors := raw_pressure_errors m;
  foreground_in_flight := foreground_in_flight m; foreground_rejections := foreground_rejections m;
  free_observed_bytes := free_observed_bytes m; reserved_bytes := reserved_bytes m;
  committed_since_bytes := committed_since_bytes m |}.

Definition record_space (s : SpaceSnapshot) (m : Metrics) : Metrics := {|
  requests := requests m; hits := hits m; misses := misses m; bytes_read := bytes_read m;
  bytes_written := bytes_written m; authorization_denials := authorization_denials m;
  maintenance_reclaimed := maintenance_reclaimed m; maintenance_requeued := maintenance_requeued m;
  build_cache_bypasses := build_cache_bypasses m; raw_pressure_errors := raw_pressure_errors m;
  foreground_in_flight := foreground_in_flight m; foreground_rejections := foreground_rejections m;
  free_observed_bytes := saturating_i64 (snap_free_observed s);
  reserved_bytes := saturating_i64 (snap_reserved s);
  committed_since_bytes := saturating_i64 (snap_committed_since s) |}.

(** ** The world *)

Section World.
Context {UL : UlidLib} {S : Type}.

Record World := {
  w_db : S;
  w_fs : FS;
  w_space : SpaceLedger;
  w_recent : RecentUse;
  (** the channels with an entry in the gate registry *)
  w_gates : gset ChannelId;
  (** the maintenance cursor *)
  w_cursor : Z;
  (** what the clock will read, and how often it has been read *)
  w_clock : nat -> Z;
  w_ticks : nat;
  w_metrics : Metrics
}.

Definition set_db (x : S) (w : World) : World := {|
  w_db := x; w_fs := w_fs w; w_space := w_space w; w_recent := w_recent w; w_gates := w_gates w;
  w_cursor := w_cursor w; w_clock := w_clock w; w_ticks := w_ticks w; w_metrics := w_metrics w |}.
Definition set_local (x : Local SpaceLedger) (w : World) : World := {|
  w_db := w_db w; w_fs := l_fs x; w_space := l_space x; w_recent := w_recent w; w_gates := w_gates w;
  w_cursor := w_cursor w; w_clock := w_clock w; w_ticks := w_ticks w; w_metrics := w_metrics w |}.
Definition set_space (x : SpaceLedger) (w : World) : World := {|
  w_db := w_db w; w_fs := w_fs w; w_space := x; w_recent := w_recent w; w_gates := w_gates w;
  w_cursor := w_cursor w; w_clock := w_clock w; w_ticks := w_ticks w; w_metrics := w_metrics w |}.
Definition set_recent (x : RecentUse) (w : World) : World := {|
  w_db := w_db w; w_fs := w_fs w; w_space := w_space w; w_recent := x; w_gates := w_gates w;
  w_cursor := w_cursor w; w_clock := w_clock w; w_ticks := w_ticks w; w_metrics := w_metrics w |}.
Definition set_gates (x : gset ChannelId) (w : World) : World := {|
  w_db := w_db w; w_fs := w_fs w; w_space := w_space w; w_recent := w_recent w; w_gates := x;
  w_cursor := w_cursor w; w_clock := w_clock w; w_ticks := w_ticks w; w_metrics := w_metrics w |}.
Definition set_cursor (x : Z) (w : World) : World := {|
  w_db := w_db w; w_fs := w_fs w; w_space := w_space w; w_recent := w_recent w; w_gates := w_gates w;
  w_cursor := x; w_clock := w_clock w; w_ticks := w_ticks w; w_metrics := w_metrics w |}.
Definition set_ticks (x : nat) (w : World) : World := {|
  w_db := w_db w; w_fs := w_fs w; w_space := w_space w; w_recent := w_recent w; w_gates := w_gates w;
  w_cursor := w_cursor w; w_clock := w_clock w; w_ticks := x; w_metrics := w_metrics w |}.
Definition set_metrics (x : Metrics) (w : World) : World := {|
  w_db := w_db w; w_fs := w_fs w; w_space := w_space w; w_recent := w_recent w; w_gates := w_gates w;
  w_cursor := w_cursor w; w_clock := w_clock w; w_ticks := w_ticks w; w_metrics := x |}.

Definition get_local (w : World) : Local SpaceLedger := {| l_fs := w_fs w; l_space := w_space w |}.

(** [self.clock.now()] *)
Definition now {E} : M World E Z := fun w => (Ok (w_clock w (w_ticks w)), set_ticks (Datatypes.S (w_ticks w)) w).

(** [ChannelGates::gate] and [ChannelGates::forget] on the registry. *)
Definition gate {E} (id : ChannelId) : M World E unit := modify (fun w => set_gates ({[id]} ∪ w_gates w) w).
Definition forget {E} (id : ChannelId) : M World E unit := modify (fun w => set_gates (w_gates w ∖ {[id]}) w).

(** Operations of the store and of the disk inside the world. *)
Definition in_db {A} (m : M S MetadataError A) : M World MetadataError A := zoom w_db set_db m.
Definition in_local {A} (m : M (Local SpaceLedger) LocalError A) : M World LocalError A :=
  zoom get_local set_local m.

Definition on_metrics {E} (f : Metrics -> Metrics) : M World E unit :=
  modify (fun w => set_metrics (f (w_metrics w)) w).
End World.
Arguments World {UL} S.
