(* ===== verification/Channels.v ===== *)
(** * The channel service ([channel/service.rs])

    Registration, authorization, expiry and deletion of channels.  The gates serialise deletion
    against the final step of every mutation; in a sequential run they are always free, and what
    remains of them is the registry entry each acquisition creates. *)

From S2P Require Import Prelude Externals Domain Metadata MetadataView MetadataStore Space RecentUse Filesystem ArtifactFiles World.

Inductive ChannelError :=
| ChannelNotFound
| Unauthorized
| ChannelIsDeleting
| DefaultChannel
| InvalidDefault
| ChannelStore (e : MetadataError)
| ChannelLocal (e : LocalError).

Section Service.
Context {UL : UlidLib} {HX : HexLib} {SH : Sha256Lib} {BS : Base64Lib} {ZS : ZstdLib}.
Context {S : Type} {MS : MetadataStore S}.

Record IssuedChannel := { issued_record : ChannelRecord; issued_token : option bytes }.

Definition ch_store {A} (m : M S MetadataError A) : M (World S) ChannelError A :=
  raising ChannelStore (in_db m).
Definition ch_local {A} (m : M (Local SpaceLedger) LocalError A) : M (World S) ChannelError A :=
  raising ChannelLocal (in_local m).

Definition ensure_default (expiry : Z) : M (World S) ChannelError unit :=
  found ← ch_store (ms_channel DEFAULT);
  record ← (match found with
    | Some record => mret record
    | None =>
        created ← now;
        let record := {| channel_id := DEFAULT; access := Open; expiry_seconds := expiry;
                         state := Active; channel_created_at := created |} in
        outcome ← try (ch_store (ms_create_channel record));
        match (outcome : result ChannelError unit) with
        | Ok _ => mret record
        | Err (ChannelStore AlreadyExists) =>
            again ← ch_store (ms_channel DEFAULT); ok_or again InvalidDefault
        | Err e => throw e
        end
    end);
  _ ← (if bool_decide (access record = Open) && bool_decide (state record = Active)
       then mret tt else throw InvalidDefault);
  gate DEFAULT.

(** [register]; [id] is the fresh identifier, [secret] the random bytes of the token. *)
Definition register (id : ChannelId) (secret : bytes32) (protected : bool) (expiry : Z)
    : M (World S) ChannelError IssuedChannel :=
  let token := if protected then Some (ChannelToken_generate secret) else None in
  created ← now;
  let record := {| channel_id := id;
                   access := match token with Some t => Token (ChannelToken_digest t) | None => Open end;
                   expiry_seconds := expiry; state := Active; channel_created_at := created |} in
  _ ← ch_store (ms_create_channel record);
  _ ← gate id;
  mret {| issued_record := record; issued_token := token |}.

Definition authorize_record (record : ChannelRecord) (credential : option bytes)
    : result ChannelError unit :=
  match access record with
  | Open => Ok tt
  | Token d =>
      match credential with
      | Some candidate => if verify d candidate then Ok tt else Err Unauthorized
      | None => Err Unauthorized
      end
  end.

Definition authorize (id : ChannelId) (credential : option bytes) : M (World S) ChannelError ChannelRecord :=
  found ← ch_store (ms_channel id);
  match found with
  | None => throw ChannelNotFound
  | Some record =>
      _ ← lift (authorize_record record credential);
      if bool_decide (state record = Active) then mret record else throw ChannelIsDeleting
  end.

(** The lease is the record read under the gate. *)
Definition authorize_with_lease (id : ChannelId) (credential : option bytes)
    : M (World S) ChannelError ChannelRecord :=
  _ ← authorize id credential;
  _ ← gate id;
  authorize id credential.

Definition update_expiry (lease : ChannelRecord) (expiry : Z) : M (World S) ChannelError ChannelRecord :=
  let record := set_expiry lease expiry in
  _ ← ch_store (ms_store_channel record);
  mret record.

Definition finish_deletion (files : ArtifactFiles) (id : ChannelId) : M (World S) ChannelError unit :=
  _ ← ch_store (ms_delete_channel_data id);
  _ ← ch_local (remove_channel files id);
  _ ← ch_store (ms_finish_channel_deletion id);
  forget id.

Definition delete_channel (files : ArtifactFiles) (id : ChannelId) (credential : option bytes)
    : M (World S) ChannelError unit :=
  if decide (id = DEFAULT) then throw DefaultChannel
  else
    lease ← authorize_with_lease id credential;
    _ ← ch_store (ms_store_channel (set_state lease Deleting));
    _ ← gate id;
    finish_deletion files id.

Definition is_deleting (record : ChannelRecord) : bool := bool_decide (state record = Deleting).

Definition resume_deletions (files : ArtifactFiles) : M (World S) ChannelError unit :=
  records ← ch_store ms_channels;
  for_each (fun record => _ ← gate (channel_id record); finish_deletion files (channel_id record))
    (List.filter is_deleting records).
End Service.
