(* ===== verification/ChannelLemmas.v ===== *)
(** * Lemmas on the channel service

    How an operation of the store acts inside the world, and what each step of the channel
    service does to the view, the disk and the gate registry. *)

From S2P Require Import Prelude Externals Domain Metadata MetadataView MetadataStore Space RecentUse Filesystem ArtifactFiles FilesLemmas World Channels.

(** ** The store inside the world *)

Section InDb.
Context {UL : UlidLib} {S : Type} {MS : MetadataStore S} {ML : MetadataLaws S}.
Implicit Types (v : MetaView) (w : World S).

(** The world agrees with a view. *)
Definition viewed v w : Prop := stands_for v (w_db w).

(** Some view of the world satisfies [I]. *)
Definition view_inv (I : MetaView -> Prop) w : Prop := exists v, viewed v w /\ I v.

(** What an operation that implements a transition does, in every outcome. *)
Lemma in_db_spec {A} (op : M S MetadataError A) spec v w :
  implements stands_for op spec -> viewed v w ->
  match in_db op w with
  | (Ok x, w') => (spec v).1 = Ok x /\ viewed (spec v).2 w' /\ w' = set_db (w_db w') w
  | (Err e, w') =>
      w' = set_db (w_db w') w
      /\ (((spec v).1 = Err e /\ viewed (spec v).2 w')
          \/ (fault e /\ (viewed v w' \/ viewed (spec v).2 w')))
  end.
Proof.
  intros H Hv. unfold in_db, zoom. specialize (H (w_db w) v Hv). destruct (spec v) as [r v'].
  unfold viewed. destruct (op (w_db w)) as [[x|e] db']; cbn; [destruct H; done|]. split; [by destruct w|done].
Qed.

Lemma in_db_inv {A} (I : MetaView -> Prop) (op : M S MetadataError A) spec :
  implements stands_for op spec -> (forall v, I v -> I (spec v).2) -> preserves (view_inv I) (in_db op).
Proof.
  intros H HI w (v & Hv & Hi). pose proof (in_db_spec op spec v w H Hv) as Hs. specialize (HI v Hi).
  unfold view_inv. destruct (in_db op w) as [[x|e] w'].
  - destruct Hs as (_ & ? & _). eauto.
  - destruct Hs as (_ & [[_ ?]|[_ [?|?]]]); eauto.
Qed.
End InDb.

Section Service.
Context {UL : UlidLib} {ULL : UlidLaws} {HX : HexLib} {SH : Sha256Lib} {BS : Base64Lib} {ZS : ZstdLib}.
Context {S : Type} {MS : MetadataStore S} {ML : MetadataLaws S}.
Implicit Types (v : MetaView) (w : World S).

Lemma ch_store_inv {A} (I : MetaView -> Prop) (op : M S MetadataError A) spec :
  implements stands_for op spec -> (forall v, I v -> I (spec v).2) -> preserves (view_inv I) (ch_store op).
Proof. intros H HI. apply preserves_raising. by eapply in_db_inv. Qed.

Lemma ch_store_ok {A} (op : M S MetadataError A) spec v w x w' :
  implements stands_for op spec -> viewed v w -> ch_store op w = (Ok x, w') ->
  (spec v).1 = Ok x /\ viewed (spec v).2 w' /\ w' = set_db (w_db w') w.
Proof.
  intros H Hv. unfold ch_store, raising. pose proof (in_db_spec op spec v w H Hv) as Hs.
  destruct (in_db op w) as [[y|e] w1]; [|done]. by intros [= <- <-].
Qed.

(** An error of a read is a fault, and leaves the view alone. *)
Lemma ch_read_err {A} (op : M S MetadataError A) (f : MetaView -> A) v w e w' :
  implements stands_for op (fun v => (Ok (f v), v)) -> viewed v w -> ch_store op w = (Err e, w') ->
  viewed v w' /\ w' = set_db (w_db w') w /\ exists me, e = ChannelStore me /\ fault me.
Proof.
  intros H Hv. unfold ch_store, raising. pose proof (in_db_spec op _ v w H Hv) as Hs.
  destruct (in_db op w) as [[y|me] w1]; [done|]. intros [= <- <-]. cbn in Hs.
  destruct Hs as (Hw & [[? _]|[Hf [?|?]]]); [done|eauto..].
Qed.

Lemma gate_inv I id : preserves (view_inv I) (gate id : M (World S) ChannelError unit).
Proof. apply preserves_modify. intros w (v & ? & ?). by exists v. Qed.

Lemma now_inv I : preserves (view_inv I) (now : M (World S) ChannelError Z).
Proof. intros w (v & ? & ?). by exists v. Qed.

Lemma ch_local_inv {A} I (m : M (Local SpaceLedger) LocalError A) :
  preserves (view_inv I) (ch_local m : M (World S) ChannelError A).
Proof.
  intros w Hw. unfold ch_local, raising, in_local, zoom.
  destruct (m (get_local w)) as [[] l]; cbn; destruct Hw as (v & ? & ?); by exists v.
Qed.

(** *** Authorization *)

Lemma authorize_ok v w id credential record w' :
  viewed v w -> authorize id credential w = (Ok record, w') ->
  viewed v w' /\ w' = set_db (w_db w') w /\ mv_channels v !! id = Some record /\ channel_id record = id
  /\ state record = Active /\ authorize_record record credential = Ok tt.
Proof.
  intros Hv H. unfold authorize in H. apply bind_ok in H as (found & w1 & H1 & H).
  apply (ch_store_ok _ (v_channel id) v) in H1 as ([= Hf] & Hv1 & Hw1); [|apply channel_law|done]. cbn in Hv1.
  destruct found as [r|]; [|done]. apply bind_ok in H as (u & w2 & H2 & H).
  unfold lift in H2. injection H2 as Hr <-. destruct u.
  case_bool_decide; [|done]. injection H as <- <-. rewrite Hf. repeat split; try done.
  by eapply view_channel_id.
Qed.

(** A refusal leaves everything but faults of the read as it was. *)
Lemma authorize_err v w id credential e w' :
  viewed v w -> authorize id credential w = (Err e, w') ->
  viewed v w' /\ w' = set_db (w_db w') w.
Proof.
  intros Hv. unfold authorize, mbind, M_bind.
  destruct (ch_store (ms_channel id) w) as [[found|e1] w1] eqn:H1.
  - apply (ch_store_ok _ (v_channel id) v) in H1 as (_ & Hv1 & Hw1); [|apply channel_law|done]. cbn in Hv1.
    intros H. assert (w' = w1) as ->; [|done].
    destruct found as [r|]; [|by injection H]. unfold lift in H.
    destruct (authorize_record r credential); [|by injection H]. case_bool_decide; by injection H.
  - apply (ch_read_err _ (fun v => mv_channels v !! id) v) in H1 as (? & ? & _); [|apply channel_law|done].
    by intros [= _ <-].
Qed.

Lemma authorize_view I id credential : preserves (view_inv I) (authorize id credential).
Proof.
  intros w (v & Hv & Hi). destruct (authorize id credential w) as [[r|e] w'] eqn:E.
  - apply (authorize_ok v) in E as (? & _); [|done]. by exists v.
  - apply (authorize_err v) in E as (? & _); [|done]. by exists v.
Qed.

Lemma authorize_gates id credential w : w_gates (authorize id credential w).2 = w_gates w.
Proof.
  unfold authorize, mbind, M_bind, ch_store, raising, in_db, zoom, lift.
  destruct (ms_channel id (w_db w)) as [[[r|]|e] db]; cbn; try done.
  destruct (authorize_record r credential); cbn; [|done]. by case_bool_decide.
Qed.

Lemma lease_ok v w id credential record w' :
  viewed v w -> authorize_with_lease id credential w = (Ok record, w') ->
  viewed v w' /\ w_fs w' = w_fs w /\ w_space w' = w_space w /\ w_gates w' = {[id]} ∪ w_gates w
  /\ mv_channels v !! id = Some record /\ channel_id record = id /\ state record = Active
  /\ authorize_record record credential = Ok tt.
Proof.
  intros Hv H. unfold authorize_with_lease in H. apply bind_ok in H as (r1 & w1 & H1 & H).
  apply bind_ok in H as (u & w2 & H2 & H3). injection H2 as _ <-.
  apply (authorize_ok v) in H1 as (Hv1 & Hw1 & _); [|done].
  apply (authorize_ok v) in H3 as (Hv3 & Hw3 & Hl & Hid & Hst & Hcr); [|done].
  rewrite Hw3, Hw1. cbn. by repeat split.
Qed.

(** *** Deletion *)

(** A channel and everything under it, gone. *)
Definition v_forget_channel (c : ChannelId) (v : MetaView) : MetaView :=
  with_channels (delete c) (wipe c v).

Lemma lookup_wiped_map {K V} `{Countable K} (m : gmap (ChannelId * K) V) id c (k : K) :
  filter (fun kv => kv.1.1 ≠ id) m !! (c, k) = if decide (c = id) then None else m !! (c, k).
Proof.
  apply option_eq. intros x. rewrite map_lookup_filter_Some. cbn. case_decide; naive_solver.
Qed.

(** Every entry has its directory. *)
Definition tree_closed (t : tree) : Prop :=
  forall p x n, t !! (p ++ [x]) = Some n -> is_dir t p = true.

Lemma closed_prefix t p q n :
  tree_closed t -> t !! (p ++ q) = Some n -> p ≠ [] -> is_Some (t !! p).
Proof.
  intros Hc Hn Hp. revert n Hn. induction q as [|x q IH] using rev_ind; intros n Hn.
  { rewrite app_nil_r in Hn. eauto. }
  rewrite app_assoc in Hn. apply Hc in Hn. unfold is_dir in Hn.
  destruct (p ++ q) eqn:E; [by destruct p|]. apply bool_decide_eq_true in Hn. eapply IH. by rewrite Hn.
Qed.

(** Nothing is left under the channel's directory. *)
Definition no_files_under (p : path) (t : tree) : Prop := forall q, p `prefix_of` q -> t !! q = None.

Lemma remove_channel_ok files id (l l' : Local SpaceLedger) :
  tree_closed (nodes (l_fs l)) -> remove_channel files id l = (Ok tt, l') ->
  no_files_under (channel_dir files id) (nodes (l_fs l')) /\ l_space l' = l_space l
  /\ (forall q, ~ channel_dir files id `prefix_of` q -> nodes (l_fs l') !! q = nodes (l_fs l) !! q).
Proof.
  intros Hc H. unfold remove_channel in H. apply bind_ok in H as (removed & l1 & H1 & H).
  unfold try in H1. destruct (l_fs_op (remove_dir_all (channel_dir files id)) l) as [r l2] eqn:E.
  injection H1 as <- <-. unfold l_fs_op, raising, zoom in E.
  destruct (remove_dir_all (channel_dir files id) (l_fs l)) as [[[]|x] fs] eqn:E2; injection E as <- <-; cbn in H.
  - injection H as <-. cbn. apply syscall_ok in E2. cbn in E2.
    destruct (nodes (l_fs l) !! channel_dir files id) as [[]|] eqn:Hd; try done. injection E2 as E2.
    split; [|split; [done|]].
    + intros q Hq. rewrite <- E2. apply map_lookup_filter_None_2. right. intros n _. cbn.
      unfold below. by rewrite bool_decide_eq_true_2.
    + intros q Hq. rewrite <- E2. apply option_eq. intros n. rewrite map_lookup_filter_Some. cbn. unfold below.
      rewrite bool_decide_eq_false_2 by done. naive_solver.
  - destruct x; try done. injection H as <-. apply syscall_err in E2 as [E2|(f & [=] & _)]. cbn in E2.
    destruct (nodes (l_fs l) !! channel_dir files id) as [[]|] eqn:Hd; try done. injection E2 as E2.
    cbn. rewrite <- E2. split; [|done].
    intros q [r ->]. destruct (nodes (l_fs l) !! (channel_dir files id ++ r)) as [n|] eqn:Hn; [|done].
    exfalso. destruct (closed_prefix _ _ _ _ Hc Hn) as [? ?]; [|congruence]. unfold channel_dir. by destruct (root files).
Qed.

Lemma ch_local_ok {A} (m : M (Local SpaceLedger) LocalError A) w x w' :
  ch_local m w = (Ok x, w') -> exists l, m (get_local w) = (Ok x, l) /\ w' = set_local l w.
Proof.
  unfold ch_local, raising, in_local, zoom. destruct (m (get_local w)) as [[y|e] l]; [|done].
  intros [= <- <-]. eauto.
Qed.

Lemma finish_deletion_ok files id v w u w' :
  viewed v w -> tree_closed (nodes (w_fs w)) -> finish_deletion files id w = (Ok u, w') ->
  viewed (v_forget_channel id v) w' /\ no_files_under (channel_dir files id) (nodes (w_fs w'))
  /\ w_gates w' = w_gates w ∖ {[id]} /\ w_space w' = w_space w
  /\ (forall q, ~ channel_dir files id `prefix_of` q -> nodes (w_fs w') !! q = nodes (w_fs w) !! q).
Proof.
  intros Hv Hc H. unfold finish_deletion in H. apply bind_ok in H as (u1 & w1 & H1 & H).
  apply bind_ok in H as (u2 & w2 & H2 & H). apply bind_ok in H as (u3 & w3 & H3 & H4). injection H4 as _ <-.
  apply (ch_store_ok _ (v_delete_channel_data id) v) in H1 as (_ & Hv1 & Hw1); [|apply delete_channel_data_law|done].
  apply ch_local_ok in H2 as (l & H2 & ->). destruct u2.
  apply remove_channel_ok in H2 as (Hno & Hsp & Hfr); [|rewrite Hw1; exact Hc].
  apply (ch_store_ok _ (v_finish_channel_deletion id) (wipe id v)) in H3 as (_ & Hv3 & Hw3); [|apply finish_channel_deletion_law|exact Hv1].
  cbn. rewrite Hw3. cbn. rewrite Hsp. rewrite Hw1 in Hfr. rewrite Hw1. cbn.
  by repeat split.
Qed.

Lemma delete_channel_ok files id credential v w u w' :
  viewed v w -> tree_closed (nodes (w_fs w)) -> delete_channel files id credential w = (Ok u, w') ->
  id ≠ DEFAULT /\ viewed (v_forget_channel id v) w' /\ no_files_under (channel_dir files id) (nodes (w_fs w'))
  /\ w_gates w' = w_gates w ∖ {[id]} /\ w_space w' = w_space w
  /\ (forall q, ~ channel_dir files id `prefix_of` q -> nodes (w_fs w') !! q = nodes (w_fs w) !! q)
  /\ exists record, mv_channels v !! id = Some record /\ authorize_record record credential = Ok tt.
Proof.
  intros Hv Hc H. unfold delete_channel in H. case_decide as Hd; [done|].
  apply bind_ok in H as (lease & w1 & H1 & H). apply bind_ok in H as (u2 & w2 & H2 & H).
  apply bind_ok in H as (u3 & w3 & H3 & H). injection H3 as _ <-.
  apply (lease_ok v) in H1 as (Hv1 & Hfs1 & Hsp1 & Hg1 & Hl & Hid & Hst & Hcr); [|done].
  apply (ch_store_ok _ (v_store_channel (set_state lease Deleting)) v) in H2 as (_ & Hv2 & Hw2); [|apply store_channel_law|done].
  cbn in Hv2. rewrite Hid in Hv2.
  eapply finish_deletion_ok in H as (Hv4 & Hno & Hg & Hsp & Hfr).
  2: exact Hv2. 2: { rewrite Hw2. cbn. by rewrite Hfs1. }
  assert (v_forget_channel id (with_channels <[id := set_state lease Deleting]> v) = v_forget_channel id v) as Heq.
  { unfold v_forget_channel, with_channels, wipe. cbn. f_equal. apply delete_insert_eq. }
  rewrite Heq in Hv4. rewrite Hw2 in Hg, Hsp, Hfr. cbn in Hg, Hsp, Hfr. rewrite Hfs1 in Hfr. rewrite Hsp1 in Hsp.
  repeat split; try done; [|by exists lease]. rewrite Hg, Hg1. set_solver.
Qed.

(** *** The default channel *)

(** The default channel exists, is open and is not being deleted. *)
Definition default_ok (v : MetaView) : Prop :=
  exists record, mv_channels v !! DEFAULT = Some record /\ access record = Open /\ state record = Active.

Lemma default_ok_insert c record v :
  default_ok v -> (c = DEFAULT -> access record = Open /\ state record = Active) ->
  default_ok (with_channels <[c := record]> v).
Proof.
  intros (r & Hr & Ha & Hs) H. unfold default_ok. cbn. destruct (decide (c = DEFAULT)) as [->|Hne].
  - exists record. rewrite lookup_insert_eq. destruct (H eq_refl). done.
  - exists r. by rewrite lookup_insert_ne.
Qed.

Lemma default_ok_forget c v : c ≠ DEFAULT -> default_ok v -> default_ok (with_channels (delete c) v).
Proof. intros Hne (r & Hr & ?). exists r. cbn. by rewrite lookup_delete_ne. Qed.

Lemma finish_deletion_default files id :
  id ≠ DEFAULT -> preserves (view_inv default_ok) (finish_deletion (S:=S) files id).
Proof.
  intros Hne. unfold finish_deletion.
  apply preserves_bind; [eapply ch_store_inv; [apply delete_channel_data_law|done]|]. intros _.
  apply preserves_bind; [apply ch_local_inv|]. intros _.
  apply preserves_bind; [eapply ch_store_inv; [apply finish_channel_deletion_law|]|].
  { intros v Hv. by apply default_ok_forget. }
  intros _. apply preserves_modify. intros w (v & ? & ?). by exists v.
Qed.

Lemma register_default id secret protected expiry :
  preserves (view_inv default_ok) (register (S:=S) id secret protected expiry).
Proof.
  unfold register. apply preserves_bind; [apply now_inv|]. intros t.
  apply preserves_bind; [eapply ch_store_inv; [apply create_channel_law|]|].
  { intros v Hv. unfold v_create_channel. cbn. destruct (mv_channels v !! id) eqn:E; [done|]. cbn.
    apply default_ok_insert; [done|]. intros ->. destruct Hv as (r & Hr & _). congruence. }
  intros _. apply preserves_bind; [apply gate_inv|]. intros _. apply preserves_ret.
Qed.

Lemma lease_view I id credential : preserves (view_inv I) (authorize_with_lease id credential).
Proof.
  unfold authorize_with_lease. apply preserves_bind; [apply authorize_view|]. intros _.
  apply preserves_bind; [apply gate_inv|]. intros _. apply authorize_view.
Qed.

(** What a lease is good for: the default channel's is open and active. *)
Lemma lease_default id credential :
  triple (view_inv default_ok) (authorize_with_lease id credential)
    (fun record w => view_inv default_ok w /\ channel_id record = id
                     /\ (id = DEFAULT -> access record = Open /\ state record = Active))
    (fun _ => view_inv default_ok).
Proof.
  intros w (v & Hv & Hd). pose proof (lease_view default_ok id credential w) as HP.
  destruct (authorize_with_lease id credential w) as [[r|e] w'] eqn:E; [|apply HP; by exists v].
  pose proof E as (Hv' & _ & _ & _ & Hl & Hid & _ & _)%(lease_ok v); [|done].
  split; [by exists v|]. split; [done|]. intros ->. destruct Hd as (r' & Hr' & ?). by simplify_eq.
Qed.

Lemma patch_default id credential expiry :
  preserves (view_inv default_ok)
    (lease ← authorize_with_lease id credential; update_expiry (S:=S) lease expiry).
Proof.
  eapply triple_bind; [apply lease_default|]. intros lease w (Hw & Hid & Hd). revert w Hw.
  fold (preserves (view_inv default_ok) (update_expiry (S:=S) lease expiry)). unfold update_expiry.
  apply preserves_bind; [eapply ch_store_inv; [apply store_channel_law|]|intros _; apply preserves_ret].
  intros v Hv. cbn. apply default_ok_insert; [done|]. rewrite Hid. exact Hd.
Qed.

Lemma delete_default files id credential :
  preserves (view_inv default_ok) (delete_channel (S:=S) files id credential).
Proof.
  unfold delete_channel. case_decide as Hne; [apply preserves_throw|].
  eapply triple_bind; [apply lease_default|]. intros lease w (Hw & Hid & _). revert w Hw.
  fold (preserves (view_inv default_ok)
    (_ ← ch_store (ms_store_channel (set_state lease Deleting)); _ ← gate id; finish_deletion (S:=S) files id)).
  apply preserves_bind; [eapply ch_store_inv; [apply store_channel_law|]|].
  { intros v Hv. cbn. rewrite Hid. apply default_ok_insert; [done|]. done. }
  intros _. apply preserves_bind; [apply gate_inv|]. intros _. by apply finish_deletion_default.
Qed.
End Service.
