(* ===== verification/Samples.v ===== *)
(** * A concrete shard

    The metadata store on the in-memory database and a world to run the services in, for the
    evaluations of the service theorems. *)

From S2P Require Import Prelude Externals Domain Records Concrete Metadata MetadataView MetadataRefinement MetadataStore MetadataClaims Space RecentUse Filesystem ArtifactFiles FilesLemmas FilesClaims World ChannelLemmas.

Definition toy_store : @MetadataStore toy_ulid MemDB :=
  @RocksMetadata toy_ulid (toy_postcard _) (toy_postcard _) (@toy_postcard _ _ (@ChannelRecord_countable toy_ulid))
    MemDB mem_rocksdb.

Definition toy_store_laws : @MetadataLaws toy_ulid MemDB toy_store :=
  @RocksMetadata_laws toy_ulid toy_ulid_laws (toy_postcard _) (toy_postcard_laws _) (toy_postcard _)
    (toy_postcard_laws _) (toy_postcard _) (toy_postcard_laws _) MemDB mem_rocksdb mem_rocksdb_laws.

Section Samples.
#[local] Existing Instances toy_ulid toy_ulid_laws real_hex real_hex_laws toy_sha256 toy_zstd toy_zstd_laws.
#[local] Existing Instances toy_base64 toy_hasher toy_store toy_store_laws.

(** A shard with an empty store and disk; the scripts say which writes and calls will fail. *)
Definition sample_world (db_faults : list (option bool)) (io_faults : list (option io_fault)) : World MemDB := {|
  w_db := {| mem_rows := ∅; mem_faults := db_faults |};
  w_fs := {| nodes := {[ [lit "data"] := Directory ]}; script := io_faults |};
  w_space := sample_ledger;
  w_recent := RecentUse_new 128;
  w_gates := ∅;
  w_cursor := 0;
  w_clock := fun n => 1000 + Z.of_nat n;
  w_ticks := 0;
  w_metrics := zero_metrics |}.

Lemma sample_world_viewed db_faults io_faults : viewed empty_view (sample_world db_faults io_faults).
Proof.
  unfold viewed. cbn. apply (@empty_represents toy_ulid (toy_postcard _) (toy_postcard _) (toy_postcard _)). reflexivity.
Qed.

Lemma sample_world_closed db_faults io_faults : tree_closed (nodes (w_fs (sample_world db_faults io_faults))).
Proof.
  intros p x n. cbn. rewrite lookup_singleton_Some. intros [H _].
  destruct p as [|y p]; [done|]. destruct p; discriminate.
Qed.

(** Any run from a viewed world has a view again, since each transition keeps some view. *)
Definition some_view (w : World MemDB) : Prop := view_inv (fun _ => True) w.
End Samples.
