(* ===== verification/ChannelClaims.v ===== *)
(** * What the channel service guarantees

    Authorization, the default channel, and deletion that completes or can be resumed. *)

From S2P Require Import Prelude Externals Domain Records Concrete Metadata MetadataView MetadataRefinement MetadataStore Space RecentUse Filesystem ArtifactFiles FilesLemmas World Channels ChannelLemmas Samples.

Section Claims.
Context {UL : UlidLib} {ULL : UlidLaws} {HX : HexLib} {SH : Sha256Lib} {BS : Base64Lib} {ZS : ZstdLib}.
Context {S : Type} {MS : MetadataStore S} {ML : MetadataLaws S}.
Implicit Types (v : MetaView) (w : World S).

(** *** Calls of the service *)

Inductive channel_call :=
| CallRegister (id : ChannelId) (secret : bytes32) (protected : bool) (expiry : Z)
| CallPatch (id : ChannelId) (credential : option bytes) (expiry : Z)
| CallDelete (id : ChannelId) (credential : option bytes)
| CallResume.

(** A patch is the lease and the update the HTTP handler makes under it. *)
Definition channel_step (files : ArtifactFiles) (call : channel_call) (w : World S) : World S :=
  match call with
  | CallRegister id secret protected expiry => (register id secret protected expiry w).2
  | CallPatch id credential expiry =>
      ((lease ← authorize_with_lease id credential; update_expiry lease expiry) w).2
  | CallDelete id credential => (delete_channel files id credential w).2
  | CallResume => (resume_deletions files w).2
  end.

Definition channel_run (files : ArtifactFiles) (calls : list channel_call) (w : World S) : World S :=
  fold_left (fun w call => channel_step files call w) calls w.

Lemma preserves_state {E A} (I : World S -> Prop) (m : M (World S) E A) w : preserves I m -> I w -> I (m w).2.
Proof. intros H Hw. specialize (H w Hw). by destruct (m w) as [[] w']. Qed.

Lemma view_registry v w record :
  viewed v w -> record ∈ registry v <-> mv_channels v !! channel_id record = Some record.
Proof. intros Hv. apply elem_of_registry. intros c x. by eapply view_channel_id. Qed.

Lemma resume_default files : preserves (view_inv default_ok) (resume_deletions (S:=S) files).
Proof.
  unfold resume_deletions.
  eapply triple_bind with (Q' := fun records w =>
    (Forall (fun r => channel_id r ≠ DEFAULT) (List.filter is_deleting records)) /\ view_inv default_ok w).
  - intros w (v & Hv & Hd). pose proof (ch_store_inv default_ok ms_channels v_channels channels_law (fun v H => H) w) as HI.
    destruct (ch_store ms_channels w) as [[records|e] w'] eqn:E; [|apply HI; by exists v].
    split; [|apply HI; by exists v]. apply (ch_store_ok _ v_channels v) in E as ([= <-] & _); [|apply channels_law|done].
    apply Forall_forall. intros r Hr%list_elem_of_In%List.filter_In. destruct Hr as [Hr%list_elem_of_In Hdel] .
    apply (view_registry v w) in Hr; [|done]. intros Hid. rewrite Hid in Hr.
    destruct Hd as (r' & Hr' & _ & Hact). unfold is_deleting in Hdel. apply bool_decide_eq_true in Hdel. congruence.
  - intros records. apply triple_pure. intros HF. generalize dependent (List.filter is_deleting records).
    intros rs HF. induction HF as [|r rs Hne HF IH]; [apply preserves_ret|].
    cbn [for_each]. apply preserves_bind; [|intros _; exact IH].
    apply preserves_bind; [apply gate_inv|]. intros _. by apply finish_deletion_default.
Qed.

Lemma channel_step_default files call w : view_inv default_ok w -> view_inv default_ok (channel_step files call w).
Proof.
  destruct call; cbn; intros Hw; apply preserves_state; auto using register_default, patch_default, delete_default, resume_default.
Qed.

Lemma ensure_default_ok expiry v w u w' :
  viewed v w -> ensure_default expiry w = (Ok u, w') -> view_inv default_ok w'.
Proof.
  intros Hv H. unfold ensure_default in H. apply bind_ok in H as (found & w1 & H1 & H).
  apply (ch_store_ok _ (v_channel DEFAULT) v) in H1 as ([= Hf] & Hv1 & _); [|apply channel_law|done]. cbn in Hv1.
  apply bind_ok in H as (record & w2 & H2 & H). apply bind_ok in H as (u3 & w3 & H3 & H4).
  assert (access record = Open /\ state record = Active /\ w3 = w2) as (Ha & Hs & ->).
  { destruct (bool_decide (access record = Open)) eqn:E1, (bool_decide (state record = Active)) eqn:E2; try done.
    injection H3 as _ <-. repeat split; by eapply bool_decide_eq_true. }
  injection H4 as _ <-.
  assert (exists v2, viewed v2 w2 /\ mv_channels v2 !! DEFAULT = Some record) as (v2 & Hv2 & Hl);
    [|exists v2; split; [exact Hv2|]; by exists record].
  destruct found as [r|]; [injection H2 as -> <-; by exists v|].
  apply bind_ok in H2 as (t & w4 & H5 & H2). injection H5 as <- <-.
  apply bind_ok in H2 as (outcome & w5 & H5 & H2). unfold try in H5. set (fresh := Build_ChannelRecord _ _ _ _ _) in *.
  destruct (ch_store (ms_create_channel fresh) _) as [r w6] eqn:E. injection H5 as <- <-.
  destruct r as [[]|e].
  - apply (ch_store_ok _ (v_create_channel fresh) v) in E as (_ & Hv6 & _); [|apply create_channel_law|done].
    injection H2 as <- <-. exists (v_create_channel fresh v).2. split; [done|].
    unfold v_create_channel. cbn. rewrite Hf. cbn. by rewrite lookup_insert_eq.
  - destruct e as [| | | | |me|le]; try done. destruct me; try done.
    assert (exists v6, viewed v6 w6) as (v6 & Hv6).
    { pose proof (ch_store_inv (fun _ => True) _ _ (create_channel_law fresh) (fun _ _ => I)
        (set_ticks (Datatypes.S (w_ticks w1)) w1) (ex_intro _ v (conj Hv1 I))) as HP.
      rewrite E in HP. destruct HP as (v6 & ? & _). eauto. }
    apply bind_ok in H2 as (again & w7 & H7 & H8).
    apply (ch_store_ok _ (v_channel DEFAULT) v6) in H7 as ([= Hl] & Hv7 & _); [|apply channel_law|done].
    destruct again as [x|]; [|done]. injection H8 as <- <-. by exists v6.
Qed.

(** Once startup has accepted the default channel, it stays: through any sequence of
    registrations, expiry updates, deletions and resumed deletions, with any of their store and
    filesystem operations failing, the default channel exists, is open and is never marked for
    deletion. *)
Theorem default_channel_stays (files : ArtifactFiles) (expiry : Z) v w w' u (calls : list channel_call) :
  viewed v w -> ensure_default expiry w = (Ok u, w') ->
  view_inv default_ok (channel_run files calls w').
Proof.
  intros Hv He. apply (ensure_default_ok expiry v) in He; [|done]. clear Hv.
  unfold channel_run. revert w' He. induction calls as [|call calls IH]; intros w' He; [done|].
  cbn. apply IH. by apply channel_step_default.
Qed.

(** A request is admitted to a channel only if its record exists, is active and is open or
    matches the credential's digest; a refused request with no record in the registry leaves no
    lifecycle gate behind. *)
Theorem lease_requires_credential v w id credential :
  viewed v w ->
  match authorize_with_lease id credential w with
  | (Ok record, w') =>
      mv_channels v !! id = Some record /\ state record = Active
      /\ (access record = Open
          \/ exists d candidate, access record = Token d /\ credential = Some candidate
                                /\ token_digest d = sha256 candidate)
      /\ viewed v w'
  | (Err _, w') => viewed v w' /\ (mv_channels v !! id = None -> w_gates w' = w_gates w)
  end.
Proof.
  intros Hv. destruct (authorize_with_lease id credential w) as [[record|e] w'] eqn:E.
  - apply (lease_ok v) in E as (Hv' & _ & _ & _ & Hl & _ & Hs & Hc); [|done].
    split; [done|]. split; [done|]. split; [|done]. unfold authorize_record in Hc.
    destruct (access record) as [|d] eqn:Ha; [by left|right]. destruct credential as [candidate|]; [|done].
    destruct (verify d candidate) eqn:Hd; [|done]. exists d, candidate. split; [done|]. split; [done|].
    by apply bool_decide_eq_true in Hd.
  - unfold authorize_with_lease, mbind, M_bind in E.
    destruct (authorize id credential w) as [[r1|e1] w1] eqn:E1.
    + apply (authorize_ok v) in E1 as (Hv1 & Hw1 & Hl & _); [|done].
      unfold gate, modify in E. apply (authorize_err v) in E as (? & _); [|done].
      split; [done|]. intros Hn. congruence.
    + pose proof (authorize_gates id credential w) as Hg. rewrite E1 in Hg. injection E as _ <-.
      apply (authorize_err v) in E1 as (? & _); [|done]. done.
Qed.

(** C39: A successful deletion is complete and exact: the record, every artifact, reference and
    queue row of the channel, every file under its directory and its gate are gone, and nothing of
    any other channel changed. *)
Theorem deletion_complete (files : ArtifactFiles) id credential v w u w' :
  viewed v w -> tree_closed (nodes (w_fs w)) -> delete_channel files id credential w = (Ok u, w') ->
  id ≠ DEFAULT
  /\ (exists v', viewed v' w'
      /\ (forall c, mv_channels v' !! c = if decide (c = id) then None else mv_channels v !! c)
      /\ (forall c a, mv_artifacts v' !! (c, a) = if decide (c = id) then None else mv_artifacts v !! (c, a))
      /\ (forall c n, mv_references v' !! (c, n) = if decide (c = id) then None else mv_references v !! (c, n))
      /\ (forall c t a, (c, t, a) ∈ mv_queue v' <-> c ≠ id /\ (c, t, a) ∈ mv_queue v))
  /\ (forall q, nodes (w_fs w') !! q
                = if decide (channel_dir files id `prefix_of` q) then None else nodes (w_fs w) !! q)
  /\ id ∉ w_gates w'.
Proof.
  intros Hv Hc H. apply (delete_channel_ok _ _ _ v) in H as (Hne & Hv' & Hno & Hg & _ & Hfr & _); [|done..].
  split; [done|]. split; [|split].
  - exists (v_forget_channel id v). split; [done|]. unfold v_forget_channel, wipe; cbn.
    split; [|split; [|split]].
    + intros c. case_decide as E; [subst; apply lookup_delete_eq|by rewrite lookup_delete_ne].
    + intros c a. apply lookup_wiped_map.
    + intros c n. apply lookup_wiped_map.
    + intros c t a. rewrite elem_of_filter. done.
  - intros q. case_decide; [by apply Hno|by apply Hfr].
  - rewrite Hg. set_solver.
Qed.

(** *** Interrupted deletions *)

(** Nothing of the channel is stored. *)
Definition no_rows (id : ChannelId) v : Prop := wipe id v = v.

(** The channel is marked for deletion, or already gone with all its rows. *)
Definition doomed (id : ChannelId) v : Prop :=
  (exists record, mv_channels v !! id = Some record /\ state record = Deleting)
  \/ (mv_channels v !! id = None /\ no_rows id v).

Lemma wipe_idemp id v : wipe id (wipe id v) = wipe id v.
Proof.
  unfold wipe; cbn. f_equal.
  - apply map_filter_id. by intros k x [_ ?]%map_lookup_filter_Some.
  - apply map_filter_id. by intros k x [_ ?]%map_lookup_filter_Some.
  - apply leibniz_equiv. set_solver.
Qed.

Lemma doomed_wipe id v : doomed id v -> doomed id (wipe id v).
Proof. intros [H|[H1 H2]]; [by left|right]. split; [done|]. apply wipe_idemp. Qed.

Lemma finish_deletion_doomed files id : preserves (view_inv (doomed id)) (finish_deletion (S:=S) files id).
Proof.
  unfold finish_deletion.
  eapply triple_bind with (Q' := fun _ => view_inv (fun v => doomed id v /\ no_rows id v)).
  { intros w (v & Hv & Hd). pose proof (ch_store_inv (doomed id) _ _ (delete_channel_data_law id)
      (doomed_wipe id) w (ex_intro _ v (conj Hv Hd))) as HP.
    destruct (ch_store (ms_delete_channel_data id) w) as [[[]|e] w'] eqn:E; [|exact HP].
    apply (ch_store_ok _ (v_delete_channel_data id) v) in E as (_ & Hv' & _); [|apply delete_channel_data_law|done].
    exists (wipe id v). split; [done|]. split; [by apply doomed_wipe|apply wipe_idemp]. }
  intros _. apply triple_conseq with (P' := view_inv (fun v => doomed id v /\ no_rows id v))
    (Q' := fun _ => view_inv (fun v => doomed id v /\ no_rows id v)) (R' := fun _ => view_inv (fun v => doomed id v /\ no_rows id v)).
  - apply preserves_bind; [apply ch_local_inv|]. intros _.
    apply preserves_bind; [eapply ch_store_inv; [apply finish_channel_deletion_law|]|].
    { intros v [_ Hn]. cbn. split; [right; split; [apply lookup_delete_eq|]|];
        unfold no_rows, wipe, with_channels in *; cbn; destruct v; cbn in *; congruence. }
    intros _. apply preserves_modify. intros w (v & ? & ?). by exists v.
  - done.
  - intros _ w (v & ? & ? & ?). by exists v.
  - intros _ w (v & ? & ? & ?). by exists v.
Qed.

Lemma delete_channel_err files id credential v w e w' :
  viewed v w -> delete_channel files id credential w = (Err e, w') ->
  view_inv (fun v' => v' = v \/ doomed id v') w'.
Proof.
  intros Hv. unfold delete_channel. case_decide; [intros [= <- <-]; exists v; auto|].
  unfold mbind, M_bind. destruct (authorize_with_lease id credential w) as [[lease|e1] w1] eqn:E1.
  - apply (lease_ok v) in E1 as (Hv1 & _ & _ & _ & Hl & Hid & _); [|done].
    assert (view_inv (fun v' => v' = v \/ doomed id v') w1) as HI by (exists v; auto).
    destruct (ch_store (ms_store_channel (set_state lease Deleting)) w1) as [[[]|e2] w2] eqn:E2.
    + apply (ch_store_ok _ (v_store_channel (set_state lease Deleting)) v) in E2 as (_ & Hv2 & _);
        [|apply store_channel_law|done]. cbn in Hv2. rewrite Hid in Hv2. intros Hf.
      pose proof (finish_deletion_doomed files id (set_gates ({[id]} ∪ w_gates w2) w2)) as HP. unfold gate, modify in Hf.
      rewrite Hf in HP. destruct HP as (v' & ? & ?); [|exists v'; auto].
      eexists. split; [exact Hv2|]. left. cbn. exists (set_state lease Deleting). by rewrite lookup_insert_eq.
    + intros [= <- <-]. pose proof (ch_store_inv (fun v' => v' = v \/ doomed id v') _ _
        (store_channel_law (set_state lease Deleting))) as HP.
      specialize (HP ltac:(intros v' _; cbn; rewrite Hid; right; left; exists (set_state lease Deleting);
        cbn; by rewrite lookup_insert_eq) w1 HI). by rewrite E2 in HP.
  - intros [= <- <-]. pose proof (lease_view (fun v' => v' = v) id credential w (ex_intro _ v (conj Hv eq_refl))) as HP.
    rewrite E1 in HP. destruct HP as (v' & ? & ->). exists v. auto.
Qed.
(** *** Resuming at startup *)

Lemma removed_closed p t t' :
  tree_closed t -> no_files_under p t' -> (forall q, ~ p `prefix_of` q -> t' !! q = t !! q) -> tree_closed t'.
Proof.
  intros Hc Hno Hfr q x n Hn. destruct (decide (p `prefix_of` q ++ [x])) as [Hp|Hp]; [by rewrite Hno in Hn|].
  rewrite Hfr in Hn by done. apply Hc in Hn.
  assert (~ p `prefix_of` q) as Hq by (intros Hpq; apply Hp; by apply prefix_app_r).
  unfold is_dir in *. destruct q; [done|]. by rewrite Hfr.
Qed.

Definition forget_all (ids : list ChannelId) v : MetaView := fold_left (fun v id => v_forget_channel id v) ids v.

Lemma drop_cons_member {A} (c id : ChannelId) ids (x : option A) :
  (if decide (c ∈ ids) then None else if decide (c = id) then None else x)
  = if decide (c ∈ id :: ids) then None else x.
Proof. repeat case_decide; rewrite ?elem_of_cons in *; naive_solver. Qed.

Lemma forget_all_spec ids v :
  (forall c, mv_channels (forget_all ids v) !! c = if decide (c ∈ ids) then None else mv_channels v !! c)
  /\ (forall c a, mv_artifacts (forget_all ids v) !! (c, a) = if decide (c ∈ ids) then None else mv_artifacts v !! (c, a))
  /\ (forall c n, mv_references (forget_all ids v) !! (c, n) = if decide (c ∈ ids) then None else mv_references v !! (c, n))
  /\ (forall c t a, (c, t, a) ∈ mv_queue (forget_all ids v) <-> c ∉ ids /\ (c, t, a) ∈ mv_queue v).
Proof.
  unfold forget_all. revert v. induction ids as [|id ids IH]; intros v; cbn [fold_left].
  { repeat split; try (intros; rewrite decide_False by apply not_elem_of_nil; done); try done.
    - apply not_elem_of_nil.
    - tauto. }
  destruct (IH (v_forget_channel id v)) as (H1 & H2 & H3 & H4). split; [|split; [|split]].
  - intros c. rewrite H1, <- drop_cons_member. cbn. repeat case_decide; try done.
    + subst. apply lookup_delete_eq.
    + by rewrite lookup_delete_ne.
  - intros c a. rewrite H2, <- drop_cons_member. cbn. by rewrite lookup_wiped_map.
  - intros c n. rewrite H3, <- drop_cons_member. cbn. by rewrite lookup_wiped_map.
  - intros c t a. rewrite H4, elem_of_cons. cbn. rewrite elem_of_filter. cbn. tauto.
Qed.

Lemma no_rows_forgotten id ids v : id ∈ ids -> no_rows id (forget_all ids v).
Proof.
  intros Hin. destruct (forget_all_spec ids v) as (_ & H2 & H3 & H4). generalize dependent (forget_all ids v).
  intros v' H2 H3 H4. unfold no_rows, wipe. destruct v' as [ch ar re qu]; cbn in *. f_equal.
  - apply map_filter_id. intros [c a] x Hx. cbn. intros ->. rewrite H2, decide_True in Hx; done.
  - apply map_filter_id. intros [c n] x Hx. cbn. intros ->. rewrite H3, decide_True in Hx; done.
  - apply leibniz_equiv. intros [[c t] a]. rewrite elem_of_filter. cbn. split; [tauto|]. intros Hq.
    split; [|done]. apply H4 in Hq as [? _]. by intros ->.
Qed.

Lemma no_rows_kept id ids v : no_rows id v -> no_rows id (forget_all ids v).
Proof.
  intros Hno. destruct (forget_all_spec ids v) as (_ & H2 & H3 & H4). generalize dependent (forget_all ids v).
  intros v' H2 H3 H4. unfold no_rows in *.
  assert (forall a, mv_artifacts v !! (id, a) = None) as Ha.
  { intros a. rewrite <- Hno. cbn. rewrite lookup_wiped_map. by rewrite decide_True. }
  assert (forall n, mv_references v !! (id, n) = None) as Hr.
  { intros n. rewrite <- Hno. cbn. rewrite lookup_wiped_map. by rewrite decide_True. }
  assert (forall t a, (id, t, a) ∉ mv_queue v) as Hq.
  { intros t a. rewrite <- Hno. cbn. rewrite elem_of_filter. cbn. tauto. }
  unfold wipe. destruct v' as [ch ar re qu]; cbn in *. f_equal.
  - apply map_filter_id. intros [c a] x Hx. cbn. intros ->. rewrite H2 in Hx. case_decide; [done|]. by rewrite Ha in Hx.
  - apply map_filter_id. intros [c n] x Hx. cbn. intros ->. rewrite H3 in Hx. case_decide; [done|]. by rewrite Hr in Hx.
  - apply leibniz_equiv. intros [[c t] a]. rewrite elem_of_filter. cbn. split; [tauto|]. intros Hq'.
    split; [|done]. apply H4 in Hq' as [_ Hq']. intros ->. by apply Hq in Hq'.
Qed.

Lemma finish_all_ok files rs v w u w' :
  viewed v w -> tree_closed (nodes (w_fs w)) ->
  for_each (fun r => _ ← gate (channel_id r); finish_deletion files (channel_id r)) rs w = (Ok u, w') ->
  viewed (forget_all (channel_id <$> rs) v) w' /\ tree_closed (nodes (w_fs w'))
  /\ (forall q, nodes (w_fs w') !! q = nodes (w_fs w) !! q \/ nodes (w_fs w') !! q = None)
  /\ Forall (fun r => no_files_under (channel_dir files (channel_id r)) (nodes (w_fs w'))) rs.
Proof.
  revert v w. induction rs as [|r rs IH]; intros v w Hv Hc H; cbn [for_each] in H.
  { injection H as _ <-. repeat split; auto. }
  apply bind_ok in H as (u1 & w1 & H1 & H). apply bind_ok in H1 as (u2 & w2 & H2 & H1). injection H2 as _ <-.
  apply (finish_deletion_ok _ _ v) in H1 as (Hv1 & Hno & _ & _ & Hfr); [|done..]. cbn in Hfr.
  assert (tree_closed (nodes (w_fs w1))) as Hc1 by (by eapply removed_closed).
  destruct (IH _ _ Hv1 Hc1 H) as (Hv' & Hc' & Hsub & HF).
  assert (forall q, nodes (w_fs w1) !! q = nodes (w_fs w) !! q \/ nodes (w_fs w1) !! q = None) as Hsub1.
  { intros q. destruct (decide (channel_dir files (channel_id r) `prefix_of` q)); [right; by apply Hno|left; by apply Hfr]. }
  repeat split; [done|done| |].
  - intros q. destruct (Hsub q) as [-> |]; [apply Hsub1|by right].
  - constructor; [|done]. intros q Hq. destruct (Hsub q) as [-> |]; [by apply Hno|done].
Qed.

Lemma resume_ok files v w u w' :
  viewed v w -> tree_closed (nodes (w_fs w)) -> resume_deletions files w = (Ok u, w') ->
  exists rs, viewed (forget_all (channel_id <$> rs) v) w' /\ tree_closed (nodes (w_fs w'))
    /\ (forall r, r ∈ rs <-> mv_channels v !! channel_id r = Some r /\ state r = Deleting)
    /\ Forall (fun r => no_files_under (channel_dir files (channel_id r)) (nodes (w_fs w'))) rs.
Proof.
  intros Hv Hc H. unfold resume_deletions in H. apply bind_ok in H as (records & w1 & H1 & H).
  apply (ch_store_ok _ v_channels v) in H1 as ([= <-] & Hv1 & Hw1); [|apply channels_law|done]. cbn in Hv1.
  apply (finish_all_ok files _ v) in H as (Hv' & Hc' & _ & HF); [|done|rewrite Hw1; exact Hc].
  eexists. repeat split; [exact Hv'|done| | | |done].
  - apply list_elem_of_In, List.filter_In in H as [H%list_elem_of_In _]. by apply (view_registry v w).
  - apply list_elem_of_In, List.filter_In in H as [_ H]. by apply bool_decide_eq_true in H.
  - intros [Hl Hs]. apply list_elem_of_In, List.filter_In. split; [|by apply bool_decide_eq_true].
    apply list_elem_of_In. by apply (view_registry v w).
Qed.

(** Startup finishes every deletion a crash interrupted: after a successful resume, exactly the
    active channels remain, with exactly their rows, and no file is left under a channel that was
    being deleted. *)
Theorem resume_completes (files : ArtifactFiles) v w u w' :
  viewed v w -> tree_closed (nodes (w_fs w)) -> resume_deletions files w = (Ok u, w') ->
  exists v', viewed v' w'
    /\ (forall c r, mv_channels v' !! c = Some r <-> mv_channels v !! c = Some r /\ state r = Active)
    /\ (forall c r, mv_channels v !! c = Some r -> state r = Deleting ->
          no_rows c v' /\ no_files_under (channel_dir files c) (nodes (w_fs w')))
    /\ (forall c r a, mv_channels v !! c = Some r -> state r = Active ->
          mv_artifacts v' !! (c, a) = mv_artifacts v !! (c, a)).
Proof.
  intros Hv Hc H. destruct (resume_ok files v w u w' Hv Hc H) as (rs & Hv' & _ & Hrs & HF).
  exists (forget_all (channel_id <$> rs) v). split; [done|].
  destruct (forget_all_spec (channel_id <$> rs) v) as (H1 & H2 & H3 & H4).
  assert (forall c r, mv_channels v !! c = Some r -> c ∈ channel_id <$> rs <-> state r = Deleting) as Hin.
  { intros c r Hr. pose proof (view_channel_id v (w_db w) c r Hv Hr) as Hid. rewrite list_elem_of_fmap. split.
    - intros (r' & -> & [Hr' Hs]%Hrs). congruence.
    - intros Hs. exists r. split; [done|]. apply Hrs. by rewrite Hid. }
  split; [|split].
  - intros c r. rewrite H1. case_decide as Hc'.
    + split; [done|]. intros [Hr Hs]. apply (Hin c r Hr) in Hc'. congruence.
    + split; [|by intros []]. intros Hr. split; [done|]. destruct (state r) eqn:E; [done|].
      exfalso. by apply Hc', (Hin c r Hr).
  - intros c r Hr Hs. pose proof (proj2 (Hin c r Hr) Hs) as Hc'. split.
    + by apply no_rows_forgotten.
    + apply list_elem_of_fmap in Hc' as (r' & -> & Hr'). rewrite Forall_forall in HF. by apply HF.
  - intros c r a Hr Hs. rewrite H2. case_decide as Hc'; [|done]. apply (Hin c r Hr) in Hc'. congruence.
Qed.

(** A channel marked for deletion, or gone with its rows, is gone once the deletions are resumed. *)
Lemma resume_doomed files id v w u w' :
  viewed v w -> tree_closed (nodes (w_fs w)) -> doomed id v -> resume_deletions files w = (Ok u, w') ->
  exists v', viewed v' w' /\ mv_channels v' !! id = None /\ no_rows id v'
    /\ (is_Some (mv_channels v !! id) -> no_files_under (channel_dir files id) (nodes (w_fs w'))).
Proof.
  intros Hv Hc Hdoom Hr. destruct (resume_ok files v w u w' Hv Hc Hr) as (rs & Hv' & _ & Hrs & HF).
  exists (forget_all (channel_id <$> rs) v). split; [done|].
  destruct (forget_all_spec (channel_id <$> rs) v) as (H1 & _). rewrite H1.
  destruct Hdoom as [(r & Hl & Hs)|[Hn Hno]].
  - pose proof (view_channel_id v (w_db w) id r Hv Hl) as Hid.
    assert (r ∈ rs) as Hin by (apply Hrs; by rewrite Hid).
    assert (id ∈ channel_id <$> rs) as Hmem by (apply list_elem_of_fmap; by exists r). rewrite decide_True by done.
    split; [done|]. split; [by apply no_rows_forgotten|]. intros _. rewrite Forall_forall in HF. rewrite <- Hid. by apply HF.
  - split; [by case_decide|]. split; [by apply no_rows_kept|]. rewrite Hn. by intros [].
Qed.
End Claims.

Section Witnesses.
#[local] Existing Instances toy_ulid toy_ulid_laws real_hex toy_sha256 toy_zstd toy_base64 toy_store toy_store_laws.

Definition secret : bytes32 := sha256 (lit "secret").
Definition sample_root : ArtifactFiles := {| root := [lit "data"]; reservation_extent := 8 |}.

Lemma register_viewed id sec protected expiry w :
  view_inv (fun _ => True) w -> view_inv (fun _ => True) (register (S:=MemDB) id sec protected expiry w).2.
Proof.
  intros Hw. apply preserves_state; [|done]. unfold register.
  apply preserves_bind; [apply now_inv|]. intros t.
  apply preserves_bind; [eapply ch_store_inv; [apply create_channel_law|done]|]. intros _.
  apply preserves_bind; [apply gate_inv|]. intros _. apply preserves_ret.
Qed.

(** Channel [a] registered; with the faults, its deletion stops after the mark. *)
Definition registered_world (db_faults : list (option bool)) : World MemDB :=
  (register channel_a secret false 60 (sample_world (None :: db_faults) [])).2.

Lemma registered_viewed db_faults : exists v, viewed v (registered_world db_faults).
Proof.
  destruct (register_viewed channel_a secret false 60 (sample_world (None :: db_faults) [])) as (v & Hv & _).
  - exists empty_view. split; [apply sample_world_viewed|done].
  - by exists v.
Qed.

Lemma registered_fs db_faults : w_fs (registered_world db_faults) = w_fs (sample_world (None :: db_faults) []).
Proof. reflexivity. Qed.

Lemma default_channel_stays_witness :
  view_inv default_ok
    (channel_run sample_root
       [CallRegister channel_a secret true 60; CallDelete channel_a None; CallDelete DEFAULT None; CallResume]
       (ensure_default 3600 (sample_world [] [])).2).
Proof.
  apply (default_channel_stays sample_root 3600 empty_view (sample_world [] []) _ tt).
  - apply sample_world_viewed.
  - apply run_eq. vm_compute. reflexivity.
Defined.

Lemma unknown_refused : is_ok (authorize_with_lease channel_a None (sample_world [] [])).1 = false.
Proof. vm_compute. reflexivity. Qed.

Lemma lease_requires_credential_witness :
  w_gates (authorize_with_lease channel_a None (sample_world [] [])).2 = ∅.
Proof.
  pose proof (lease_requires_credential empty_view (sample_world [] []) channel_a None
                (sample_world_viewed [] [])) as H.
  pose proof unknown_refused as E. destruct (authorize_with_lease channel_a None (sample_world [] [])) as [[r|e] w'].
  - discriminate E.
  - destruct H as [_ H]. exact (H (lookup_empty _)).
Defined.

Lemma deletion_complete_witness :
  channel_a ∉ w_gates (delete_channel sample_root channel_a None (registered_world [])).2.
Proof.
  destruct (registered_viewed []) as [v Hv].
  destruct (deletion_complete sample_root channel_a None v (registered_world []) tt
              (delete_channel sample_root channel_a None (registered_world [])).2) as (_ & _ & _ & H).
  - exact Hv.
  - rewrite registered_fs. apply sample_world_closed.
  - apply run_eq. vm_compute. reflexivity.
  - exact H.
Defined.

Definition interrupted_world : World MemDB :=
  (delete_channel sample_root channel_a None (registered_world [None; Some false])).2.

Lemma interrupted_err :
  (delete_channel sample_root channel_a None (registered_world [None; Some false])).1
  = Err (ChannelStore (Store "io error")).
Proof. vm_compute. reflexivity. Qed.

Lemma interrupted :
  delete_channel sample_root channel_a None (registered_world [None; Some false])
  = (Err (ChannelStore (Store "io error")), interrupted_world).
Proof. unfold interrupted_world. exact (run_eq _ _ interrupted_err). Qed.

Lemma interrupted_closed : tree_closed (nodes (w_fs interrupted_world)).
Proof.
  assert (w_fs interrupted_world = w_fs (sample_world [] [])) as -> by (vm_compute; reflexivity).
  apply sample_world_closed.
Qed.

Lemma interrupted_viewed : exists v, viewed v interrupted_world.
Proof.
  destruct (registered_viewed [None; Some false]) as [v Hv].
  destruct (delete_channel_err _ _ _ v _ _ _ Hv interrupted) as (v' & ? & _). by exists v'.
Qed.

Lemma resume_completes_witness :
  exists v, viewed v (resume_deletions sample_root interrupted_world).2.
Proof.
  destruct interrupted_viewed as [v Hv].
  destruct (resume_completes sample_root v interrupted_world tt (resume_deletions sample_root interrupted_world).2 Hv interrupted_closed)
    as (v' & Hv' & _).
  - apply run_eq. vm_compute. reflexivity.
  - exists v'. exact Hv'.
Defined.
End Witnesses.
