(* ===== verification/Cache.v ===== *)
(** * The cache service ([cache/service.rs])

    Publication, lookup, references, recovery and reclamation over the metadata store, the disk
    and the ledger.  The stripes and gates that serialise concurrent transitions are free in a
    sequential run; the gate registry is kept, since it grows. *)

From S2P Require Import Prelude Externals Domain Metadata MetadataView MetadataStore Space RecentUse Filesystem ArtifactFiles World.

Inductive CacheError :=
| CacheLocal (e : LocalError)
| CacheMetadata (e : MetadataError)
| MissingChannel
| ChannelDeleting
| SpaceUnavailable.

(** What [CacheService] is configured with. *)
Record CacheConfig := {
  cache_files : ArtifactFiles;
  max_upload_bytes : Z;
  reclaim_byte_limit : Z;
  orphan_scan_limit : nat
}.

(** A located artifact: the open file, read to its end, and its metadata. *)
Record LocatedArtifact := { located_file : bytes; located_metadata : ArtifactMetadata }.

Inductive PublicationTarget := ById (a : ArtifactId) | ContentAddressed (reference : option bytes).

Inductive PublicationOutcome := PublicationCreated | PublicationExisting.

Record Publication := { pub_artifact : ArtifactId; pub_outcome : PublicationOutcome }.

Inductive Admission := AdmissionPublished (p : Publication) | AdmissionRejected (stream : body_stream).

(** [File::open] of a regular file, and its content.  A directory, which opens but cannot be read, fails
    here already; the store never makes one at an artifact's path. *)
Definition open_read (p : path) : M FS io_error bytes :=
  syscall (fun t => match t !! p with
                    | Some (File content) => (Ok content, t)
                    | Some Directory => (Err (IoOther "is a directory"), t)
                    | None => (Err IoNotFound, t)
                    end)
          (fun _ t => t).

Section Service.
Context {UL : UlidLib} {HX : HexLib} {SH : Sha256Lib} {ZS : ZstdLib} {DH : DefaultHasherLib}.
Context {S : Type} {MS : MetadataStore S}.

Record PublishRequest := {
  req_channel : ChannelId;
  req_target : PublicationTarget;
  req_content_type : option bytes;
  req_stream : body_stream;
  req_content_length : option Z;
  req_durability : Durability;
  req_encoding : StoredEncoding
}.

Record Commit := {
  commit_content_type : option bytes;
  commit_reference : option (bytes * ReferenceRecord);
  commit_durability : Durability
}.

Definition c_meta {A} (m : M S MetadataError A) : M (World S) CacheError A := raising CacheMetadata (in_db m).
Definition c_local {A} (m : M (Local SpaceLedger) LocalError A) : M (World S) CacheError A :=
  raising CacheLocal (in_local m).

(** A seek in, or a read of, the open file of an artifact that was located. *)
Definition file_io : M (World S) CacheError unit := c_local (l_fs_op touch).

(** An infallible step on the disk and the ledger. *)
Definition settle (f : Local SpaceLedger -> Local SpaceLedger) : M (World S) CacheError unit :=
  modify (fun w => set_local (f (get_local w)) w).

(** ** The fence *)

Definition channel_fence (channel : ChannelId) : M (World S) CacheError Z :=
  _ ← gate channel;
  found ← c_meta (ms_channel channel);
  match found with
  | Some record => if bool_decide (state record = Active) then mret (expiry_seconds record) else throw ChannelDeleting
  | None => throw MissingChannel
  end.

(** [CacheService::expiry_seconds] *)
Definition channel_expiry (channel : ChannelId) : M (World S) CacheError Z :=
  found ← c_meta (ms_channel channel);
  match found with
  | Some record => if bool_decide (state record = Active) then mret (expiry_seconds record) else throw MissingChannel
  | None => throw MissingChannel
  end.

(** [CacheService::channels] *)
Definition active_channels : M (World S) CacheError (list ChannelId) :=
  records ← c_meta ms_channels;
  mret (map channel_id (List.filter (fun record => bool_decide (state record = Active)) records)).

(** ** Publication *)

(** The second half of [commit_staged], once the body is in place: the metadata transition and the
    settlement of the reservation. *)
Definition commit_published (channel : ChannelId) (artifact : ArtifactId) (staged : StagedArtifact)
    (commit_ : Commit) (expiry : Z) (reservation : Reservation) (committed_len : Z)
    : M (World S) CacheError Publication :=
  t ← now;
  created ← try (c_meta (ms_commit_publication channel artifact
    {| content_len := staged_len staged; content_type := commit_content_type commit_; created_at := t;
       eligible_at := saturating_add t expiry; stored_len := staged_stored_len staged;
       encoding := staged_encoding staged |}
    (commit_reference commit_) (commit_durability commit_)));
  match (created : result CacheError bool) with
  | Err e => _ ← settle (discard reservation); throw e
  | Ok created =>
      _ ← settle (fun l => {| l_fs := l_fs l; l_space := Reservation_commit committed_len reservation (l_space l) |});
      mret {| pub_artifact := artifact;
              pub_outcome := if created then PublicationCreated else PublicationExisting |}
  end.

Definition commit_staged (cfg : CacheConfig) (channel : ChannelId) (artifact : ArtifactId)
    (staged : StagedArtifact) (commit_ : Commit) : M (World S) CacheError Publication :=
  fence ← try (channel_fence channel);
  match (fence : result CacheError Z) with
  | Err e => _ ← settle (discard (staged_reservation staged)); throw e
  | Ok expiry =>
      publication ← c_local (publish (cache_files cfg) channel artifact staged (commit_durability commit_));
      match publication with
      | Created reservation =>
          commit_published channel artifact staged commit_ expiry reservation (staged_stored_len staged)
      | Existing reservation => commit_published channel artifact staged commit_ expiry reservation 0
      end
  end.

(** [name] is the identifier of the temporary file. *)
Definition publish_or_reject (cfg : CacheConfig) (name : bytes) (request : PublishRequest)
    : M (World S) CacheError Admission :=
  outcome ← c_local (stage (cache_files cfg) (req_channel request) name (req_stream request)
    (max_upload_bytes cfg) (req_content_length request) (req_durability request) (req_encoding request));
  match outcome with
  | Rejected stream => mret (AdmissionRejected stream)
  | Ready staged =>
      _ ← on_metrics (metric_written (staged_len staged));
      '(artifact, reference) ← (match req_target request with
        | ById artifact => mret (artifact, None)
        | ContentAddressed reference =>
            let artifact := from_digest (staged_digest staged) in
            match reference with
            | None => mret (artifact, None)
            | Some reference =>
                t ← now;
                mret (artifact, Some (reference, {| ref_artifact := artifact; updated_at := t;
                                                    etag := None; last_modified := None |}))
            end
        end);
      publication ← commit_staged cfg (req_channel request) artifact staged
        {| commit_content_type := req_content_type request; commit_reference := reference;
           commit_durability := req_durability request |};
      mret (AdmissionPublished publication)
  end.

Definition cache_publish (cfg : CacheConfig) (name : bytes) (request : PublishRequest)
    : M (World S) CacheError Publication :=
  admission ← publish_or_reject cfg name request;
  match admission with
  | AdmissionPublished publication => mret publication
  | AdmissionRejected _ => throw (CacheLocal OutOfSpace)
  end.

(** ** Lookup *)

Definition locate_local (cfg : CacheConfig) (channel : ChannelId) (artifact : ArtifactId)
    : M (World S) CacheError (option LocatedArtifact) :=
  found ← c_meta (ms_artifact channel artifact);
  match found with
  | None => mret None
  | Some metadata =>
      opened ← try (c_local (l_fs_op (open_read (artifact_path (cache_files cfg) channel artifact))));
      match (opened : result CacheError bytes) with
      | Ok file => mret (Some {| located_file := file; located_metadata := metadata |})
      | Err (CacheLocal (Io IoNotFound)) =>
          _ ← c_meta (ms_remove_artifact channel artifact);
          mret None
      | Err e => throw e
      end
  end.

Definition locate (cfg : CacheConfig) (channel : ChannelId) (artifact : ArtifactId)
    : M (World S) CacheError (option LocatedArtifact) :=
  found ← locate_local cfg channel artifact;
  match found with
  | Some located =>
      _ ← modify (fun w => set_recent (mark channel artifact (w_recent w)) w);
      _ ← on_metrics (metric_hit (content_len (located_metadata located)));
      mret (Some located)
  | None => _ ← on_metrics metric_miss; mret None
  end.

(** ** References *)

Definition bind_reference_with_validators (channel : ChannelId) (reference : bytes) (artifact : ArtifactId)
    (etag_ last_modified_ : option bytes) (durability : Durability) : M (World S) CacheError unit :=
  _ ← channel_fence channel;
  t ← now;
  c_meta (ms_bind_reference channel reference
    {| ref_artifact := artifact; updated_at := t; etag := etag_; last_modified := last_modified_ |} durability).

Definition cache_bind_reference (channel : ChannelId) (reference : bytes) (artifact : ArtifactId)
    : M (World S) CacheError unit :=
  bind_reference_with_validators channel reference artifact None None Durable.

Definition resolve_reference (channel : ChannelId) (reference : bytes)
    : M (World S) CacheError (option ReferenceRecord) :=
  c_meta (ms_reference channel reference).

Definition cache_delete_reference (channel : ChannelId) (reference : bytes) : M (World S) CacheError unit :=
  _ ← channel_fence channel;
  c_meta (ms_delete_reference channel reference).

(** ** Recovery and readiness *)

Definition reconcile_one (cfg : CacheConfig) (orphan : ChannelId * ArtifactId) : M (World S) CacheError unit :=
  let '(channel, artifact) := orphan in
  found ← c_meta (ms_artifact channel artifact);
  match found with
  | Some _ => mret tt
  | None =>
      again ← c_meta (ms_artifact channel artifact);
      match again with
      | Some _ => mret tt
      | None => c_local (remove (cache_files cfg) channel artifact)
      end
  end.

Definition reconcile (cfg : CacheConfig) : M (World S) CacheError unit :=
  _ ← c_local (remove_temporary_files (cache_files cfg));
  orphans ← c_local (orphan_scan (cache_files cfg) (orphan_scan_limit cfg));
  for_each (reconcile_one cfg) orphans.

Definition ready (cfg : CacheConfig) : M (World S) CacheError unit :=
  _ ← c_meta ms_health;
  _ ← c_local (files_health (cache_files cfg));
  w ← get_state;
  if degraded (w_space w) then throw SpaceUnavailable else mret tt.

(** ** Maintenance *)

(** The mutable locals of a pass. *)
Record Budget := { remaining_candidates : nat; remaining_bytes : Z; reclaimed : nat }.

(** How a candidate's turn ends: [continue], [break], or [break 'channels]. *)
Inductive flow := Continue | Break | BreakChannels.

Definition exhausted (b : Budget) : bool :=
  Nat.eqb (remaining_candidates b) 0 || (remaining_bytes b =? 0).

Definition spend_candidate (b : Budget) : Budget :=
  {| remaining_candidates := remaining_candidates b - 1; remaining_bytes := remaining_bytes b;
     reclaimed := reclaimed b |}.

Definition spend_bytes (stored : Z) (b : Budget) : Budget :=
  {| remaining_candidates := remaining_candidates b;
     remaining_bytes := saturating_sub (remaining_bytes b) stored; reclaimed := reclaimed b + 1 |}.

(** Unlink the body first, then drop the row. *)
Definition reclaim_one (cfg : CacheConfig) (channel : ChannelId) (candidate : Candidate) (b : Budget)
    : M (World S) CacheError Budget :=
  let artifact := cand_artifact candidate in
  found ← c_meta (ms_artifact channel artifact);
  _ ← (match found with
       | Some metadata =>
           if eligible_at metadata =? cand_eligible_at candidate
           then c_local (remove (cache_files cfg) channel artifact) else mret tt
       | None => mret tt
       end);
  evicted ← c_meta (ms_evict channel artifact (cand_eligible_at candidate));
  mret (match evicted with Removed stored => spend_bytes stored b | Stale => b end).

Definition process_candidate (cfg : CacheConfig) (mode_ : Mode) (t expiry : Z) (channel : ChannelId)
    (candidate : Candidate) (b : Budget) : M (World S) CacheError (Budget * flow) :=
  if exhausted b then mret (b, BreakChannels)
  else if bool_decide (mode_ = Normal) && negb (cand_eligible_at candidate <=? t) then mret (b, Break)
  else
    let b := spend_candidate b in
    w ← get_state;
    if bool_decide (mode_ = Normal) && seen channel (cand_artifact candidate) (w_recent w) then
      _ ← c_meta (ms_requeue channel (cand_artifact candidate) (cand_eligible_at candidate) (saturating_add t expiry));
      _ ← on_metrics metric_requeued;
      mret (b, Continue)
    else
      b ← reclaim_one cfg channel candidate b;
      mret (b, Continue).

(** The inner loop; the flag says whether the outer loop goes on. *)
Fixpoint candidates_loop (cfg : CacheConfig) (mode_ : Mode) (t expiry : Z) (channel : ChannelId)
    (candidates : list Candidate) (b : Budget) : M (World S) CacheError (Budget * bool) :=
  match candidates with
  | [] => mret (b, true)
  | candidate :: candidates =>
      '(b, f) ← process_candidate cfg mode_ t expiry channel candidate b;
      match f with
      | Continue => candidates_loop cfg mode_ t expiry channel candidates b
      | Break => mret (b, true)
      | BreakChannels => mret (b, false)
      end
  end.

Fixpoint channels_loop (cfg : CacheConfig) (mode_ : Mode) (t : Z) (channels : list ChannelId) (b : Budget)
    : M (World S) CacheError Budget :=
  match channels with
  | [] => mret b
  | channel :: channels =>
      if exhausted b then mret b
      else
        expiry ← channel_expiry channel;
        candidates ← c_meta (ms_reclaim_candidates channel (remaining_candidates b));
        '(b, go_on) ← candidates_loop cfg mode_ t expiry channel candidates b;
        if (go_on : bool) then channels_loop cfg mode_ t channels b else mret b
  end.

(** [channels.rotate_left(start)] with [start = cursor % len]; the cursor wraps. *)
Definition rotated (cursor : Z) (channels : list ChannelId) : list ChannelId :=
  let start := Z.to_nat (cursor mod Z.of_nat (length channels)) in
  drop start channels ++ take start channels.

(** [observation] is what the free-space source reports to this pass's refresh. *)
Definition run_maintenance_once (cfg : CacheConfig) (observation : option Z) (limit : nat)
    : M (World S) CacheError nat :=
  _ ← modify (fun w => set_space (refresh observation (w_space w)) w);
  _ ← modify (fun w => set_metrics (record_space (snapshot (w_space w)) (w_metrics w)) w);
  w ← get_state;
  let '(mode_, space) := mode (w_space w) in
  _ ← modify (set_space space);
  t ← now;
  channels ← active_channels;
  w ← get_state;
  channels ← (match channels with
              | [] => mret []
              | _ :: _ =>
                  _ ← modify (set_cursor (wrapping_add (w_cursor w) 1));
                  mret (rotated (w_cursor w) channels)
              end);
  b ← channels_loop cfg mode_ t channels
    {| remaining_candidates := limit; remaining_bytes := reclaim_byte_limit cfg; reclaimed := 0 |};
  _ ← on_metrics (metric_reclaimed (Z.of_nat (reclaimed b)));
  mret (reclaimed b).

Definition is_reclaiming (w : World S) : bool * World S :=
  let '(mode_, space) := mode (w_space w) in (bool_decide (mode_ = Reclaiming), set_space space w).

Definition rotate_recency (w : World S) : World S := set_recent (rotate (w_recent w)) w.

(** [Flywheel::run_maintenance_once] ([lib.rs]) *)
Definition flywheel_maintenance (cfg : CacheConfig) (observation : option Z) (limit : nat)
    : M (World S) CacheError nat :=
  reclaimed ← run_maintenance_once cfg observation limit;
  _ ← modify rotate_recency;
  mret reclaimed.
End Service.
