(* ===== verification/CacheLemmas.v ===== *)
(** * Lemmas on the cache service

    Invariants of the view under every transition, and how each cache operation acts on the view,
    the disk and the ledger. *)

From S2P Require Import Prelude Externals Domain Metadata MetadataView MetadataRefinement MetadataStore Space RecentUse Filesystem ArtifactFiles FilesLemmas World ChannelLemmas Cache.

(** ** The eviction queue covers the artifacts *)

Section Queue.
Context {UL : UlidLib}.
Implicit Types (v : MetaView).

Definition queued v : Prop :=
  forall c a m, mv_artifacts v !! (c, a) = Some m -> (c, eligible_at m, a) ∈ mv_queue v.

(** Expiries are not negative. *)
Definition expiries_ok v : Prop := forall c r, mv_channels v !! c = Some r -> 0 <= expiry_seconds r.

Definition view_ok v : Prop := queued v /\ expiries_ok v.

Lemma queued_put c a m v : queued v -> queued (v_put_artifact c a m v).
Proof.
  intros H c' a' m'. cbn. destruct (decide ((c', a') = (c, a))) as [[= -> ->]|Hne].
  - rewrite lookup_insert_eq. intros [= <-]. set_solver.
  - rewrite lookup_insert_ne by done. intros Hm. apply H in Hm. set_solver.
Qed.

Lemma queued_bind c reference v : queued v -> queued (v_bind c reference v).
Proof. by destruct reference as [[]|]. Qed.

(** A row may go once its artifact is gone or has another deadline. *)
Lemma queued_drop c t a v :
  queued v -> (forall m, mv_artifacts v !! (c, a) = Some m -> eligible_at m ≠ t) -> queued (v_drop_row c t a v).
Proof.
  intros H Hne c' a' m Hm. cbn in *. apply elem_of_difference. split; [by apply H|].
  rewrite elem_of_singleton. intros [= -> <- ->]. by eapply Hne.
Qed.

Lemma queued_delete c a v : queued v -> queued (with_artifacts (delete (c, a)) v).
Proof. intros H c' a' m Hm. cbn in *. apply lookup_delete_Some in Hm as [_ Hm]. by apply H. Qed.

Lemma queued_evicted c t a v : queued v -> queued (v_drop_row c t a (with_artifacts (delete (c, a)) v)).
Proof.
  intros H. apply queued_drop; [by apply queued_delete|]. cbn. intros m. by rewrite lookup_delete_eq.
Qed.

Lemma queued_requeue c a old new v :
  queued v -> queued (v_put_artifact c a new (v_drop_row c old a v)).
Proof.
  intros H c' a' m'. cbn. destruct (decide ((c', a') = (c, a))) as [[= -> ->]|Hne].
  - rewrite lookup_insert_eq. intros [= <-]. set_solver.
  - rewrite lookup_insert_ne by done. intros Hm. apply H in Hm.
    apply elem_of_union. right. apply elem_of_difference. split; [done|].
    rewrite elem_of_singleton. intros [= -> _ ->]. done.
Qed.

Lemma queued_wipe c v : queued v -> queued (wipe c v).
Proof.
  intros H c' a m. cbn. rewrite map_lookup_filter_Some. intros [Hm Hne]. cbn in Hne.
  apply elem_of_filter. split; [done|]. by apply H.
Qed.

(** Every transition of the store keeps the queue covering the artifacts. *)
Lemma execute_queued cmd v : queued v -> queued (v_execute cmd v).2.
Proof.
  intros H. destruct cmd; cbn; unfold v_answering, v_commit_publication, v_remove_artifact, v_requeue, v_evict, v_create_channel;
    try done.
  - destruct (mv_artifacts v !! (c, a)); cbn; auto using queued_bind, queued_put.
  - destruct (mv_artifacts v !! (c, a)) as [m|]; cbn; [|done].
    intros c' a' m' Hm'. cbn in *. apply lookup_delete_Some in Hm' as [Hne Hm'].
    apply elem_of_difference. split; [by apply H|]. rewrite elem_of_singleton. by intros [= -> _ ->].
  - destruct (mv_artifacts v !! (c, a)) as [m|] eqn:E; cbn; [|done]. destruct (eligible_at m =? old); [|done]. by apply queued_requeue.
  - destruct (mv_artifacts v !! (c, a)) as [m|] eqn:E; cbn; [destruct (Z.eqb_spec (eligible_at m) t)|]; cbn.
    + by apply queued_evicted.
    + apply queued_drop; [done|]. intros m' Hm'. congruence.
    + apply queued_drop; [done|]. intros m' Hm'. congruence.
  - destruct (mv_channels v !! channel_id x); done.
  - by apply queued_wipe.
Qed.

Lemma execute_expiries cmd v :
  (forall x, (cmd = CreateChannel x \/ cmd = StoreChannel x) -> 0 <= expiry_seconds x) ->
  expiries_ok v -> expiries_ok (v_execute cmd v).2.
Proof.
  intros Hx H. destruct cmd; cbn; unfold v_answering, v_commit_publication, v_remove_artifact, v_requeue, v_evict,
    v_create_channel; try done.
  - destruct (mv_artifacts v !! (c, a)); cbn; by destruct name as [[]|].
  - by destruct (mv_artifacts v !! (c, a)).
  - destruct (mv_artifacts v !! (c, a)) as [m|]; [|done]. by destruct (eligible_at m =? old).
  - destruct (mv_artifacts v !! (c, a)) as [m|]; [|done]. by destruct (eligible_at m =? t).
  - destruct (mv_channels v !! channel_id x); cbn; [done|]. intros c r. cbn. rewrite lookup_insert_Some. intros [[_ <-]|[_ ?]]; eauto.
  - intros c r. cbn. rewrite lookup_insert_Some. intros [[_ <-]|[_ ?]]; eauto.
  - intros c' r. cbn. rewrite lookup_delete_Some. intros [_ ?]. eauto.
Qed.
End Queue.

(** ** Operations in the world *)

Section Ops.
Context {UL : UlidLib} {ULL : UlidLaws} {HX : HexLib} {HXL : HexLaws} {SH : Sha256Lib}.
Context {ZS : ZstdLib} {ZSL : ZstdLaws} {DH : DefaultHasherLib}.
Context {S : Type} {MS : MetadataStore S} {ML : MetadataLaws S}.
Implicit Types (v : MetaView) (w : World S).

(** The store has a view whose queue covers its artifacts, and the clock reads natural numbers. *)
Definition sound w : Prop := view_inv view_ok w /\ (forall n, 0 <= w_clock w n).

Definition keeps_store (f : World S -> World S) : Prop :=
  forall w, w_db (f w) = w_db w /\ w_clock (f w) = w_clock w.

Lemma sound_of_store w w' : w_db w' = w_db w -> w_clock w' = w_clock w -> sound w -> sound w'.
Proof. intros Hd Hc [(v & Hv & Hok) Hk]. split; [exists v; unfold viewed; by rewrite Hd|by rewrite Hc]. Qed.

Lemma sound_modify f : keeps_store f -> preserves sound (modify f : M (World S) CacheError unit).
Proof. intros Hf. apply preserves_modify. intros w Hw. destruct (Hf w). by eapply sound_of_store. Qed.

Lemma sound_local {A} (m : M (Local SpaceLedger) LocalError A) :
  preserves sound (c_local m : M (World S) CacheError A).
Proof.
  intros w Hw. unfold c_local, raising, in_local, zoom.
  destruct (m (get_local w)) as [[] l]; cbn; by eapply sound_of_store.
Qed.

Lemma sound_now : preserves sound (now : M (World S) CacheError Z).
Proof. intros w Hw. by eapply sound_of_store. Qed.

Lemma v_answering_state {A} (f : A -> response) spec v : (v_answering f spec v).2 = (spec v).2.
Proof. unfold v_answering. by destruct (spec v). Qed.

(** A store operation that is no channel write keeps the world sound. *)
Lemma sound_meta {A} (op : M S MetadataError A) spec (f : A -> response) cmd :
  implements stands_for op spec -> v_execute cmd = v_answering f spec ->
  (forall x, cmd ≠ CreateChannel x /\ cmd ≠ StoreChannel x) ->
  preserves sound (c_meta op).
Proof.
  intros Hop Hcmd Hne w [Hv Hk].
  assert (preserves (view_inv view_ok) (c_meta op)) as HP.
  { apply preserves_raising. eapply in_db_inv; [exact Hop|]. intros v [Hq He].
    rewrite <- (v_answering_state f), <- Hcmd. split; [by apply execute_queued|].
    apply execute_expiries; [|done]. intros x [E|E]; destruct (Hne x); done. }
  specialize (HP w Hv). unfold c_meta, raising, in_db, zoom in *.
  destruct (op (w_db w)) as [[] db]; cbn in *; done.
Qed.

(** Reads answer from the view. *)
Lemma c_meta_ok {A} (op : M S MetadataError A) spec v w x w' :
  implements stands_for op spec -> viewed v w -> c_meta op w = (Ok x, w') ->
  (spec v).1 = Ok x /\ viewed (spec v).2 w' /\ w' = set_db (w_db w') w.
Proof.
  intros H Hv. unfold c_meta, raising. pose proof (in_db_spec op spec v w H Hv) as Hs.
  destruct (in_db op w) as [[y|e] w1]; [|done]. by intros [= <- <-].
Qed.

Ltac meta_step cmd law := eapply (sound_meta _ _ _ cmd); [apply law|reflexivity|done].

Lemma sound_read_channel c : preserves sound (c_meta (ms_channel c)).
Proof. meta_step (ReadChannel c) (channel_law c). Qed.
Lemma sound_read_channels : preserves sound (c_meta ms_channels).
Proof. meta_step ReadChannels channels_law. Qed.
Lemma sound_read_artifact c a : preserves sound (c_meta (ms_artifact c a)).
Proof. meta_step (ReadArtifact c a) (artifact_law c a). Qed.
Lemma sound_read_reference c n : preserves sound (c_meta (ms_reference c n)).
Proof. meta_step (ReadReference c n) (reference_law c n). Qed.
Lemma sound_remove_artifact c a : preserves sound (c_meta (ms_remove_artifact c a)).
Proof. meta_step (RemoveArtifact c a) (remove_artifact_law c a). Qed.
Lemma sound_bind c n x d : preserves sound (c_meta (ms_bind_reference c n x d)).
Proof. meta_step (BindReference c n x d) (bind_reference_law c n x d). Qed.
Lemma sound_delete_reference c n : preserves sound (c_meta (ms_delete_reference c n)).
Proof. meta_step (DeleteReference c n) (delete_reference_law c n). Qed.
Lemma sound_candidates c l : preserves sound (c_meta (ms_reclaim_candidates c l)).
Proof. meta_step (ReclaimCandidates c l) (reclaim_candidates_law c l). Qed.
Lemma sound_commit c a m name d :
  is_u64 (eligible_at m) -> preserves sound (c_meta (ms_commit_publication c a m name d)).
Proof. intros Hm. meta_step (CommitPublication c a m name d) (commit_publication_law c a m name d Hm). Qed.
Lemma sound_requeue c a old new :
  is_u64 old -> is_u64 new -> preserves sound (c_meta (ms_requeue c a old new)).
Proof. intros Ho Hn. meta_step (Requeue c a old new) (requeue_law c a old new Ho Hn). Qed.
Lemma sound_evict c a t : is_u64 t -> preserves sound (c_meta (ms_evict c a t)).
Proof. intros Ht. meta_step (Evict c a t) (evict_law c a t Ht). Qed.
Lemma sound_health : preserves sound (c_meta ms_health).
Proof.
  intros w [Hv Hk]. assert (preserves (view_inv view_ok) (c_meta ms_health)) as HP.
  { apply preserves_raising. eapply in_db_inv; [apply health_law|done]. }
  specialize (HP w Hv). unfold c_meta, raising, in_db, zoom in *.
  destruct (ms_health (w_db w)) as [[] db]; cbn in *; done.
Qed.

Hint Resolve sound_read_channel sound_read_channels sound_read_artifact sound_read_reference sound_remove_artifact
  sound_bind sound_delete_reference sound_candidates sound_local sound_now sound_health : flywheel.

(** The expiry a fence or a channel lookup returns is that of a record of the view. *)
Lemma expiry_nonneg c :
  triple sound (found ← c_meta (ms_channel c);
                match found with
                | Some record => if bool_decide (state record = Active) then mret (expiry_seconds record) else throw MissingChannel
                | None => throw MissingChannel
                end) (fun e w => 0 <= e /\ sound w) (fun _ => sound).
Proof.
  intros w Hw. pose proof (sound_read_channel c w Hw) as HS. destruct Hw as [(v & Hv & Hq & He) Hk].
  unfold mbind, M_bind. destruct (c_meta (ms_channel c) w) as [[found|e] w1] eqn:E; [|done].
  apply (c_meta_ok _ (v_channel c) v) in E as ([= Hf] & _); [|apply channel_law|done].
  destruct found as [r|]; [|done]. case_bool_decide; [|done]. split; [|done]. by eapply He.
Qed.

Lemma fence_sound c :
  triple sound (channel_fence c) (fun e w => 0 <= e /\ sound w) (fun _ => sound).
Proof.
  unfold channel_fence. eapply triple_bind; [by apply sound_modify|]. intros _ w Hw.
  pose proof (expiry_nonneg c w Hw) as H. unfold mbind, M_bind in *.
  destruct (c_meta (ms_channel c) w) as [[[r|]|e] w1]; cbn in *; try done. by case_bool_decide.
Qed.

Lemma now_nonneg : triple sound (now : M (World S) CacheError Z) (fun t w => 0 <= t /\ sound w) (fun _ => sound).
Proof. intros w Hw. split; [apply Hw|]. by apply (sound_now w). Qed.

Lemma deadline_u64 t e : 0 <= t -> 0 <= e -> is_u64 (saturating_add t e).
Proof. unfold is_u64, saturating_add. pose proof u64_max_pos. lia. Qed.

Lemma settle_sound f : preserves sound (settle (S:=S) f).
Proof. by apply sound_modify. Qed.

Lemma commit_published_sound c a staged commit_ expiry r n :
  0 <= expiry -> preserves sound (commit_published c a staged commit_ expiry r n).
Proof.
  intros He. unfold commit_published. eapply triple_bind; [apply now_nonneg|]. intros t. apply triple_pure. intros Ht.
  apply preserves_bind; [apply preserves_try, sound_commit; by apply deadline_u64|].
  intros [created|e]; apply preserves_bind; auto using settle_sound, preserves_ret, preserves_throw.
Qed.

Lemma commit_staged_sound cfg c a staged commit_ : preserves sound (commit_staged cfg c a staged commit_).
Proof.
  unfold commit_staged. eapply triple_bind with (Q' := fun r w => (forall e, r = Ok e -> 0 <= e) /\ sound w).
  { intros w Hw. unfold try. pose proof (fence_sound c w Hw) as HF. destruct (channel_fence c w) as [[e|x] w1].
    - destruct HF. split; [by intros ? [= <-]|done].
    - split; [done|done]. }
  intros [expiry|e]; apply triple_pure; intros He.
  2: { apply preserves_bind; [apply settle_sound|]. intros _. apply preserves_throw. }
  specialize (He expiry eq_refl). apply preserves_bind; [apply sound_local|].
  intros [r|r]; by apply commit_published_sound.
Qed.

Lemma publish_sound cfg name request : preserves sound (publish_or_reject cfg name request).
Proof.
  unfold publish_or_reject. apply preserves_bind; [apply sound_local|]. intros [staged|stream]; [|apply preserves_ret].
  apply preserves_bind; [by apply sound_modify|]. intros _.
  apply preserves_bind.
  { destruct (req_target request) as [a|[n|]]; auto with flywheel. }
  intros [a reference]. apply preserves_bind; [apply commit_staged_sound|]. intros p. apply preserves_ret.
Qed.

Lemma locate_sound cfg c a : preserves sound (locate cfg c a).
Proof.
  unfold locate, locate_local. apply preserves_bind.
  - apply preserves_bind; [apply sound_read_artifact|]. intros [m|]; [|apply preserves_ret].
    apply preserves_bind; [apply preserves_try, sound_local|].
    intros [f|[[[]| | | | | |]| | | |]]; auto with flywheel.
  - intros [l|]; repeat (apply preserves_bind; [by apply sound_modify|intros _]); apply preserves_ret.
Qed.

Lemma bind_sound c n a e l d : preserves sound (bind_reference_with_validators c n a e l d).
Proof.
  unfold bind_reference_with_validators. eapply triple_bind; [apply fence_sound|]. intros x.
  apply triple_pure. intros _. apply preserves_bind; [apply sound_now|]. intros t. apply sound_bind.
Qed.

Lemma cache_delete_reference_sound c n : preserves sound (cache_delete_reference c n).
Proof.
  unfold cache_delete_reference. eapply triple_bind; [apply fence_sound|]. intros x.
  apply triple_pure. intros _. apply sound_delete_reference.
Qed.

Lemma reconcile_sound cfg : preserves sound (reconcile cfg).
Proof.
  unfold reconcile. apply preserves_bind; [apply sound_local|]. intros _.
  apply preserves_bind; [apply sound_local|]. intros orphans. apply preserves_for_each. intros [c a].
  unfold reconcile_one. apply preserves_bind; [apply sound_read_artifact|]. intros [m|]; [apply preserves_ret|].
  apply preserves_bind; [apply sound_read_artifact|]. intros [m|]; [apply preserves_ret|apply sound_local].
Qed.

(** *** Maintenance *)

Definition candidates_u64 (l : list Candidate) : Prop := Forall (fun x => is_u64 (cand_eligible_at x)) l.

Lemma candidates_sound c limit :
  triple sound (c_meta (ms_reclaim_candidates c limit)) (fun l w => candidates_u64 l /\ sound w) (fun _ => sound).
Proof.
  intros w Hw. pose proof (sound_candidates c limit w Hw) as HS. destruct Hw as [(v & Hv & _) _].
  destruct (c_meta (ms_reclaim_candidates c limit) w) as [[l|e] w1] eqn:E; [|done]. split; [|done].
  apply (c_meta_ok _ (v_reclaim_candidates c limit) v) in E as ([= <-] & _); [|apply reclaim_candidates_law|done].
  apply Forall_forall. intros x Hx. assert (x ∈ oldest c v) as Ho by (rewrite <- (take_drop limit); apply elem_of_app; by left).
  apply elem_of_oldest in Ho.
  by eapply view_queue_u64.
Qed.

Lemma reclaim_one_sound cfg c x b :
  is_u64 (cand_eligible_at x) -> preserves sound (reclaim_one cfg c x b).
Proof.
  intros Hx. unfold reclaim_one. apply preserves_bind; [apply sound_read_artifact|]. intros found.
  apply preserves_bind; [destruct found as [m|]; [case_bool|]; auto with flywheel|]. intros _.
  apply preserves_bind; [by apply sound_evict|]. intros ev. apply preserves_ret.
Qed.

Lemma process_sound cfg mode_ t expiry c x b :
  0 <= t -> 0 <= expiry -> is_u64 (cand_eligible_at x) -> preserves sound (process_candidate cfg mode_ t expiry c x b).
Proof.
  intros Ht He Hx. unfold process_candidate. case_bool; [apply preserves_ret|]. case_bool; [apply preserves_ret|].
  apply preserves_bind; [apply preserves_get|]. intros w. case_bool.
  - apply preserves_bind; [apply sound_requeue; [done|by apply deadline_u64]|]. intros _.
    apply preserves_bind; [by apply sound_modify|]. intros _. apply preserves_ret.
  - apply preserves_bind; [by apply reclaim_one_sound|]. intros b'. apply preserves_ret.
Qed.

Lemma candidates_loop_sound cfg mode_ t expiry c l b :
  0 <= t -> 0 <= expiry -> candidates_u64 l -> preserves sound (candidates_loop cfg mode_ t expiry c l b).
Proof.
  intros Ht He Hl. revert b. induction Hl as [|x l Hx Hl IH]; intros b; [apply preserves_ret|]. cbn.
  apply preserves_bind; [by apply process_sound|]. intros [b' []]; auto with flywheel.
Qed.

Lemma channels_loop_sound cfg mode_ t channels b :
  0 <= t -> preserves sound (channels_loop cfg mode_ t channels b).
Proof.
  intros Ht. revert b. induction channels as [|c channels IH]; intros b; [apply preserves_ret|]. cbn.
  case_bool; [apply preserves_ret|]. eapply triple_bind; [apply expiry_nonneg|]. intros expiry.
  apply triple_pure. intros He. eapply triple_bind; [apply candidates_sound|]. intros l.
  apply triple_pure. intros Hl. apply preserves_bind; [by apply candidates_loop_sound|].
  intros [b' []]; [apply IH|apply preserves_ret].
Qed.

Lemma maintenance_sound cfg observation limit : preserves sound (run_maintenance_once cfg observation limit).
Proof.
  unfold run_maintenance_once. apply preserves_bind; [by apply sound_modify|]. intros _.
  apply preserves_bind; [by apply sound_modify|]. intros _. apply preserves_bind; [apply preserves_get|]. intros w0.
  destruct (mode (w_space w0)) as [mode_ space]. apply preserves_bind; [by apply sound_modify|]. intros _.
  eapply triple_bind; [apply now_nonneg|]. intros t. apply triple_pure. intros Ht.
  apply preserves_bind.
  { unfold active_channels. apply preserves_bind; [apply sound_read_channels|]. intros l. apply preserves_ret. }
  intros l. apply preserves_bind; [apply preserves_get|]. intros w1.
  apply preserves_bind.
  { destruct l; [apply preserves_ret|]. apply preserves_bind; [by apply sound_modify|]. intros _. apply preserves_ret. }
  intros l'. apply preserves_bind; [by apply channels_loop_sound|]. intros b.
  apply preserves_bind; [by apply sound_modify|]. intros _. apply preserves_ret.
Qed.
(** *** The disk and the ledger *)

(** Nothing but [rest] bytes is reserved, and every published file is intact. *)
Definition local_ok (rest : Z) (files : ArtifactFiles) (l : Local SpaceLedger) : Prop :=
  holds (l_space l) rest /\ intact files (nodes (l_fs l)).

Definition disk_ok (rest : Z) (files : ArtifactFiles) w : Prop := local_ok rest files (get_local w).

Lemma disk_ok_local {A} rest files (m : M (Local SpaceLedger) LocalError A) :
  preserves (local_ok rest files) m -> preserves (disk_ok rest files) (c_local m : M (World S) CacheError A).
Proof.
  intros Hm w Hw. unfold c_local, raising, in_local, zoom. specialize (Hm (get_local w) Hw).
  destruct (m (get_local w)) as [[] l]; cbn; unfold disk_ok, get_local, local_ok in *; cbn; done.
Qed.

Lemma c_meta_disk {A} (I : FS -> SpaceLedger -> Prop) (m : M S MetadataError A) :
  preserves (fun w => I (w_fs w) (w_space w)) (c_meta m).
Proof.
  intros w Hw. unfold c_meta, raising, in_db, zoom. by destruct (m (w_db w)) as [[] db].
Qed.

Lemma disk_ok_meta {A} rest files (m : M S MetadataError A) : preserves (disk_ok rest files) (c_meta m).
Proof. apply (c_meta_disk (fun fs sp => local_ok rest files {| l_fs := fs; l_space := sp |})). Qed.

Lemma disk_ok_modify rest files f :
  (forall w, w_fs (f w) = w_fs w /\ w_space (f w) = w_space w) ->
  preserves (disk_ok rest files) (modify f : M (World S) CacheError unit).
Proof.
  intros Hf. apply preserves_modify. intros w Hw. destruct (Hf w) as [E1 E2].
  unfold disk_ok, get_local. rewrite E1, E2. exact Hw.
Qed.

Lemma disk_ok_now rest files : preserves (disk_ok rest files) (now : M (World S) CacheError Z).
Proof. intros w Hw. exact Hw. Qed.

Lemma fence_disk (I : FS -> SpaceLedger -> Prop) c :
  preserves (fun w => I (w_fs w) (w_space w)) (channel_fence (S:=S) c).
Proof.
  unfold channel_fence. apply preserves_bind; [by apply preserves_modify|]. intros _.
  apply preserves_bind; [apply c_meta_disk|]. intros [r|]; [case_bool_decide|]; auto with flywheel.
Qed.

Lemma local_ok_fs {A} rest files (m : M FS io_error A) :
  preserves (fun fs => intact files (nodes fs)) m ->
  preserves (local_ok rest files) (l_fs_op m : M (Local SpaceLedger) LocalError A).
Proof.
  intros Hm l [Hh Hi]. unfold l_fs_op, raising, zoom. specialize (Hm (l_fs l) Hi).
  by destruct (m (l_fs l)) as [[] fs].
Qed.

Lemma intact_delete (files : ArtifactFiles) (p : path) (t : tree) : intact files t -> intact files (delete p t).
Proof. apply intact_mono. intros c a x. rewrite lookup_delete_Some. tauto. Qed.

Lemma remove_local_ok rest files c a : preserves (local_ok rest files) (remove files c a).
Proof.
  unfold remove. apply preserves_bind.
  - apply preserves_try, local_ok_fs, remove_file_preserves. intros. by apply intact_delete.
  - intros [[]|[[]| | | | | |]]; auto with flywheel.
Qed.

(** Reading the disk. *)

Definition of_tree (J : Local SpaceLedger -> Prop) : Prop :=
  forall l fs, J l -> nodes fs = nodes (l_fs l) -> J {| l_fs := fs; l_space := l_space l |}.

Lemma local_ok_of_tree rest files : of_tree (local_ok rest files).
Proof. intros l fs [Hh Hi] E. split; [done|]. cbn. by rewrite E. Qed.

Lemma reading {A} J (m : M FS io_error A) :
  of_tree J -> (forall I, preserves (fun fs => I (nodes fs)) m) ->
  preserves J (l_fs_op m : M (Local SpaceLedger) LocalError A).
Proof.
  intros HJ Hm l Hl. unfold l_fs_op, raising, zoom. specialize (Hm (fun t => t = nodes (l_fs l)) (l_fs l) eq_refl).
  destruct (m (l_fs l)) as [[] fs]; cbn in *; by apply HJ.
Qed.

Lemma read_dir_or_none_ok J p : of_tree J -> preserves J (read_dir_or_none p).
Proof.
  intros HJ. unfold read_dir_or_none.
  apply preserves_bind; [apply preserves_try, reading; [done|intros I; apply read_dir_preserves]|].
  intros [l|[[]| | | | | |]]; auto with flywheel.
Qed.

Lemma touch_local_ok J : of_tree J -> preserves J (l_fs_op touch : M _ LocalError unit).
Proof. intros HJ. apply reading; [done|]. intros I. apply touch_preserves. Qed.

Lemma for_entries_ok J body entries :
  of_tree J -> (forall e, preserves J (body e)) -> preserves J (for_entries body entries).
Proof.
  intros HJ Hb. unfold for_entries. apply preserves_bind; [|intros _; by apply touch_local_ok].
  apply preserves_for_each. intros e. apply preserves_bind; [by apply touch_local_ok|]. auto.
Qed.

Lemma remove_temporary_files_ok J files : of_tree J ->
  (forall x n, preserves J (l_fs_op (remove_file ((root files ++ [x; lit "tmp"]) ++ [n])) : M _ LocalError unit)) ->
  preserves J (remove_temporary_files files).
Proof.
  intros HJ Hrm. unfold remove_temporary_files. apply preserves_bind; [by apply read_dir_or_none_ok|].
  intros [l|]; [|apply preserves_ret]. apply for_entries_ok; [done|]. intros channel.
  apply preserves_bind; [by apply read_dir_or_none_ok|]. intros [l'|]; [|apply preserves_ret].
  apply for_entries_ok; [done|]. intros file. apply preserves_bind; [by apply touch_local_ok|]. intros _.
  destruct file.2; [apply preserves_ret|]. apply Hrm.
Qed.

Lemma scan_entries_ok {A} J body entries (found : list A) :
  of_tree J -> (forall e f, preserves J (body e f)) -> preserves J (scan_entries body entries found).
Proof.
  intros HJ Hb. revert found. induction entries as [|e entries IH]; intros found; cbn.
  - apply preserves_bind; [by apply touch_local_ok|]. intros _. apply preserves_ret.
  - apply preserves_bind; [by apply touch_local_ok|]. intros _. apply preserves_bind; [apply Hb|].
    intros [found' []]; [apply preserves_ret|apply IH].
Qed.

Lemma scan_step_ok {A} J limit want body e (found : list A) :
  of_tree J -> (forall n f, preserves J (body n f)) -> preserves J (scan_step limit want body e found).
Proof.
  intros HJ Hb. unfold scan_step. case_bool; [apply preserves_ret|].
  apply preserves_bind; [by apply touch_local_ok|]. intros _. case_bool; [apply Hb|apply preserves_ret].
Qed.

Lemma orphan_scan_ok J files limit : of_tree J -> preserves J (orphan_scan files limit).
Proof.
  intros HJ. assert (forall p, preserves J (l_fs_op (read_dir p) : M _ LocalError _)) as Hrd.
  { intros p. apply reading; [done|]. intros I. apply read_dir_preserves. }
  unfold orphan_scan. apply preserves_bind; [by apply read_dir_or_none_ok|]. intros [l|]; [|apply preserves_ret].
  apply preserves_bind; [|intros [found stop]; apply preserves_ret].
  apply scan_entries_ok; [done|]. intros e f. apply scan_step_ok; [done|]. intros component found.
  apply preserves_bind; [apply preserves_lift|]. intros channel.
  apply preserves_bind; [|intros found'; apply preserves_ret].
  unfold scan_channel_files. apply preserves_bind; [by apply read_dir_or_none_ok|].
  intros [l1|]; [|apply preserves_ret]. apply preserves_bind; [|intros [found' stop]; apply preserves_ret].
  apply scan_entries_ok; [done|]. intros e1 f1. apply scan_step_ok; [done|]. intros n1 g1.
  apply preserves_bind; [apply Hrd|]. intros l2.
  apply scan_entries_ok; [done|]. intros e2 f2. apply scan_step_ok; [done|]. intros n2 g2.
  apply preserves_bind; [apply Hrd|]. intros l3.
  apply scan_entries_ok; [done|]. intros e3 f3. apply scan_step_ok; [done|]. intros n3 g3. apply preserves_ret.
Qed.

Lemma discard_local_ok rest files r l :
  0 <= rest -> 0 <= outstanding r -> holds (l_space l) (rest + outstanding r) -> intact files (nodes (l_fs l)) ->
  local_ok rest files (discard r l).
Proof.
  intros Hr Ho Hh Hi. split; [by apply discard_holds|].
  apply (discard_tree (intact files)); [|done]. intros p t _. apply intact_delete.
Qed.

(** A staged body on its way to publication. *)
Record staged_in (rest : Z) (files : ArtifactFiles) (artifact : ArtifactId) (staged : StagedArtifact)
    (content : bytes) (fs : FS) (space : SpaceLedger) : Prop := {
  si_holds : holds space (rest + outstanding (staged_reservation staged));
  si_intact : intact files (nodes fs);
  si_file : nodes fs !! staged_path staged = Some (File content);
  si_content : staged_digest staged = digest artifact -> intact_content artifact content
}.

Lemma commit_published_disk rest files c a staged commit_ expiry r n :
  0 <= rest -> 0 <= n <= outstanding r ->
  triple (disk_ok (rest + outstanding r) files) (commit_published c a staged commit_ expiry r n)
    (fun _ => disk_ok rest files) (fun _ => disk_ok rest files).
Proof.
  intros Hr Hn w Hw. unfold commit_published, mbind, M_bind, now, try.
  set (w1 := set_ticks _ w). assert (disk_ok (rest + outstanding r) files w1) as Hw1 by exact Hw.
  pose proof (disk_ok_meta (rest + outstanding r) files (ms_commit_publication c a
    {| content_len := staged_len staged; content_type := commit_content_type commit_; created_at := w_clock w (w_ticks w);
       eligible_at := saturating_add (w_clock w (w_ticks w)) expiry; stored_len := staged_stored_len staged;
       encoding := staged_encoding staged |} (commit_reference commit_) (commit_durability commit_)) w1 Hw1) as H.
  destruct (c_meta _ w1) as [[created|e] w2]; destruct H as [Hh Hi]; cbn.
  - split; [|done]. exact (proj1 (Reservation_commit_spec rest n r (w_space w2) Hr Hn Hh)).
  - apply discard_local_ok; [done|lia|done|done].
Qed.

Lemma publish_disk rest cfg c a staged d content :
  0 <= rest -> 0 <= outstanding (staged_reservation staged) ->
  staged_path staged ≠ artifact_path (cache_files cfg) c a ->
  triple (fun w => staged_in rest (cache_files cfg) a staged content (w_fs w) (w_space w))
    (c_local (publish (cache_files cfg) c a staged d) : M (World S) CacheError _)
    (fun outcome => disk_ok (rest + outstanding (match outcome with Created r | Existing r => r end)) (cache_files cfg))
    (fun _ => disk_ok rest (cache_files cfg)).
Proof.
  intros Hr Ho Hne w [Hh Hi Hf Hc]. unfold c_local, raising, in_local, zoom.
  pose proof (publish_spec rest (cache_files cfg) c a staged d content (get_local w) Hr Ho Hh Hf Hne) as HP.
  pose proof (publish_intact (cache_files cfg) c a staged d content (get_local w) Hi Hf Hne Hc) as HI.
  destruct (publish _ _ _ _ _ (get_local w)) as [[outcome|e] l]; cbn in *; [|done].
  destruct HP as (_ & _ & Hh' & _ & Hout). split; [|done].
  destruct outcome as [r|r]; destruct Hout as (_ & _ & E); by rewrite E.
Qed.

Lemma publish_outstanding cfg c a staged d outcome w w' :
  c_local (publish (cache_files cfg) c a staged d) w = (Ok outcome, w' : World S) ->
  outstanding (match outcome with Created r | Existing r => r end) = outstanding (staged_reservation staged).
Proof.
  unfold c_local, raising, in_local, zoom, publish.
  destruct (publish_reserved _ _ _ _ _ _ _) as [[created|e] s] eqn:E; [|done].
  intros [= <- _]. transitivity (outstanding (s_res s)); [by destruct created|].
  pose proof (publish_reserved_res (cache_files cfg) c a (staged_path staged) (staged_digest staged) d
    (outstanding (staged_reservation staged)) (hold (staged_reservation staged) (get_local w)) eq_refl) as H. by rewrite E in H.
Qed.

Lemma commit_staged_disk rest cfg c a staged commit_ content :
  0 <= rest -> 0 <= staged_stored_len staged <= outstanding (staged_reservation staged) ->
  staged_path staged ≠ artifact_path (cache_files cfg) c a ->
  triple (fun w => staged_in rest (cache_files cfg) a staged content (w_fs w) (w_space w))
    (commit_staged cfg c a staged commit_)
    (fun _ => disk_ok rest (cache_files cfg)) (fun _ => disk_ok rest (cache_files cfg)).
Proof.
  intros Hr Hst Hne. unfold commit_staged.
  eapply triple_bind; [apply triple_try, (fence_disk (staged_in rest (cache_files cfg) a staged content))|].
  intros [expiry|e].
  2: { intros w [Hh Hi Hf Hc]. cbn. apply discard_local_ok; [done|lia|done|done]. }
  intros w Hw. unfold mbind, M_bind.
  pose proof (publish_disk rest cfg c a staged (commit_durability commit_) content Hr ltac:(lia) Hne w Hw) as HP.
  destruct (c_local _ w) as [[outcome|e] w1] eqn:E; [|done]. apply publish_outstanding in E.
  destruct outcome as [r|r]; apply (commit_published_disk rest); try done; lia.
Qed.

Lemma publish_request_disk rest cfg name request :
  0 <= rest -> files_wf (cache_files cfg) -> request_wf (max_upload_bytes cfg) (req_content_length request) ->
  preserves (disk_ok rest (cache_files cfg)) (publish_or_reject cfg name request).
Proof.
  intros Hr Hf Hq w [Hh Hi]. unfold publish_or_reject, mbind at 1, M_bind at 1, c_local, raising, in_local, zoom.
  pose proof (stage_spec rest (cache_files cfg) (req_channel request) name (req_stream request) (max_upload_bytes cfg)
    (req_content_length request) (req_durability request) (req_encoding request) (get_local w) Hr Hf Hq Hh) as HS.
  destruct (stage _ _ _ _ _ _ _ _ (get_local w)) as [[[staged|stream]|e] l]; destruct HS as [HK HS]; cbn.
  - destruct HS as [Hh' (body & content & Hs)].
    assert (forall a, staged_in rest (cache_files cfg) a staged content (l_fs l) (l_space l)) as Hin.
    { intros a. split; [done|by eapply intact_keeps|apply Hs|]. by eapply staged_intact. }
    assert (forall c a, staged_path staged ≠ artifact_path (cache_files cfg) c a) as Hne.
    { intros c a. rewrite (so_path _ _ _ _ _ _ _ _ _ _ Hs). apply not_eq_sym, artifact_not_temporary. }
    assert (0 <= staged_stored_len staged <= outstanding (staged_reservation staged)) as Hlen.
    { pose proof (so_covered _ _ _ _ _ _ _ _ _ _ Hs). pose proof (so_stored_len _ _ _ _ _ _ _ _ _ _ Hs). lia. }
    unfold mbind, M_bind, on_metrics, modify.
    destruct (req_target request) as [a|[n|]]; cbn.
    + pose proof (commit_staged_disk rest cfg (req_channel request) a staged
        {| commit_content_type := req_content_type request; commit_reference := None;
           commit_durability := req_durability request |} content Hr Hlen (Hne _ _)) as HC.
      match goal with |- context [commit_staged cfg _ a staged _ ?w1] => specialize (HC w1 (Hin a)) end.
      by destruct (commit_staged _ _ _ _ _ _) as [[p|e] w2].
    + unfold now. cbn. match goal with |- context [commit_staged cfg ?c ?a staged ?cm ?w1] =>
        pose proof (commit_staged_disk rest cfg c a staged cm content Hr Hlen (Hne _ _) w1 (Hin a)) as HC end.
      by destruct (commit_staged _ _ _ _ _ _) as [[p|e] w2].
    + match goal with |- context [commit_staged cfg ?c ?a staged ?cm ?w1] =>
        pose proof (commit_staged_disk rest cfg c a staged cm content Hr Hlen (Hne _ _) w1 (Hin a)) as HC end.
      by destruct (commit_staged _ _ _ _ _ _) as [[p|e] w2].
  - destruct HS as [-> _]. by split.
  - split; [done|]. by eapply intact_keeps.
Qed.
Lemma locate_disk rest cfg c a : preserves (disk_ok rest (cache_files cfg)) (locate cfg c a).
Proof.
  assert (preserves (local_ok rest (cache_files cfg)) (l_fs_op (open_read (artifact_path (cache_files cfg) c a)) : M _ LocalError _)) as Ho.
  { apply local_ok_fs, syscall_preserves; [|done]. intros t Ht. by repeat case_match. }
  unfold locate, locate_local. apply preserves_bind.
  - apply preserves_bind; [apply disk_ok_meta|]. intros [m|]; [|apply preserves_ret].
    apply preserves_bind; [by apply preserves_try, disk_ok_local|].
    intros [f|[[[]| | | | | |]| | | |]]; auto with flywheel.
    apply preserves_bind; [apply disk_ok_meta|]. intros _. apply preserves_ret.
  - intros [l|]; repeat (apply preserves_bind; [by apply disk_ok_modify|intros _]); apply preserves_ret.
Qed.

Lemma fence_disk_ok rest files c : preserves (disk_ok rest files) (channel_fence (S:=S) c).
Proof. apply (fence_disk (fun fs sp => local_ok rest files {| l_fs := fs; l_space := sp |})). Qed.

Lemma bind_disk rest files c n a e l d :
  preserves (disk_ok rest files) (bind_reference_with_validators (S:=S) c n a e l d).
Proof.
  unfold bind_reference_with_validators. apply preserves_bind; [apply fence_disk_ok|]. intros x.
  apply preserves_bind; [apply disk_ok_now|]. intros t. apply disk_ok_meta.
Qed.

Lemma cache_delete_reference_disk rest files c n : preserves (disk_ok rest files) (cache_delete_reference (S:=S) c n).
Proof.
  unfold cache_delete_reference. apply preserves_bind; [apply fence_disk_ok|]. intros x. apply disk_ok_meta.
Qed.

Lemma reconcile_disk rest cfg : preserves (disk_ok rest (cache_files cfg)) (reconcile (S:=S) cfg).
Proof.
  unfold reconcile. apply preserves_bind; [apply disk_ok_local, remove_temporary_files_ok|].
  { apply local_ok_of_tree. }
  { intros x n. apply local_ok_fs, remove_file_preserves. intros. by apply intact_delete. }
  intros _. apply preserves_bind; [apply disk_ok_local, orphan_scan_ok, local_ok_of_tree|]. intros orphans.
  apply preserves_for_each. intros [c a]. unfold reconcile_one.
  apply preserves_bind; [apply disk_ok_meta|]. intros [m|]; [apply preserves_ret|].
  apply preserves_bind; [apply disk_ok_meta|]. intros [m|]; [apply preserves_ret|].
  apply disk_ok_local, remove_local_ok.
Qed.

(** A pass reads and writes the store, removes bodies and counts; what these keep it keeps. *)
Lemma channels_loop_keeps (I : World S -> Prop) cfg mode_ t channels b :
  (forall A (m : M S MetadataError A), preserves I (c_meta m)) ->
  (forall c a, preserves I (c_local (remove (cache_files cfg) c a))) ->
  preserves I (on_metrics metric_requeued : M (World S) CacheError unit) ->
  preserves I (channels_loop (S:=S) cfg mode_ t channels b).
Proof.
  intros Hmeta Hremove Hmetrics.
  assert (forall c x b, preserves I (reclaim_one (S:=S) cfg c x b)) as Hre.
  { intros c x b0. unfold reclaim_one. apply preserves_bind; [apply Hmeta|]. intros found. apply preserves_bind.
    { destruct found as [m|]; [case_bool|]; try apply preserves_ret. apply Hremove. }
    intros _. apply preserves_bind; [apply Hmeta|]. intros ev. apply preserves_ret. }
  assert (forall e c l b, preserves I (candidates_loop (S:=S) cfg mode_ t e c l b)) as Hl.
  { intros e c l. induction l as [|x l IH]; intros b0; [apply preserves_ret|]. cbn. apply preserves_bind.
    - unfold process_candidate. case_bool; [apply preserves_ret|]. case_bool; [apply preserves_ret|].
      apply preserves_bind; [apply preserves_get|]. intros w. case_bool.
      + apply preserves_bind; [apply Hmeta|]. intros _. apply preserves_bind; [apply Hmetrics|]. intros _. apply preserves_ret.
      + apply preserves_bind; [apply Hre|]. intros b1. apply preserves_ret.
    - intros [b1 []]; auto with flywheel. }
  revert b. induction channels as [|c channels IH]; intros b; [apply preserves_ret|]. cbn.
  case_bool; [apply preserves_ret|]. apply preserves_bind.
  { unfold channel_expiry. apply preserves_bind; [apply Hmeta|]. intros [r|]; [case_bool_decide|]; auto with flywheel. }
  intros e. apply preserves_bind; [apply Hmeta|]. intros l. apply preserves_bind; [apply Hl|].
  intros [b1 []]; auto with flywheel.
Qed.

Lemma channels_loop_disk rest cfg mode_ t channels b :
  preserves (disk_ok rest (cache_files cfg)) (channels_loop (S:=S) cfg mode_ t channels b).
Proof.
  apply channels_loop_keeps; [intros; apply disk_ok_meta|intros; apply disk_ok_local, remove_local_ok|by apply disk_ok_modify].
Qed.

Lemma remove_space files c a sp : preserves (fun w => w_space w = sp) (c_local (S:=S) (remove files c a)).
Proof.
  intros w Hw. unfold c_local, raising, in_local, zoom, remove, mbind, M_bind, try, l_fs_op, raising, zoom.
  destruct (remove_file _ _) as [[[]|io] fs]; [done|]. by destruct io.
Qed.

Lemma holds_refresh rest observation (l : SpaceLedger) :
  (forall x, observation = Some x -> is_u64 x) -> holds l rest -> holds (refresh observation l) rest.
Proof.
  intros Ho [Hl Hr]. split; [|by destruct observation].
  apply (ledger_step_wf (CallRefresh observation)); [|done]. destruct observation as [x|]; [by apply Ho|done].
Qed.

Lemma holds_mode rest (l : SpaceLedger) : holds l rest -> holds (mode l).2 rest.
Proof.
  intros [Hl Hr]. split; [by apply (ledger_step_wf CallMode)|]. unfold mode. by repeat case_match.
Qed.

Lemma maintenance_disk rest cfg observation limit :
  (forall x, observation = Some x -> is_u64 x) ->
  preserves (disk_ok rest (cache_files cfg)) (run_maintenance_once (S:=S) cfg observation limit).
Proof.
  intros Ho. unfold run_maintenance_once. apply preserves_bind.
  { apply preserves_modify. intros w [Hh Hi]. split; [by apply holds_refresh|done]. }
  intros _. apply preserves_bind; [by apply disk_ok_modify|]. intros _.
  eapply triple_bind with (Q' := fun w0 w => w0 = w /\ disk_ok rest (cache_files cfg) w).
  { intros w Hw. done. }
  intros w0. destruct (mode (w_space w0)) as [mode_ space] eqn:Em.
  eapply triple_bind with (Q' := fun _ => disk_ok rest (cache_files cfg)).
  { intros w [-> [Hh Hi]]. split; [|done]. cbn. apply holds_mode in Hh. cbn in Hh. by rewrite Em in Hh. }
  intros _. apply preserves_bind; [apply disk_ok_now|]. intros t.
  apply preserves_bind.
  { unfold active_channels. apply preserves_bind; [apply disk_ok_meta|]. intros l. apply preserves_ret. }
  intros l. apply preserves_bind; [apply preserves_get|]. intros w1.
  apply preserves_bind.
  { destruct l; [apply preserves_ret|]. apply preserves_bind; [by apply disk_ok_modify|]. intros _. apply preserves_ret. }
  intros l'. apply preserves_bind; [apply channels_loop_disk|]. intros b.
  apply preserves_bind; [by apply disk_ok_modify|]. intros _. apply preserves_ret.
Qed.
End Ops.
