(* ===== verification/CacheConsistency.v ===== *)
(** * Metadata and files agree

    When nothing fails, every artifact row has its file and the row describes it, every published
    file has its row, and so what is published can be located and is what was published. *)

From S2P Require Import Prelude Externals Domain Metadata MetadataView MetadataRefinement MetadataStore Space RecentUse Filesystem ArtifactFiles FilesLemmas World ChannelLemmas Cache CacheLemmas.

Section Paths.
Context {UL : UlidLib} {ULL : UlidLaws} {HX : HexLib} {HXL : HexLaws} {SH : Sha256Lib}.
Context {ZS : ZstdLib} {ZSL : ZstdLaws} {R : Type} {RS : Reserver R} {RL : ReserverLaws R}.
Implicit Types (t : tree) (files : ArtifactFiles).

(** The digest paths of [t] are those of [t0]. *)
Definition same_artifacts files t0 t : Prop :=
  forall c a, t !! artifact_path files c a = t0 !! artifact_path files c a.

(** The same, one artifact apart. *)
Definition others_same files c a t0 t : Prop :=
  forall c' a', (c', a') ≠ (c, a) -> t !! artifact_path files c' a' = t0 !! artifact_path files c' a'.

Lemma artifact_path_length files c a : length (artifact_path files c a) = (length (root files) + 5)%nat.
Proof. unfold artifact_path, channel_dir. rewrite !length_app. cbn. lia. Qed.

Lemma ancestors_length (p q : path) : q ∈ ancestors p -> (length q <= length p)%nat.
Proof. intros [[r ->] _]%elem_of_ancestors. rewrite length_app. lia. Qed.

Lemma make_dirs_artifact files c a ps t (p : path) :
  ps ⊆ ancestors p -> (length p < length (root files) + 5)%nat ->
  fold_left make_dir ps t !! artifact_path files c a = t !! artifact_path files c a.
Proof.
  intros Hps Hp. destruct (lookup_make_dirs ps t (artifact_path files c a)) as [|(Hin & _)]; [done|].
  apply Hps, ancestors_length in Hin. rewrite artifact_path_length in Hin. lia.
Qed.

Lemma same_artifacts_closed files c n t0 :
  staging_closed (same_artifacts files t0) (channel_dir files c ++ [lit "tmp"]) (temporary_path files c n).
Proof.
  split.
  - intros ps t Hps Ht c' a'. rewrite (make_dirs_artifact _ _ _ _ _ _ Hps); [apply Ht|].
    unfold channel_dir. rewrite !length_app. cbn. lia.
  - intros t Ht c' a'. rewrite lookup_insert_ne; [apply Ht|]. apply not_eq_sym, artifact_not_temporary.
  - intros x t Ht c' a'. rewrite lookup_alter_ne; [apply Ht|]. apply not_eq_sym, artifact_not_temporary.
Qed.

Lemma stage_same_artifacts files c n stream max_bytes cl d e (w : Local R) staged w' :
  stage files c n stream max_bytes cl d e w = (Ok (Ready staged), w') ->
  same_artifacts files (nodes (l_fs w)) (nodes (l_fs w')).
Proof.
  unfold stage. set (initial := match cl with Some _ => _ | None => _ end).
  pose proof (reserve_fs initial (hold Reservation_new w)) as Hfs.
  destruct (reserve initial (hold Reservation_new w)) as [[[]|] s]; try done. cbn in Hfs.
  pose proof (stage_reserved_tree _ files c n stream max_bytes d e (same_artifacts_closed files c n (nodes (l_fs w))) s) as H.
  destruct (stage_reserved _ _ _ _ _ _ _ s) as [[[[[q dg] len] stored]|er] s']; [|done].
  intros [= _ <-]. cbn. apply H. by rewrite Hfs.
Qed.

(** What a property of the tree needs to survive a publication. *)
Record publication_closed (I : tree -> Prop) files c a (p : path) : Prop := {
  pc_dirs ps t q : ps ⊆ ancestors q -> (length q < length (root files) + 5)%nat -> I t -> I (fold_left make_dir ps t);
  pc_remove t : I t -> I (delete p t);
  pc_rename content t : I t -> I (<[artifact_path files c a := File content]> (delete p t))
}.

Lemma artifact_parent_length files c a : (length (parent (artifact_path files c a)) < length (root files) + 5)%nat.
Proof.
  unfold artifact_path.
  change [lit "sha256"; take 2 (Digest_to_string (digest a)); take 2 (drop 2 (Digest_to_string (digest a))); Digest_to_string (digest a)]
    with ([lit "sha256"; take 2 (Digest_to_string (digest a)); take 2 (drop 2 (Digest_to_string (digest a)))] ++ [Digest_to_string (digest a)]).
  rewrite app_assoc, parent_app. unfold channel_dir. rewrite !length_app. cbn. lia.
Qed.

Lemma publish_reserved_tree I files c a p dg d : publication_closed I files c a p ->
  preserves (fun s : Staging R => I (nodes (s_fs s))) (publish_reserved files c a p dg d).
Proof.
  intros HI. assert (preserves (fun s : Staging R => I (nodes (s_fs s))) (fs_op (remove_file p))) as Hrm.
  { apply (fs_op_tree I), remove_file_preserves, (pc_remove _ _ _ _ _ HI). }
  assert (forall f, preserves (fun s : Staging R => I (nodes (s_fs s))) (on_res f)) as Hres by (intros f; by apply on_res_preserves).
  unfold publish_reserved. case_decide; [|apply preserves_throw]. apply preserves_bind.
  { apply (fs_op_tree I), create_dir_all_preserves. intros ps t Hps. eapply (pc_dirs _ _ _ _ _ HI); [exact Hps|apply artifact_parent_length]. }
  intros _. apply preserves_bind; [apply (fs_op_tree I), try_exists_preserves|]. intros [|].
  - apply preserves_bind; [apply Hrm|]. intros _. apply preserves_bind; [apply Hres|]. intros _. apply preserves_ret.
  - apply preserves_bind; [apply preserves_try, (fs_op_tree I), rename_preserves; intros x t Ht _; by apply (pc_rename _ _ _ _ _ HI)|].
    intros [[]|[[]| | | | | |]]; auto with flywheel; repeat (apply preserves_bind; [|intros _]);
      destruct d; auto using preserves_ret; apply (fs_op_tree I), touch_preserves.
Qed.

(** A publication under [c], [a] leaves the other artifacts alone, and puts nothing but a file there. *)
Definition published_at files c a t0 t : Prop :=
  others_same files c a t0 t
  /\ (t !! artifact_path files c a = t0 !! artifact_path files c a \/ exists content, t !! artifact_path files c a = Some (File content)).

Lemma published_at_closed files c a c0 n0 t0 : publication_closed (published_at files c a t0) files c a (temporary_path files c0 n0).
Proof.
  split.
  - intros ps t q Hps Hq [Ho Ht]. split.
    + intros c' a' Hne. rewrite (make_dirs_artifact _ _ _ _ _ _ Hps Hq). by apply Ho.
    + by rewrite (make_dirs_artifact _ _ _ _ _ _ Hps Hq).
  - intros t [Ho Ht]. split.
    + intros c' a' Hne. rewrite lookup_delete_ne; [by apply Ho|apply not_eq_sym, artifact_not_temporary].
    + rewrite lookup_delete_ne; [done|apply not_eq_sym, artifact_not_temporary].
  - intros content t [Ho Ht]. split.
    + intros c' a' Hne. rewrite lookup_insert_ne, lookup_delete_ne; [by apply Ho|apply not_eq_sym, artifact_not_temporary|].
      intros E. apply artifact_path_inj in E as [-> ->]. done.
    + right. exists content. by rewrite lookup_insert_eq.
Qed.

Lemma publish_others files c a staged d (w : Local R) outcome w' c0 n0 :
  staged_path staged = temporary_path files c0 n0 ->
  publish files c a staged d w = (Ok outcome, w') ->
  others_same files c a (nodes (l_fs w)) (nodes (l_fs w')).
Proof.
  intros Hp. unfold publish. rewrite Hp.
  pose proof (publish_reserved_tree _ files c a _ (staged_digest staged) d (published_at_closed files c a c0 n0 (nodes (l_fs w)))
    (hold (staged_reservation staged) w)) as HP.
  destruct (publish_reserved _ _ _ _ _ _ _) as [[created|e] s]; [|done]. intros [= _ <-]. apply HP. split; [done|by left].
Qed.
End Paths.

Section Consistency.
Context {UL : UlidLib} {ULL : UlidLaws} {HX : HexLib} {HXL : HexLaws} {SH : Sha256Lib}.
Context {ZS : ZstdLib} {ZSL : ZstdLaws} {DH : DefaultHasherLib}.
Context {S : Type} {MS : MetadataStore S} {ML : MetadataLaws S}.
Implicit Types (v : MetaView) (w : World S) (t : tree).

(** The row tells the truth about the file: how it is encoded, both lengths, and the digest of the
    decoded bytes. *)
Definition described (a : ArtifactId) (m : ArtifactMetadata) (content : bytes) : Prop :=
  exists body, stored_as (encoding m) content body /\ sha256 body = digest_array (digest a)
    /\ content_len m = Z.of_nat (length body) /\ stored_len m = Z.of_nat (length content).

(** Rows and files correspond one to one, and each row describes its file. *)
Definition consistent (files : ArtifactFiles) v t : Prop :=
  forall c a, match mv_artifacts v !! (c, a), t !! artifact_path files c a with
              | Some m, Some (File content) => described a m content
              | None, None => True
              | _, _ => False
              end.

(** A world in good order. *)
Definition steady (files : ArtifactFiles) v w : Prop :=
  viewed v w /\ view_ok v /\ (forall n, 0 <= w_clock w n) /\ consistent files v (nodes (w_fs w)).

Lemma steady_sound files v w : steady files v w -> sound w.
Proof. intros (Hv & Hok & Hk & _). split; [by exists v|done]. Qed.

(** Steps on the rest of the world. *)
Lemma steady_other files v w w' :
  w_db w' = w_db w -> w_clock w' = w_clock w -> w_fs w' = w_fs w ->
  steady files v w -> steady files v w'.
Proof. intros E1 E2 E3 H. unfold steady, viewed in *. by rewrite E1, E2, E3. Qed.

Lemma consistent_artifacts files v v' t :
  mv_artifacts v' = mv_artifacts v -> consistent files v t -> consistent files v' t.
Proof. intros E H c a. rewrite E. apply H. Qed.

(** A successful store operation whose transition leaves the artifacts alone. *)
Lemma steady_meta {A} files (op : M S MetadataError A) spec (f : A -> response) cmd v w x w' :
  implements stands_for op spec -> v_execute cmd = v_answering f spec ->
  (forall y, cmd ≠ CreateChannel y /\ cmd ≠ StoreChannel y) ->
  mv_artifacts (spec v).2 = mv_artifacts v ->
  steady files v w -> c_meta op w = (Ok x, w') -> steady files (spec v).2 w' /\ (spec v).1 = Ok x.
Proof.
  intros Hop Hcmd Hne Hart (Hv & [Hq He] & Hk & Hc) H.
  apply (c_meta_ok _ spec v) in H as (Hr & Hv' & Hw); [|done..]. split; [|done].
  split; [done|]. split.
  { rewrite <- (v_answering_state f), <- Hcmd. split; [by apply execute_queued|].
    apply execute_expiries; [|done]. intros y [E|E]; destruct (Hne y); done. }
  rewrite Hw. split; [done|]. by eapply consistent_artifacts.
Qed.

Lemma fence_ok c v w expiry w' :
  viewed v w -> view_ok v -> channel_fence c w = (Ok expiry, w') ->
  0 <= expiry /\ viewed v w' /\ w' = set_gates ({[c]} ∪ w_gates w) (set_db (w_db w') w)
  /\ exists r, mv_channels v !! c = Some r /\ state r = Active /\ expiry_seconds r = expiry.
Proof.
  intros Hv [_ He] H. unfold channel_fence in H. apply bind_ok in H as (u & w1 & H1 & H). injection H1 as _ <-.
  apply bind_ok in H as (found & w2 & H2 & H).
  apply (c_meta_ok _ (v_channel c) v) in H2 as ([= Hf] & Hv2 & Hw2); [|apply channel_law|exact Hv]. cbn in Hv2.
  destruct found as [r|]; [|done]. case_bool_decide; [|done]. injection H as <- <-.
  split; [by eapply He|]. split; [done|]. split; [by rewrite Hw2|]. by exists r.
Qed.

(** The row a publication writes describes the file it installed. *)
Lemma staged_described files c0 n0 stream mx enc t staged body content a m :
  staged_ok files c0 n0 stream mx enc t staged body content -> staged_digest staged = digest a ->
  content_len m = staged_len staged -> stored_len m = staged_stored_len staged ->
  encoding m = staged_encoding staged -> described a m content.
Proof.
  intros Hs Hd E1 E2 E3. exists body. rewrite E1, E2, E3. split; [apply Hs|]. split.
  - rewrite <- Hd, (so_digest _ _ _ _ _ _ _ _ _ _ Hs). done.
  - split; apply Hs.
Qed.

Lemma commit_view c a m reference v :
  mv_artifacts (v_commit_publication c a m reference v).2
  = match mv_artifacts v !! (c, a) with Some _ => mv_artifacts v | None => <[(c, a) := m]> (mv_artifacts v) end
  /\ forall n x, reference = Some (n, x) -> mv_references (v_commit_publication c a m reference v).2 !! (c, n) = Some x.
Proof.
  unfold v_commit_publication. split.
  - destruct (mv_artifacts v !! (c, a)); cbn; by destruct reference as [[]|].
  - intros n x ->. destruct (mv_artifacts v !! (c, a)); cbn; by rewrite lookup_insert_eq.
Qed.

(** One artifact's row and file are written together. *)
Lemma consistent_write files c a v v' t t' m content :
  consistent files v t -> others_same files c a t t' ->
  mv_artifacts v' = <[(c, a) := m]> (mv_artifacts v) ->
  t' !! artifact_path files c a = Some (File content) -> described a m content -> consistent files v' t'.
Proof.
  intros Hc Ho Hv' Ht' Hd c' a'. rewrite Hv'. destruct (decide ((c', a') = (c, a))) as [[= -> ->]|Hne].
  - by rewrite lookup_insert_eq, Ht'.
  - rewrite lookup_insert_ne, Ho by done. apply Hc.
Qed.

Lemma consistent_frame files c a v v' t t' :
  consistent files v t -> others_same files c a t t' -> mv_artifacts v' = mv_artifacts v ->
  t' !! artifact_path files c a = t !! artifact_path files c a -> consistent files v' t'.
Proof.
  intros Hc Ho Hv' Ht' c' a'. rewrite Hv'. destruct (decide ((c', a') = (c, a))) as [[= -> ->]|Hne].
  - rewrite Ht'. apply Hc.
  - rewrite Ho by done. apply Hc.
Qed.

(** What the second half of a publication writes to the view. *)
Lemma commit_published_ok c a staged commit_ expiry r n v w pub w' :
  viewed v w -> (forall k, 0 <= w_clock w k) -> 0 <= expiry ->
  commit_published c a staged commit_ expiry r n w = (Ok pub, w') ->
  pub_artifact pub = a /\ w_fs w' = w_fs w /\ w_clock w' = w_clock w
  /\ exists m, content_len m = staged_len staged /\ stored_len m = staged_stored_len staged
       /\ encoding m = staged_encoding staged
       /\ eligible_at m = saturating_add (created_at m) expiry
       /\ viewed (v_commit_publication c a m (commit_reference commit_) v).2 w'
       /\ (pub_outcome pub = PublicationCreated <-> mv_artifacts v !! (c, a) = None).
Proof.
  intros Hv Hk He H. unfold commit_published in H. apply bind_ok in H as (tm & w1 & H1 & H). injection H1 as <- <-.
  apply bind_ok in H as (created & w2 & H2 & H). unfold try in H2. set (m := Build_ArtifactMetadata _ _ _ _ _ _) in *.
  destruct (c_meta _ _) as [r2 w2'] eqn:E in H2. injection H2 as <- <-. destruct r2 as [b|e]; [|done].
  apply bind_ok in H as (u & w3 & H3 & H). injection H3 as _ <-. injection H as <- <-.
  apply (c_meta_ok _ (v_commit_publication c a m (commit_reference commit_)) v) in E as (Hb & Hv2 & Hw2);
    [|apply commit_publication_law; by apply deadline_u64|exact Hv].
  rewrite Hw2. cbn. repeat split. exists m. repeat split; try done.
  - unfold v_commit_publication in Hb. destruct (mv_artifacts v !! (c, a)); cbn in Hb; simplify_eq; done.
  - intros Hn. unfold v_commit_publication in Hb. rewrite Hn in Hb. cbn in Hb. by simplify_eq.
Qed.

(** A publication that succeeds. *)
Lemma commit_staged_ok rest cfg c a staged commit_ n0 stream mx enc body content v w pub w' :
  0 <= rest -> 0 <= outstanding (staged_reservation staged) ->
  holds (w_space w) (rest + outstanding (staged_reservation staged)) ->
  staged_ok (cache_files cfg) c n0 stream mx enc (nodes (w_fs w)) staged body content ->
  viewed v w -> view_ok v -> (forall k, 0 <= w_clock w k) -> consistent (cache_files cfg) v (nodes (w_fs w)) ->
  commit_staged cfg c a staged commit_ w = (Ok pub, w') ->
  pub_artifact pub = a /\ staged_digest staged = digest a /\ w_clock w' = w_clock w
  /\ exists v', viewed v' w' /\ view_ok v' /\ consistent (cache_files cfg) v' (nodes (w_fs w'))
     /\ is_Some (mv_artifacts v' !! (c, a))
     /\ (pub_outcome pub = PublicationCreated ->
           nodes (w_fs w') !! artifact_path (cache_files cfg) c a = Some (File content)
           /\ exists m, mv_artifacts v' !! (c, a) = Some m /\ encoding m = staged_encoding staged)
     /\ (forall n x, commit_reference commit_ = Some (n, x) -> mv_references v' !! (c, n) = Some x)
     /\ (exists r, mv_channels v !! c = Some r /\ state r = Active).
Proof.
  intros Hr Ho Hh Hs Hv Hok Hk Hc H. unfold commit_staged in H. apply bind_ok in H as (fence & w1 & H1 & H).
  unfold try in H1. destruct (channel_fence c w) as [r1 w1'] eqn:Ef. injection H1 as <- <-. destruct r1 as [expiry|e]; [|done].
  apply (fence_ok c v) in Ef as (He & Hv1 & Hw1 & rec & Hrec & Hact & _); [|done..].
  assert (w_fs w1' = w_fs w /\ w_space w1' = w_space w /\ w_clock w1' = w_clock w) as (Ef1 & Es1 & Ek1) by (by rewrite Hw1).
  apply bind_ok in H as (outcome & w2 & H2 & H). unfold c_local, raising, in_local, zoom in H2.
  destruct (publish _ _ _ _ _ (get_local w1')) as [r2 l] eqn:Ep. destruct r2 as [o|e]; [|done]. injection H2 as -> <-.
  assert (staged_path staged ≠ artifact_path (cache_files cfg) c a) as Hne.
  { rewrite (so_path _ _ _ _ _ _ _ _ _ _ Hs). apply not_eq_sym, artifact_not_temporary. }
  pose proof (publish_others _ _ _ _ _ _ _ _ _ _ (so_path _ _ _ _ _ _ _ _ _ _ Hs) Ep) as Hoth. cbn in Hoth. rewrite Ef1 in Hoth.
  unfold publish in Ep. destruct (publish_reserved _ _ _ _ _ _ _) as [[created|e] s] eqn:Er; [|done]. injection Ep as <- <-.
  apply (publish_reserved_ok _ _ _ _ _ _ content) in Er as (Hd & _ & _ & _ & Hpub);
    [|cbn; rewrite Ef1; apply Hs|done]. cbn in Hpub, Hoth. rewrite Ef1 in Hpub.
  set (w2 := set_local (let_go s) w1') in *.
  assert (viewed v w2) as Hv2 by exact Hv1. assert (forall k, 0 <= w_clock w2 k) as Hk2 by (cbn; by rewrite Ek1).
  assert (exists r n, commit_published c a staged commit_ expiry r n w2 = (Ok pub, w')) as (r & n & Hcp).
  { destruct created; eauto. }
  clear H. apply (commit_published_ok _ _ _ _ _ _ _ v) in Hcp as (Hpa & Hfs & Hck & m & E1 & E2 & E3 & E4 & Hv' & Hout); [|done..].
  split; [done|]. split; [done|]. split; [rewrite Hck; exact Ek1|].
  destruct (commit_view c a m (commit_reference commit_) v) as [Hart Href].
  exists (v_commit_publication c a m (commit_reference commit_) v).2. split; [done|].
  assert (view_ok (v_commit_publication c a m (commit_reference commit_) v).2) as Hok'.
  { rewrite <- (v_answering_state RBool). destruct Hok as [Hq Hex].
    change (v_answering RBool (v_commit_publication c a m (commit_reference commit_)))
      with (v_execute (CommitPublication c a m (commit_reference commit_) Durable)).
    split; [by apply execute_queued|]. apply execute_expiries; [|done]. intros x [?|?]; done. }
  split; [done|]. specialize (Hc c a) as Hca. rewrite Hfs. cbn.
  destruct created; destruct Hpub as (Hfile & _ & Hold).
  - rewrite Hold in Hca. destruct (mv_artifacts v !! (c, a)) eqn:Hn; [done|].
    split; [|split; [|split; [|split; [exact Href|by exists rec]]]].
    + eapply consistent_write; [exact Hc|exact Hoth|exact Hart|exact Hfile|]. by eapply staged_described.
    + rewrite Hart, lookup_insert_eq. done.
    + intros _. split; [done|]. exists m. by rewrite Hart, lookup_insert_eq.
  - destruct Hfile as [x Hx]. rewrite <- Hold, Hx in Hca.
    destruct (mv_artifacts v !! (c, a)) as [m0|] eqn:Hn; [|by destruct x].
    split; [|split; [|split; [|split; [exact Href|by exists rec]]]].
    + eapply consistent_frame; [exact Hc|exact Hoth|exact Hart|exact Hold].
    + by rewrite Hart, Hn.
    + intros Hcr. apply Hout in Hcr. done.
Qed.
(** *** Whole operations that succeed *)

Lemma publish_request_ok rest cfg name request v w pub w' :
  0 <= rest -> files_wf (cache_files cfg) -> request_wf (max_upload_bytes cfg) (req_content_length request) ->
  disk_ok rest (cache_files cfg) w -> steady (cache_files cfg) v w ->
  publish_or_reject cfg name request w = (Ok (AdmissionPublished pub), w') ->
  exists v' body, steady (cache_files cfg) v' w'
    /\ (exists chunks, req_stream request = Ok <$> chunks /\ body = concat chunks)
    /\ Z.of_nat (length body) <= max_upload_bytes cfg
    /\ digest_array (digest (pub_artifact pub)) = sha256 body
    /\ (forall a, req_target request = ById a -> pub_artifact pub = a)
    /\ is_Some (mv_artifacts v' !! (req_channel request, pub_artifact pub))
    /\ (pub_outcome pub = PublicationCreated -> exists content m,
          nodes (w_fs w') !! artifact_path (cache_files cfg) (req_channel request) (pub_artifact pub) = Some (File content)
          /\ stored_as (req_encoding request) content body
          /\ mv_artifacts v' !! (req_channel request, pub_artifact pub) = Some m /\ encoding m = req_encoding request)
    /\ (forall n, req_target request = ContentAddressed (Some n) -> exists x,
          mv_references v' !! (req_channel request, n) = Some x /\ ref_artifact x = pub_artifact pub)
    /\ (exists r, mv_channels v !! req_channel request = Some r /\ state r = Active).
Proof.
  intros Hr Hf Hq [Hh _] (Hv & Hok & Hk & Hc) H. unfold publish_or_reject in H.
  apply bind_ok in H as (outcome & w1 & H1 & H). unfold c_local, raising, in_local, zoom in H1.
  pose proof (stage_spec rest (cache_files cfg) (req_channel request) name (req_stream request) (max_upload_bytes cfg)
    (req_content_length request) (req_durability request) (req_encoding request) (get_local w) Hr Hf Hq Hh) as HS.
  destruct (stage _ _ _ _ _ _ _ _ (get_local w)) as [[[staged|stream]|e] l] eqn:Est;
    [|by injection H1 as <- <-; cbn in H|done].
  injection H1 as <- <-. apply stage_same_artifacts in Est. destruct HS as [_ [Hh' (body & content & Hs)]].
  apply bind_ok in H as (u & w2 & H2 & H). injection H2 as _ <-.
  apply bind_ok in H as ([a reference] & w3 & H3 & H). apply bind_ok in H as (p & w4 & H4 & H). injection H as -> <-.
  assert (w_db w3 = w_db w /\ w_fs w3 = l_fs l /\ w_space w3 = l_space l /\ w_clock w3 = w_clock w
          /\ (forall a0, req_target request = ById a0 -> a = a0)
          /\ (forall n, req_target request = ContentAddressed (Some n) -> exists x,
                reference = Some (n, x) /\ ref_artifact x = a)) as (E1 & E2 & E3 & E4 & Eid & Eref).
  { destruct (req_target request) as [a0|[n|]]; cbn in H3.
    - injection H3 as <- <- <-. repeat split; congruence.
    - injection H3 as <- <- <-. repeat split; [congruence|]. intros n' [= <-]. eauto.
    - injection H3 as <- <- <-. repeat split; congruence. }
  assert (consistent (cache_files cfg) v (nodes (w_fs w3))) as Hc3.
  { intros c a'. rewrite E2, Est. apply Hc. }
  pose proof (so_covered _ _ _ _ _ _ _ _ _ _ Hs) as Hcov. pose proof (so_stored_len _ _ _ _ _ _ _ _ _ _ Hs) as Hsl.
  eapply (commit_staged_ok rest) in H4 as (Hpa & Hd & Hck & v' & Hv' & Hok' & Hc' & Hart & Hfile & Href & Hrec);
    [|done|lia|rewrite E3; exact Hh'|rewrite E2; exact Hs|unfold viewed; rewrite E1; exact Hv|exact Hok
     |rewrite E4; exact Hk|exact Hc3].
  exists v', body. subst a. split; [split; [done|split; [done|split; [|done]]]; rewrite Hck, E4; exact Hk|].
  split; [apply Hs|]. repeat split; try done.
  - rewrite <- (so_len _ _ _ _ _ _ _ _ _ _ Hs). apply Hs.
  - rewrite <- Hd, (so_digest _ _ _ _ _ _ _ _ _ _ Hs). done.
  - intros Hcr. destruct (Hfile Hcr) as (Hct & m & Hm & He). exists content, m.
    rewrite <- (so_encoding _ _ _ _ _ _ _ _ _ _ Hs). repeat split; try done. apply Hs.
  - intros n Hn. destruct (Eref n Hn) as (x & -> & Hx). exists x. split; [by apply Href|done].
Qed.

Lemma locate_ok cfg c a v w found w' :
  steady (cache_files cfg) v w -> locate cfg c a w = (Ok found, w') ->
  steady (cache_files cfg) v w'
  /\ match mv_artifacts v !! (c, a) with
     | None => found = None
     | Some m => exists content, found = Some {| located_file := content; located_metadata := m |}
         /\ nodes (w_fs w) !! artifact_path (cache_files cfg) c a = Some (File content) /\ described a m content
     end.
Proof.
  intros Hst H. unfold locate in H. apply bind_ok in H as (f1 & w1 & H1 & H).
  assert (steady (cache_files cfg) v w1 /\ match mv_artifacts v !! (c, a) with
     | None => f1 = None
     | Some m => exists content, f1 = Some {| located_file := content; located_metadata := m |}
         /\ nodes (w_fs w) !! artifact_path (cache_files cfg) c a = Some (File content) /\ described a m content
     end) as [Hst1 Hf].
  { unfold locate_local in H1. apply bind_ok in H1 as (found1 & w2 & H2 & H1).
    pose proof H2 as (_ & _ & Hw2)%(c_meta_ok _ (v_artifact c a) v); [|apply artifact_law|apply Hst].
    apply (steady_meta (cache_files cfg) _ (v_artifact c a) RArtifact (ReadArtifact c a) v) in H2 as [Hst2 [= Hf2]];
      [|apply artifact_law|done|done|done|done]. cbn in Hst2.
    pose proof Hst as (_ & _ & _ & Hc). specialize (Hc c a). rewrite Hf2 in Hc |- *.
    destruct found1 as [m|]; [|by injection H1 as <- <-].
    destruct (nodes (w_fs w) !! artifact_path (cache_files cfg) c a) as [[|content]|] eqn:Hfile; [done| |done].
    apply bind_ok in H1 as (opened & w3 & H3 & H1). unfold try in H3.
    destruct (c_local _ w2) as [r w3'] eqn:E in H3. injection H3 as <- <-.
    unfold c_local, raising, in_local, zoom, l_fs_op, raising, zoom in E.
    destruct (open_read _ _) as [r2 fs] eqn:E2 in E. destruct r2 as [x|x]; cbn in E; injection E as <- <-.
    - apply syscall_ok in E2. cbn in E2. rewrite Hw2 in E2. cbn in E2. rewrite Hfile in E2. injection E2 as <- Hn.
      injection H1 as <- <-. split; [|eauto]. destruct Hst2 as (? & ? & ? & Hc2). split; [done|]. split; [done|].
      split; [done|]. cbn. rewrite <- Hn. rewrite Hw2 in Hc2. exact Hc2.
    - apply syscall_err in E2 as [E2|(f & <- & _)]; [|done]. cbn in E2. rewrite Hw2 in E2. cbn in E2. rewrite Hfile in E2. done. }
  split.
  - destruct f1 as [l|]; repeat (apply bind_ok in H as (? & ? & [= _ <-] & H)); injection H as <- <-;
      by eapply steady_other.
  - assert (found = f1) as ->; [|done]. destruct f1; repeat (apply bind_ok in H as (? & ? & [= _ <-] & H)); by injection H as <- <-.
Qed.

(** The errors of a lookup come from the environment. *)
Definition environment (e : CacheError) : Prop :=
  match e with
  | CacheMetadata me => fault me
  | CacheLocal (Io (IoOther _)) => True
  | _ => False
  end.

Lemma c_read_err {A} (op : M S MetadataError A) (f : MetaView -> A) v w e w' :
  implements stands_for op (fun v => (Ok (f v), v)) -> viewed v w -> c_meta op w = (Err e, w') -> environment e.
Proof.
  intros H Hv. unfold c_meta, raising. pose proof (in_db_spec op _ v w H Hv) as Hs.
  destruct (in_db op w) as [[y|me] w1]; [done|]. intros [= <- _]. cbn. by destruct Hs as (_ & [[? _]|[? _]]).
Qed.

Lemma locate_err cfg c a v w e w' :
  steady (cache_files cfg) v w -> locate cfg c a w = (Err e, w') -> environment e.
Proof.
  intros Hst. unfold locate, locate_local, mbind, M_bind.
  destruct (c_meta (ms_artifact c a) w) as [[found|e1] w1] eqn:E1.
  2: { intros [= <- _]. eapply (c_read_err _ (fun v => mv_artifacts v !! (c, a))); [apply artifact_law|apply Hst|exact E1]. }
  apply (c_meta_ok _ (v_artifact c a) v) in E1 as ([= Hf] & _ & Hw1); [|apply artifact_law|apply Hst].
  destruct found as [m|]; [|done]. unfold try.
  destruct Hst as (_ & _ & _ & Hc). specialize (Hc c a). rewrite Hf in Hc.
  destruct (nodes (w_fs w) !! artifact_path (cache_files cfg) c a) as [[|content]|] eqn:Hfile; [done| |done].
  destruct (c_local _ w1) as [[y|e2] w2] eqn:E2; [done|].
  unfold c_local, raising, in_local, zoom, l_fs_op, raising, zoom in E2.
  destruct (open_read _ _) as [[x|x] fs] eqn:E3 in E2; [done|]. cbn in E2. injection E2 as <- _.
  apply syscall_err in E3 as [E3|(f & <- & _)].
  - cbn in E3. rewrite Hw1 in E3. cbn in E3. by rewrite Hfile in E3.
  - by intros [= <- _].
Qed.
End Consistency.
