(* ===== verification/CacheMaintenance.v ===== *)
(** * What a maintenance pass does

    A pass that returns: which artifacts it may take, which it puts back in the queue, and how far
    it stays within its budgets. *)

From S2P Require Import Prelude Externals Domain Metadata MetadataView MetadataRefinement MetadataStore Space RecentUse Filesystem ArtifactFiles FilesLemmas World ChannelLemmas Cache CacheLemmas CacheConsistency.

Section Pass.
Context {UL : UlidLib} {ULL : UlidLaws} {HX : HexLib} {HXL : HexLaws} {SH : Sha256Lib}.
Context {ZS : ZstdLib} {ZSL : ZstdLaws} {DH : DefaultHasherLib}.
Implicit Types (v : MetaView) (b : Budget) (c : ChannelId) (a : ArtifactId) (m : ArtifactMetadata).

(** Bytes stored by all the artifacts of the view. *)
Definition total v : Z := map_fold (fun _ m n => stored_len m + n) 0 (mv_artifacts v).

(** What a pass in mode [mode_] at time [t] may do to one artifact of a channel whose record is
    [r]: leave it, take it, or give it a new deadline. *)
Definition fate (mode_ : Mode) (t : Z) (used : bool) (r : option ChannelRecord)
    (before after : option ArtifactMetadata) : Prop :=
  after = before
  \/ exists m record, before = Some m /\ r = Some record /\ state record = Active
     /\ (mode_ = Reclaiming \/ eligible_at m <= t)
     /\ ((after = None /\ (mode_ = Reclaiming \/ used = false))
         \/ (mode_ = Normal /\ used = true
             /\ after = Some (set_eligible_at m (saturating_add t (expiry_seconds record))))).

Lemma fate_trans mode_ t used r x y z :
  fate mode_ t used r x y -> fate mode_ t used r y z -> fate mode_ t used r x z.
Proof.
  intros [->|(m & rec & -> & Hr & Ha & He & [[-> Hu]|(Hm & Hu & ->)])]; [done|..].
  - intros [->|(? & ? & ? & _)]; [|done]. right. exists m, rec. repeat split; auto.
  - intros [->|(m' & rec' & [= <-] & Hr' & _ & _ & [[-> [?|?]]|(_ & _ & ->)])]; try congruence;
      right; exists m, rec; repeat split; auto.
    right. split; [done|]. split; [done|]. rewrite Hr in Hr'. by injection Hr' as ->.
Qed.

Lemma fate_stored mode_ t used r x m :
  fate mode_ t used r x (Some m) -> exists m0, x = Some m0 /\ stored_len m0 = stored_len m.
Proof.
  intros [<-|(m0 & rec & -> & _ & _ & _ & [[? _]|(_ & _ & [= ->])])]; [eauto|done|]. eexists. split; [done|]. by destruct m0.
Qed.

(** The taken bytes, the last artifact taken apart, fit in the budget. *)
Definition last_taken (budget : Z) v0 v : Prop :=
  total v = total v0
  \/ exists c a m, mv_artifacts v0 !! (c, a) = Some m /\ mv_artifacts v !! (c, a) = None
     /\ 0 <= total v0 - total v - stored_len m < budget.

Record pass (mode_ : Mode) (t : Z) (recent : RecentUse) v0 b0 v b : Prop := {
  ps_channels : mv_channels v = mv_channels v0;
  ps_references : mv_references v = mv_references v0;
  ps_fate c a : fate mode_ t (seen c a recent) (mv_channels v0 !! c) (mv_artifacts v0 !! (c, a)) (mv_artifacts v !! (c, a));
  ps_count : (size (mv_artifacts v) + reclaimed b = size (mv_artifacts v0) + reclaimed b0)%nat;
  ps_limit : (reclaimed b + remaining_candidates b <= reclaimed b0 + remaining_candidates b0)%nat;
  ps_total : total v <= total v0;
  ps_bytes : remaining_bytes b = saturating_sub (remaining_bytes b0) (total v0 - total v);
  ps_last : last_taken (remaining_bytes b0) v0 v
}.

Lemma pass_same mode_ t recent v0 b0 v b :
  mv_channels v = mv_channels v0 -> mv_references v = mv_references v0 -> mv_artifacts v = mv_artifacts v0 ->
  0 <= remaining_bytes b0 -> remaining_bytes b = remaining_bytes b0 -> reclaimed b = reclaimed b0 ->
  (remaining_candidates b <= remaining_candidates b0)%nat -> pass mode_ t recent v0 b0 v b.
Proof.
  intros E1 E2 E3 H0 E4 E5 E6. assert (total v = total v0) as E by (unfold total; by rewrite E3).
  split; try done; rewrite ?E3, ?E5; try lia.
  - by left.
  - rewrite E4, E. unfold saturating_sub. lia.
  - by left.
Qed.

Lemma pass_refl mode_ t recent v b : 0 <= remaining_bytes b -> pass mode_ t recent v b v b.
Proof. intros. by apply pass_same. Qed.

Lemma pass_trans mode_ t recent v0 b0 v1 b1 v2 b2 :
  pass mode_ t recent v0 b0 v1 b1 -> pass mode_ t recent v1 b1 v2 b2 -> pass mode_ t recent v0 b0 v2 b2.
Proof.
  intros [C1 R1 F1 N1 L1 T1 B1 X1] [C2 R2 F2 N2 L2 T2 B2 X2]. rewrite C1 in F2. split; try congruence; try lia.
  - intros c a. by eapply fate_trans.
  - rewrite B2, B1. unfold saturating_sub. lia.
  - destruct X2 as [E|(c & a & m & H1 & H2 & H3)].
    + destruct X1 as [E1|(c & a & m & H1 & H2 & H3)]; [left; congruence|]. right. exists c, a, m. rewrite E.
      split; [done|]. split; [|done]. specialize (F2 c a). rewrite H2 in F2.
      destruct F2 as [->|(? & ? & ? & _)]; done.
    + pose proof (F1 c a) as Hf. rewrite H1 in Hf. apply fate_stored in Hf as (m0 & Hm0 & Es).
      right. exists c, a, m0. split; [done|]. split; [done|]. rewrite Es. rewrite B1 in H3. unfold saturating_sub in H3. lia.
Qed.

Lemma total_comm (j1 j2 : ChannelId * ArtifactId) m1 m2 (y : Z) :
  stored_len m1 + (stored_len m2 + y) = stored_len m2 + (stored_len m1 + y).
Proof. lia. Qed.

Lemma total_lookup v c a m :
  mv_artifacts v !! (c, a) = Some m ->
  total v = stored_len m + map_fold (fun _ m n => stored_len m + n) 0 (delete (c, a) (mv_artifacts v)).
Proof. intros H. unfold total. apply (map_fold_delete_L (fun _ m n => stored_len m + n)); [|done]. intros. lia. Qed.

Lemma size_lookup v c a m :
  mv_artifacts v !! (c, a) = Some m -> size (mv_artifacts v) = Datatypes.S (size (delete (c, a) (mv_artifacts v))).
Proof.
  intros H. rewrite <- (insert_delete_id _ _ _ H) at 1. by rewrite map_size_insert_None by apply lookup_delete_eq.
Qed.

(** Taking one artifact. *)
Lemma pass_evict mode_ t recent v b c a m record :
  mv_artifacts v !! (c, a) = Some m -> mv_channels v !! c = Some record -> state record = Active ->
  mode_ = Reclaiming \/ eligible_at m <= t /\ seen c a recent = false ->
  0 < remaining_bytes b -> remaining_candidates b ≠ 0%nat -> 0 <= stored_len m ->
  pass mode_ t recent v b (v_evict c a (eligible_at m) v).2 (spend_bytes (stored_len m) (spend_candidate b)).
Proof.
  intros Ha Hc Hs Hm Hb Hn Hl. unfold v_evict. rewrite Ha, Z.eqb_refl. cbn.
  assert (total (v_drop_row c (eligible_at m) a (with_artifacts (delete (c, a)) v)) = total v - stored_len m) as Ht.
  { rewrite (total_lookup _ _ _ _ Ha). unfold total. cbn. lia. }
  split; try done; cbn; rewrite ?Ht.
  - intros c' a'. destruct (decide ((c', a') = (c, a))) as [[= -> ->]|Hne].
    + rewrite lookup_delete_eq. right. exists m, record. repeat split; tauto.
    + rewrite lookup_delete_ne by congruence. by left.
  - rewrite (size_lookup _ _ _ _ Ha). lia.
  - lia.
  - lia.
  - f_equal. lia.
  - right. exists c, a, m. rewrite Ht. cbn. rewrite lookup_delete_eq. repeat split; try done; lia.
Qed.

(** Giving one artifact a new deadline. *)
Lemma pass_requeue t recent v b c a m record :
  mv_artifacts v !! (c, a) = Some m -> mv_channels v !! c = Some record -> state record = Active ->
  eligible_at m <= t -> seen c a recent = true -> 0 <= remaining_bytes b ->
  pass Normal t recent v b (v_requeue c a (eligible_at m) (saturating_add t (expiry_seconds record)) v).2 (spend_candidate b).
Proof.
  intros Ha Hc Hs He Hu Hb. unfold v_requeue. rewrite Ha, Z.eqb_refl. cbn. set (m' := set_eligible_at m _).
  assert (stored_len m' = stored_len m) as El by (by destruct m).
  assert (delete (c, a) (<[(c, a) := m']> (mv_artifacts v)) = delete (c, a) (mv_artifacts v)) as Ed.
  { apply delete_insert_eq. }
  set (v' := v_put_artifact c a m' _). assert (mv_artifacts v' = <[(c, a) := m']> (mv_artifacts v)) as Ev by done.
  assert (mv_artifacts v' !! (c, a) = Some m') as Ha' by (rewrite Ev; apply lookup_insert_eq).
  assert (total v' = total v) as Ht.
  { rewrite (total_lookup _ _ _ _ Ha), (total_lookup _ _ _ _ Ha'), Ev, Ed, El. done. }
  split; try done; try (cbn; lia); rewrite ?Ht.
  - intros c' a'. destruct (decide ((c', a') = (c, a))) as [[= -> ->]|Hne].
    + rewrite Ha'. right. exists m, record. repeat split; auto.
    + rewrite Ev, lookup_insert_ne by congruence. by left.
  - rewrite (size_lookup _ _ _ _ Ha), (size_lookup _ _ _ _ Ha'), Ev, Ed. cbn. lia.
  - cbn. unfold saturating_sub. lia.
  - by left.
Qed.
End Pass.

Section Runs.
Context {UL : UlidLib} {ULL : UlidLaws} {HX : HexLib} {HXL : HexLaws} {SH : Sha256Lib}.
Context {ZS : ZstdLib} {ZSL : ZstdLaws} {DH : DefaultHasherLib}.
Context {S : Type} {MS : MetadataStore S} {ML : MetadataLaws S}.
Implicit Types (v : MetaView) (w : World S) (b : Budget) (c : ChannelId) (a : ArtifactId) (m : ArtifactMetadata).

Lemma remove_ok files c a w u w' :
  c_local (remove files c a) w = (Ok u, w') ->
  nodes (w_fs w') = delete (artifact_path files c a) (nodes (w_fs w)) /\ w_db w' = w_db w
  /\ w_clock w' = w_clock w /\ w_recent w' = w_recent w.
Proof.
  unfold c_local, raising, in_local, zoom, remove, mbind, M_bind, try, l_fs_op, raising, zoom.
  destruct (remove_file _ _) as [[[]|e] fs] eqn:E.
  - apply syscall_ok in E. cbn in E. intros [= _ <-]. cbn. repeat split.
    destruct (nodes (w_fs w) !! _) as [[|]|]; congruence.
  - destruct e; try (by intros [=]).
    intros [= _ <-]. cbn. repeat split.
    apply syscall_err in E as [E|(f & E & _)]; [|done]. cbn in E.
    destruct (nodes (w_fs w) !! _) as [[|]|] eqn:Hl; try congruence. injection E as <-. symmetry. by apply delete_id.
Qed.

Lemma steady_execute cmd files v w : (forall y, cmd ≠ CreateChannel y /\ cmd ≠ StoreChannel y) ->
  steady files v w -> view_ok (v_execute cmd v).2.
Proof.
  intros Hne (_ & [Hq He] & _). split; [by apply execute_queued|]. apply execute_expiries; [|done].
  intros y [E|E]; destruct (Hne y); done.
Qed.

(** A body and its row go together. *)
Lemma consistent_remove files c a v v' t :
  consistent files v t -> mv_artifacts v' = delete (c, a) (mv_artifacts v) ->
  consistent files v' (delete (artifact_path files c a) t).
Proof.
  intros Hc E c' a'. rewrite E. destruct (decide ((c', a') = (c, a))) as [[= -> ->]|Hne].
  - by rewrite !lookup_delete_eq.
  - rewrite !lookup_delete_ne; [apply Hc| |congruence]. intros Ep. apply artifact_path_inj in Ep as [-> ->]. done.
Qed.

Lemma stored_len_nonneg files v w c a m :
  steady files v w -> mv_artifacts v !! (c, a) = Some m -> 0 <= stored_len m.
Proof.
  intros (_ & _ & _ & Hc) Ha. specialize (Hc c a). rewrite Ha in Hc.
  destruct (nodes (w_fs w) !! _) as [[|content]|]; [done| |done]. destruct Hc as (? & _ & _ & _ & ->). lia.
Qed.

(** One candidate taken, or found stale. *)
Lemma reclaim_one_ok cfg mode_ t c x b v w b' w' record :
  steady (cache_files cfg) v w -> is_u64 (cand_eligible_at x) ->
  mv_channels v !! c = Some record -> state record = Active ->
  mode_ = Reclaiming \/ cand_eligible_at x <= t /\ seen c (cand_artifact x) (w_recent w) = false ->
  0 < remaining_bytes b -> remaining_candidates b ≠ 0%nat ->
  reclaim_one cfg c x (spend_candidate b) w = (Ok b', w') ->
  exists v', steady (cache_files cfg) v' w' /\ w_recent w' = w_recent w
    /\ pass mode_ t (w_recent w) v b v' b'.
Proof.
  intros Hst Hu Hc Ha Hm Hb Hn H. unfold reclaim_one in H. set (a := cand_artifact x) in *.
  apply bind_ok in H as (found & w1 & H1 & H).
  pose proof H1 as (_ & _ & Hw1)%(c_meta_ok _ (v_artifact c a) v); [|apply artifact_law|apply Hst].
  apply (steady_meta (cache_files cfg) _ (v_artifact c a) RArtifact (ReadArtifact c a) v) in H1 as [Hst1 [= Hf]];
    [|apply artifact_law|done|done|done|done]. cbn in Hst1.
  apply bind_ok in H as (u & w2 & H2 & H). apply bind_ok in H as (evicted & w3 & H3 & H). injection H as <- <-.
  assert (forall w0, viewed v w0 -> c_meta (ms_evict c a (cand_eligible_at x)) w0 = (Ok evicted, w3) ->
    (v_evict c a (cand_eligible_at x) v).1 = Ok evicted /\ viewed (v_evict c a (cand_eligible_at x) v).2 w3
    /\ w3 = set_db (w_db w3) w0) as Hev.
  { intros w0 Hv0 E. apply (c_meta_ok _ (v_evict c a (cand_eligible_at x))) with (v := v) in E; [done|by apply evict_law|done]. }
  pose proof (steady_execute (Evict c a (cand_eligible_at x)) (cache_files cfg) v w1 ltac:(done) Hst1) as Hok.
  cbn [v_execute] in Hok. rewrite v_answering_state in Hok.
  assert (w_recent w1 = w_recent w) as Er1 by (by rewrite Hw1).
  assert ((exists m, found = Some m /\ eligible_at m = cand_eligible_at x)
          \/ ~ exists m, found = Some m /\ eligible_at m = cand_eligible_at x) as [(m & -> & He)|Hstale].
  { destruct found as [m|]; [|right; by intros (? & ? & _)].
    destruct (decide (eligible_at m = cand_eligible_at x)); [left; eauto|right; by intros (? & [= <-] & ?)]. }
  - rewrite (proj2 (Z.eqb_eq _ _) He) in H2. apply remove_ok in H2 as (Hd & E1 & E2 & E3).
    apply Hev in H3 as (Hr & Hv3 & Hw3); [|unfold viewed; rewrite E1; apply Hst1].
    exists (v_evict c a (cand_eligible_at x) v).2. rewrite <- He in *.
    pose proof (pass_evict mode_ t (w_recent w) v b c a m record Hf Hc Ha Hm Hb Hn (stored_len_nonneg _ _ _ _ _ _ Hst Hf)) as Hp.
    unfold v_evict in Hr, Hp, Hv3, Hok |- *. rewrite Hf, Z.eqb_refl in Hr, Hp, Hv3, Hok |- *. injection Hr as <-.
    split; [|split; [by rewrite Hw3; cbn; rewrite E3|exact Hp]].
    split; [done|]. split; [done|]. rewrite Hw3. cbn. rewrite E2, Hd. split; [apply Hst1|].
    eapply consistent_remove; [apply Hst1|done].
  - assert (w2 = w1) as ->.
    { destruct found as [m|]; [|by injection H2 as _ <-].
      destruct (Z.eqb_spec (eligible_at m) (cand_eligible_at x)); [destruct Hstale; by exists m|by injection H2 as _ <-]. }
    apply Hev in H3 as (Hr & Hv3 & Hw3); [|apply Hst1].
    assert (v_evict c a (cand_eligible_at x) v = (Ok Stale, v_drop_row c (cand_eligible_at x) a v)) as Ev.
    { unfold v_evict. rewrite Hf. destruct found as [m|]; [|done].
      destruct (Z.eqb_spec (eligible_at m) (cand_eligible_at x)); [destruct Hstale; by exists m|done]. }
    rewrite Ev in *. injection Hr as <-. exists (v_drop_row c (cand_eligible_at x) a v).
    split; [|split; [by rewrite Hw3|apply pass_same; cbn; try done; lia]].
    split; [done|]. split; [done|]. rewrite Hw3. split; apply Hst1.
Qed.

Lemma process_ok cfg mode_ t c x b v w b' f w' record :
  steady (cache_files cfg) v w -> is_u64 (cand_eligible_at x) -> 0 <= t ->
  mv_channels v !! c = Some record -> state record = Active -> 0 <= remaining_bytes b ->
  process_candidate cfg mode_ t (expiry_seconds record) c x b w = (Ok (b', f), w') ->
  exists v', steady (cache_files cfg) v' w' /\ w_recent w' = w_recent w /\ pass mode_ t (w_recent w) v b v' b'.
Proof.
  intros Hst Hu Ht Hc Ha Hb H. unfold process_candidate in H.
  destruct (exhausted b) eqn:Hx; [injection H as <- <- <-; exists v; auto using pass_refl|].
  apply orb_false_iff in Hx as [Hx1%Nat.eqb_neq Hx2%Z.eqb_neq].
  destruct (bool_decide (mode_ = Normal) && negb (cand_eligible_at x <=? t)) eqn:Hbr;
    [injection H as <- <- <-; exists v; auto using pass_refl|].
  apply bind_ok in H as (w0 & w0' & [= <- <-] & H).
  destruct (bool_decide (mode_ = Normal) && seen c (cand_artifact x) (w_recent w)) eqn:Hre.
  - apply andb_true_iff in Hre as [Hno%bool_decide_eq_true Hs]. subst mode_. rewrite bool_decide_true in Hbr by done.
    cbn in Hbr. apply negb_false_iff, Z.leb_le in Hbr.
    apply bind_ok in H as (u & w1 & H1 & H). apply bind_ok in H as (u' & w2 & [= _ <-] & H). injection H as <- <- <-.
    assert (0 <= expiry_seconds record) as Hex by (eapply (proj2 (proj1 (proj2 Hst))); exact Hc).
    set (new := saturating_add t (expiry_seconds record)) in *. set (old := cand_eligible_at x) in *.
    pose proof (steady_execute (Requeue c (cand_artifact x) old new) (cache_files cfg) v w ltac:(done) Hst) as Hok.
    cbn [v_execute] in Hok. rewrite v_answering_state in Hok.
    apply (c_meta_ok _ (v_requeue c (cand_artifact x) old new) v) in H1 as (_ & Hv1 & Hw1);
      [|apply requeue_law; [done|by apply deadline_u64]|apply Hst].
    exists (v_requeue c (cand_artifact x) old new v).2. split; [|split; [by rewrite Hw1|]].
    + split; [done|]. split; [done|]. rewrite Hw1. split; [apply Hst|]. cbn. intros c' a'.
      pose proof (proj2 (proj2 (proj2 Hst)) c' a') as Hco. unfold v_requeue.
      destruct (mv_artifacts v !! (c, cand_artifact x)) as [m|] eqn:Hm; [|exact Hco].
      case_bool; [|exact Hco]. cbn. destruct (decide ((c', a') = (c, cand_artifact x))) as [[= -> ->]|Hne].
      * rewrite lookup_insert_eq, Hm in *. destruct (nodes (w_fs w) !! _) as [[|content]|]; try done.
      * by rewrite lookup_insert_ne by congruence.
    + destruct (mv_artifacts v !! (c, cand_artifact x)) as [m|] eqn:Hm.
      * destruct (Z.eqb_spec (eligible_at m) old) as [<-|Hne].
        { by apply pass_requeue. }
        unfold v_requeue. rewrite Hm, (proj2 (Z.eqb_neq _ _) Hne). apply pass_same; cbn; try done; lia.
      * unfold v_requeue. rewrite Hm. apply pass_same; cbn; try done; lia.
  - apply bind_ok in H as (b1 & w1 & H1 & H). injection H as <- <- <-.
    eapply reclaim_one_ok in H1; try done; try lia. destruct mode_; [|by left]. right.
    rewrite bool_decide_true in Hbr, Hre by done. cbn in Hbr, Hre. apply negb_false_iff, Z.leb_le in Hbr. done.
Qed.

Lemma candidates_loop_ok cfg mode_ t c l record : 0 <= t -> state record = Active -> candidates_u64 l ->
  forall b v w b' go w', steady (cache_files cfg) v w -> mv_channels v !! c = Some record -> 0 <= remaining_bytes b ->
  candidates_loop cfg mode_ t (expiry_seconds record) c l b w = (Ok (b', go), w') ->
  exists v', steady (cache_files cfg) v' w' /\ w_recent w' = w_recent w /\ pass mode_ t (w_recent w) v b v' b'.
Proof.
  intros Ht Ha. induction l as [|x l IH]; intros Hl b v w b' go w' Hst Hc Hb H; cbn in H.
  { injection H as <- _ <-. exists v. auto using pass_refl. }
  inversion_clear Hl as [|?? Hx Hl']. apply bind_ok in H as ([b1 f] & w1 & H1 & H).
  eapply process_ok in H1 as (v1 & Hst1 & Hr1 & Hp1); try done.
  assert (0 <= remaining_bytes b1) as Hb1 by (rewrite (ps_bytes _ _ _ _ _ _ _ Hp1); unfold saturating_sub; lia).
  destruct f; [|injection H as <- _ <-; eauto..].
  eapply (IH Hl') in H as (v2 & Hst2 & Hr2 & Hp2); try done; [|by rewrite (ps_channels _ _ _ _ _ _ _ Hp1)].
  exists v2. rewrite Hr1 in Hr2, Hp2. split; [done|]. split; [done|]. by eapply pass_trans.
Qed.

(** Reading the expiry of a channel. *)
Lemma channel_expiry_ok c v w expiry w' :
  viewed v w -> channel_expiry c w = (Ok expiry, w') ->
  viewed v w' /\ w' = set_db (w_db w') w
  /\ exists r, mv_channels v !! c = Some r /\ state r = Active /\ expiry_seconds r = expiry.
Proof.
  intros Hv H. unfold channel_expiry in H. apply bind_ok in H as (found & w1 & H1 & H).
  apply (c_meta_ok _ (v_channel c) v) in H1 as ([= Hf] & Hv1 & Hw1); [|apply channel_law|done].
  destruct found as [r|]; [|done]. case_bool_decide; [|done]. injection H as <- <-. eauto 10.
Qed.

Lemma channels_loop_ok cfg mode_ t channels : 0 <= t ->
  forall b v w b' w', steady (cache_files cfg) v w -> 0 <= remaining_bytes b ->
  channels_loop cfg mode_ t channels b w = (Ok b', w') ->
  exists v', steady (cache_files cfg) v' w' /\ w_recent w' = w_recent w /\ pass mode_ t (w_recent w) v b v' b'.
Proof.
  intros Ht. induction channels as [|c channels IH]; intros b v w b' w' Hst Hb H; cbn in H.
  { injection H as <- <-. exists v. auto using pass_refl. }
  destruct (exhausted b); [injection H as <- <-; exists v; auto using pass_refl|].
  apply bind_ok in H as (expiry & w1 & H1 & H). apply (channel_expiry_ok _ v) in H1 as (Hv1 & Hw1 & record & Hc & Ha & <-); [|apply Hst].
  assert (steady (cache_files cfg) v w1) as Hst1.
  { destruct Hst as (_ & ? & ? & ?). split; [done|]. by rewrite Hw1. }
  apply bind_ok in H as (l & w2 & H2 & H).
  pose proof (candidates_sound c (remaining_candidates b) w1 (steady_sound _ _ _ Hst1)) as Hl. rewrite H2 in Hl. destruct Hl as [Hl _].
  pose proof H2 as (_ & _ & Hw2)%(c_meta_ok _ (v_reclaim_candidates c (remaining_candidates b)) v);
    [|apply reclaim_candidates_law|done].
  apply (steady_meta (cache_files cfg) _ (v_reclaim_candidates c (remaining_candidates b)) RCandidates
    (ReclaimCandidates c (remaining_candidates b)) v) in H2 as [Hst2 _]; [|apply reclaim_candidates_law|done..].
  assert (w_recent w2 = w_recent w) as Hr2 by (by rewrite Hw2, Hw1).
  apply bind_ok in H as ([b1 go] & w3 & H3 & H).
  eapply candidates_loop_ok in H3 as (v3 & Hst3 & Hr3 & Hp3); try done. rewrite Hr2 in Hr3, Hp3.
  destruct go; [|injection H as <- <-; eauto].
  eapply IH in H as (v4 & Hst4 & Hr4 & Hp4); [|done|rewrite (ps_bytes _ _ _ _ _ _ _ Hp3); unfold saturating_sub; lia].
  exists v4. rewrite Hr3 in Hr4, Hp4. split; [done|]. split; [done|]. by eapply pass_trans.
Qed.

(** A whole pass. *)
Lemma maintenance_ok cfg observation limit v w n w' :
  steady (cache_files cfg) v w -> 0 <= reclaim_byte_limit cfg ->
  run_maintenance_once cfg observation limit w = (Ok n, w') ->
  exists v' b, steady (cache_files cfg) v' w' /\ w_recent w' = w_recent w /\ n = reclaimed b
    /\ pass (mode (refresh observation (w_space w))).1 (w_clock w (w_ticks w)) (w_recent w) v
         {| remaining_candidates := limit; remaining_bytes := reclaim_byte_limit cfg; reclaimed := 0 |} v' b.
Proof.
  intros Hst Hb H. unfold run_maintenance_once in H. set (sp := refresh observation (w_space w)) in *.
  repeat (apply bind_ok in H as (? & ? & [= <- <-] & H)). cbn [w_space set_metrics set_space] in H.
  fold sp in H. destruct (mode sp) as [mode_ space] eqn:Em.
  repeat (apply bind_ok in H as (? & ? & [= <- <-] & H)).
  set (w1 := set_ticks _ _) in H. assert (steady (cache_files cfg) v w1) as Hst1 by (by eapply steady_other).
  apply bind_ok in H as (channels & w2 & H2 & H).
  assert (steady (cache_files cfg) v w2 /\ w_recent w2 = w_recent w) as [Hst2 Hr2].
  { unfold active_channels in H2. apply bind_ok in H2 as (rs & w3 & H3 & H2). injection H2 as _ <-.
    apply (c_meta_ok _ v_channels v) in H3 as (_ & Hv3 & Hw3); [|apply channels_law|apply Hst1].
    rewrite Hw3. split; [|done]. destruct Hst1 as (_ & ? & ? & ?). split; [exact Hv3|]. done. }
  apply bind_ok in H as (? & ? & [= <- <-] & H). apply bind_ok in H as (order & w3 & H3 & H).
  assert (steady (cache_files cfg) v w3 /\ w_recent w3 = w_recent w) as [Hst3 Hr3].
  { destruct channels; [by injection H3 as _ <-|]. apply bind_ok in H3 as (? & ? & [= <- <-] & H3).
    injection H3 as _ <-. split; [by eapply steady_other|done]. }
  apply bind_ok in H as (b & w4 & H4 & H). apply bind_ok in H as (? & ? & [= <- <-] & H). injection H as <- <-.
  eapply channels_loop_ok in H4 as (v4 & Hst4 & Hr4 & Hp4); [|apply Hst|done|done]. rewrite Hr3 in Hr4, Hp4.
  exists v4, b. split; [by eapply steady_other|]. split; [done|]. by split.
Qed.
End Runs.
