(* ===== verification/Shard.v ===== *)
(** * A shard: every operation that changes its state

    The calls of the cache service, of the channel service and of maintenance, in any order and
    with any of their store writes and system calls failing. *)

From S2P Require Import Prelude Externals Domain Metadata MetadataView MetadataRefinement MetadataStore Space RecentUse Filesystem ArtifactFiles FilesLemmas World Channels ChannelLemmas ChannelClaims Cache CacheLemmas CacheConsistency CacheMaintenance.

Section Shard.
Context {UL : UlidLib} {ULL : UlidLaws} {HX : HexLib} {HXL : HexLaws} {SH : Sha256Lib} {BS : Base64Lib}.
Context {ZS : ZstdLib} {ZSL : ZstdLaws} {DH : DefaultHasherLib}.
Context {S : Type} {MS : MetadataStore S} {ML : MetadataLaws S}.
Implicit Types (v : MetaView) (w : World S) (cfg : CacheConfig).

Inductive shard_call :=
| Publish (name : bytes) (request : PublishRequest)
| Locate (c : ChannelId) (a : ArtifactId)
| Bind (c : ChannelId) (n : bytes) (a : ArtifactId) (etag_ last_modified_ : option bytes) (d : Durability)
| Unbind (c : ChannelId) (n : bytes)
| Reconcile
| Maintain (observation : option Z) (limit : nat)
| Register (id : ChannelId) (secret : bytes32) (protected : bool) (expiry : Z)
| Patch (id : ChannelId) (credential : option bytes) (expiry : Z)
| Delete (id : ChannelId) (credential : option bytes)
| Resume.

(** The world after a call, whatever the call returned. *)
Definition shard_step cfg (call : shard_call) w : World S :=
  match call with
  | Publish name request => (publish_or_reject cfg name request w).2
  | Locate c a => (locate cfg c a w).2
  | Bind c n a e l d => (bind_reference_with_validators c n a e l d w).2
  | Unbind c n => (cache_delete_reference c n w).2
  | Reconcile => (reconcile cfg w).2
  | Maintain observation limit => (flywheel_maintenance cfg observation limit w).2
  | Register id secret protected expiry => (register id secret protected expiry w).2
  | Patch id credential expiry =>
      ((lease ← authorize_with_lease id credential; update_expiry lease expiry) w).2
  | Delete id credential => (delete_channel (cache_files cfg) id credential w).2
  | Resume => (resume_deletions (cache_files cfg) w).2
  end.

Definition shard_run cfg (calls : list shard_call) w : World S := fold_left (fun w call => shard_step cfg call w) calls w.

(** Arguments within their types: lengths, expiries and samples are machine integers. *)
Definition call_wf cfg (call : shard_call) : Prop :=
  match call with
  | Publish _ request => request_wf (max_upload_bytes cfg) (req_content_length request)
  | Maintain observation _ => forall x, observation = Some x -> is_u64 x
  | Register _ _ _ expiry | Patch _ _ expiry => 0 <= expiry
  | _ => True
  end.

(** ** Channel operations and the invariants *)

Lemma sound_store {A} (op : M S MetadataError A) spec (f : A -> response) cmd :
  implements stands_for op spec -> v_execute cmd = v_answering f spec ->
  (forall x, cmd = CreateChannel x \/ cmd = StoreChannel x -> 0 <= expiry_seconds x) ->
  preserves sound (ch_store op).
Proof.
  intros Hop Hcmd Hne w [Hv Hk].
  assert (preserves (view_inv view_ok) (ch_store op)) as HP.
  { eapply ch_store_inv; [exact Hop|]. intros v [Hq He]. rewrite <- (v_answering_state f), <- Hcmd.
    split; [by apply execute_queued|by apply execute_expiries]. }
  specialize (HP w Hv). unfold ch_store, raising, in_db, zoom in *.
  by destruct (op (w_db w)) as [[] db].
Qed.

Lemma sound_ch_local {A} (m : M (Local SpaceLedger) LocalError A) : preserves sound (ch_local m : M (World S) ChannelError A).
Proof.
  intros w Hw. unfold ch_local, raising, in_local, zoom. destruct (m (get_local w)) as [[] l]; by eapply sound_of_store.
Qed.

Lemma sound_gate id : preserves sound (gate id : M (World S) ChannelError unit).
Proof. apply preserves_modify. intros w. by apply sound_of_store. Qed.

Lemma sound_forget id : preserves sound (forget id : M (World S) ChannelError unit).
Proof. apply preserves_modify. intros w. by apply sound_of_store. Qed.

Lemma finish_deletion_sound files id : preserves sound (finish_deletion (S:=S) files id).
Proof.
  unfold finish_deletion. apply preserves_bind.
  { eapply (sound_store _ _ (fun _ => RUnit) (DeleteChannelData id)); [apply delete_channel_data_law|done|by intros ? [?|?]]. }
  intros _. apply preserves_bind; [apply sound_ch_local|]. intros _. apply preserves_bind; [|intros _; apply sound_forget].
  eapply (sound_store _ _ (fun _ => RUnit) (FinishChannelDeletion id)); [apply finish_channel_deletion_law|done|by intros ? [?|?]].
Qed.

Lemma authorize_sound id credential :
  triple sound (authorize (S:=S) id credential) (fun r w => 0 <= expiry_seconds r /\ sound w) (fun _ => sound).
Proof.
  intros w [(v & Hv & Hok) Hk]. destruct (authorize id credential w) as [[r|e] w'] eqn:E.
  - apply (authorize_ok v) in E as (Hv' & Hw & Hl & _); [|done]. split; [by eapply (proj2 Hok)|].
    rewrite Hw. split; [by exists v|done].
  - apply (authorize_err v) in E as (Hv' & Hw); [|done]. rewrite Hw. split; [by exists v|done].
Qed.

Lemma lease_sound id credential :
  triple sound (authorize_with_lease (S:=S) id credential) (fun r w => 0 <= expiry_seconds r /\ sound w) (fun _ => sound).
Proof.
  unfold authorize_with_lease. eapply triple_bind; [apply authorize_sound|]. intros r w [_ Hw]. revert w Hw.
  apply (triple_bind _ _ sound _ (fun _ => sound) (fun _ => sound)); [apply sound_gate|]. intros _. apply authorize_sound.
Qed.

Lemma register_sound id secret protected expiry : 0 <= expiry -> preserves sound (register (S:=S) id secret protected expiry).
Proof.
  intros He. unfold register. apply preserves_bind.
  { intros w Hw. eapply sound_of_store; [..|exact Hw]; done. }
  intros t. apply preserves_bind.
  { eapply (sound_store _ _ (fun _ => RUnit) (CreateChannel _)); [apply create_channel_law|done|by intros x [[= <-]|?]]. }
  intros _. apply preserves_bind; [apply sound_gate|]. intros _. apply preserves_ret.
Qed.

Lemma store_sound record : 0 <= expiry_seconds record -> preserves sound (ch_store (ms_store_channel record)).
Proof.
  intros He. eapply (sound_store _ _ (fun _ => RUnit) (StoreChannel record)); [apply store_channel_law|done|by intros x [?|[= <-]]].
Qed.

Lemma patch_sound id credential expiry : 0 <= expiry ->
  preserves sound (lease ← authorize_with_lease id credential; update_expiry (S:=S) lease expiry).
Proof.
  intros He. eapply triple_bind; [apply lease_sound|]. intros lease. apply triple_pure. intros _.
  unfold update_expiry. apply preserves_bind; [by apply store_sound|]. intros _. apply preserves_ret.
Qed.

Lemma delete_sound files id credential : preserves sound (delete_channel (S:=S) files id credential).
Proof.
  unfold delete_channel. case_decide; [apply preserves_throw|].
  eapply triple_bind; [apply lease_sound|]. intros lease. apply triple_pure. intros He.
  apply preserves_bind; [by apply store_sound|]. intros _. apply preserves_bind; [apply sound_gate|].
  intros _. apply finish_deletion_sound.
Qed.

Lemma resume_sound files : preserves sound (resume_deletions (S:=S) files).
Proof.
  unfold resume_deletions. apply preserves_bind.
  { eapply (sound_store _ _ RChannels ReadChannels); [apply channels_law|done|by intros ? [?|?]]. }
  intros records. apply preserves_for_each. intros r. apply preserves_bind; [apply sound_gate|].
  intros _. apply finish_deletion_sound.
Qed.

(** The disk. *)
Lemma ch_store_disk {A} rest files (m : M S MetadataError A) : preserves (disk_ok rest files) (ch_store m).
Proof. intros w Hw. unfold ch_store, raising, in_db, zoom. by destruct (m (w_db w)) as [[] db]. Qed.

Lemma ch_modify_disk rest files f :
  (forall w, w_fs (f w) = w_fs w /\ w_space (f w) = w_space w) ->
  preserves (disk_ok rest files) (modify f : M (World S) ChannelError unit).
Proof.
  intros Hf. apply preserves_modify. intros w Hw. destruct (Hf w) as [E1 E2].
  unfold disk_ok, get_local. rewrite E1, E2. exact Hw.
Qed.

Lemma finish_deletion_disk rest files id : preserves (disk_ok rest files) (finish_deletion (S:=S) files id).
Proof.
  unfold finish_deletion. apply preserves_bind; [apply ch_store_disk|]. intros _. apply preserves_bind.
  - intros w [Hh Hi]. unfold ch_local, raising, in_local, zoom.
    pose proof (remove_channel_intact (R:=SpaceLedger) files id (get_local w) Hi) as HI.
    assert (l_space (remove_channel files id (get_local w)).2 = w_space w) as Hs.
    { unfold remove_channel, mbind, M_bind, try, l_fs_op, raising, zoom.
      destruct (remove_dir_all _ _) as [[[]|io] fs]; [done|]. by destruct io. }
    destruct (remove_channel files id (get_local w)) as [[] l]; cbn in *; (split; [cbn; by rewrite Hs|exact HI]).
  - intros _. apply preserves_bind; [apply ch_store_disk|]. intros _. by apply ch_modify_disk.
Qed.

Lemma authorize_disk rest files id credential : preserves (disk_ok rest files) (authorize (S:=S) id credential).
Proof.
  unfold authorize. apply preserves_bind; [apply ch_store_disk|]. intros [r|]; [|apply preserves_throw].
  apply preserves_bind; [apply preserves_lift|]. intros _. case_bool; auto with flywheel.
Qed.

Lemma lease_disk rest files id credential : preserves (disk_ok rest files) (authorize_with_lease (S:=S) id credential).
Proof.
  unfold authorize_with_lease. apply preserves_bind; [apply authorize_disk|]. intros _.
  apply preserves_bind; [by apply ch_modify_disk|]. intros _. apply authorize_disk.
Qed.

Lemma channel_calls_disk rest files :
  (forall id secret protected expiry, preserves (disk_ok rest files) (register (S:=S) id secret protected expiry))
  /\ (forall id credential expiry, preserves (disk_ok rest files)
        (lease ← authorize_with_lease id credential; update_expiry (S:=S) lease expiry))
  /\ (forall id credential, preserves (disk_ok rest files) (delete_channel (S:=S) files id credential))
  /\ preserves (disk_ok rest files) (resume_deletions (S:=S) files).
Proof.
  split; [|split; [|split]].
  - intros id secret protected expiry. unfold register. apply preserves_bind; [by intros w Hw|]. intros t.
    apply preserves_bind; [apply ch_store_disk|]. intros _. apply preserves_bind; [by apply ch_modify_disk|].
    intros _. apply preserves_ret.
  - intros id credential expiry. apply preserves_bind; [apply lease_disk|]. intros lease. unfold update_expiry.
    apply preserves_bind; [apply ch_store_disk|]. intros _. apply preserves_ret.
  - intros id credential. unfold delete_channel. case_decide; [apply preserves_throw|].
    apply preserves_bind; [apply lease_disk|]. intros lease. apply preserves_bind; [apply ch_store_disk|]. intros _.
    apply preserves_bind; [by apply ch_modify_disk|]. intros _. apply finish_deletion_disk.
  - unfold resume_deletions. apply preserves_bind; [apply ch_store_disk|]. intros records.
    apply preserves_for_each. intros r. apply preserves_bind; [by apply ch_modify_disk|]. intros _. apply finish_deletion_disk.
Qed.

(** ** Every call *)

Lemma preserves_after {E A} (I : World S -> Prop) (m : M (World S) E A) w : preserves I m -> I w -> I (m w).2.
Proof. intros H Hw. specialize (H w Hw). by destruct (m w) as [[] w']. Qed.

Lemma flywheel_sound cfg observation limit : preserves sound (flywheel_maintenance (S:=S) cfg observation limit).
Proof.
  unfold flywheel_maintenance. apply preserves_bind; [apply maintenance_sound|]. intros n.
  apply preserves_bind; [by apply sound_modify|]. intros _. apply preserves_ret.
Qed.

Lemma flywheel_disk rest cfg observation limit : (forall x, observation = Some x -> is_u64 x) ->
  preserves (disk_ok rest (cache_files cfg)) (flywheel_maintenance (S:=S) cfg observation limit).
Proof.
  intros Ho. unfold flywheel_maintenance. apply preserves_bind; [by apply maintenance_disk|]. intros n.
  apply preserves_bind; [by apply disk_ok_modify|]. intros _. apply preserves_ret.
Qed.

Lemma step_sound cfg call w : call_wf cfg call -> sound w -> sound (shard_step cfg call w).
Proof.
  intros Hc Hw. destruct call; cbn in *; apply preserves_after; try done;
    auto using publish_sound, locate_sound, bind_sound, cache_delete_reference_sound, reconcile_sound, flywheel_sound,
      register_sound, patch_sound, delete_sound, resume_sound.
Qed.

Lemma step_disk rest cfg call w : 0 <= rest -> files_wf (cache_files cfg) -> call_wf cfg call ->
  disk_ok rest (cache_files cfg) w -> disk_ok rest (cache_files cfg) (shard_step cfg call w).
Proof.
  intros Hr Hf Hc Hw. destruct (channel_calls_disk rest (cache_files cfg)) as (H1 & H2 & H3 & H4).
  destruct call; cbn in *; apply preserves_after; try done;
    auto using publish_request_disk, locate_disk, bind_disk, cache_delete_reference_disk, reconcile_disk, flywheel_disk.
Qed.

Lemma run_sound cfg calls w : Forall (call_wf cfg) calls -> sound w -> sound (shard_run cfg calls w).
Proof.
  intros HF. unfold shard_run. revert w. induction HF as [|call calls Hc _ IH]; intros w Hw; [done|].
  cbn. by apply IH, step_sound.
Qed.

Lemma run_disk rest cfg calls w : 0 <= rest -> files_wf (cache_files cfg) -> Forall (call_wf cfg) calls ->
  disk_ok rest (cache_files cfg) w -> disk_ok rest (cache_files cfg) (shard_run cfg calls w).
Proof.
  intros Hr Hf HF. unfold shard_run. revert w. induction HF as [|call calls Hc _ IH]; intros w Hw; [done|].
  cbn. by apply IH, step_disk.
Qed.

(** ** Channels that are being deleted, or are gone *)

(** Nothing is stored under the channel. *)
Definition vacant v (id : ChannelId) : Prop :=
  (forall a, mv_artifacts v !! (id, a) = None) /\ (forall n, mv_references v !! (id, n) = None)
  /\ (forall t a, (id, t, a) ∉ mv_queue v).

Lemma bind_vacant c reference v id : id ≠ c -> vacant v id -> vacant (v_bind c reference v) id.
Proof.
  intros Hne (A & B & C). destruct reference as [[n x]|]; [|done]. split; [done|]. split; [|done].
  intros n'. cbn. rewrite lookup_insert_ne; [done|congruence].
Qed.

Lemma commit_vacant c a m reference v id : id ≠ c -> vacant v id -> vacant (v_commit_publication c a m reference v).2 id.
Proof.
  intros Hne Hv. unfold v_commit_publication. destruct (mv_artifacts v !! (c, a)); cbn; apply bind_vacant; auto.
  destruct Hv as (A & B & C). split; [intros a'; cbn; rewrite lookup_insert_ne; [done|congruence]|]. split; [done|].
  intros t' a' Hin. cbn in Hin. apply elem_of_union in Hin as [[= -> _ _]%elem_of_singleton|Hin]; [done|by apply C in Hin].
Qed.

Lemma commit_channels c a m reference v : mv_channels (v_commit_publication c a m reference v).2 = mv_channels v.
Proof. unfold v_commit_publication. destruct (mv_artifacts v !! (c, a)), reference as [[]|]; done. Qed.

(** Removals are always allowed. *)
Lemma remove_artifact_vacant c a v id : vacant v id -> vacant (v_remove_artifact c a v).2 id.
Proof.
  intros (A & B & C). unfold v_remove_artifact. destruct (mv_artifacts v !! (c, a)); [|done]. split; [|split; [done|]]; cbn.
  - intros a'. apply lookup_delete_None. auto.
  - intros t' a' [Hin _]%elem_of_difference. by apply C in Hin.
Qed.

Lemma remove_artifact_channels c a v : mv_channels (v_remove_artifact c a v).2 = mv_channels v.
Proof. unfold v_remove_artifact. by destruct (mv_artifacts v !! (c, a)). Qed.

Lemma delete_reference_vacant c n v id : vacant v id -> vacant (v_delete_reference c n v).2 id.
Proof. intros (A & B & C). split; [done|]. split; [|done]. intros n'. cbn. apply lookup_delete_None. auto. Qed.

Lemma wipe_vacant c v id : vacant v id -> vacant (wipe c v) id.
Proof.
  intros (A & B & C). split; [|split]; cbn.
  - intros a. apply map_lookup_filter_None. auto.
  - intros n. apply map_lookup_filter_None. auto.
  - intros t a [_ Hin]%elem_of_filter. by apply C in Hin.
Qed.

Lemma wiped_vacant c v : vacant (wipe c v) c.
Proof.
  split; [|split]; cbn.
  - intros a. apply map_lookup_filter_None. right. by intros x _ [].
  - intros n. apply map_lookup_filter_None. right. by intros x _ [].
  - intros t a [Hne _]%elem_of_filter. by apply Hne.
Qed.

Lemma requeue_vacant c a old new v id : vacant v id -> vacant (v_requeue c a old new v).2 id.
Proof.
  intros (A & B & C). unfold v_requeue. destruct (mv_artifacts v !! (c, a)) as [m|] eqn:E; [|done]. case_match; [|done].
  assert (c ≠ id) as Hne by (intros ->; by rewrite A in E). split; [|split; [done|]]; cbn.
  - intros a'. rewrite lookup_insert_ne; [done|congruence].
  - intros t' a' [[= -> _ _]%elem_of_singleton|[Hin _]%elem_of_difference]%elem_of_union; [done|]. by apply C in Hin.
Qed.

Lemma evict_vacant c a t v id : vacant v id -> vacant (v_evict c a t v).2 id.
Proof.
  intros (A & B & C). assert (vacant (v_drop_row c t a v) id) as Hd.
  { split; [done|]. split; [done|]. intros t' a' Hin. cbn in Hin. apply elem_of_difference in Hin as [Hin _]. by apply C in Hin. }
  unfold v_evict. destruct (mv_artifacts v !! (c, a)) as [m|]; [|done]. case_match; [|done]. split; [|split; [done|apply Hd]].
  intros a'. cbn. apply lookup_delete_None. auto.
Qed.

Lemma vacant_no_rows v id : vacant v id <-> wipe id v = v.
Proof.
  split.
  - intros (A & B & C). destruct v as [ch ar re q]. unfold wipe. cbn in *. f_equal.
    + apply map_filter_id. intros [c a] x H <-. cbn in *. by rewrite A in H.
    + apply map_filter_id. intros [c n] x H <-. cbn in *. by rewrite B in H.
    + apply leibniz_equiv. intros [[c t] a]. rewrite elem_of_filter. cbn. split; [tauto|]. intros H. split; [|done]. intros ->. by apply C in H.
  - intros <-. apply wiped_vacant.
Qed.

(** The channel has no record that is active, and no rows once it has none at all. *)
Definition condemned (id : ChannelId) v : Prop :=
  match mv_channels v !! id with Some record => state record = Deleting | None => vacant v id end.

Lemma condemned_doomed id v : condemned id v <-> doomed id v.
Proof.
  unfold condemned, doomed, no_rows. rewrite <- vacant_no_rows. destruct (mv_channels v !! id) as [r|]; split; try naive_solver.
Qed.

(** *** The cache's calls leave the records of channels alone, and add rows to active channels only. *)

Section Kept.
Variables (chans : gmap ChannelId ChannelRecord) (gone : ChannelId -> Prop).
Hypothesis gone_inactive : forall id record, gone id -> chans !! id = Some record -> state record = Deleting.

Definition kept_view v : Prop := mv_channels v = chans /\ forall id, gone id -> mv_channels v !! id = None -> vacant v id.
Definition both w : Prop := sound w /\ view_inv kept_view w.

Lemma both_and {E A} (m : M (World S) E A) : preserves sound m -> preserves (view_inv kept_view) m -> preserves both m.
Proof. intros H1 H2 w [Hs Hv]. specialize (H1 w Hs). specialize (H2 w Hv). by destruct (m w) as [[] w']. Qed.

Lemma both_triple {E A} (m : M (World S) E A) (P : A -> Prop) :
  triple sound m (fun x w => P x /\ sound w) (fun _ => sound) -> preserves (view_inv kept_view) m ->
  triple both m (fun x w => P x /\ both w) (fun _ => both).
Proof. intros H1 H2 w [Hs Hv]. specialize (H1 w Hs). specialize (H2 w Hv). destruct (m w) as [[] w']; [|done]. by destruct H1. Qed.

Lemma view_meta {A} (op : M S MetadataError A) spec : implements stands_for op spec ->
  (forall v, mv_channels (spec v).2 = mv_channels v) -> (forall v id, gone id -> vacant v id -> vacant (spec v).2 id) ->
  preserves (view_inv kept_view) (c_meta op).
Proof.
  intros H Hc Hv. apply preserves_raising. eapply in_db_inv; [exact H|]. intros v [E1 E2]. split; [by rewrite Hc|].
  intros id Hg Hn. rewrite Hc in Hn. auto.
Qed.

Lemma view_local {A} (m : M (Local SpaceLedger) LocalError A) : preserves (view_inv kept_view) (c_local m : M (World S) CacheError A).
Proof.
  intros w Hw. unfold c_local, raising, in_local, zoom. destruct (m (get_local w)) as [[] l]; destruct Hw as (v & ? & ?); by exists v.
Qed.

Lemma both_local {A} (m : M (Local SpaceLedger) LocalError A) : preserves both (c_local m : M (World S) CacheError A).
Proof. apply both_and; [apply sound_local|apply view_local]. Qed.

Lemma both_modify {E} f : (forall w, w_db (f w) = w_db w /\ w_clock (f w) = w_clock w) -> preserves both (modify f : M (World S) E unit).
Proof.
  intros Hf. apply preserves_modify. intros w [Hs (v & Hv & Hk)]. destruct (Hf w) as [E1 E2]. split; [by eapply sound_of_store|].
  exists v. split; [|done]. unfold viewed in *. by rewrite E1.
Qed.

Lemma both_settle f : preserves both (settle (S:=S) f).
Proof. by apply both_modify. Qed.

Lemma view_now {E} : preserves (view_inv kept_view) (now : M (World S) E Z).
Proof. intros w (v & ? & ?). by exists v. Qed.

Lemma both_now : triple both (now : M (World S) CacheError Z) (fun t w => 0 <= t /\ both w) (fun _ => both).
Proof. apply both_triple; [apply now_nonneg|apply view_now]. Qed.

Lemma both_clock : preserves both (now : M (World S) CacheError Z).
Proof. apply both_and; [apply sound_now|apply view_now]. Qed.

Lemma view_read_artifact c a : preserves (view_inv kept_view) (c_meta (ms_artifact c a)).
Proof. by eapply view_meta; [apply artifact_law|..]. Qed.
Lemma both_read_artifact c a : preserves both (c_meta (ms_artifact c a)).
Proof. apply both_and; [apply sound_read_artifact|apply view_read_artifact]. Qed.
Lemma view_read_channel c : preserves (view_inv kept_view) (c_meta (ms_channel c)).
Proof. by eapply view_meta; [apply channel_law|..]. Qed.
Lemma both_remove_artifact c a : preserves both (c_meta (ms_remove_artifact c a)).
Proof.
  apply both_and; [apply sound_remove_artifact|]. eapply view_meta; [apply remove_artifact_law|apply remove_artifact_channels|].
  intros v id _. apply remove_artifact_vacant.
Qed.
Lemma both_delete_reference c n : preserves both (c_meta (ms_delete_reference c n)).
Proof.
  apply both_and; [apply sound_delete_reference|]. eapply view_meta; [apply delete_reference_law|done|].
  intros v id _. apply delete_reference_vacant.
Qed.
Lemma both_evict c a t : is_u64 t -> preserves both (c_meta (ms_evict c a t)).
Proof.
  intros Ht. apply both_and; [by apply sound_evict|]. eapply view_meta; [by apply evict_law| |].
  - intros v. unfold v_evict. destruct (mv_artifacts v !! (c, a)); [by case_match|done].
  - intros v id _. apply evict_vacant.
Qed.
Lemma both_requeue c a old new : is_u64 old -> is_u64 new -> preserves both (c_meta (ms_requeue c a old new)).
Proof.
  intros Ho Hn. apply both_and; [by apply sound_requeue|]. eapply view_meta; [by apply requeue_law| |].
  - intros v. unfold v_requeue. destruct (mv_artifacts v !! (c, a)); [by case_match|done].
  - intros v id _. apply requeue_vacant.
Qed.

(** A channel with an active record is not gone. *)
Lemma read_active c :
  triple (view_inv kept_view) (c_meta (S:=S) (ms_channel c))
    (fun found w => (forall record, found = Some record -> state record = Active -> ~ gone c) /\ view_inv kept_view w) (fun _ => view_inv kept_view).
Proof.
  intros w Hw. pose proof (view_read_channel c w Hw) as HK. destruct Hw as (v & Hv & Hc & _).
  destruct (c_meta (ms_channel c) w) as [[found|e] w1] eqn:E; [|done]. split; [|done].
  apply (c_meta_ok _ (v_channel c) v) in E as ([= <-] & _); [|apply channel_law|done]. rewrite Hc. intros record Hr Ha Hg.
  rewrite (gone_inactive c record Hg Hr) in Ha. done.
Qed.

Lemma both_fence c :
  triple both (channel_fence (S:=S) c) (fun e w => (0 <= e /\ ~ gone c) /\ both w) (fun _ => both).
Proof.
  intros w [Hs Hv]. pose proof (fence_sound c w Hs) as H1.
  assert (triple (view_inv kept_view) (channel_fence (S:=S) c) (fun _ w => ~ gone c /\ view_inv kept_view w) (fun _ => view_inv kept_view)) as H2.
  { unfold channel_fence. eapply triple_bind with (Q' := fun _ => view_inv kept_view); [apply preserves_modify; intros w' (v & ? & ?); by exists v|].
    intros _. eapply triple_bind; [apply read_active|]. intros [record|] w' [Ha Hw']; [|done]. case_bool_decide; [|done].
    split; [by eapply Ha|done]. }
  specialize (H2 w Hv). destruct (channel_fence c w) as [[e|e] w']; [|done]. destruct H1, H2. done.
Qed.

Lemma both_commit_published c a staged commit_ expiry r n : 0 <= expiry -> ~ gone c ->
  preserves both (commit_published (S:=S) c a staged commit_ expiry r n).
Proof.
  intros He Hg. unfold commit_published. eapply triple_bind; [apply both_now|]. intros t. apply triple_pure. intros Ht.
  apply preserves_bind.
  { apply preserves_try, both_and; [apply sound_commit; by apply deadline_u64|].
    eapply view_meta; [apply commit_publication_law; by apply deadline_u64|intros v; apply commit_channels|].
    intros v id Hid. apply commit_vacant. by intros ->. }
  intros [created|e]; (apply preserves_bind; [apply both_settle|]); intros _; [apply preserves_ret|apply preserves_throw].
Qed.

Lemma both_publish cfg name request : preserves both (publish_or_reject (S:=S) cfg name request).
Proof.
  unfold publish_or_reject. apply preserves_bind; [apply both_local|]. intros [staged|stream]; [|apply preserves_ret].
  apply preserves_bind; [by apply both_modify|]. intros _. apply preserves_bind.
  { destruct (req_target request) as [a|[n|]]; [apply preserves_ret| |apply preserves_ret].
    apply preserves_bind; [apply both_clock|]. intros t. apply preserves_ret. }
  intros [a reference]. apply preserves_bind; [|intros p; apply preserves_ret].
  unfold commit_staged. eapply triple_bind with (Q' := fun r w => (forall e, r = Ok e -> 0 <= e /\ ~ gone (req_channel request)) /\ both w).
  { intros w Hw. unfold try. pose proof (both_fence (req_channel request) w Hw) as HF.
    destruct (channel_fence (req_channel request) w) as [[e|x] w1]; [|by split]. destruct HF. split; [by intros ? [= <-]|done]. }
  intros [expiry|e]; apply triple_pure; intros He.
  - destruct (He expiry eq_refl) as [H1 H2]. apply preserves_bind; [apply both_local|]. intros [r|r]; by apply both_commit_published.
  - apply preserves_bind; [apply both_settle|]. intros _. apply preserves_throw.
Qed.

Lemma both_locate cfg c a : preserves both (locate (S:=S) cfg c a).
Proof.
  unfold locate, locate_local. apply preserves_bind.
  - apply preserves_bind; [apply both_read_artifact|]. intros [m|]; [|apply preserves_ret].
    apply preserves_bind; [apply preserves_try, both_local|].
    intros [f|[[[]| | | | | |]| | | |]]; try apply preserves_ret; try apply preserves_throw.
    apply preserves_bind; [apply both_remove_artifact|]. intros _. apply preserves_ret.
  - intros [l|]; repeat (apply preserves_bind; [by apply both_modify|intros _]); apply preserves_ret.
Qed.

Lemma both_bind c n a e l d : preserves both (bind_reference_with_validators (S:=S) c n a e l d).
Proof.
  unfold bind_reference_with_validators. eapply triple_bind; [apply both_fence|]. intros x. apply triple_pure. intros [_ Hg].
  apply preserves_bind; [apply both_clock|]. intros t. apply both_and; [apply sound_bind|].
  eapply view_meta; [apply bind_reference_law|done|]. intros v id Hid Hv. apply (bind_vacant c (Some (n, _))); [by intros ->|done].
Qed.

Lemma both_unbind c n : preserves both (cache_delete_reference (S:=S) c n).
Proof.
  unfold cache_delete_reference. eapply triple_bind; [apply both_fence|]. intros x. apply triple_pure. intros _. apply both_delete_reference.
Qed.

Lemma both_reconcile cfg : preserves both (reconcile (S:=S) cfg).
Proof.
  unfold reconcile. apply preserves_bind; [apply both_local|]. intros _.
  apply preserves_bind; [apply both_local|]. intros orphans. apply preserves_for_each. intros [c a].
  unfold reconcile_one. apply preserves_bind; [apply both_read_artifact|]. intros [m|]; [apply preserves_ret|].
  apply preserves_bind; [apply both_read_artifact|]. intros [m|]; [apply preserves_ret|apply both_local].
Qed.

Lemma both_candidates cfg mode_ t expiry c l b : 0 <= t -> 0 <= expiry -> candidates_u64 l ->
  preserves both (candidates_loop (S:=S) cfg mode_ t expiry c l b).
Proof.
  intros Ht He Hl. revert b. induction Hl as [|x l Hx Hl IH]; intros b; [apply preserves_ret|]. cbn.
  apply preserves_bind; [|intros [b' []]; [apply IH|apply preserves_ret..]].
  unfold process_candidate. case_bool; [apply preserves_ret|]. case_bool; [apply preserves_ret|].
  apply preserves_bind; [apply preserves_get|]. intros w. case_bool.
  - apply preserves_bind; [apply both_requeue; [done|by apply deadline_u64]|]. intros _.
    apply preserves_bind; [by apply both_modify|]. intros _. apply preserves_ret.
  - apply preserves_bind; [|intros b'; apply preserves_ret]. unfold reclaim_one.
    apply preserves_bind; [apply both_read_artifact|]. intros found.
    apply preserves_bind; [destruct found as [m|]; [case_bool; [apply both_local|]|]; apply preserves_ret|]. intros _.
    apply preserves_bind; [by apply both_evict|]. intros ev. apply preserves_ret.
Qed.

Lemma both_channels cfg mode_ t channels b : 0 <= t -> preserves both (channels_loop (S:=S) cfg mode_ t channels b).
Proof.
  intros Ht. revert b. induction channels as [|c channels IH]; intros b; [apply preserves_ret|]. cbn.
  case_bool; [apply preserves_ret|]. eapply triple_bind.
  { apply (both_triple _ (fun e => 0 <= e)); [apply expiry_nonneg|]. apply preserves_bind; [apply view_read_channel|].
    intros [r|]; [case_bool_decide; [apply preserves_ret|]|]; apply preserves_throw. }
  intros expiry. apply triple_pure. intros He. eapply triple_bind.
  { apply (both_triple _ candidates_u64); [apply candidates_sound|]. by eapply view_meta; [apply reclaim_candidates_law|..]. }
  intros l. apply triple_pure. intros Hl. apply preserves_bind; [by apply both_candidates|].
  intros [b' []]; [apply IH|apply preserves_ret].
Qed.

Lemma both_maintain cfg observation limit : preserves both (flywheel_maintenance (S:=S) cfg observation limit).
Proof.
  unfold flywheel_maintenance, run_maintenance_once. apply preserves_bind.
  2: { intros n. apply preserves_bind; [by apply both_modify|]. intros _. apply preserves_ret. }
  apply preserves_bind; [by apply both_modify|]. intros _.
  apply preserves_bind; [by apply both_modify|]. intros _. apply preserves_bind; [apply preserves_get|]. intros w0.
  destruct (mode (w_space w0)) as [mode_ space]. apply preserves_bind; [by apply both_modify|]. intros _.
  eapply triple_bind; [apply both_now|]. intros t. apply triple_pure. intros Ht.
  apply preserves_bind.
  { unfold active_channels. apply preserves_bind; [|intros l; apply preserves_ret]. apply both_and; [apply sound_read_channels|].
    by eapply view_meta; [apply channels_law|..]. }
  intros l. apply preserves_bind; [apply preserves_get|]. intros w1.
  apply preserves_bind.
  { destruct l; [apply preserves_ret|]. apply preserves_bind; [by apply both_modify|]. intros _. apply preserves_ret. }
  intros l'. apply preserves_bind; [by apply both_channels|]. intros b.
  apply preserves_bind; [by apply both_modify|]. intros _. apply preserves_ret.
Qed.

(** The calls of the cache service. *)
Definition cache_call (call : shard_call) : bool :=
  match call with Publish _ _ | Locate _ _ | Bind _ _ _ _ _ _ | Unbind _ _ | Reconcile | Maintain _ _ => true | _ => false end.

Lemma cache_step_kept cfg call w : cache_call call = true -> both w -> both (shard_step cfg call w).
Proof.
  intros Hc Hw. destruct call; try done; cbn; apply preserves_after; try done;
    auto using both_publish, both_locate, both_bind, both_unbind, both_reconcile, both_maintain.
Qed.
End Kept.

(** *** Every call keeps a channel condemned, unless it registers it anew *)

Lemma cache_step_condemned cfg call id w : cache_call call = true -> sound w -> view_inv (condemned id) w ->
  view_inv (condemned id) (shard_step cfg call w).
Proof.
  intros Hc Hs (v & Hv & Hid).
  destruct (cache_step_kept (mv_channels v) (eq id)) with (cfg := cfg) (call := call) (w := w) as [_ (v' & Hv' & E & Hk)]; [|done| |].
  - intros id' record <- Hr. unfold condemned in Hid. by rewrite Hr in Hid.
  - split; [done|]. exists v. split; [done|]. split; [done|]. intros id' <- Hn. unfold condemned in Hid. by rewrite Hn in Hid.
  - exists v'. split; [done|]. unfold condemned in *. specialize (Hk id eq_refl). rewrite E in *.
    destruct (mv_channels v !! id); [done|]. auto.
Qed.

Lemma cache_step_default cfg call w : cache_call call = true -> sound w -> view_inv default_ok w -> view_inv default_ok (shard_step cfg call w).
Proof.
  intros Hc Hs (v & Hv & Hd).
  destruct (cache_step_kept (mv_channels v) (fun _ => False)) with (cfg := cfg) (call := call) (w := w) as [_ (v' & Hv' & E & _)]; [done|done| |].
  - split; [done|]. exists v. done.
  - exists v'. split; [done|]. unfold default_ok in *. by rewrite E.
Qed.

Lemma channels_condemned id v (f : gmap ChannelId ChannelRecord -> gmap ChannelId ChannelRecord) :
  (forall m, f m !! id = m !! id) -> condemned id v -> condemned id (with_channels f v).
Proof. intros Hf H. unfold condemned in *. cbn. rewrite Hf. destruct (mv_channels v !! id); [done|exact H]. Qed.

Lemma finish_deletion_condemned files id id' : preserves (view_inv (condemned id)) (finish_deletion (S:=S) files id').
Proof.
  destruct (decide (id' = id)) as [->|Hne].
  { intros w (v & Hv & Hid%condemned_doomed). pose proof (finish_deletion_doomed files id w (ex_intro _ v (conj Hv Hid))) as H.
    destruct (finish_deletion files id w) as [[] w']; destruct H as (v' & Hv' & Hid'%condemned_doomed); by exists v'. }
  unfold finish_deletion. apply preserves_bind.
  { eapply ch_store_inv; [apply delete_channel_data_law|]. intros v H. unfold condemned in *. cbn.
    destruct (mv_channels v !! id); [done|by apply wipe_vacant]. }
  intros _. apply preserves_bind; [apply ch_local_inv|]. intros _. apply preserves_bind.
  { eapply ch_store_inv; [apply finish_channel_deletion_law|]. intros v H. apply channels_condemned; [|done]. intros m. by rewrite lookup_delete_ne. }
  intros _. apply preserves_modify. intros w (v & ? & ?). by exists v.
Qed.

Lemma lease_condemned id id' credential :
  triple (view_inv (condemned id)) (authorize_with_lease (S:=S) id' credential)
    (fun record w => channel_id record ≠ id /\ view_inv (condemned id) w) (fun _ => view_inv (condemned id)).
Proof.
  intros w (v & Hv & Hid). destruct (authorize_with_lease id' credential w) as [[record|e] w'] eqn:E.
  - pose proof E as E'. apply (lease_ok v) in E' as (Hv' & _ & _ & _ & Hl & Hc & Ha & _); [|done]. split; [|by exists v].
    rewrite Hc. intros ->. unfold condemned in Hid. rewrite Hl in Hid. congruence.
  - pose proof (lease_view (condemned id) id' credential w (ex_intro _ v (conj Hv Hid))) as H. by rewrite E in H.
Qed.

Lemma store_condemned id record : channel_id record ≠ id -> preserves (view_inv (condemned id)) (ch_store (ms_store_channel (S:=S) record)).
Proof.
  intros Hne. eapply ch_store_inv; [apply store_channel_law|]. intros v H. apply channels_condemned; [|done].
  intros m. by rewrite lookup_insert_ne.
Qed.

Lemma channel_step_condemned cfg call id w : cache_call call = false -> (forall secret protected expiry, call ≠ Register id secret protected expiry) ->
  view_inv (condemned id) w -> view_inv (condemned id) (shard_step cfg call w).
Proof.
  intros Hc Hr Hw. destruct call as [| | | | | |id' secret protected expiry|id' credential expiry|id' credential|]; try done; cbn; (apply preserves_after; [|done]).
  - assert (id' ≠ id) as Hne by (intros ->; by eapply Hr). unfold register. apply preserves_bind; [apply now_inv|]. intros t.
    apply preserves_bind; [|intros _; apply preserves_bind; [apply gate_inv|]; intros _; apply preserves_ret].
    eapply ch_store_inv; [apply create_channel_law|]. intros v H. unfold v_create_channel. destruct (mv_channels v !! _); [done|].
    apply channels_condemned; [|done]. intros m. by rewrite lookup_insert_ne.
  - eapply triple_bind; [apply lease_condemned|]. intros lease. apply triple_pure. intros Hne. unfold update_expiry.
    apply preserves_bind; [by apply store_condemned|]. intros _. apply preserves_ret.
  - unfold delete_channel. case_decide; [apply preserves_throw|]. eapply triple_bind; [apply lease_condemned|]. intros lease.
    apply triple_pure. intros Hne. apply preserves_bind; [by apply store_condemned|]. intros _. apply preserves_bind; [apply gate_inv|].
    intros _. apply finish_deletion_condemned.
  - unfold resume_deletions. apply preserves_bind; [by eapply ch_store_inv; [apply channels_law|]|]. intros records.
    apply preserves_for_each. intros r. apply preserves_bind; [apply gate_inv|]. intros _. apply finish_deletion_condemned.
Qed.

Lemma run_condemned cfg calls id w : Forall (call_wf cfg) calls -> Forall (fun call => forall secret protected expiry, call ≠ Register id secret protected expiry) calls ->
  sound w -> view_inv (condemned id) w -> view_inv (condemned id) (shard_run cfg calls w).
Proof.
  intros HF. unfold shard_run. revert w. induction HF as [|call calls Hc _ IH]; intros w HR Hs Hw; [done|]. inversion HR. subst.
  cbn. apply IH; [done|by apply step_sound|]. destruct (cache_call call) eqn:E; [by apply cache_step_condemned|by apply channel_step_condemned].
Qed.

Lemma step_default cfg call w : sound w -> view_inv default_ok w -> view_inv default_ok (shard_step cfg call w).
Proof.
  intros Hs Hw. destruct (cache_call call) eqn:E; [by apply cache_step_default|].
  destruct call; try done; cbn; apply preserves_after; auto using register_default, patch_default, delete_default, resume_default.
Qed.

Lemma run_default cfg calls w : Forall (call_wf cfg) calls -> sound w -> view_inv default_ok w -> view_inv default_ok (shard_run cfg calls w).
Proof.
  intros HF. unfold shard_run. revert w. induction HF as [|call calls Hc _ IH]; intros w Hs Hw; [done|].
  cbn. apply IH; [by apply step_sound|by apply step_default].
Qed.

(** ** Calls that complete *)

(** The calls other than deletions, returning without an error. *)
Inductive completed cfg : shard_call -> World S -> World S -> Prop :=
| completed_publish name request admission w w' :
    publish_or_reject cfg name request w = (Ok admission, w') -> completed cfg (Publish name request) w w'
| completed_locate c a found w w' : locate cfg c a w = (Ok found, w') -> completed cfg (Locate c a) w w'
| completed_bind c n a e l d u w w' :
    bind_reference_with_validators c n a e l d w = (Ok u, w') -> completed cfg (Bind c n a e l d) w w'
| completed_unbind c n u w w' : cache_delete_reference c n w = (Ok u, w') -> completed cfg (Unbind c n) w w'
| completed_reconcile u w w' : reconcile cfg w = (Ok u, w') -> completed cfg Reconcile w w'
| completed_maintain observation limit n w w' :
    flywheel_maintenance cfg observation limit w = (Ok n, w') -> completed cfg (Maintain observation limit) w w'
| completed_register id secret protected expiry issued w w' :
    register id secret protected expiry w = (Ok issued, w') -> completed cfg (Register id secret protected expiry) w w'
| completed_patch id credential expiry record w w' :
    (lease ← authorize_with_lease id credential; update_expiry lease expiry) w = (Ok record, w') ->
    completed cfg (Patch id credential expiry) w w'.

Inductive completed_run cfg : list shard_call -> World S -> World S -> Prop :=
| completed_nil w : completed_run cfg [] w w
| completed_cons call calls w w1 w2 :
    completed cfg call w w1 -> completed_run cfg calls w1 w2 -> completed_run cfg (call :: calls) w w2.

Lemma completed_step cfg call w w' : completed cfg call w w' -> w' = shard_step cfg call w.
Proof. by destruct 1 as [????? H|????? H|????????? H|????? H|??? H|????? H|??????? H|?????? H]; cbn; rewrite H. Qed.

(** A store write on the channels leaves the rest. *)
Lemma steady_store (op : M S MetadataError unit) spec cmd files v w u w' :
  implements stands_for op spec -> v_execute cmd = v_answering (fun _ => RUnit) spec ->
  (forall x, cmd = CreateChannel x \/ cmd = StoreChannel x -> 0 <= expiry_seconds x) ->
  mv_artifacts (spec v).2 = mv_artifacts v ->
  steady files v w -> ch_store op w = (Ok u, w') -> steady files (spec v).2 w'.
Proof.
  intros Hop Hcmd Hne Hart (Hv & [Hq He] & Hk & Hc) H.
  apply (ch_store_ok _ spec v) in H as (_ & Hv' & Hw); [|done..]. split; [done|]. split.
  { rewrite <- (v_answering_state (fun _ => RUnit)), <- Hcmd. split; [by apply execute_queued|by apply execute_expiries]. }
  rewrite Hw. split; [done|]. by eapply consistent_artifacts.
Qed.

Lemma steady_fence files c v w expiry w' :
  steady files v w -> channel_fence c w = (Ok expiry, w') -> steady files v w'.
Proof.
  intros (Hv & Hok & Hk & Hc) H. apply (fence_ok c v) in H as (_ & Hv' & Hw & _); [|done..].
  rewrite Hw. by split.
Qed.

Lemma bind_steady files c n a e l d v w u w' :
  steady files v w -> bind_reference_with_validators c n a e l d w = (Ok u, w') -> exists v', steady files v' w'.
Proof.
  intros Hst H. unfold bind_reference_with_validators in H. apply bind_ok in H as (x & w1 & H1 & H).
  eapply steady_fence in H1; [|done]. apply bind_ok in H as (t & w2 & [= <- <-] & H).
  set (record := Build_ReferenceRecord _ _ _ _) in H.
  eapply (steady_meta files _ (v_bind_reference c n record) (fun _ => RUnit) (BindReference c n record d) v) in H as [? _];
    [eauto|apply bind_reference_law|done..|]. by eapply steady_other.
Qed.

Lemma unbind_steady files c n v w u w' :
  steady files v w -> cache_delete_reference c n w = (Ok u, w') -> exists v', steady files v' w'.
Proof.
  intros Hst H. unfold cache_delete_reference in H. apply bind_ok in H as (x & w1 & H1 & H).
  eapply steady_fence in H1; [|done].
  eapply (steady_meta files _ (v_delete_reference c n) (fun _ => RUnit) (DeleteReference c n) v) in H as [? _];
    [eauto|apply delete_reference_law|done..].
Qed.

(** Recovery finds nothing to do in a consistent shard but stray temporary files. *)
Lemma consistent_tree (files : ArtifactFiles) v (t : tree) t' : same_artifacts files t t' -> consistent files v t -> consistent files v t'.
Proof. intros Hs Hc c a. rewrite Hs. apply Hc. Qed.

Lemma temporary_same (files : ArtifactFiles) (t0 : tree) :
  preserves (fun l : Local SpaceLedger => same_artifacts files t0 (nodes (l_fs l))) (remove_temporary_files files).
Proof.
  apply remove_temporary_files_ok.
  - intros l fs H E c a. cbn. rewrite E. apply H.
  - intros x n. apply (l_fs_op_tree (same_artifacts files t0)), remove_file_preserves. intros t Ht c a.
    rewrite lookup_delete_ne; [apply Ht|]. intros E. apply (f_equal length) in E.
    rewrite artifact_path_length, !length_app in E. cbn in E. lia.
Qed.

Lemma c_local_steady {A} (files : ArtifactFiles) (m : M (Local SpaceLedger) LocalError A) v w x w' :
  (forall t0, preserves (fun l => same_artifacts files t0 (nodes (l_fs l))) m) ->
  steady files v w -> c_local m w = (Ok x, w') -> steady files v w'.
Proof.
  intros Hm (Hv & Hok & Hk & Hc) H. unfold c_local, raising, in_local, zoom in H.
  specialize (Hm (nodes (w_fs w)) (get_local w) (fun _ _ => eq_refl)).
  destruct (m (get_local w)) as [[y|e] l]; [|done]. injection H as _ <-. split; [done|]. split; [done|]. split; [done|].
  by eapply consistent_tree.
Qed.

Lemma read_artifact_steady files c a v w found w' :
  steady files v w -> c_meta (ms_artifact c a) w = (Ok found, w') -> steady files v w' /\ mv_artifacts v !! (c, a) = found.
Proof.
  intros Hst H.
  eapply (steady_meta files _ (v_artifact c a) RArtifact (ReadArtifact c a) v) in H as [? [= <-]];
    [done|apply artifact_law|done..].
Qed.

Lemma reconcile_one_steady cfg orphan v w u w' :
  steady (cache_files cfg) v w -> reconcile_one cfg orphan w = (Ok u, w') -> steady (cache_files cfg) v w'.
Proof.
  destruct orphan as [c a]. intros Hst H. unfold reconcile_one in H. apply bind_ok in H as (found & w1 & H1 & H).
  eapply read_artifact_steady in H1 as [Hst1 _]; [|done]. destruct found; [by injection H as _ <-|].
  apply bind_ok in H as (again & w2 & H2 & H). eapply read_artifact_steady in H2 as [Hst2 Hn]; [|done].
  destruct again; [by injection H as _ <-|]. apply remove_ok in H as (Hd & E1 & E2 & _).
  destruct Hst2 as (Hv & Hok & Hk & Hc). unfold steady, viewed. rewrite E1, E2, Hd. split; [done|]. split; [done|].
  split; [done|]. apply (consistent_remove _ c a v); [done|]. symmetry. by apply delete_id.
Qed.

Lemma reconcile_steady cfg v w u w' :
  steady (cache_files cfg) v w -> reconcile cfg w = (Ok u, w') -> steady (cache_files cfg) v w'.
Proof.
  intros Hst H. unfold reconcile in H. apply bind_ok in H as (u1 & w1 & H1 & H).
  eapply c_local_steady in H1; [|apply temporary_same|done].
  apply bind_ok in H as (orphans & w2 & H2 & H). eapply c_local_steady in H2; [|intros t0; apply orphan_scan_ok|done].
  2: { intros l fs Hl E c a. cbn. rewrite E. apply Hl. }
  revert w2 H2 H. induction orphans as [|x orphans IH]; intros w2 H2 H; cbn in H; [by injection H as _ <-|].
  apply bind_ok in H as (u3 & w3 & H3 & H). eapply IH; [|exact H]. by eapply reconcile_one_steady.
Qed.

Lemma register_steady files id secret protected expiry v w issued w' : 0 <= expiry ->
  steady files v w -> register id secret protected expiry w = (Ok issued, w') -> exists v', steady files v' w'.
Proof.
  intros He Hst H. unfold register in H. apply bind_ok in H as (t & w1 & [= <- <-] & H).
  set (record := Build_ChannelRecord _ _ _ _ _) in H. apply bind_ok in H as (u & w2 & H2 & H).
  apply bind_ok in H as (u3 & w3 & [= _ <-] & H). injection H as _ <-.
  exists (v_create_channel record v).2. eapply steady_other; [..|eapply (steady_store _ _ (CreateChannel record)), H2];
    [done..|apply create_channel_law|done|by intros x [[= <-]|?]| |by eapply steady_other].
  unfold v_create_channel. by destruct (mv_channels v !! _).
Qed.

Lemma patch_steady files id credential expiry v w record w' : 0 <= expiry ->
  steady files v w -> (lease ← authorize_with_lease id credential; update_expiry lease expiry) w = (Ok record, w') ->
  exists v', steady files v' w'.
Proof.
  intros He Hst H. apply bind_ok in H as (lease & w1 & H1 & H).
  assert (w_clock w1 = w_clock w) as Ek.
  { unfold authorize_with_lease in H1. apply bind_ok in H1 as (r0 & w0 & H0 & H1).
    apply (authorize_ok v) in H0 as (Hv0 & Hw0 & _); [|apply Hst].
    apply bind_ok in H1 as (u & w2 & [= _ <-] & H1). apply (authorize_ok v) in H1 as (_ & Hw2 & _); [|done].
    rewrite Hw2. cbn. by rewrite Hw0. }
  apply (lease_ok v) in H1 as (Hv1 & Hf & Hs & _); [|apply Hst].
  unfold update_expiry in H. apply bind_ok in H as (u & w2 & H2 & H). injection H as _ <-.
  exists (v_store_channel (set_expiry lease expiry) v).2.
  eapply (steady_store _ _ (StoreChannel (set_expiry lease expiry))); [apply store_channel_law|done|by intros x [?|[= <-]]|done| |exact H2].
  destruct Hst as (_ & Hok & Hk & Hc). split; [done|]. split; [done|]. rewrite Ek, Hf. done.
Qed.

Lemma completed_steady rest cfg call v w w' :
  0 <= rest -> files_wf (cache_files cfg) -> 0 <= reclaim_byte_limit cfg -> call_wf cfg call ->
  disk_ok rest (cache_files cfg) w -> steady (cache_files cfg) v w -> completed cfg call w w' ->
  exists v', steady (cache_files cfg) v' w'.
Proof.
  intros Hr Hf Hb Hwf Hd Hst H.
  destruct H as [name request [p|stream] w w' H|c a found w w' H|c n a e l d u w w' H|c n u w w' H|u w w' H
    |observation limit n w w' H|id secret protected expiry issued w w' H|id credential expiry record w w' H].
  - eapply (publish_request_ok rest) in H as (v' & _ & ? & _); eauto.
  - exists v. unfold publish_or_reject in H. apply bind_ok in H as (outcome & w1 & H1 & H).
    unfold c_local, raising, in_local, zoom in H1.
    pose proof (stage_spec rest (cache_files cfg) (req_channel request) name (req_stream request) (max_upload_bytes cfg)
      (req_content_length request) (req_durability request) (req_encoding request) (get_local w) Hr Hf Hwf (proj1 Hd)) as HS.
    destruct (stage _ _ _ _ _ _ _ _ (get_local w)) as [[[staged|stream']|e] l]; [..|done]; injection H1 as <- <-.
    + repeat (apply bind_ok in H as (? & ? & _ & H); try destruct x as [? ?]). by injection H.
    + destruct HS as [_ [-> _]]. injection H as _ <-. by eapply steady_other.
  - eapply locate_ok in H as [? _]; eauto.
  - by eapply bind_steady.
  - by eapply unbind_steady.
  - exists v. by eapply reconcile_steady.
  - unfold flywheel_maintenance in H. apply bind_ok in H as (n0 & w1 & H1 & H). apply bind_ok in H as (u & w2 & [= _ <-] & H).
    injection H as _ <-. eapply maintenance_ok in H1 as (v' & b & ? & _); [|done..]. exists v'. by eapply steady_other.
  - by eapply register_steady.
  - by eapply patch_steady.
Qed.

Lemma completed_run_steady rest cfg calls v w w' :
  0 <= rest -> files_wf (cache_files cfg) -> 0 <= reclaim_byte_limit cfg -> Forall (call_wf cfg) calls ->
  disk_ok rest (cache_files cfg) w -> steady (cache_files cfg) v w -> completed_run cfg calls w w' ->
  exists v', steady (cache_files cfg) v' w'.
Proof.
  intros Hr Hf Hb HF Hd Hst H. revert v Hst. induction H as [w|call calls w w1 w2 H _ IH]; intros v Hst; [by exists v|].
  inversion_clear HF as [|?? Hwf HF']. pose proof H as Hstep%completed_step.
  eapply (completed_steady rest) in H as (v1 & Hst1); [|done..]. eapply IH; [done| |exact Hst1].
  rewrite Hstep. by apply step_disk.
Qed.
End Shard.
