(* ===== verification/DiskTree.v ===== *)
(** * The directory tree

    What every system call keeps of the tree, every operation of a shard keeps, whatever fails in
    it; so each file and directory always has its parent directory. *)

From S2P Require Import Prelude Externals Domain Metadata MetadataView MetadataRefinement MetadataStore Space RecentUse Filesystem ArtifactFiles FilesLemmas World Channels ChannelLemmas Cache CacheLemmas CacheConsistency CacheMaintenance Shard.

(** An invariant of the tree that no system call breaks, completed or torn. *)
Class TreeInvariant (J : tree -> Prop) : Prop := {
  ti_create_dir_all (p : path) : preserves (fun fs => J (nodes fs)) (create_dir_all p);
  ti_open_new (p : path) : preserves (fun fs => J (nodes fs)) (open_new p);
  ti_write_file (p : path) chunk : preserves (fun fs => J (nodes fs)) (write_file p chunk);
  ti_remove_file (p : path) : preserves (fun fs => J (nodes fs)) (remove_file p);
  ti_rename (p q : path) : preserves (fun fs => J (nodes fs)) (rename p q);
  ti_remove_dir_all (p : path) : preserves (fun fs => J (nodes fs)) (remove_dir_all p)
}.

(** ** Closed trees *)

Lemma closed_delete (t : tree) (p : path) content : t !! p = Some (File content) -> tree_closed t -> tree_closed (delete p t).
Proof.
  intros Hp Hc q x n [_ Hq]%lookup_delete_Some. apply Hc in Hq. unfold is_dir in *. destruct q as [|y q]; [done|].
  apply bool_decide_eq_true in Hq. apply bool_decide_eq_true. rewrite lookup_delete_ne; [done|]. intros ->. congruence.
Qed.

Lemma closed_insert (t : tree) (p : path) content : t !! p ≠ Some Directory -> is_dir t (parent p) = true -> tree_closed t ->
  tree_closed (<[p := File content]> t).
Proof.
  intros Hp Hd Hc q x n Hq.
  assert (is_dir t q = true) as Hdir.
  { apply lookup_insert_Some in Hq as [[E _]|[_ Hq]]; [|by eapply Hc]. subst p. unfold parent in Hd. by rewrite removelast_last in Hd. }
  unfold is_dir in *. destruct q as [|y q]; [done|]. apply bool_decide_eq_true in Hdir. apply bool_decide_eq_true.
  rewrite lookup_insert_ne; [done|]. intros ->. congruence.
Qed.

Lemma closed_alter (t : tree) (p : path) chunk : tree_closed t -> tree_closed (alter (append_to chunk) p t).
Proof.
  intros Hc q x n Hq.
  assert (exists m, t !! (q ++ [x]) = Some m) as [m Hm].
  { destruct (decide (q ++ [x] = p)) as [<-|Hne]; [|rewrite lookup_alter_ne in Hq by done; eauto].
    rewrite lookup_alter_eq in Hq. apply fmap_Some in Hq as (m & Hm & _). eauto. }
  apply Hc in Hm. unfold is_dir in *. destruct q as [|y q]; [done|]. apply bool_decide_eq_true in Hm. apply bool_decide_eq_true.
  destruct (decide (y :: q = p)) as [<-|Hne]; [by rewrite lookup_alter_eq, Hm|by rewrite lookup_alter_ne].
Qed.

Lemma closed_filter (t : tree) (P : path -> bool) : (forall (q : path) (x : bytes), P q = true -> P (q ++ [x]) = true) ->
  tree_closed t -> tree_closed (filter (fun kv => P kv.1 = false) t).
Proof.
  intros HP Hc q x n [Hq Hk]%map_lookup_filter_Some. cbn in Hk. apply Hc in Hq. unfold is_dir in *. destruct q as [|y q]; [done|].
  apply bool_decide_eq_true in Hq. apply bool_decide_eq_true. apply map_lookup_filter_Some. split; [done|]. cbn.
  destruct (P (y :: q)) eqn:E; [|done]. by rewrite (HP _ x E) in Hk.
Qed.

Lemma is_dir_make_dirs ps t p : is_dir t p = true -> is_dir (fold_left make_dir ps t) p = true.
Proof.
  unfold is_dir. destruct p as [|x p]; [done|]. intros H%bool_decide_eq_true. apply bool_decide_eq_true.
  destruct (lookup_make_dirs ps t (x :: p)) as [->|(_ & _ & ->)]; done.
Qed.

Lemma closed_make_dirs (t : tree) (p : path) : existsb (is_file t) (ancestors p) = false -> tree_closed t ->
  tree_closed (fold_left make_dir (ancestors p) t).
Proof.
  intros Ef Hc q x n Hq. destruct (lookup_make_dirs (ancestors p) t (q ++ [x])) as [E|(Hin & _ & _)].
  { rewrite E in Hq. by apply is_dir_make_dirs, (Hc q x n). }
  destruct (decide (q = [])) as [->|Hne]; [done|].
  assert (q ∈ ancestors p) as Hqa.
  { apply elem_of_ancestors in Hin as [[r ->] _]. unfold ancestors. apply list_elem_of_fmap. exists (length q).
    rewrite <- !app_assoc, take_app_length. split; [done|]. apply elem_of_seq. rewrite !length_app. destruct q; [done|cbn; lia]. }
  unfold is_dir. destruct q as [|y q]; [done|]. apply bool_decide_eq_true. by apply make_dirs_created.
Qed.

(** A creation that stopped part way made the directories of a shorter path. *)
Lemma take_ancestors n (p : path) : take n (ancestors p) = ancestors (take n p).
Proof.
  unfold ancestors. rewrite length_take. apply list_eq. intros i. rewrite lookup_take. case_decide as Hi.
  - rewrite !list_lookup_fmap. destruct (decide (i < length p)%nat) as [Hl|Hl].
    + rewrite !lookup_seq_lt by lia. cbn. f_equal. rewrite take_take. f_equal. lia.
    + rewrite !lookup_seq_ge by lia. done.
  - rewrite list_lookup_fmap, lookup_seq_ge by lia. done.
Qed.

#[export] Instance closed_invariant : TreeInvariant tree_closed.
Proof.
  split; intros.
  - apply syscall_preserves; intros.
    + destruct (existsb _ _) eqn:E; [done|]. by apply closed_make_dirs.
    + destruct (existsb _ _) eqn:E; [done|]. rewrite take_ancestors. apply closed_make_dirs; [|done].
      apply not_true_is_false. intros (q & Hq & Hf)%existsb_exists. rewrite <- take_ancestors in Hq.
      assert (existsb (is_file t) (ancestors p) = true); [|congruence]. apply existsb_exists. exists q. split; [|done].
      rewrite <- (take_drop (fault_progress f)). apply in_or_app. by left.
  - apply syscall_preserves; [|done]. intros t Ht. destruct (t !! p) eqn:E; [done|]. case_bool; [|done]. apply closed_insert; [by rewrite E|done..].
  - apply syscall_preserves; intros; by apply closed_alter.
  - apply syscall_preserves; [|done]. intros t Ht. destruct (t !! p) as [[]|] eqn:E; try done. by eapply closed_delete.
  - apply syscall_preserves; [|done]. intros t Ht. destruct (t !! p) as [[|content]|] eqn:E; try done.
    assert (t !! q ≠ Some Directory -> is_dir t (parent q) = true -> tree_closed (<[q := File content]> (delete p t))) as Hm.
    { intros Hq Hd. apply closed_insert; [|..|by eapply closed_delete].
      - intros [_ H]%lookup_delete_Some. done.
      - revert Hd. unfold is_dir. destruct (parent q) as [|y r]; [done|]. intros Hd%bool_decide_eq_true. apply bool_decide_eq_true.
        rewrite lookup_delete_ne; [done|]. intros ->. congruence. }
    destruct (t !! q) as [[]|] eqn:Eq; [done|case_bool; [by apply Hm|done]..].
  - apply syscall_preserves; intros.
    + destruct (t !! p) as [[]|]; try done. apply (closed_filter t (below p)); [|done].
      intros q x [r ->]%bool_decide_eq_true. apply bool_decide_eq_true. exists (r ++ [x]). by rewrite (assoc_L (++)).
    + apply (closed_filter t (fun q => existsb (fun r => below p r && below r q) (fault_removed f))); [|done].
      intros q x (r & Hr & [H1 [k ->]%bool_decide_eq_true]%andb_true_iff)%existsb_exists. apply existsb_exists. exists r. split; [done|].
      rewrite H1. apply bool_decide_eq_true. exists (k ++ [x]). by rewrite (assoc_L (++)).
Qed.

(** ** Operations *)

Section Operations.
Context {UL : UlidLib} {ULL : UlidLaws} {HX : HexLib} {HXL : HexLaws} {SH : Sha256Lib} {BS : Base64Lib}.
Context {ZS : ZstdLib} {ZSL : ZstdLaws} {DH : DefaultHasherLib}.
Context {S : Type} {MS : MetadataStore S} {ML : MetadataLaws S}.
Context (J : tree -> Prop) {TI : TreeInvariant J}.
Implicit Types (files : ArtifactFiles) (cfg : CacheConfig) (w : World S).

Notation staging_J := (fun s : Staging SpaceLedger => J (nodes (s_fs s))).
Notation local_J := (fun l : Local SpaceLedger => J (nodes (l_fs l))).

Lemma j_fs_op {A} (m : M FS io_error A) : preserves (fun fs => J (nodes fs)) m -> preserves staging_J (fs_op m).
Proof. apply (fs_op_tree J). Qed.
Lemma j_l_fs_op {A} (m : M FS io_error A) : preserves (fun fs => J (nodes fs)) m -> preserves local_J (l_fs_op m).
Proof. apply (l_fs_op_tree J). Qed.
Lemma j_on_res f : preserves staging_J (on_res f).
Proof. by apply on_res_preserves. Qed.
Lemma j_touch : preserves staging_J (fs_op touch).
Proof. apply j_fs_op, touch_preserves. Qed.

Lemma j_reserve b : preserves staging_J (reserve b).
Proof. intros s Hs. pose proof (reserve_fs b s) as E. destruct (reserve b s) as [[] s']; cbn in E; by rewrite E. Qed.

Lemma j_extend extent len fuel : preserves staging_J (extend extent len fuel).
Proof. intros s Hs. pose proof (extend_fs extent len fuel s) as E. destruct (extend extent len fuel s) as [[] s']; cbn in E; by rewrite E. Qed.

Lemma j_write_all wr chunk : preserves staging_J (write_all wr chunk).
Proof. destruct wr; cbn; (apply preserves_bind; [|intros _; apply preserves_ret]); [apply j_fs_op, ti_write_file|apply j_touch]. Qed.

Lemma j_pump files max_bytes stream wr hashed len : preserves staging_J (pump files max_bytes stream wr hashed len).
Proof.
  revert wr hashed len. induction stream as [|[chunk|e] stream IH]; intros wr hashed len; cbn; [apply preserves_ret| |apply preserves_throw].
  apply preserves_bind; [apply preserves_ok_or|]. intros len'. apply preserves_bind; [case_bool; auto with flywheel|]. intros _.
  apply preserves_bind; [apply preserves_get|]. intros s0. apply preserves_bind; [apply j_extend|]. intros _.
  apply preserves_bind; [apply j_write_all|]. intros wr'. apply IH.
Qed.

Lemma j_stage_reserved files c name stream max_bytes d e : preserves staging_J (stage_reserved files c name stream max_bytes d e).
Proof.
  unfold stage_reserved. apply preserves_bind; [apply j_fs_op, ti_create_dir_all|]. intros _.
  apply preserves_bind; [apply j_on_res|]. intros _. apply preserves_bind; [apply j_fs_op, ti_open_new|]. intros _.
  apply preserves_bind; [apply j_pump|]. intros [[wr hashed] len]. apply preserves_bind.
  { destruct wr; cbn; (apply preserves_bind; [|intros _; apply preserves_ret]); [apply j_touch|apply j_fs_op, ti_write_file]. }
  intros file. apply preserves_bind; [destruct e; [apply preserves_ret|apply j_fs_op, file_len_preserves]|]. intros stored.
  apply preserves_bind; [apply preserves_get|]. intros s. apply preserves_bind.
  { case_bool; [|apply preserves_ret]. apply preserves_bind; [apply j_reserve|]. intros [|]; auto with flywheel. }
  intros _. apply preserves_bind; [destruct d; [apply j_touch|apply preserves_ret]|]. intros _. apply preserves_ret.
Qed.

Lemma j_discard r l : local_J l -> local_J (discard r l).
Proof.
  intros Hl. unfold discard. destruct (reservation_state r) as [|p|]; [done| |done]. unfold remove_and_settle.
  pose proof (ti_remove_file p (l_fs l) Hl) as H. by destruct (remove_file p (l_fs l)) as [[] fs].
Qed.

Lemma j_stage files c name stream max_bytes cl d e : preserves local_J (stage files c name stream max_bytes cl d e).
Proof.
  intros l Hl. unfold stage. set (initial := match cl with Some n => Z.min n max_bytes | None => reservation_extent files end).
  pose proof (j_reserve initial (hold Reservation_new l) Hl) as Hr. destruct (reserve _ _) as [[[]|x] s]; try done.
  pose proof (j_stage_reserved files c name stream max_bytes d e s Hr) as Hs.
  destruct (stage_reserved _ _ _ _ _ _ _ s) as [[[[[p dg] n] k]|x] s']; [done|]. by apply (j_discard (s_res s')).
Qed.

Lemma j_publish files c a staged d : preserves local_J (publish files c a staged d).
Proof.
  intros l Hl. unfold publish.
  assert (preserves staging_J (publish_reserved files c a (staged_path staged) (staged_digest staged) d)) as HP.
  { unfold publish_reserved. case_decide; [|apply preserves_throw]. apply preserves_bind; [apply j_fs_op, ti_create_dir_all|]. intros _.
    apply preserves_bind; [apply j_fs_op, try_exists_preserves|]. intros [|].
    - apply preserves_bind; [apply j_fs_op, ti_remove_file|]. intros _. apply preserves_bind; [apply j_on_res|]. intros _. apply preserves_ret.
    - apply preserves_bind; [apply preserves_try, j_fs_op, ti_rename|].
      intros [[]|[[]| | | | | |]]; auto with flywheel; repeat (apply preserves_bind; [|intros _]);
        auto using preserves_ret, j_on_res, j_fs_op, ti_remove_file. destruct d; [apply j_touch|apply preserves_ret]. }
  specialize (HP (hold (staged_reservation staged) l) Hl). destruct (publish_reserved _ _ _ _ _ _ _) as [[b|x] s]; [done|].
  by apply (j_discard (s_res s)).
Qed.

Lemma j_tree : of_tree local_J.
Proof. intros l fs Hl E. cbn. by rewrite E. Qed.

Lemma j_remove files c a : preserves local_J (remove files c a).
Proof.
  unfold remove. apply preserves_bind; [apply preserves_try, j_l_fs_op, ti_remove_file|]. intros [[]|[[]| | | | | |]]; auto with flywheel.
Qed.

Lemma j_remove_channel files c : preserves local_J (remove_channel files c).
Proof.
  unfold remove_channel. apply preserves_bind; [apply preserves_try, j_l_fs_op, ti_remove_dir_all|]. intros [[]|[[]| | | | | |]]; auto with flywheel.
Qed.

(** *** Of the shard *)

Definition on_tree w : Prop := J (nodes (w_fs w)).

Lemma t_local {A} (m : M (Local SpaceLedger) LocalError A) : preserves local_J m -> preserves on_tree (c_local m : M (World S) CacheError A).
Proof.
  intros Hm w Hw. unfold c_local, raising, in_local, zoom. specialize (Hm (get_local w) Hw). by destruct (m (get_local w)) as [[] l].
Qed.
Lemma t_ch_local {A} (m : M (Local SpaceLedger) LocalError A) : preserves local_J m -> preserves on_tree (ch_local m : M (World S) ChannelError A).
Proof.
  intros Hm w Hw. unfold ch_local, raising, in_local, zoom. specialize (Hm (get_local w) Hw). by destruct (m (get_local w)) as [[] l].
Qed.
Lemma t_meta {A} (m : M S MetadataError A) : preserves on_tree (c_meta m).
Proof. apply (c_meta_disk (fun fs _ => J (nodes fs))). Qed.
Lemma t_store {A} (m : M S MetadataError A) : preserves on_tree (ch_store m).
Proof. intros w Hw. unfold ch_store, raising, in_db, zoom. by destruct (m (w_db w)) as [[] db]. Qed.
Lemma t_modify {E} f : (forall w, w_fs (f w) = w_fs w) -> preserves on_tree (modify f : M (World S) E unit).
Proof. intros Hf. apply preserves_modify. intros w Hw. unfold on_tree. by rewrite Hf. Qed.
Lemma t_fence c : preserves on_tree (channel_fence (S:=S) c).
Proof. apply (fence_disk (fun fs _ => J (nodes fs))). Qed.
Lemma t_now {E} : preserves on_tree (now : M (World S) E Z).
Proof. intros w Hw. exact Hw. Qed.

Lemma t_settle f : (forall l, local_J l -> local_J (f l)) -> preserves on_tree (settle (S:=S) f).
Proof. intros Hf. apply preserves_modify. intros w Hw. apply (Hf (get_local w) Hw). Qed.

Lemma t_commit_published c a staged cm expiry r n : preserves on_tree (commit_published (S:=S) c a staged cm expiry r n).
Proof.
  unfold commit_published. apply preserves_bind; [apply t_now|]. intros t. apply preserves_bind; [apply preserves_try, t_meta|].
  intros [created|x]; apply preserves_bind; try (intros _; apply preserves_ret || apply preserves_throw); apply t_settle; [done|].
  intros l. apply j_discard.
Qed.

Lemma t_publish cfg name request : preserves on_tree (publish_or_reject (S:=S) cfg name request).
Proof.
  unfold publish_or_reject. apply preserves_bind; [apply t_local, j_stage|]. intros [staged|stream]; [|apply preserves_ret].
  apply preserves_bind; [by apply t_modify|]. intros _. apply preserves_bind.
  { destruct (req_target request) as [a|[n|]]; auto with flywheel. apply preserves_bind; [apply t_now|]. intros t. apply preserves_ret. }
  intros [a reference]. apply preserves_bind; [|intros p; apply preserves_ret].
  unfold commit_staged. apply preserves_bind; [apply preserves_try, t_fence|]. intros [expiry|x].
  - apply preserves_bind; [apply t_local, j_publish|]. intros [r|r]; apply t_commit_published.
  - apply preserves_bind; [apply t_settle; intros l; apply j_discard|]. intros _. apply preserves_throw.
Qed.

Lemma t_locate cfg c a : preserves on_tree (locate (S:=S) cfg c a).
Proof.
  unfold locate, locate_local. apply preserves_bind.
  - apply preserves_bind; [apply t_meta|]. intros [m|]; [|apply preserves_ret].
    apply preserves_bind; [apply preserves_try, t_local, j_l_fs_op, (syscall_preserves J); [intros t Ht; by repeat case_match|done]|].
    intros [f|[[[]| | | | | |]| | | |]]; auto with flywheel. apply preserves_bind; [apply t_meta|]. intros _. apply preserves_ret.
  - intros [l|]; repeat (apply preserves_bind; [by apply t_modify|intros _]); apply preserves_ret.
Qed.

Lemma t_bind c n a e l d : preserves on_tree (bind_reference_with_validators (S:=S) c n a e l d).
Proof.
  unfold bind_reference_with_validators. apply preserves_bind; [apply t_fence|]. intros x. apply preserves_bind; [apply t_now|].
  intros t. apply t_meta.
Qed.

Lemma t_unbind c n : preserves on_tree (cache_delete_reference (S:=S) c n).
Proof. unfold cache_delete_reference. apply preserves_bind; [apply t_fence|]. intros x. apply t_meta. Qed.

Lemma t_ready cfg : preserves on_tree (ready (S:=S) cfg).
Proof.
  unfold ready. apply preserves_bind; [apply t_meta|]. intros _. apply preserves_bind.
  - apply t_local. unfold files_health. apply preserves_bind; [|intros []; auto with flywheel].
    apply j_l_fs_op, (syscall_preserves J); [intros t Ht; by repeat case_match|done].
  - intros _. apply preserves_bind; [apply preserves_get|]. intros w. case_bool; auto with flywheel.
Qed.

Lemma t_reconcile cfg : preserves on_tree (reconcile (S:=S) cfg).
Proof.
  unfold reconcile. apply preserves_bind.
  { apply t_local, remove_temporary_files_ok; [apply j_tree|]. intros x n. apply j_l_fs_op, ti_remove_file. }
  intros _. apply preserves_bind; [apply t_local, orphan_scan_ok, j_tree|]. intros orphans. apply preserves_for_each. intros [c a].
  unfold reconcile_one. apply preserves_bind; [apply t_meta|]. intros [m|]; [apply preserves_ret|].
  apply preserves_bind; [apply t_meta|]. intros [m|]; [apply preserves_ret|]. apply t_local, j_remove.
Qed.

Lemma t_maintain cfg observation limit : preserves on_tree (flywheel_maintenance (S:=S) cfg observation limit).
Proof.
  unfold flywheel_maintenance. apply preserves_bind; [|intros n; apply preserves_bind; [by apply t_modify|intros _; apply preserves_ret]].
  unfold run_maintenance_once. apply preserves_bind; [by apply t_modify|]. intros _. apply preserves_bind; [by apply t_modify|]. intros _.
  apply preserves_bind; [apply preserves_get|]. intros w0. destruct (mode (w_space w0)) as [mode_ space].
  apply preserves_bind; [by apply t_modify|]. intros _. apply preserves_bind; [apply t_now|]. intros t.
  apply preserves_bind; [unfold active_channels; apply preserves_bind; [apply t_meta|]; intros l; apply preserves_ret|]. intros l.
  apply preserves_bind; [apply preserves_get|]. intros w1. apply preserves_bind.
  { destruct l; [apply preserves_ret|]. apply preserves_bind; [by apply t_modify|]. intros _. apply preserves_ret. }
  intros l'. apply preserves_bind; [|intros b; apply preserves_bind; [by apply t_modify|intros _; apply preserves_ret]].
  apply channels_loop_keeps; [intros; apply t_meta|intros; apply t_local, j_remove|by apply t_modify].
Qed.

(** *** Channels *)

Lemma t_authorize id cr : preserves on_tree (authorize (S:=S) id cr).
Proof.
  unfold authorize. apply preserves_bind; [apply t_store|]. intros [r|]; [|apply preserves_throw].
  apply preserves_bind; [apply preserves_lift|]. intros _. case_bool; auto with flywheel.
Qed.

Lemma t_lease id cr : preserves on_tree (authorize_with_lease (S:=S) id cr).
Proof.
  unfold authorize_with_lease. apply preserves_bind; [apply t_authorize|]. intros _.
  apply preserves_bind; [by apply t_modify|]. intros _. apply t_authorize.
Qed.

Lemma t_update lease expiry : preserves on_tree (update_expiry (S:=S) lease expiry).
Proof. unfold update_expiry. apply preserves_bind; [apply t_store|]. intros _. apply preserves_ret. Qed.

Lemma t_register id secret protected expiry : preserves on_tree (register (S:=S) id secret protected expiry).
Proof.
  unfold register. apply preserves_bind; [apply t_now|]. intros t. apply preserves_bind; [apply t_store|]. intros _.
  apply preserves_bind; [by apply t_modify|]. intros _. apply preserves_ret.
Qed.

Lemma t_finish_deletion files id : preserves on_tree (finish_deletion (S:=S) files id).
Proof.
  unfold finish_deletion. apply preserves_bind; [apply t_store|]. intros _. apply preserves_bind; [apply t_ch_local, j_remove_channel|].
  intros _. apply preserves_bind; [apply t_store|]. intros _. by apply t_modify.
Qed.

Lemma t_delete files id cr : preserves on_tree (delete_channel (S:=S) files id cr).
Proof.
  unfold delete_channel. case_decide; [apply preserves_throw|]. apply preserves_bind; [apply t_lease|]. intros lease.
  apply preserves_bind; [apply t_store|]. intros _. apply preserves_bind; [by apply t_modify|]. intros _. apply t_finish_deletion.
Qed.

Lemma t_resume files : preserves on_tree (resume_deletions (S:=S) files).
Proof.
  unfold resume_deletions. apply preserves_bind; [apply t_store|]. intros records. apply preserves_for_each. intros r.
  apply preserves_bind; [by apply t_modify|]. intros _. apply t_finish_deletion.
Qed.

Lemma t_run cfg calls w : on_tree w -> on_tree (shard_run (S:=S) cfg calls w).
Proof.
  unfold shard_run. revert w. induction calls as [|call calls IH]; intros w Hw; [done|]. cbn. apply IH.
  destruct call; cbn; apply preserves_after; auto using t_publish, t_locate, t_bind, t_unbind, t_reconcile, t_maintain, t_register, t_delete, t_resume.
  apply preserves_bind; [apply t_lease|]. intros lease. apply t_update.
Qed.
End Operations.
