(* ===== verification/CacheClaims.v ===== *)
(** * What the cache service guarantees

    Publications can be looked up and are what was published; the shard stays accounted for and
    its files intact whatever fails; maintenance follows its policy; mutations need a live channel. *)

From S2P Require Import Prelude Externals Domain Records Concrete Metadata MetadataView MetadataRefinement MetadataStore Space RecentUse Filesystem ArtifactFiles FilesLemmas FilesClaims World Channels ChannelLemmas Samples ChannelClaims Cache CacheLemmas CacheConsistency CacheMaintenance Shard DiskTree.

Section Claims.
Context {UL : UlidLib} {ULL : UlidLaws} {HX : HexLib} {HXL : HexLaws} {SH : Sha256Lib} {BS : Base64Lib}.
Context {ZS : ZstdLib} {ZSL : ZstdLaws} {DH : DefaultHasherLib}.
Context {S : Type} {MS : MetadataStore S} {ML : MetadataLaws S}.
Implicit Types (v : MetaView) (w : World S) (cfg : CacheConfig).

(** C1: What was published is found again: in a shard whose rows and files agree, after a
    publication that succeeded a lookup never misses (it can only fail with an error of the store
    or of the disk), and the file it opens decodes, by the encoding the row names, to bytes with
    the digest and length of the published body; they are the very bytes when the publication
    created the artifact. *)
Theorem published_is_located rest cfg name request v w pub w' :
  0 <= rest -> files_wf (cache_files cfg) -> request_wf (max_upload_bytes cfg) (req_content_length request) ->
  disk_ok rest (cache_files cfg) w -> steady (cache_files cfg) v w ->
  publish_or_reject cfg name request w = (Ok (AdmissionPublished pub), w') ->
  exists chunks, req_stream request = Ok <$> chunks
    /\ digest_array (digest (pub_artifact pub)) = sha256 (concat chunks)
    /\ match locate cfg (req_channel request) (pub_artifact pub) w' with
       | (Ok found, _) => exists file m body, found = Some {| located_file := file; located_metadata := m |}
           /\ stored_as (encoding m) file body /\ sha256 body = sha256 (concat chunks)
           /\ content_len m = Z.of_nat (length body) /\ stored_len m = Z.of_nat (length file)
           /\ (pub_outcome pub = PublicationCreated -> body = concat chunks /\ encoding m = req_encoding request)
       | (Err e, _) => environment e
       end.
Proof.
  intros Hr Hf Hq Hd Hst H. eapply (publish_request_ok rest) in H
    as (v' & ? & Hst' & (chunks & Hs & ->) & _ & Hdig & _ & [m Hm] & Hc & _); [|done..].
  exists chunks. split; [done|]. split; [done|].
  destruct (locate _ _ _ w') as [[found|e] w2] eqn:E; [|by eapply locate_err].
  apply (locate_ok _ _ _ v') in E as [_ E]; [|done]. rewrite Hm in E. destruct E as (file & -> & Hfile & body & H1 & H2 & H3 & H4).
  exists file, m, body. split; [done|]. split; [done|]. split; [congruence|]. split; [done|]. split; [done|].
  intros Hcr. destruct (Hc Hcr) as (content & m' & Hfile' & Hs' & Hm' & He). rewrite Hm in Hm'. injection Hm' as <-.
  split; [|done]. assert (content = file) as -> by congruence. rewrite He in H1.
  destruct (req_encoding request); cbn in *; congruence.
Qed.

(** C9: Rows and files stay in one-to-one correspondence, each row describing its file (encoding,
    both lengths, digest), through any sequence of publications, lookups, reference changes,
    recoveries, maintenance passes, registrations and expiry updates that return without error. *)
Theorem completed_calls_consistent rest cfg calls v w w' :
  0 <= rest -> files_wf (cache_files cfg) -> 0 <= reclaim_byte_limit cfg -> Forall (call_wf cfg) calls ->
  disk_ok rest (cache_files cfg) w -> steady (cache_files cfg) v w -> completed_run cfg calls w w' ->
  exists v', viewed v' w' /\ consistent (cache_files cfg) v' (nodes (w_fs w')).
Proof.
  intros Hr Hf Hb HF Hd Hst H. eapply (completed_run_steady rest) in H as (v' & ? & _ & _ & ?); eauto.
Qed.

(** C3: Whatever calls a shard serves and whichever of their store writes and system calls fail,
    torn effects included, no reserved byte is ever leaked or released twice (between calls the
    ledger holds exactly what others reserved), and every file at a digest path is the stored form
    of bytes with that digest. *)
Theorem shard_disk_safe rest cfg calls w :
  0 <= rest -> files_wf (cache_files cfg) -> Forall (call_wf cfg) calls -> disk_ok rest (cache_files cfg) w ->
  holds (w_space (shard_run cfg calls w)) rest
  /\ intact (cache_files cfg) (nodes (w_fs (shard_run cfg calls w))).
Proof. intros Hr Hf HF Hd. by apply run_disk. Qed.

(** Every artifact stays reclaimable: after any calls with any failures, the store has a view
    in which each artifact row has the queue row of its own deadline. *)
Theorem every_artifact_queued cfg calls w :
  Forall (call_wf cfg) calls -> sound w ->
  exists v, viewed v (shard_run cfg calls w)
    /\ forall c a m, mv_artifacts v !! (c, a) = Some m -> (c, eligible_at m, a) ∈ mv_queue v.
Proof.
  intros HF Hw. destruct (run_sound cfg calls w HF Hw) as [(v & Hv & Hq & _) _]. by exists v.
Qed.

(** C15: A maintenance pass follows its policy: it changes nothing but artifact deadlines and
    artifacts of active channels; in normal mode it takes only expired artifacts unused since two
    rotations and gives expired but used ones a deadline one channel expiry from now; under space
    pressure it may take any and renews none; bodies and rows go together. *)
Theorem maintenance_policy cfg observation limit v w n w' :
  steady (cache_files cfg) v w -> 0 <= reclaim_byte_limit cfg ->
  run_maintenance_once cfg observation limit w = (Ok n, w') ->
  exists v', viewed v' w' /\ mv_channels v' = mv_channels v /\ mv_references v' = mv_references v
    /\ consistent (cache_files cfg) v' (nodes (w_fs w'))
    /\ forall c a, fate (mode (refresh observation (w_space w))).1 (w_clock w (w_ticks w)) (seen c a (w_recent w))
         (mv_channels v !! c) (mv_artifacts v !! (c, a)) (mv_artifacts v' !! (c, a)).
Proof.
  intros Hst Hb H. eapply maintenance_ok in H as (v' & b & (Hv & _ & _ & Hc) & _ & _ & Hp); [|done..].
  exists v'. by destruct Hp.
Qed.

(** A maintenance pass stays within its budgets: it reports exactly the number of artifacts
    that disappeared, at most the candidate limit, and the stored bytes it took, the last artifact
    apart, are below the byte limit. *)
Theorem maintenance_budget cfg observation limit v w n w' :
  steady (cache_files cfg) v w -> 0 <= reclaim_byte_limit cfg ->
  run_maintenance_once cfg observation limit w = (Ok n, w') ->
  exists v', viewed v' w' /\ (n <= limit)%nat
    /\ (size (mv_artifacts v') + n = size (mv_artifacts v))%nat
    /\ (total v' = total v
        \/ exists c a m, mv_artifacts v !! (c, a) = Some m /\ mv_artifacts v' !! (c, a) = None
           /\ total v - total v' - stored_len m < reclaim_byte_limit cfg).
Proof.
  intros Hst Hb H. eapply maintenance_ok in H as (v' & b & (Hv & _) & _ & -> & Hp); [|done..].
  destruct Hp as [_ _ _ Hn Hl _ _ Hx]. cbn in *. exists v'. split; [done|]. split; [lia|]. split; [lia|].
  destruct Hx as [?|(c & a & m & ? & ? & ?)]; [by left|right]. exists c, a, m. split; [done|]. split; [done|]. lia.
Qed.

Lemma fence_refuses c v w :
  viewed v w -> (forall r, mv_channels v !! c = Some r -> state r ≠ Active) ->
  exists e, (channel_fence c w).1 = Err e /\ viewed v (channel_fence c w).2
    /\ w_fs (channel_fence c w).2 = w_fs w /\ w_gates (channel_fence c w).2 = {[c]} ∪ w_gates w.
Proof.
  intros Hv Hn. unfold channel_fence, mbind, M_bind, gate, modify, c_meta, raising.
  set (w1 := set_gates _ w). pose proof (in_db_spec _ _ v w1 (channel_law c) Hv) as Hs.
  destruct (in_db (ms_channel c) w1) as [[found|e] w2].
  - destruct Hs as ([= Hf] & Hv2 & Hw2). destruct found as [r|]; cbn; [case_bool_decide; [by destruct (Hn r)|]|];
      eexists; (split; [done|]; split; [done|]; by rewrite Hw2).
  - destruct Hs as (Hw2 & Hs). eexists. split; [done|]. split; [|by rewrite Hw2]. cbn. naive_solver.
Qed.

(** A channel that is missing or being deleted takes no mutation: publishing to it, binding or
    deleting one of its references fails and leaves every row of the store as it was; the attempt
    leaves an entry for the channel in the gate registry. *)
Theorem mutations_need_active_channel cfg name request c n a e l d v w :
  viewed v w -> req_channel request = c -> (forall r, mv_channels v !! c = Some r -> state r ≠ Active) ->
  (forall pub, (publish_or_reject cfg name request w).1 ≠ Ok (AdmissionPublished pub))
  /\ viewed v (publish_or_reject cfg name request w).2
  /\ is_ok (bind_reference_with_validators c n a e l d w).1 = false
  /\ viewed v (bind_reference_with_validators c n a e l d w).2
  /\ is_ok (cache_delete_reference c n w).1 = false /\ viewed v (cache_delete_reference c n w).2
  /\ c ∈ w_gates (cache_delete_reference c n w).2.
Proof.
  intros Hv <- Hn. split; [|split].
  1, 2: unfold publish_or_reject, mbind, M_bind, c_local, raising, in_local, zoom;
    destruct (stage _ _ _ _ _ _ _ _ (get_local w)) as [[[staged|stream]|er] s]; cbn; try done;
    [destruct (req_target request) as [?|[?|]]; cbn; unfold commit_staged, try, mbind, M_bind;
     match goal with |- context [channel_fence ?x ?y] =>
       destruct (fence_refuses x v y Hv Hn) as (er & E & Hv' & _); destruct (channel_fence x y) as [? ?]; cbn in E; subst end; by cbn..].
  destruct (fence_refuses (req_channel request) v w Hv Hn) as (er & E & Hv' & _ & Hg).
  unfold bind_reference_with_validators, cache_delete_reference, mbind, M_bind.
  destruct (channel_fence (req_channel request) w) as [r w']; cbn in *; subst r; cbn. repeat split; try done. rewrite Hg. set_solver.
Qed.

(** C25: A deletion that fails part way is never half done for good. Either nothing was recorded,
    and the store is as it was; or, whatever well-formed calls follow, succeeding or failing,
    other than a registration of the same (random) identifier, the next resume that succeeds
    leaves no record, artifact, reference or queue entry of the channel, and, when its record
    was still there to be found, no file under its directory. Every file is in a directory that
    exists to begin with. *)
Theorem interrupted_deletion_resumes cfg id credential v w e w1 calls u w2 :
  viewed v w -> sound w -> tree_closed (nodes (w_fs w)) ->
  delete_channel (cache_files cfg) id credential w = (Err e, w1) ->
  Forall (call_wf cfg) calls ->
  Forall (fun call => forall secret protected expiry, call ≠ Register id secret protected expiry) calls ->
  resume_deletions (cache_files cfg) (shard_run cfg calls w1) = (Ok u, w2) ->
  viewed v w1
  \/ exists v1 v2, viewed v1 (shard_run cfg calls w1) /\ viewed v2 w2
       /\ mv_channels v2 !! id = None
       /\ (forall a, mv_artifacts v2 !! (id, a) = None) /\ (forall n, mv_references v2 !! (id, n) = None)
       /\ (forall t a, (id, t, a) ∉ mv_queue v2)
       /\ (is_Some (mv_channels v1 !! id) -> no_files_under (channel_dir (cache_files cfg) id) (nodes (w_fs w2))).
Proof.
  intros Hv Hs Ht Hd HF HR Hr.
  assert (sound w1) as Hs1 by (pose proof (delete_sound (cache_files cfg) id credential w Hs) as H; by rewrite Hd in H).
  assert (on_tree tree_closed w1) as Ht1 by (pose proof (t_delete tree_closed (cache_files cfg) id credential w Ht) as H; by rewrite Hd in H).
  apply (delete_channel_err _ _ _ v) in Hd as (v0 & Hv0 & [-> |Hdoom]); [by left| |done]. right.
  destruct (run_condemned cfg calls id w1 HF HR Hs1) as (v1 & Hv1 & Hc1); [exists v0; split; [done|by apply condemned_doomed]|].
  destruct (resume_doomed (cache_files cfg) id v1 (shard_run cfg calls w1) u w2) as (v2 & Hv2 & Hn & Hno & Hfiles);
    [done|by apply (t_run tree_closed)|by apply condemned_doomed|done|].
  apply vacant_no_rows in Hno as (A & B & C). by exists v1, v2.
Qed.
End Claims.

Section Witnesses.
#[local] Existing Instances toy_ulid toy_ulid_laws real_hex real_hex_laws toy_sha256 toy_zstd toy_zstd_laws.
#[local] Existing Instances toy_base64 toy_hasher toy_store toy_store_laws.

Definition sample_cfg : CacheConfig :=
  {| cache_files := sample_files; max_upload_bytes := 100; reclaim_byte_limit := 1000; orphan_scan_limit := 10 |}.

Definition sample_publish (encoding_ : StoredEncoding) : PublishRequest := {|
  req_channel := channel_a; req_target := ById (sample_artifact "hello world"); req_content_type := None;
  req_stream := sample_stream; req_content_length := Some 11; req_durability := Durable; req_encoding := encoding_ |}.

Definition sample_secret : bytes32 := digest_array (digest (sample_artifact "secret")).

Lemma sample_publish_wf e : request_wf (max_upload_bytes sample_cfg) (req_content_length (sample_publish e)).
Proof. split; [discriminate|]. intros n [= <-]. discriminate. Qed.

(** A shard with the channel registered, whose later store writes go as scripted. *)
Definition open_shard (db_faults : list (option bool)) (io_faults : list (option io_fault)) : World MemDB :=
  (register channel_a sample_secret false 60 (sample_world (None :: db_faults) io_faults)).2.

Lemma sample_no_artifact c a : ({[ [lit "data"] := Directory ]} : tree) !! artifact_path sample_files c a = None.
Proof.
  apply lookup_singleton_ne. intros E. apply (f_equal length) in E. rewrite artifact_path_length in E. discriminate.
Qed.

Lemma sample_disk_ok db_faults io_faults : disk_ok 0 sample_files (sample_world db_faults io_faults).
Proof.
  split; [exact (sample_holds [])|]. intros c a n H.
  change (({[ [lit "data"] := Directory ]} : tree) !! artifact_path sample_files c a = Some (File n)) in H.
  by rewrite sample_no_artifact in H.
Qed.

Lemma sample_steady db_faults io_faults : steady sample_files empty_view (sample_world db_faults io_faults).
Proof.
  split; [apply sample_world_viewed|]. split; [split|split].
  - intros c a m. cbn. by rewrite lookup_empty.
  - intros c r. cbn. by rewrite lookup_empty.
  - intros n. cbn. lia.
  - intros c a. change (nodes (w_fs (sample_world db_faults io_faults))) with ({[ [lit "data"] := Directory ]} : tree).
    by rewrite sample_no_artifact.
Qed.

Lemma open_shard_disk db_faults io_faults : disk_ok 0 sample_files (open_shard db_faults io_faults).
Proof.
  apply (step_disk 0 sample_cfg (Register channel_a sample_secret false 60) (sample_world (None :: db_faults) io_faults));
    [lia|exact sample_files_wf|cbn; lia|apply sample_disk_ok].
Qed.

Lemma ok_run {St E A} (m : M St E A) s : is_ok (m s).1 = true -> exists x, m s = (Ok x, (m s).2).
Proof. destruct (m s) as [[x|e] s']; [|done]. eauto. Qed.

Lemma open_shard_completed :
  completed sample_cfg (Register channel_a sample_secret false 60) (sample_world [None] []) (open_shard [] []).
Proof.
  destruct (ok_run (register channel_a sample_secret false 60) (sample_world [None] [])) as [x Hx]; [by vm_compute|].
  by econstructor.
Qed.

Lemma open_shard_steady : exists v, steady sample_files v (open_shard [] []).
Proof.
  exact (completed_steady 0 sample_cfg (Register channel_a sample_secret false 60) empty_view (sample_world [None] []) _
    ltac:(discriminate) sample_files_wf ltac:(discriminate) ltac:(discriminate) (sample_disk_ok _ _) (sample_steady _ _)
    open_shard_completed).
Qed.

Definition created : Publication := {| pub_artifact := sample_artifact "hello world"; pub_outcome := PublicationCreated |}.

Definition published_shard : World MemDB := (publish_or_reject sample_cfg (lit "t") (sample_publish Zstd) (open_shard [] [])).2.

Lemma sample_published :
  (publish_or_reject sample_cfg (lit "t") (sample_publish Zstd) (open_shard [] [])).1 = Ok (AdmissionPublished created).
Proof. vm_compute. reflexivity. Qed.

Lemma published_is_located_witness :
  exists chunks, sample_stream = Ok <$> chunks
    /\ digest_array (digest (sample_artifact "hello world")) = sha256 (concat chunks).
Proof.
  destruct open_shard_steady as [v Hv].
  destruct (published_is_located 0 sample_cfg (lit "t") (sample_publish Zstd) v (open_shard [] []) created published_shard
    ltac:(discriminate) sample_files_wf (sample_publish_wf Zstd) (open_shard_disk [] []) Hv (run_eq _ _ sample_published))
    as (chunks & H1 & H2 & _).
  exists chunks. exact (conj H1 H2).
Defined.

Definition sample_calls : list shard_call :=
  [Register channel_a sample_secret false 60; Publish (lit "t") (sample_publish Zstd);
   Locate channel_a (sample_artifact "hello world"); Maintain (Some 100) 5; Reconcile].

Lemma sample_calls_wf : Forall (call_wf sample_cfg) sample_calls.
Proof.
  constructor; [cbn; lia|]. constructor; [exact (sample_publish_wf Zstd)|]. constructor; [done|].
  constructor; [intros x [= <-]; split; discriminate|]. constructor; [done|constructor].
Qed.

Lemma sample_completed : exists w', completed_run sample_cfg sample_calls (sample_world [None] []) w'.
Proof.
  destruct (ok_run (locate sample_cfg channel_a (sample_artifact "hello world")) published_shard) as [x1 H1]; [by vm_compute|].
  set (w1 := (locate _ _ _ published_shard).2) in *.
  destruct (ok_run (flywheel_maintenance sample_cfg (Some 100) 5) w1) as [x2 H2]; [by vm_compute|].
  set (w2 := (flywheel_maintenance _ _ _ w1).2) in *.
  destruct (ok_run (reconcile sample_cfg) w2) as [x3 H3]; [by vm_compute|].
  eexists. econstructor; [exact open_shard_completed|]. econstructor; [econstructor; exact (run_eq _ _ sample_published)|].
  econstructor; [econstructor; exact H1|]. econstructor; [econstructor; exact H2|].
  econstructor; [econstructor; exact H3|]. constructor.
Qed.

Lemma completed_calls_consistent_witness :
  exists w' v', completed_run sample_cfg sample_calls (sample_world [None] []) w'
    /\ consistent sample_files v' (nodes (w_fs w')).
Proof.
  destruct sample_completed as [w' H]. exists w'.
  destruct (completed_calls_consistent 0 sample_cfg sample_calls empty_view (sample_world [None] []) w'
    ltac:(discriminate) sample_files_wf ltac:(discriminate) sample_calls_wf (sample_disk_ok _ _) (sample_steady _ _) H) as (v' & _ & Hc).
  exists v'. exact (conj H Hc).
Defined.

(** The fourth system call of this run fails half way. *)
Lemma shard_disk_safe_witness :
  holds (w_space (shard_run sample_cfg sample_calls (sample_world [None] [None; None; None; Some disk_full]))) 0.
Proof.
  destruct (shard_disk_safe 0 sample_cfg sample_calls (sample_world [None] [None; None; None; Some disk_full])
    ltac:(discriminate) sample_files_wf sample_calls_wf (sample_disk_ok _ _)) as [H _].
  exact H.
Defined.

Lemma every_artifact_queued_witness :
  exists v, viewed v (shard_run sample_cfg sample_calls (sample_world [None; Some true] [])).
Proof.
  destruct (every_artifact_queued sample_cfg sample_calls (sample_world [None; Some true] []) sample_calls_wf
    (steady_sound _ _ _ (sample_steady _ _))) as (v & H & _).
  exists v. exact H.
Defined.

(** After the deadline has passed the artifact is taken, under pressure as well. *)
Lemma published_steady : exists v, steady sample_files v published_shard.
Proof.
  destruct open_shard_steady as [v Hv].
  exact (completed_steady 0 sample_cfg (Publish (lit "t") (sample_publish Zstd)) v (open_shard [] []) _
    ltac:(discriminate) sample_files_wf ltac:(discriminate) (sample_publish_wf Zstd) (open_shard_disk _ _) Hv
    (completed_publish _ _ _ _ _ _ (run_eq _ _ sample_published))).
Qed.

Lemma sample_pass : (run_maintenance_once sample_cfg (Some 15) 5 published_shard).1 = Ok 1%nat.
Proof. vm_compute. reflexivity. Qed.

Lemma maintenance_policy_witness :
  exists v', viewed v' (run_maintenance_once sample_cfg (Some 15) 5 published_shard).2.
Proof.
  destruct published_steady as [v Hv].
  destruct (maintenance_policy sample_cfg (Some 15) 5 v published_shard 1 _ Hv ltac:(discriminate) (run_eq _ _ sample_pass))
    as (v' & H & _).
  exists v'. exact H.
Defined.

Lemma maintenance_budget_witness :
  exists v v', viewed v' (run_maintenance_once sample_cfg (Some 15) 5 published_shard).2
    /\ (size (mv_artifacts v') + 1 = size (mv_artifacts v))%nat.
Proof.
  destruct published_steady as [v Hv]. exists v.
  destruct (maintenance_budget sample_cfg (Some 15) 5 v published_shard 1 _ Hv ltac:(discriminate) (run_eq _ _ sample_pass))
    as (v' & H & _ & Hn & _).
  exists v'. exact (conj H Hn).
Defined.

Lemma mutations_need_active_channel_witness :
  viewed empty_view (publish_or_reject sample_cfg (lit "t") (sample_publish Zstd) (sample_world [] [])).2.
Proof.
  destruct (mutations_need_active_channel sample_cfg (lit "t") (sample_publish Zstd) channel_a (lit "n")
    (sample_artifact "hello world") None None Durable empty_view (sample_world [] []) (sample_world_viewed [] []) eq_refl)
    as (_ & H & _).
  - intros r H. cbn in H. rewrite lookup_empty in H. discriminate.
  - exact H.
Defined.

(** *** A publication that failed half way *)

(** The first publication's metadata write fails. *)
Definition half_published : World MemDB :=
  (publish_or_reject sample_cfg (lit "t") (sample_publish Identity) (open_shard [Some false] [])).2.

Definition republished : World MemDB := (publish_or_reject sample_cfg (lit "u") (sample_publish Zstd) half_published).2.

(** One failed metadata write is enough to make a row lie about its file: the body of the failed
    publication stays at its digest path, a retry in the other encoding finds it there, discards
    its own body and writes a row with its own encoding, and lookups then serve the old bytes under
    the wrong encoding, which do not decode. *)
Theorem retry_can_mislabel_encoding :
  is_ok (publish_or_reject sample_cfg (lit "t") (sample_publish Identity) (open_shard [Some false] [])).1 = false
  /\ (publish_or_reject sample_cfg (lit "u") (sample_publish Zstd) half_published).1 = Ok (AdmissionPublished created)
  /\ exists m, (locate sample_cfg channel_a (sample_artifact "hello world") republished).1
               = Ok (Some {| located_file := lit "hello world"; located_metadata := m |})
       /\ encoding m = Zstd /\ zstd_decode (lit "hello world") = None.
Proof.
  split; [vm_compute; reflexivity|]. split; [vm_compute; reflexivity|].
  eexists. split; [vm_compute; reflexivity|]. split; reflexivity.
Qed.

(** Between the failed deletion and the resume: an attempt to look an artifact up, a pass of
    maintenance, another channel registered and a failed second deletion. *)
Definition interim_calls : list shard_call :=
  [Locate channel_a (sample_artifact "hello world"); Maintain (Some 0) 4;
   Register DEFAULT sample_secret false 60; Delete channel_a None].

Lemma interim_wf : Forall (call_wf sample_cfg) interim_calls.
Proof.
  apply Forall_cons; split; [done|]. apply Forall_cons; split; [by intros y [= <-]|].
  apply Forall_cons; split; [done|]. apply Forall_cons; split; done.
Qed.

Lemma interim_others : Forall (fun call => forall secret protected expiry, call ≠ Register channel_a secret protected expiry) interim_calls.
Proof. repeat constructor; discriminate. Qed.

Lemma registered_sound db_faults : sound (registered_world db_faults).
Proof.
  unfold registered_world. apply preserves_after; [by apply register_sound|].
  destruct (sample_steady (None :: db_faults) []) as (Hv & Hok & Hk & _). split; [by exists empty_view|done].
Qed.

Definition resumed : result ChannelError unit * World MemDB :=
  resume_deletions sample_root (shard_run sample_cfg interim_calls interrupted_world).

Lemma resumed_ok : is_ok resumed.1 = true.
Proof. vm_compute. reflexivity. Qed.

Lemma interrupted_deletion_resumes_witness :
  exists v, viewed v (registered_world [None; Some false])
  /\ (viewed v interrupted_world \/ exists v2, viewed v2 resumed.2 /\ mv_channels v2 !! channel_a = None).
Proof.
  destruct (registered_viewed [None; Some false]) as [v Hv]. exists v. split; [exact Hv|].
  destruct (ok_run (resume_deletions sample_root) (shard_run sample_cfg interim_calls interrupted_world) resumed_ok) as [u Hu].
  destruct (interrupted_deletion_resumes sample_cfg channel_a None v (registered_world [None; Some false])
              (ChannelStore (Store "io error")) interrupted_world
              interim_calls u resumed.2 Hv (registered_sound _)) as [H|(v1 & v2 & _ & H & Hn & _)].
  - rewrite registered_fs. apply sample_world_closed.
  - exact interrupted.
  - exact interim_wf.
  - exact interim_others.
  - exact Hu.
  - left. exact H.
  - right. exists v2. split; [exact H|exact Hn].
Defined.
End Witnesses.
