(* ===== verification/Lists.v ===== *)
(** * Slice operations of the standard library

    Stable sorting, deduplication of neighbours, binary search and partition points, as the routing
    code uses them, with what they guarantee on ordered slices. *)

From S2P Require Import Prelude.

#[export] Instance bytes_le_rel : RelDecision bytes_le := bytes_le_dec.

Lemma sorted_lookup {A} (R : relation A) l i j x y :
  StronglySorted R l -> (i < j)%nat -> l !! i = Some x -> l !! j = Some y -> R x y.
Proof.
  intros H. revert i j. induction H as [|z l _ IH Hz]; intros i j Hij Hx Hy; [done|].
  destruct j as [|j]; [lia|]. cbn in Hy. destruct i as [|i]; cbn in Hx; [|apply (IH i j); auto with lia].
  injection Hx as ->. eapply Forall_forall in Hz; [exact Hz|]. by eapply list_elem_of_lookup_2.
Qed.

Lemma sorted_fmap {A B} (R : relation A) (T : relation B) (f : A -> B) l :
  StronglySorted R l -> (forall x y, x ∈ l -> y ∈ l -> R x y -> T (f x) (f y)) -> StronglySorted T (map f l).
Proof.
  induction 1 as [|z l _ IH Hz]; intros Hf; cbn; constructor.
  - apply IH. intros x y Hx Hy. apply Hf; by right.
  - apply Forall_fmap. apply Forall_forall. intros x Hx. apply Hf; [by left|by right|]. by eapply Forall_forall in Hz.
Qed.

Lemma sorted_filter {A} (R : relation A) (P : A -> bool) l : StronglySorted R l -> StronglySorted R (List.filter P l).
Proof.
  induction 1 as [|z l _ IH Hz]; cbn; [constructor|]. destruct (P z); [|done]. constructor; [done|].
  apply Forall_forall. intros x [Hx _]%list_elem_of_In%filter_In. eapply Forall_forall in Hz; [exact Hz|by apply list_elem_of_In].
Qed.

Section Sorting.
Context {A : Type} (R : relation A) `{!RelDecision R}.

(** [sort_by]: a stable sort, by insertion before the first element that is not smaller. *)
Fixpoint insert_by (x : A) (l : list A) : list A :=
  match l with
  | [] => [x]
  | y :: l' => if decide (R x y) then x :: l else y :: insert_by x l'
  end.

Fixpoint sort_by (l : list A) : list A :=
  match l with
  | [] => []
  | x :: l => insert_by x (sort_by l)
  end.

Lemma insert_by_perm x l : insert_by x l ≡ₚ x :: l.
Proof. induction l as [|y l IH]; cbn; [done|]. case_decide; [done|]. rewrite IH. apply Permutation_swap. Qed.

Lemma sort_by_perm l : sort_by l ≡ₚ l.
Proof. induction l as [|x l IH]; cbn; [done|]. by rewrite insert_by_perm, IH. Qed.

Lemma insert_by_sorted `{!Transitive R, !Total R} x l : StronglySorted R l -> StronglySorted R (insert_by x l).
Proof.
  induction 1 as [|y l Hl IH Hy]; cbn; [repeat constructor|]. case_decide as Hxy.
  - constructor; [by constructor|]. constructor; [done|]. eapply Forall_impl; [exact Hy|]. intros z Hz. by transitivity y.
  - constructor; [done|]. apply Forall_forall. intros z Hz. rewrite insert_by_perm in Hz. apply elem_of_cons in Hz as [->|Hz].
    + by destruct (total R x y).
    + by eapply Forall_forall in Hy.
Qed.

Lemma sort_by_sorted `{!Transitive R, !Total R} l : StronglySorted R (sort_by l).
Proof. induction l as [|x l IH]; cbn; [constructor|]. by apply insert_by_sorted. Qed.

(** Sorting and selecting commute, whatever the selection: the sort is stable. *)
Lemma insert_by_filter `{!Transitive R, !Total R} (P : A -> bool) x l : StronglySorted R l ->
  List.filter P (insert_by x l) = if P x then insert_by x (List.filter P l) else List.filter P l.
Proof.
  induction 1 as [|y l Hl IH Hy]; cbn; [by destruct (P x)|]. case_decide as Hxy; cbn.
  - destruct (P x) eqn:Ex; cbn; [|done]. destruct (P y) eqn:Ey; cbn; [by rewrite decide_True|].
    assert (Forall (R x) (List.filter P l)) as HF.
    { apply Forall_forall. intros z [Hz _]%list_elem_of_In%filter_In. transitivity y; [done|].
      eapply Forall_forall in Hy; [exact Hy|by apply list_elem_of_In]. }
    destruct (List.filter P l) as [|z l']; cbn; [done|]. inversion_clear HF. by rewrite decide_True.
  - rewrite IH. destruct (P x) eqn:Ex, (P y) eqn:Ey; cbn; try done. by rewrite decide_False.
Qed.

Lemma sort_by_filter `{!Transitive R, !Total R} (P : A -> bool) l :
  sort_by (List.filter P l) = List.filter P (sort_by l).
Proof.
  induction l as [|x l IH]; cbn; [done|]. rewrite insert_by_filter by apply sort_by_sorted.
  destruct (P x); cbn; by rewrite IH.
Qed.
End Sorting.

(** [dedup_by]: drops every element equal to the last one kept. *)
Section Dedup.
Context {A : Type} (same : A -> A -> bool).

Fixpoint dedup_after (x : A) (l : list A) : list A :=
  match l with
  | [] => []
  | y :: l => if same y x then dedup_after x l else y :: dedup_after y l
  end.

Definition dedup_by (l : list A) : list A :=
  match l with [] => [] | x :: l => x :: dedup_after x l end.

Lemma dedup_after_subset x l y : y ∈ dedup_after x l -> y ∈ l.
Proof.
  revert x. induction l as [|z l IH]; cbn; intros x; [done|]. case_bool; rewrite ?elem_of_cons; naive_solver.
Qed.

Lemma dedup_by_subset l y : y ∈ dedup_by l -> y ∈ l.
Proof. destruct l as [|x l]; [done|]. cbn. rewrite !elem_of_cons. intros [?|?]; eauto using dedup_after_subset. Qed.
End Dedup.

(** Deduplicating a list sorted by a key. *)
Section Keyed.
Context {A K : Type} `{!EqDecision K} (key : A -> K) (R : relation K) `{!RelDecision R}.
Context `{!Transitive R, !Total R, !AntiSymm (=) R}.

Definition key_le (x y : A) : Prop := R (key x) (key y).
Definition same_key (x y : A) : bool := bool_decide (key x = key y).
Definition key_lt (x y : A) : Prop := R (key x) (key y) /\ key x ≠ key y.

#[export] Instance key_le_dec : RelDecision key_le.
Proof. intros x y. unfold key_le. apply _. Defined.
#[export] Instance key_le_trans : Transitive key_le.
Proof. intros x y z. unfold key_le. apply transitivity. Qed.
#[export] Instance key_le_total : Total key_le.
Proof. intros x y. apply (total R). Qed.

Lemma dedup_after_sorted x l :
  StronglySorted key_le (x :: l) ->
  StronglySorted key_lt (x :: dedup_after same_key x l) /\ Forall (fun y => exists z, z ∈ x :: dedup_after same_key x l /\ key z = key y) (x :: l).
Proof.
  revert x. induction l as [|y l IH]; intros x Hs; cbn.
  { split; [repeat constructor|]. constructor; [|constructor]. exists x. split; [by left|done]. }
  inversion_clear Hs as [|?? Hs' Hx]. destruct (same_key y x) eqn:E; [apply bool_decide_eq_true in E|apply bool_decide_eq_false in E].
  - destruct (IH x) as [H1 H2].
    { inversion_clear Hs' as [|?? Hl Hy]. constructor; [done|]. by inversion_clear Hx. }
    split; [done|]. inversion_clear H2 as [|?? Hxx Hl]. constructor; [done|]. constructor; [|done].
    exists x. split; [by left|done].
  - destruct (IH y Hs') as [H1 H2]. split.
    + constructor; [done|]. assert (key_lt x y) as Hxy.
      { inversion_clear Hx. split; [done|congruence]. }
      constructor; [done|]. inversion_clear H1 as [|?? _ Hy]. eapply Forall_impl; [exact Hy|]. intros z [Hz1 Hz2].
      destruct Hxy as [Hxy1 Hxy2]. split; [by transitivity (key y)|]. intros Ez. apply Hxy2.
      apply (anti_symm R); [done|]. rewrite Ez. done.
    + constructor; [exists x; split; [by left|done]|]. eapply Forall_impl; [exact H2|]. intros z (u & Hu & E').
      exists u. split; [by right|done].
Qed.

Definition sorted_unique (l : list A) : list A := dedup_by same_key (sort_by key_le l).

Lemma sorted_unique_sorted l : StronglySorted key_lt (sorted_unique l).
Proof.
  unfold sorted_unique. pose proof (sort_by_sorted key_le l) as H. destruct (sort_by key_le l); [constructor|].
  by apply dedup_after_sorted.
Qed.

Lemma sorted_unique_keys l k : k ∈ key <$> sorted_unique l <-> k ∈ key <$> l.
Proof.
  assert (k ∈ key <$> l <-> k ∈ key <$> sort_by key_le l) as -> by (by rewrite sort_by_perm).
  pose proof (sort_by_sorted key_le l) as Hs. unfold sorted_unique.
  rewrite !list_elem_of_fmap. split.
  - intros (x & -> & Hx). exists x. split; [done|]. by eapply dedup_by_subset.
  - intros (x & -> & Hx). destruct (sort_by key_le l) as [|y l']; [by apply not_elem_of_nil in Hx|].
    apply dedup_after_sorted in Hs as [_ HF]. eapply Forall_forall in HF as (z & Hz & E); [|exact Hx]. by exists z.
Qed.

Lemma sorted_unique_elem l x : x ∈ sorted_unique l -> x ∈ l.
Proof. intros H%dedup_by_subset. by rewrite sort_by_perm in H. Qed.

Lemma key_lt_nodup l : StronglySorted key_lt l -> NoDup (key <$> l).
Proof.
  induction 1 as [|x l _ IH Hx]; cbn; constructor; [|done]. rewrite list_elem_of_fmap. intros (y & E & Hy).
  eapply Forall_forall in Hx as [_ Hne]; [|exact Hy]. done.
Qed.

Lemma key_lt_keys l : StronglySorted key_lt l -> StronglySorted R (key <$> l).
Proof.
  induction 1 as [|x l _ IH Hx]; cbn; constructor; [done|]. apply Forall_fmap. eapply Forall_impl; [exact Hx|]. by intros y [? _].
Qed.

(** The keys depend only on which keys there are. *)
Lemma sorted_unique_ext l1 l2 :
  (forall k, k ∈ key <$> l1 <-> k ∈ key <$> l2) -> key <$> sorted_unique l1 = key <$> sorted_unique l2.
Proof.
  intros H. apply (StronglySorted_unique R); try apply key_lt_keys, sorted_unique_sorted.
  apply NoDup_Permutation; try apply key_lt_nodup, sorted_unique_sorted. intros k. by rewrite !sorted_unique_keys.
Qed.

Lemma dedup_after_nodup x l : NoDup (key <$> x :: l) -> dedup_after same_key x l = l.
Proof.
  revert x. induction l as [|y l IH]; intros x Hn; cbn; [done|]. cbn in Hn.
  inversion_clear Hn as [|?? Hx Hn']. unfold same_key at 1. rewrite bool_decide_false.
  - by rewrite IH.
  - intros E. apply Hx. rewrite <- E. by left.
Qed.

Lemma sorted_unique_nodup l : NoDup (key <$> l) -> sorted_unique l = sort_by key_le l.
Proof.
  intros Hn. unfold sorted_unique. pose proof (sort_by_perm key_le l) as Hp.
  rewrite <- Hp in Hn. destruct (sort_by key_le l) as [|x l']; [done|]. cbn [dedup_by]. by rewrite dedup_after_nodup.
Qed.

Lemma key_lt_trans x y z : key_lt x y -> key_lt y z -> key_lt x z.
Proof.
  intros [H1 H2] [H3 H4]. split; [by transitivity (key y)|]. intros E. apply H4, (anti_symm R); [done|]. by rewrite <- E.
Qed.

(** Strictly sorted lists with the same elements are equal. *)
Lemma key_lt_ext l1 l2 :
  StronglySorted key_lt l1 -> StronglySorted key_lt l2 -> (forall x, x ∈ l1 <-> x ∈ l2) -> l1 = l2.
Proof.
  intros H1. revert l2. induction H1 as [|x l1 H1 IH Hx]; intros l2 H2 He.
  { destruct l2 as [|y l2]; [done|]. exfalso. apply (not_elem_of_nil y), He. by left. }
  destruct H2 as [|y l2 H2 Hy]; [exfalso; apply (not_elem_of_nil x), He; by left|].
  rewrite Forall_forall in Hx, Hy.
  assert (x = y) as <-.
  { assert (x ∈ y :: l2) as [->|Hxy]%elem_of_cons by (apply He; by left); [done|].
    assert (y ∈ x :: l1) as [->|Hyx]%elem_of_cons by (apply He; by left); [done|].
    destruct (key_lt_trans x y x); auto. done. }
  f_equal. apply IH; [done|]. intros z. split; intros Hz.
  - assert (z ∈ x :: l2) as [->|?]%elem_of_cons by (apply He; by right); [|done]. by destruct (Hx x Hz).
  - assert (z ∈ x :: l1) as [->|?]%elem_of_cons by (apply He; by right); [|done]. by destruct (Hy x Hz).
Qed.

End Keyed.

(** ** [binary_search_by] and [partition_point] *)

Section Search.
Context {A : Type}.

Inductive position_of := Found (i : nat) | InsertAt (i : nat).

(** The loop of the standard library: [size] is halved until one element is left. *)
Fixpoint search_loop (f : nat -> comparison) (fuel base size : nat) : nat :=
  match fuel with
  | O => base
  | S fuel =>
      if Nat.leb size 1 then base
      else
        let half := Nat.div2 size in
        let mid := (base + half)%nat in
        search_loop f fuel (match f mid with Gt => base | _ => mid end) (size - half)
  end.

Definition compare_at (f : A -> comparison) (l : list A) (i : nat) : comparison :=
  match l !! i with Some x => f x | None => Gt end.

Definition binary_search_by (f : A -> comparison) (l : list A) : position_of :=
  match l with
  | [] => InsertAt 0
  | _ :: _ =>
      let base := search_loop (compare_at f l) (length l) 0 (length l) in
      match compare_at f l base with
      | Eq => Found base
      | Lt => InsertAt (base + 1)
      | Gt => InsertAt base
      end
  end.

Definition partition_point (pred : A -> bool) (l : list A) : nat :=
  match binary_search_by (fun x => if pred x then Lt else Gt) l with Found i | InsertAt i => i end.

(** The comparisons along an ordered slice: first less, then equal, then greater. *)
Definition monotone (f : A -> comparison) (l : list A) : Prop :=
  forall i j x y, (i <= j)%nat -> l !! i = Some x -> l !! j = Some y ->
    (f y ≠ Gt -> f x ≠ Gt) /\ (f y = Lt -> f x = Lt).

Lemma search_loop_spec (f : nat -> comparison) n fuel : forall base size,
  (size <= fuel)%nat -> (1 <= size)%nat -> (base + size <= n)%nat ->
  (forall i j, (i <= j < n)%nat -> f j ≠ Gt -> f i ≠ Gt) ->
  (base = 0%nat \/ f base ≠ Gt) -> (forall i, (base + size <= i < n)%nat -> f i = Gt) ->
  let b := search_loop f fuel base size in
  (b < n)%nat /\ (b = 0%nat \/ f b ≠ Gt) /\ (forall i, (b < i < n)%nat -> f i = Gt).
Proof.
  induction fuel as [|fuel IH]; intros base size Hs H1 Hn Hm Hb Hg; [lia|]. cbn.
  destruct (Nat.leb_spec size 1).
  { split; [lia|]. split; [done|]. intros i Hi. apply Hg. lia. }
  assert (1 <= Nat.div2 size < size /\ 2 * Nat.div2 size <= size)%nat as Hh.
  { pose proof (Nat.div2_odd size). destruct (Nat.odd size); cbn in *; lia. }
  destruct (f (base + Nat.div2 size)%nat) eqn:E; apply IH; try done; try lia.
  - right. congruence.
  - intros i Hi. apply Hg. lia.
  - right. congruence.
  - intros i Hi. apply Hg. lia.
  - intros i Hi. destruct (decide (f i = Gt)) as [|Hne]; [done|].
    exfalso. apply (Hm (base + Nat.div2 size)%nat i); [lia|done|done].
Qed.

(** What the search answers on an ordered slice. *)
Lemma binary_search_spec f l : monotone f l ->
  match binary_search_by f l with
  | Found i => exists x, l !! i = Some x /\ f x = Eq
  | InsertAt n => (n <= length l)%nat /\ (forall i x, l !! i = Some x -> (i < n)%nat -> f x = Lt)
      /\ (forall i x, l !! i = Some x -> (n <= i)%nat -> f x = Gt)
  end.
Proof.
  intros Hm. destruct l as [|x0 l]; [cbn; split; [lia|]; split; intros i x; by rewrite lookup_nil|].
  assert (binary_search_by f (x0 :: l) =
    let b := search_loop (compare_at f (x0 :: l)) (length (x0 :: l)) 0 (length (x0 :: l)) in
    match compare_at f (x0 :: l) b with Eq => Found b | Lt => InsertAt (b + 1) | Gt => InsertAt b end) as -> by done.
  assert (1 <= length (x0 :: l))%nat as H1 by (cbn; lia). generalize dependent (x0 :: l). clear x0 l. intros l' Hm H1.
  assert (forall i, (i < length l')%nat -> exists x, l' !! i = Some x) as Hl.
  { intros i Hi. destruct (lookup_lt_is_Some_2 l' i Hi). eauto. }
  destruct (search_loop_spec (compare_at f l') (length l') (length l') 0 (length l'))
    as (Hb & Hd & Hg); [lia|lia|lia| |by left|intros i Hi; lia|].
  { intros i j [Hij Hj]. destruct (Hl i) as [x Hx]; [lia|]. destruct (Hl j) as [y Hy]; [lia|].
    unfold compare_at. rewrite Hx, Hy. by apply (Hm i j). }
  cbv zeta. set (b := search_loop _ _ _ _) in *. destruct (Hl b Hb) as [y Hy].
  assert (compare_at f l' b = f y) as Ey by (unfold compare_at; by rewrite Hy).
  assert (forall i x, l' !! i = Some x -> (b < i)%nat -> f x = Gt) as Hgt.
  { intros i x Hx Hi. pose proof (lookup_lt_Some _ _ _ Hx) as Hlt. specialize (Hg i ltac:(lia)).
    unfold compare_at in Hg. by rewrite Hx in Hg. }
  rewrite Ey. destruct (f y) eqn:E.
  - by exists y.
  - split; [lia|]. split; intros i x Hx Hi; [|apply (Hgt i); [done|lia]].
    destruct (Hm i b x y ltac:(lia) Hx Hy) as [_ H]. auto.
  - rewrite Ey in Hd. destruct Hd as [Hd|?]; [|done]. rewrite Hd in *. split; [lia|]. split; [intros; lia|].
    intros i x Hx _. destruct (decide (i = 0%nat)) as [->|]; [congruence|]. apply (Hgt i); [done|lia].
Qed.

Lemma partition_point_spec pred l :
  (forall i j x y, (i <= j)%nat -> l !! i = Some x -> l !! j = Some y -> pred y = true -> pred x = true) ->
  (partition_point pred l <= length l)%nat
  /\ (forall i x, l !! i = Some x -> pred x = bool_decide (i < partition_point pred l)%nat).
Proof.
  intros Hm. unfold partition_point. pose proof (binary_search_spec (fun x => if pred x then Lt else Gt) l) as H.
  destruct (binary_search_by _ l) as [n|n].
  - destruct H as (x & _ & H); [|by destruct (pred x)].
    intros i j x y Hij Hx Hy. specialize (Hm i j x y Hij Hx Hy). destruct (pred y), (pred x); naive_solver.
  - destruct H as (Hn & H1 & H2).
    { intros i j x y Hij Hx Hy. specialize (Hm i j x y Hij Hx Hy). destruct (pred y), (pred x); naive_solver. }
    split; [done|]. intros i x Hx. case_bool_decide as Hi.
    + specialize (H1 i x Hx Hi). by destruct (pred x).
    + specialize (H2 i x Hx ltac:(lia)). by destruct (pred x).
Qed.
End Search.

(** The first element at or past a bound, wrapping to the first of all. *)
Definition first_from {A} (past : A -> bool) (l : list A) : option A :=
  match List.find past l with Some x => Some x | None => head l end.

Lemma first_from_filter {A} (past keep : A -> bool) l x :
  first_from past l = Some x -> keep x = true -> first_from past (List.filter keep l) = Some x.
Proof.
  unfold first_from. intros H Hk. destruct (List.find past l) as [y|] eqn:E.
  - injection H as ->. assert (List.find past (List.filter keep l) = Some x) as ->; [|done].
    clear -E Hk. induction l as [|z l IH]; [done|]. cbn in *. destruct (past z) eqn:Ez.
    + injection E as ->. rewrite Hk. cbn. by rewrite Ez.
    + destruct (keep z); cbn; [rewrite Ez|]; auto.
  - assert (List.find past (List.filter keep l) = None) as ->.
    { clear H. induction l as [|z l IH]; [done|]. cbn in *. destruct (past z) eqn:Ez; [done|].
      destruct (keep z); cbn; [rewrite Ez|]; auto. }
    destruct l as [|z l]; [done|]. cbn in *. injection H as ->. by rewrite Hk.
Qed.

(** The partition point of an ordered slice finds it. *)
Lemma partition_point_first {A} (pred past : A -> bool) (l : list A) :
  (forall x, pred x = negb (past x)) ->
  (forall i j x y, (i <= j)%nat -> l !! i = Some x -> l !! j = Some y -> past x = true -> past y = true) ->
  l ≠ [] -> l !! (partition_point pred l mod length l)%nat = first_from past l.
Proof.
  intros Hpp Hm Hl. destruct (partition_point_spec pred l) as [Hn Hp].
  { intros i j x y Hij Hx Hy. specialize (Hm i j x y Hij Hx Hy).
    rewrite !Hpp. destruct (past x), (past y); naive_solver. }
  set (n := partition_point _ l) in *. unfold first_from.
  assert (forall m, (m <= length l)%nat -> (forall i x, l !! i = Some x -> pred x = bool_decide (i < m)%nat) ->
    List.find past l = l !! m) as Hfind.
  { clear -Hpp. induction l as [|z l IH]; intros m Hm H; [done|]. cbn. pose proof (H 0%nat z eq_refl) as Hz. rewrite Hpp in Hz. destruct m as [|m].
    - rewrite bool_decide_false in Hz by lia. by destruct (past z).
    - rewrite bool_decide_true in Hz by lia. destruct (past z); [done|]. cbn in Hm |- *. apply IH; [lia|].
      intros i x Hx. rewrite (H (S i) x Hx). apply bool_decide_ext. lia. }
  rewrite (Hfind n Hn Hp). destruct (decide (n = length l)) as [->|Hne].
  - rewrite Nat.Div0.mod_same, (lookup_ge_None_2 l (length l)) by lia. by destruct l.
  - rewrite Nat.mod_small by lia. destruct (lookup_lt_is_Some_2 l n) as [x ->]; [lia|done].
Qed.
