(* ===== verification/Text.v ===== *)
(** * String operations of the standard library

    Decimal numbers, prefixes, splitting and trimming, as the HTTP layer uses them on header
    values. *)

From S2P Require Import Prelude.

(** ** Decimal numbers *)

Definition digit_value (c : ascii) : option Z :=
  let v := byte_value c in if (48 <=? v) && (v <=? 57) then Some (v - 48) else None.

Definition digit_char (d : Z) : ascii := ascii_of_N (Z.to_N (48 + d)).

Fixpoint parse_digits (acc : Z) (s : bytes) : option Z :=
  match s with
  | [] => Some acc
  | c :: s =>
      d ← digit_value c;
      let acc := acc * 10 + d in
      if acc <=? u64_max then parse_digits acc s else None
  end.

(** [str::parse::<u64>]: a leading [+] is accepted. *)
Definition parse_u64 (s : bytes) : option Z :=
  match s with
  | [] => None
  | c :: rest =>
      if bool_decide (c = "+"%char) then match rest with [] => None | _ :: _ => parse_digits 0 rest end
      else parse_digits 0 s
  end.

(** [Display] for [u64]; twenty digits are enough. *)
Fixpoint dec_digits (fuel : nat) (n : Z) (acc : bytes) : bytes :=
  match fuel with
  | O => acc
  | S fuel =>
      let acc := digit_char (n mod 10) :: acc in
      if n <? 10 then acc else dec_digits fuel (n / 10) acc
  end.
Definition dec_string (n : Z) : bytes := dec_digits 20 n [].

(** ** Prefixes and splitting *)

Fixpoint strip_prefix (p s : bytes) : option bytes :=
  match p, s with
  | [], _ => Some s
  | x :: p, y :: s => if bool_decide (x = y) then strip_prefix p s else None
  | _ :: _, [] => None
  end.

Fixpoint split_once (sep : ascii) (s : bytes) : option (bytes * bytes) :=
  match s with
  | [] => None
  | c :: s => if bool_decide (c = sep) then Some ([], s) else '(a, b) ← split_once sep s; Some (c :: a, b)
  end.

Fixpoint split_on (sep : ascii) (s : bytes) : list bytes :=
  match s with
  | [] => [[]]
  | c :: s =>
      if bool_decide (c = sep) then [] :: split_on sep s
      else match split_on sep s with
           | [] => [[c]]
           | part :: parts => (c :: part) :: parts
           end
  end.

Definition is_space (c : ascii) : bool :=
  let v := byte_value c in (v =? 32) || ((9 <=? v) && (v <=? 13)).

Fixpoint trim_start (s : bytes) : bytes :=
  match s with [] => [] | c :: s' => if is_space c then trim_start s' else s end.
Definition trim (s : bytes) : bytes := rev (trim_start (rev (trim_start s))).

(** ** HTTP vocabulary *)

Inductive Method := GET | HEAD | PUT | POST | DELETE | OtherMethod (name : bytes).

#[export] Instance Method_eq_dec : EqDecision Method.
Proof. solve_decision. Defined.

(** A [HeaderMap]: lowercase names with their values, in order. *)
Definition headers : Type := list (bytes * bytes).

(** [HeaderMap::get]: the first value of the name. *)
Definition header (name : bytes) (hs : headers) : option bytes :=
  snd <$> List.find (fun h => bool_decide (h.1 = name)) hs.

(** [HeaderValue::to_str]: visible ASCII and tabs. *)
Definition visible (c : ascii) : bool := let v := byte_value c in ((32 <=? v) && (v <? 127)) || (v =? 9).
Definition to_str (value : bytes) : option bytes := if forallb visible value then Some value else None.

(** [std::str::from_utf8]: well-formed UTF-8, without overlong forms and surrogates. *)
Definition in_range (lo hi : Z) (c : ascii) : bool := (lo <=? byte_value c) && (byte_value c <=? hi).
Definition tail_byte : ascii -> bool := in_range 128 191.

Fixpoint is_utf8_fuel (fuel : nat) (s : bytes) : bool :=
  match fuel with
  | O => match s with [] => true | _ :: _ => false end
  | S fuel =>
      match s with
      | [] => true
      | a :: s1 =>
          if in_range 0 127 a then is_utf8_fuel fuel s1
          else if in_range 194 223 a then
            match s1 with b :: s2 => tail_byte b && is_utf8_fuel fuel s2 | _ => false end
          else if in_range 224 239 a then
            match s1 with
            | b :: c :: s3 =>
                in_range (if byte_value a =? 224 then 160 else 128) (if byte_value a =? 237 then 159 else 191) b
                && tail_byte c && is_utf8_fuel fuel s3
            | _ => false
            end
          else if in_range 240 244 a then
            match s1 with
            | b :: c :: d :: s4 =>
                in_range (if byte_value a =? 240 then 144 else 128) (if byte_value a =? 244 then 143 else 191) b
                && tail_byte c && tail_byte d && is_utf8_fuel fuel s4
            | _ => false
            end
          else false
      end
  end.
Definition is_utf8 (s : bytes) : bool := is_utf8_fuel (length s) s.

(** ** Lemmas *)

Definition is_digit (c : ascii) : bool := match digit_value c with Some _ => true | None => false end.

Lemma digit_char_value d : 0 <= d < 10 -> digit_value (digit_char d) = Some d.
Proof.
  intros H. unfold digit_value, digit_char, byte_value. rewrite N_ascii_embedding by lia.
  rewrite Z2N.id by lia. rewrite !(proj2 (Z.leb_le _ _)) by lia. cbn. f_equal. lia.
Qed.

Lemma digit_value_range c d : digit_value c = Some d -> 0 <= d < 10.
Proof. unfold digit_value. case_bool; [|done]. apply andb_true_iff in Heqb as []. zify_bool. intros [= <-]. lia. Qed.

Lemma parse_digits_range s acc n : 0 <= acc <= u64_max -> parse_digits acc s = Some n -> is_u64 n.
Proof.
  revert acc. induction s as [|c s IH]; cbn; intros acc Ha H; [by simplify_eq|].
  destruct (digit_value c) as [d|] eqn:Ed; [|done]. cbn in H. apply digit_value_range in Ed. case_match; [|done]. zify_bool.
  eapply IH; [|exact H]. lia.
Qed.

Lemma parse_u64_range s n : parse_u64 s = Some n -> is_u64 n.
Proof.
  unfold parse_u64. destruct s as [|c s]; [done|]. case_bool_decide; [destruct s; [done|]|]; apply parse_digits_range;
    split; try lia; unfold u64_max; lia.
Qed.

(** The digits of a number, most significant first. *)
Fixpoint digits_of (fuel : nat) (n : Z) : list Z :=
  match fuel with
  | O => []
  | S fuel => (if n <? 10 then [] else digits_of fuel (n / 10)) ++ [n mod 10]
  end.

Lemma dec_digits_spec fuel n acc : dec_digits fuel n acc = map digit_char (digits_of fuel n) ++ acc.
Proof.
  revert n acc. induction fuel as [|fuel IH]; intros n acc; cbn; [done|]. case_bool; [done|].
  by rewrite IH, map_app, <- app_assoc.
Qed.

Definition digits_value (acc : Z) (ds : list Z) : Z := fold_left (fun a d => a * 10 + d) ds acc.

Lemma digits_of_value fuel n : 0 <= n < 10 ^ Z.of_nat fuel ->
  digits_value 0 (digits_of fuel n) = n /\ Forall (fun d => 0 <= d < 10) (digits_of fuel n).
Proof.
  revert n. induction fuel as [|fuel IH]; intros n H; [split; [cbn in *; lia|constructor]|]. cbn [digits_of].
  rewrite Nat2Z.inj_succ, Z.pow_succ_r in H by lia. pose proof (Z.div_mod n 10 ltac:(lia)) as Hd.
  pose proof (Z.mod_pos_bound n 10 ltac:(lia)) as Hm. case_bool; zify_bool.
  - cbn [app]. split; [|by apply Forall_singleton]. unfold digits_value. cbn [fold_left]. rewrite Z.mod_small by lia. lia.
  - destruct (IH (n / 10)) as [E HF].
    { split; [apply Z.div_pos; lia|]. apply Z.div_lt_upper_bound; lia. }
    unfold digits_value in *. rewrite fold_left_app, E. cbn. split; [lia|]. apply Forall_app. split; [done|by apply Forall_singleton].
Qed.

Lemma digits_value_mono ds acc : 0 <= acc -> Forall (fun d => 0 <= d < 10) ds -> acc <= digits_value acc ds.
Proof.
  intros Ha HF. revert acc Ha. induction HF as [|d ds Hd _ IH]; intros acc Ha; cbn; [lia|].
  specialize (IH (acc * 10 + d) ltac:(lia)). unfold digits_value in IH |- *. lia.
Qed.

Lemma parse_digits_chars ds acc : 0 <= acc -> Forall (fun d => 0 <= d < 10) ds -> digits_value acc ds <= u64_max ->
  parse_digits acc (map digit_char ds) = Some (digits_value acc ds).
Proof.
  intros Ha HF. revert acc Ha. induction HF as [|d ds Hd HF IH]; intros acc Ha Hv; cbn; [done|].
  rewrite digit_char_value by done. cbn. cbn in Hv. pose proof (digits_value_mono ds (acc * 10 + d) ltac:(lia) HF) as Hm.
  unfold digits_value in *. rewrite (proj2 (Z.leb_le _ _)) by lia. apply IH; [lia|done].
Qed.

Lemma digits_of_ne fuel n : digits_of (S fuel) n ≠ [].
Proof. cbn. intros E. apply app_eq_nil in E as [_ ?]. done. Qed.

Lemma dec_string_digits n : is_u64 n -> exists ds, dec_string n = map digit_char ds /\ ds ≠ []
  /\ digits_value 0 ds = n /\ Forall (fun d => 0 <= d < 10) ds.
Proof.
  intros Hn. unfold dec_string. rewrite dec_digits_spec, app_nil_r. exists (digits_of 20 n). split; [done|].
  split; [apply digits_of_ne|]. apply digits_of_value. unfold is_u64, u64_max in Hn. change (10 ^ Z.of_nat 20) with 100000000000000000000. lia.
Qed.

Lemma parse_dec n : is_u64 n -> parse_u64 (dec_string n) = Some n.
Proof.
  intros Hn. destruct (dec_string_digits n Hn) as (ds & -> & Hne & Hv & HF). destruct ds as [|d ds]; [done|].
  unfold parse_u64. cbn [map]. rewrite bool_decide_false.
  - change (digit_char d :: map digit_char ds) with (map digit_char (d :: ds)).
    rewrite parse_digits_chars; [by rewrite Hv|lia|done|rewrite Hv; apply Hn].
  - inversion_clear HF as [|?? Hd _]. pose proof (digit_char_value d Hd) as E. intros Ec. by rewrite Ec in E.
Qed.

Lemma dec_string_no c n : is_u64 n -> is_digit c = false -> c ∉ dec_string n.
Proof.
  intros Hn Hc. destruct (dec_string_digits n Hn) as (ds & -> & _ & _ & HF). rewrite list_elem_of_fmap. intros (d & -> & Hd).
  eapply Forall_forall in HF; [|exact Hd]. unfold is_digit in Hc. by rewrite digit_char_value in Hc.
Qed.

Lemma split_on_app sep a b : split_on sep (a ++ sep :: b) = split_on sep a ++ split_on sep b.
Proof.
  induction a as [|c a IH]; cbn; [by rewrite bool_decide_true|]. case_bool_decide; [cbn; by rewrite IH|].
  rewrite IH. destruct (split_on sep a) eqn:E; [|done]. by destruct a; cbn in E; repeat case_match.
Qed.

Lemma split_on_ne sep s : split_on sep s ≠ [].
Proof. destruct s; cbn; [done|]. repeat case_match; done. Qed.

Lemma split_on_none sep s : sep ∉ s -> split_on sep s = [s].
Proof.
  induction s as [|c s IH]; intros H; cbn; [done|]. apply not_elem_of_cons in H as [Hc H].
  rewrite bool_decide_false by done. by rewrite IH.
Qed.

Lemma split_once_app sep a b : sep ∉ a -> split_once sep (a ++ sep :: b) = Some (a, b).
Proof.
  induction a as [|c a IH]; intros H; cbn; [by rewrite bool_decide_true|].
  rewrite bool_decide_false by (intros ->; apply H; by left). rewrite IH; [done|]. intros ?. apply H. by right.
Qed.

Lemma strip_prefix_inv p s r : strip_prefix p s = Some r -> s = p ++ r.
Proof.
  revert s. induction p as [|x p IH]; intros s; cbn; [by intros [= ->]|]. destruct s as [|y s]; [done|]. case_bool_decide; [|done].
  intros ->%IH. by subst.
Qed.

Lemma split_once_inv sep s a b : split_once sep s = Some (a, b) -> s = a ++ sep :: b.
Proof.
  revert a. induction s as [|c s IH]; intros a; cbn; [done|]. case_bool_decide as E; [intros [= <- <-]; by subst|].
  destruct (split_once sep s) as [[x y]|]; cbn; [|done]. intros [= <- <-]. cbn. f_equal. by apply IH.
Qed.

Lemma split_once_first sep s a b : split_once sep s = Some (a, b) -> sep ∉ a.
Proof.
  revert a. induction s as [|c s IH]; intros a; cbn; [done|]. case_bool_decide as E; [intros [= <- <-]; by apply not_elem_of_nil|].
  destruct (split_once sep s) as [[x y]|]; cbn; [|done]. intros [= <- <-]. apply not_elem_of_cons. split; [congruence|]. by apply IH.
Qed.

Lemma strip_prefix_app p s : strip_prefix p (p ++ s) = Some s.
Proof. induction p as [|c p IH]; cbn; [done|]. by rewrite bool_decide_true. Qed.
