(* ===== verification/Ring.v ===== *)
(** * The consistent-hash ring ([agent/ring.rs])

    The routing-key encoding, the continuum of virtual nodes and the owner of a position. *)

From S2P Require Import Prelude Externals Concrete Lists.

Definition ROUTING_VERSION : bytes := lit "flywheel-routing-v1".
Definition VIRTUAL_NODES : nat := 160.

(** [std::net] addresses; all V4 addresses order before V6 ones. *)
Inductive IpAddr := V4 (bits : Z) | V6 (bits : Z).
Record SocketAddr := { ip : IpAddr; port : Z }.

#[export] Instance IpAddr_eq_dec : EqDecision IpAddr.
Proof. solve_decision. Defined.
#[export] Instance SocketAddr_eq_dec : EqDecision SocketAddr.
Proof. solve_decision. Defined.

Definition ip_le (x y : IpAddr) : bool :=
  match x, y with
  | V4 a, V4 b | V6 a, V6 b => a <=? b
  | V4 _, V6 _ => true
  | V6 _, V4 _ => false
  end.

Record RingMember := { member_id : bytes; address : SocketAddr }.

#[export] Instance RingMember_eq_dec : EqDecision RingMember.
Proof. solve_decision. Defined.

(** ** Routing keys *)

(** The loop body: a length prefix of two bytes, then the part. *)
Definition encode_part (part : bytes) : option bytes :=
  if (Z.of_nat (length part) <=? 65535) then Some (be_bytes 2 (Z.of_nat (length part)) ++ part) else None.

Fixpoint encode_parts (parts : list bytes) : option bytes :=
  match parts with
  | [] => Some []
  | part :: parts =>
      encoded ← encode_part part;
      rest ← encode_parts parts;
      Some (encoded ++ rest)
  end.

Definition routing_key (kind id : bytes) : option bytes := encode_parts [ROUTING_VERSION; kind; id].

Section Ring.
Context {SH : Sha256Lib} {HX : HexLib}.

Definition position (b : bytes) : Z := be_value (take 8 (b32 (sha256 b))).

Definition key_position (kind id : bytes) : option Z := position <$> routing_key kind id.

(** ** The continuum *)

(** The point of one virtual node: the member's identity and the node's number. *)
Definition vnode_point (id : bytes) (vnode : nat) : Z := position (id ++ be_bytes 2 (Z.of_nat vnode)).

(** The tuple order of [(u64, usize)]. *)
Definition point_le (x y : Z * nat) : Prop := x.1 < y.1 \/ (x.1 = y.1 /\ (x.2 <= y.2)%nat).

#[export] Instance point_le_dec : RelDecision point_le.
Proof. intros x y. unfold point_le. apply _. Defined.

Record Ring := { members : list RingMember; points : list (Z * nat); fingerprint : bytes }.

Definition member_points (index : nat) (m : RingMember) : list (Z * nat) :=
  map (fun vnode => (vnode_point (member_id m) vnode, index)) (seq 0 VIRTUAL_NODES).

(** [join] with a newline. *)
Fixpoint join (sep : bytes) (parts : list bytes) : bytes :=
  match parts with
  | [] => []
  | [part] => part
  | part :: parts => part ++ sep ++ join sep parts
  end.

Definition newline : bytes := [ascii_of_N 10].

Definition Ring_new (ms : list RingMember) : Ring :=
  let ms := sorted_unique member_id bytes_le ms in
  {| members := ms;
     points := sort_by point_le (concat (imap member_points ms));
     fingerprint := hex_encode (b32 (sha256 (join newline (map member_id ms)))) |}.

Definition owner (r : Ring) (pos : Z) : option RingMember :=
  match points r with
  | [] => None
  | _ :: _ =>
      let index := Nat.modulo (partition_point (fun p : Z * nat => p.1 <? pos) (points r)) (length (points r)) in
      '(_, member) ← points r !! index;
      members r !! member
  end.

(** ** Lemmas *)

Lemma position_u64 b : is_u64 (position b).
Proof.
  unfold position. pose proof (be_value_range (take 8 (b32 (sha256 b)))) as H.
  rewrite length_take, length_b32 in H. unfold is_u64, u64_max. change (256 ^ Z.of_nat (8 `min` 32)) with (2 ^ 64) in H. lia.
Qed.

#[export] Instance point_le_trans : Transitive point_le.
Proof. intros x y z. unfold point_le. lia. Qed.
#[export] Instance point_le_total : Total point_le.
Proof. intros x y. unfold point_le. lia. Qed.
#[export] Instance point_le_antisym : AntiSymm (=) point_le.
Proof. intros [a i] [b j]. unfold point_le. cbn. intros. f_equal; lia. Qed.

(** *** The labelled continuum

    Points with the identity they belong to instead of an index: what placement depends on. *)

Definition label_le (x y : Z * bytes) : Prop := x.1 < y.1 \/ (x.1 = y.1 /\ bytes_le x.2 y.2).

#[export] Instance label_le_dec : RelDecision label_le.
Proof. intros x y. unfold label_le. apply _. Defined.
#[export] Instance label_le_trans : Transitive label_le.
Proof.
  intros x y z [H1|[H1 H1']] [H2|[H2 H2']]; unfold label_le; [left; lia..|]. right. split; [lia|]. by transitivity y.2.
Qed.
#[export] Instance label_le_total : Total label_le.
Proof.
  intros x y. unfold label_le. destruct (Z.lt_trichotomy x.1 y.1) as [|[E|]]; [by left; left| |by right; left].
  destruct (total bytes_le x.2 y.2); [left|right]; right; split; auto.
Qed.
#[export] Instance label_le_antisym : AntiSymm (=) label_le.
Proof.
  intros [a i] [b j]. unfold label_le. cbn. intros [?|[-> H1]] [?|[? H2]]; try lia. f_equal. by apply (anti_symm bytes_le).
Qed.

Definition label_points (id : bytes) : list (Z * bytes) := map (fun v => (vnode_point id v, id)) (seq 0 VIRTUAL_NODES).

Definition continuum (ids : list bytes) : list (Z * bytes) := sort_by label_le (concat (map label_points ids)).

Definition label (ms : list RingMember) (p : Z * nat) : Z * bytes :=
  (p.1, match ms !! p.2 with Some m => member_id m | None => [] end).

Lemma imap_points_labels ms : 
  map (label ms) (concat (imap member_points ms)) = concat (map label_points (map member_id ms)).
Proof.
  assert (forall ms0 ms1, ms = ms0 ++ ms1 ->
    map (label ms) (concat (imap (fun i => member_points (length ms0 + i)) ms1)) = concat (map label_points (map member_id ms1))) as H.
  { intros ms0 ms1. revert ms0. induction ms1 as [|m ms1 IH]; intros ms0 E; [done|]. rewrite imap_cons. cbn [concat map]. rewrite map_app. f_equal.
    - unfold member_points, label_points. rewrite map_map. apply map_ext. intros v. unfold label. cbn.
      rewrite E, Nat.add_0_r, lookup_app_r, Nat.sub_diag by lia. done.
    - rewrite <- (IH (ms0 ++ [m])); [|by rewrite <- app_assoc]. f_equal. f_equal. apply imap_ext.
      intros i x _. unfold compose. f_equal. rewrite length_app. change (length [m]) with 1%nat. lia. }
  apply (H [] ms eq_refl).
Qed.

Lemma points_index ms p : p ∈ concat (imap member_points ms) -> (p.2 < length ms)%nat.
Proof.
  rewrite list_elem_of_In, in_concat. intros (l & Hl & Hp). apply list_elem_of_In, list_elem_of_lookup in Hl as [i Hi].
  rewrite list_lookup_imap in Hi. destruct (ms !! i) eqn:E; [|done]. injection Hi as <-.
  apply in_map_iff in Hp as (v & <- & _). cbn. by eapply lookup_lt_Some.
Qed.

Lemma label_mono ms p q :
  StronglySorted (key_lt member_id bytes_le) ms -> (p.2 < length ms)%nat -> (q.2 < length ms)%nat ->
  point_le p q -> label_le (label ms p) (label ms q).
Proof.
  intros Hs Hp Hq [H|[E H]]; [by left|]. right. cbn. split; [done|].
  destruct (lookup_lt_is_Some_2 ms p.2 Hp) as [x Hx], (lookup_lt_is_Some_2 ms q.2 Hq) as [y Hy]. rewrite Hx, Hy.
  destruct (decide (p.2 = q.2)) as [E'|Hne].
  { rewrite E' in Hx. rewrite Hx in Hy. injection Hy as ->. apply bytes_le_refl. }
  apply (sorted_lookup _ _ p.2 q.2 x y Hs); [lia|done|done].
Qed.

Lemma members_sorted ms : StronglySorted (key_lt member_id bytes_le) (members (Ring_new ms)).
Proof. apply (sorted_unique_sorted member_id bytes_le); apply _. Qed.

(** The continuum with labels depends on the identities alone. *)
Lemma labels_continuum ms :
  map (label (members (Ring_new ms))) (points (Ring_new ms)) = continuum (map member_id (members (Ring_new ms))).
Proof.
  set (ms' := members (Ring_new ms)). apply (StronglySorted_unique label_le).
  - eapply sorted_fmap; [apply (sort_by_sorted point_le)|]. intros p q Hp Hq.
    change (sort_by point_le (concat (imap member_points ms'))) with (points (Ring_new ms)) in *.
    apply label_mono; [apply members_sorted|..]; apply points_index; by rewrite <- (sort_by_perm point_le).
  - apply sort_by_sorted; apply _.
  - unfold continuum. rewrite sort_by_perm, <- imap_points_labels. apply Permutation_map, sort_by_perm.
Qed.

Lemma find_member ms i m :
  StronglySorted (key_lt member_id bytes_le) ms -> ms !! i = Some m ->
  List.find (fun x => bool_decide (member_id x = member_id m)) ms = Some m.
Proof.
  intros Hs Hi. destruct (List.find _ ms) as [x|] eqn:E.
  - apply find_some in E as [Hx%list_elem_of_In E%bool_decide_eq_true]. apply list_elem_of_lookup in Hx as [j Hj].
    f_equal. pose proof (key_lt_nodup member_id bytes_le ms Hs) as Hn.
    assert (i = j) as <-; [|congruence]. eapply (NoDup_lookup _ i j (member_id m) Hn); rewrite list_lookup_fmap.
    + by rewrite Hi.
    + rewrite Hj. cbn. by rewrite E.
  - exfalso. eapply find_none in E; [|apply list_elem_of_In; by eapply list_elem_of_lookup_2, Hi]. by rewrite bool_decide_true in E.
Qed.

(** The owner of a position is the member of the first labelled point at or past it. *)
Lemma owner_first ms pos :
  owner (Ring_new ms) pos
  = ('(_, id) ← first_from (fun p : Z * bytes => pos <=? p.1) (continuum (map member_id (members (Ring_new ms))));
     List.find (fun m => bool_decide (member_id m = id)) (members (Ring_new ms))).
Proof.
  rewrite <- (labels_continuum ms). set (r := Ring_new ms). unfold owner.
  destruct (points r) as [|p0 ps] eqn:Ep; [done|]. rewrite <- Ep. assert (points r ≠ []) as Hne by congruence. clear Ep p0 ps.
  assert (forall i j x y, (i <= j)%nat -> points r !! i = Some x -> points r !! j = Some y -> pos <=? x.1 = true -> pos <=? y.1 = true) as Hm.
  { intros i j x y Hij Hx Hy Hle. destruct (decide (i = j)) as [->|]; [congruence|]. zify_bool.
    apply Z.leb_le. assert (point_le x y) as [?|[? _]]; [|lia..].
    apply (sorted_lookup point_le (points r) i j); [apply sort_by_sorted; apply _|lia|done|done]. }
  rewrite (partition_point_first (fun p : Z * nat => p.1 <? pos) (fun p => pos <=? p.1)); [|intros x; apply Z.ltb_antisym|done|done].
  assert (first_from (fun p : Z * bytes => pos <=? p.1) (map (label (members r)) (points r))
          = label (members r) <$> first_from (fun p : Z * nat => pos <=? p.1) (points r)) as ->.
  { unfold first_from. assert (List.find (fun p : Z * bytes => pos <=? p.1) (map (label (members r)) (points r))
      = label (members r) <$> List.find (fun p : Z * nat => pos <=? p.1) (points r)) as ->.
    { clear. induction (points r) as [|p ps IH]; [done|]. cbn. by destruct (pos <=? p.1). }
    destruct (List.find _ (points r)); [done|]. by destruct (points r). }
  destruct (first_from _ (points r)) as [[pt i]|] eqn:E; [|done]. cbn.
  assert ((pt, i) ∈ points r) as Hin.
  { unfold first_from in E. destruct (List.find _ _) eqn:Ef.
    - injection E as ->. by apply list_elem_of_In; apply find_some in Ef as [? _].
    - by apply head_Some_elem_of. }
  unfold r in Hin. cbn in Hin. rewrite sort_by_perm in Hin. apply points_index in Hin. cbn in Hin.
  change (sorted_unique member_id bytes_le ms) with (members r) in Hin.
  destruct (lookup_lt_is_Some_2 _ _ Hin) as [m Hm']. change (members r !! i = List.find (fun x => bool_decide (member_id x
    = match members r !! i with Some m => member_id m | None => [] end)) (members r)). rewrite Hm'. symmetry.
  apply (find_member _ i); [apply members_sorted|done].
Qed.
End Ring.
