(* ===== verification/RingClaims.v ===== *)
(** * What the ring guarantees

    Every agent places alike, removing a member moves only its own keys, the owner is the nearest
    virtual node, and routing keys do not collide. *)

From S2P Require Import Prelude Externals Concrete Lists Ring.

Section Claims.
Context {SH : Sha256Lib} {HX : HexLib}.

(** *** Continua *)

Lemma continuum_filter (keep : bytes -> bool) ids :
  continuum (List.filter keep ids) = List.filter (fun p => keep p.2) (continuum ids).
Proof.
  unfold continuum. rewrite <- sort_by_filter by apply _. f_equal. induction ids as [|id ids IH]; [done|]. cbn [map concat].
  rewrite List.filter_app, <- IH. cbn [List.filter]. assert (List.filter (fun p => keep p.2) (label_points id) = if keep id then label_points id else []) as ->.
  { unfold label_points. generalize (seq 0 VIRTUAL_NODES). intros vs. induction vs as [|v vs IHv]; cbn; [by destruct (keep id)|].
    rewrite IHv. by destruct (keep id). }
  by destruct (keep id).
Qed.

Lemma elem_of_continuum ids p : p ∈ continuum ids <-> exists id v, id ∈ ids /\ (v < VIRTUAL_NODES)%nat /\ p = (vnode_point id v, id).
Proof.
  unfold continuum. rewrite sort_by_perm, list_elem_of_In, in_concat. split.
  - intros (l & (id & <- & Hid)%in_map_iff & (v & <- & Hv)%in_map_iff). apply in_seq in Hv. exists id, v.
    split; [by apply list_elem_of_In|]. split; [lia|done].
  - intros (id & v & Hid & Hv & ->). exists (label_points id). split; [by apply in_map, list_elem_of_In|].
    apply in_map_iff. exists v. split; [done|]. apply in_seq. lia.
Qed.

Lemma find_filter_member (keep : bytes -> bool) ms id : keep id = true ->
  List.find (fun m => bool_decide (member_id m = id)) (List.filter (fun m => keep (member_id m)) ms)
  = List.find (fun m => bool_decide (member_id m = id)) ms.
Proof.
  intros Hk. induction ms as [|m ms IH]; [done|]. cbn. destruct (decide (member_id m = id)) as [E|Hne].
  - rewrite E, Hk. cbn. by rewrite E, bool_decide_true.
  - rewrite (bool_decide_false _ Hne), <- IH. destruct (keep (member_id m)); [|done]. cbn. by rewrite bool_decide_false.
Qed.

Definition others (x : bytes) (ms : list RingMember) : list RingMember :=
  List.filter (fun m => negb (bool_decide (member_id m = x))) ms.

Lemma members_others x ms : NoDup (map member_id ms) -> members (Ring_new (others x ms)) = others x (members (Ring_new ms)).
Proof.
  intros Hn. cbn. rewrite !sorted_unique_nodup; [apply sort_by_filter; apply _|done|].
  unfold others. clear -Hn. induction ms as [|m ms IH]; cbn; [done|]. cbn in Hn. inversion_clear Hn as [|?? Hm Hn'].
  case_bool; cbn; [|auto]. constructor; [|auto]. intros Hin. apply Hm. apply list_elem_of_fmap in Hin as (y & -> & Hy).
  apply list_elem_of_fmap. exists y. split; [done|]. apply list_elem_of_In, filter_In in Hy as [Hy _]. by apply list_elem_of_In.
Qed.

Lemma map_id_others x ms :
  map member_id (others x ms) = List.filter (fun k => negb (bool_decide (k = x))) (map member_id ms).
Proof. unfold others. induction ms as [|m ms IH]; [done|]. cbn. case_bool; cbn; by rewrite IH. Qed.

(** *** Claims *)

(** C27: Every agent converges on the same placement: two snapshots that list the same identities,
    in any order and with any repetitions and addresses, give the same continuum, the same
    fingerprint and the same owning identity for every position; and when each identity is listed
    once, the order of the listing does not matter at all. *)
Theorem ring_converges (ms1 ms2 : list RingMember) :
  (forall id, id ∈ map member_id ms1 <-> id ∈ map member_id ms2) ->
  points (Ring_new ms1) = points (Ring_new ms2) /\ fingerprint (Ring_new ms1) = fingerprint (Ring_new ms2)
  /\ (forall pos, member_id <$> owner (Ring_new ms1) pos = member_id <$> owner (Ring_new ms2) pos)
  /\ (ms1 ≡ₚ ms2 -> NoDup (map member_id ms1) -> Ring_new ms1 = Ring_new ms2).
Proof.
  intros H. pose proof (sorted_unique_ext member_id bytes_le ms1 ms2 H) as E. fold (members (Ring_new ms1)) in E.
  assert (forall l1 l2 : list RingMember, map member_id l1 = map member_id l2 ->
    imap member_points l1 = imap member_points l2) as Himap.
  { clear. intros l1 l2 E. assert (forall l : list RingMember, imap member_points l =
      imap (fun i id => map (fun v => (vnode_point id v, i)) (seq 0 VIRTUAL_NODES)) (map member_id l)) as Hl.
    { intros l. change (map member_id l) with (member_id <$> l). by rewrite imap_fmap. }
    by rewrite !Hl, E. }
  split; [|split; [|split]].
  - cbn. f_equal. f_equal. by apply Himap.
  - cbn. change (@map RingMember (list ascii) member_id) with (fmap (M := list) member_id). by rewrite E.
  - intros pos. rewrite !owner_first. change (map member_id (members (Ring_new ms1))) with (member_id <$> sorted_unique member_id bytes_le ms1).
    change (map member_id (members (Ring_new ms2))) with (member_id <$> sorted_unique member_id bytes_le ms2). rewrite <- E.
    destruct (first_from _ _) as [[pt id]|]; [|done]. cbn. revert E. generalize (sorted_unique member_id bytes_le ms1), (sorted_unique member_id bytes_le ms2).
    intros l1. induction l1 as [|m l1 IH]; intros [|m' l2]; try done. cbn. intros [= E1 E2]. rewrite E1.
    case_bool_decide; [by cbn; f_equal|]. by apply IH.
  - intros Hp Hn. unfold Ring_new.
    assert (sorted_unique member_id bytes_le ms1 = sorted_unique member_id bytes_le ms2) as Es; [|by rewrite Es].
    apply (key_lt_ext member_id bytes_le); try (apply sorted_unique_sorted; apply _).
    intros x. rewrite !sorted_unique_nodup by (try rewrite <- Hp; done). by rewrite !sort_by_perm, Hp.
Qed.

(** C28: Membership changes move only what they must: when a member leaves the ring (or, read the
    other way, joins it), every position owned by another member keeps its owner, address
    included. *)
Theorem ring_minimal_disruption (ms : list RingMember) (x : bytes) (pos : Z) :
  NoDup (map member_id ms) ->
  owner (Ring_new (others x ms)) pos = owner (Ring_new ms) pos
  \/ exists m, owner (Ring_new ms) pos = Some m /\ member_id m = x.
Proof.
  intros Hn. rewrite !owner_first, members_others, map_id_others, continuum_filter by done.
  set (c := continuum _). destruct (first_from (fun p : Z * bytes => pos <=? p.1) c) as [[pt id]|] eqn:E.
  2: { left. destruct c as [|p c]; [done|]. unfold first_from in E. by destruct (List.find _ _). }
  cbn. destruct (decide (id = x)) as [->|Hne].
  - right. assert ((pt, x) ∈ c) as Hin.
    { unfold first_from in E. destruct (List.find _ _) eqn:Ef.
      - injection E as ->. apply list_elem_of_In. by apply find_some in Ef as [? _].
      - by apply head_Some_elem_of. }
    apply elem_of_continuum in Hin as (? & v & Hid & _ & [= _ <-]). apply list_elem_of_fmap in Hid as (m & -> & Hm).
    apply list_elem_of_lookup in Hm as [i Hi]. exists m. split; [|done]. eapply find_member; [apply members_sorted|exact Hi].
  - left. rewrite (first_from_filter _ (fun p : Z * bytes => negb (bool_decide (p.2 = x))) c (pt, id) E).
    + cbn. set (keep := fun k : bytes => negb (bool_decide (k = x))). apply (find_filter_member keep).
      unfold keep. by rewrite bool_decide_false.
    + cbn. by rewrite bool_decide_false.
Qed.

Lemma first_from_nearest ids pos pt id :
  is_u64 pos -> first_from (fun p : Z * bytes => pos <=? p.1) (continuum ids) = Some (pt, id) ->
  (pt, id) ∈ continuum ids /\ forall q, q ∈ continuum ids -> (pt - pos) mod 2 ^ 64 <= (q.1 - pos) mod 2 ^ 64.
Proof.
  intros Hpos H. assert (forall q, q ∈ continuum ids -> is_u64 q.1) as Hu.
  { intros q (i & v & _ & _ & ->)%elem_of_continuum. apply position_u64. }
  assert (StronglySorted label_le (continuum ids)) as Hs by (apply sort_by_sorted; apply _).
  unfold first_from in H. destruct (List.find _ _) as [p|] eqn:E.
  - injection H as ->. revert Hs Hu E. generalize (continuum ids). intros l Hs. induction Hs as [|z l _ IH Hz]; intros Hu E; [done|].
    cbn in E. destruct (Z.leb_spec pos z.1) as [Hle|Hgt].
    + injection E as ->. split; [by left|]. intros q [->|Hq]%elem_of_cons; [done|]. cbn in Hle.
      assert (is_u64 q.1) as Hq1 by (apply Hu; by right). assert (is_u64 pt) as Hp1 by (apply (Hu (pt, id)); by left).
      assert (pt <= q.1) as Hpq.
      { rewrite Forall_forall in Hz. destruct (Hz q Hq) as [?|[? _]]; cbn in *; lia. }
      unfold is_u64, u64_max in *. rewrite !Z.mod_small by lia. lia.
    + destruct IH as [Hin Hmin]; [intros q Hq; apply Hu; by right|done|]. split; [by right|].
      intros q [->|Hq]%elem_of_cons; [|by apply Hmin].
      assert (is_u64 z.1) as Hz1 by (apply Hu; by left).
      apply find_some in E as [Hp%list_elem_of_In Hpp%Z.leb_le]. cbn in Hpp.
      assert (is_u64 pt) as Hp1 by (apply (Hu (pt, id)); by right). unfold is_u64, u64_max in *.
      rewrite (Z.mod_small (pt - pos)) by lia. replace ((z.1 - pos) mod 2 ^ 64) with (z.1 - pos + 2 ^ 64); [lia|].
      apply Z.mod_unique with (-1); lia.
  - destruct (continuum ids) as [|z l] eqn:El; [done|]. cbn in H. injection H as ->. split; [by left|].
    intros q Hq. assert (forall p, p ∈ (pt, id) :: l -> p.1 < pos) as Hlt.
    { intros p Hp. eapply find_none in E; [|by apply list_elem_of_In]. by apply Z.leb_gt in E. }
    assert (pt <= q.1) as Hpq.
    { apply elem_of_cons in Hq as [->|Hq]; [done|]. inversion_clear Hs as [|?? _ Hz].
      rewrite Forall_forall in Hz. destruct (Hz q Hq) as [?|[? _]]; cbn in *; lia. }
    pose proof (Hu q Hq) as H1. pose proof (Hu (pt, id) ltac:(by left)) as H2. cbn in H2.
    pose proof (Hlt q Hq) as H3. pose proof (Hlt (pt, id) ltac:(by left)) as H4. cbn in H4. unfold is_u64, u64_max in *.
    replace ((pt - pos) mod 2 ^ 64) with (pt - pos + 2 ^ 64) by (apply Z.mod_unique with (-1); lia).
    replace ((q.1 - pos) mod 2 ^ 64) with (q.1 - pos + 2 ^ 64) by (apply Z.mod_unique with (-1); lia). lia.
Qed.

(** A ring with members always has an owner, and it is the nearest one: the owner is a listed
    member and one of its virtual nodes is at the least clockwise distance from the position, over
    all the virtual nodes of all the members. *)
Theorem owner_is_nearest (ms : list RingMember) (pos : Z) :
  ms ≠ [] -> is_u64 pos ->
  exists m v, owner (Ring_new ms) pos = Some m /\ m ∈ ms /\ (v < VIRTUAL_NODES)%nat
    /\ forall m' v', m' ∈ ms -> (v' < VIRTUAL_NODES)%nat ->
       (vnode_point (member_id m) v - pos) mod 2 ^ 64 <= (vnode_point (member_id m') v' - pos) mod 2 ^ 64.
Proof.
  intros Hne Hpos. rewrite owner_first. set (ids := map member_id (members (Ring_new ms))).
  assert (forall id, id ∈ ids <-> id ∈ map member_id ms) as Hids.
  { intros id. apply (sorted_unique_keys member_id bytes_le). }
  destruct (first_from (fun p : Z * bytes => pos <=? p.1) (continuum ids)) as [[pt id]|] eqn:E.
  - destruct (first_from_nearest ids pos pt id Hpos E) as [Hin Hmin].
    apply elem_of_continuum in Hin as (? & v & Hid & Hv & [= -> <-]).
    pose proof Hid as (m & -> & Hm)%list_elem_of_fmap. pose proof Hm as [i Hi]%list_elem_of_lookup.
    exists m, v. cbn [mbind option_bind]. split; [eapply find_member; [apply members_sorted|exact Hi]|].
    split; [by apply (sorted_unique_elem member_id bytes_le)|]. split; [done|].
    intros m' v' Hm' Hv'. apply (Hmin (vnode_point (member_id m') v', member_id m')). apply elem_of_continuum.
    exists (member_id m'), v'. split; [|done]. apply Hids, list_elem_of_fmap. eauto.
  - exfalso. destruct ms as [|m ms]; [done|]. assert (member_id m ∈ ids) as Hm by (apply Hids; by left).
    assert ((vnode_point (member_id m) 0, member_id m) ∈ continuum ids) as Hc.
    { apply elem_of_continuum. exists (member_id m), 0%nat. split; [done|]. split; [unfold VIRTUAL_NODES; lia|done]. }
    unfold first_from in E. destruct (List.find _ _); [done|]. destruct (continuum ids); [by apply not_elem_of_nil in Hc|done].
Qed.
End Claims.

Lemma encode_part_inj p p' r r' b b' :
  encode_part p = Some b -> encode_part p' = Some b' -> b ++ r = b' ++ r' -> p = p' /\ r = r'.
Proof.
  unfold encode_part. repeat case_bool; try done. zify_bool. intros <-%(inj Some) <-%(inj Some) H.
  rewrite <- !app_assoc in H. apply app_eq_len in H as [Hl H]; [|by rewrite !length_be_bytes].
  apply be_bytes_inj in Hl; [|change (256 ^ Z.of_nat 2) with 65536; lia..]. apply Nat2Z.inj in Hl.
  by apply app_eq_len in H.
Qed.

(** Routing keys identify their object: a key is produced exactly when kind and identifier fit
    their length prefixes, and two objects with the same key are the same. *)
Theorem routing_key_injective (kind id kind' id' : bytes) :
  (routing_key kind id = None <-> (length kind > Z.to_nat 65535)%nat \/ (length id > Z.to_nat 65535)%nat)
  /\ (routing_key kind id = routing_key kind' id' -> is_Some (routing_key kind id) -> kind = kind' /\ id = id').
Proof.
  assert (encode_part ROUTING_VERSION = Some (be_bytes 2 19 ++ ROUTING_VERSION)) as Hv by done.
  split.
  - unfold routing_key. cbn [encode_parts]. rewrite Hv. cbn [mbind option_bind]. unfold encode_part.
    repeat case_bool; zify_bool; cbn; split; intros; try done; try lia.
  - unfold routing_key. cbn [encode_parts]. rewrite Hv. cbn [mbind option_bind].
    destruct (encode_part kind) as [k|] eqn:Ek; [|by intros _ [? ?]]. cbn [mbind option_bind].
    destruct (encode_part id) as [i|] eqn:Ei; [|by intros _ [? ?]]. cbn [mbind option_bind].
    destruct (encode_part kind') as [k'|] eqn:Ek'; [|done]. cbn [mbind option_bind].
    destruct (encode_part id') as [i'|] eqn:Ei'; [|done]. cbn [mbind option_bind].
    intros H%(inj Some) _. apply app_inv_head in H.
    destruct (encode_part_inj _ _ _ _ _ _ Ek Ek' H) as [-> H']. split; [done|].
    by destruct (encode_part_inj _ _ _ _ _ _ Ei Ei' H') as [-> _].
Qed.

Section Witnesses.
#[local] Existing Instances toy_sha256 real_hex.

Definition shard_a : RingMember := {| member_id := lit "shard-0.cache"; address := {| ip := V4 167772161; port := 8080 |} |}.
Definition shard_b : RingMember := {| member_id := lit "shard-1.cache"; address := {| ip := V4 167772162; port := 8080 |} |}.

Lemma shards_nodup : NoDup (map member_id [shard_a; shard_b]).
Proof. apply (bool_decide_eq_true_1 (NoDup (map member_id [shard_a; shard_b]))). vm_compute. reflexivity. Qed.

Lemma ring_converges_witness :
  fingerprint (Ring_new [shard_a; shard_b]) = fingerprint (Ring_new [shard_b; shard_a; shard_b])
  /\ Ring_new [shard_a; shard_b] = Ring_new [shard_b; shard_a].
Proof.
  destruct (ring_converges [shard_a; shard_b] [shard_b; shard_a; shard_b]) as (_ & H1 & _ & _).
  - intros id. cbn [map]. set_solver.
  - destruct (ring_converges [shard_a; shard_b] [shard_b; shard_a]) as (_ & _ & _ & H2).
    + intros id. cbn [map]. set_solver.
    + split; [exact H1|]. apply H2; [apply Permutation_swap|exact shards_nodup].
Defined.

Lemma ring_minimal_disruption_witness :
  owner (Ring_new (others (lit "shard-0.cache") [shard_a; shard_b])) 0 = owner (Ring_new [shard_a; shard_b]) 0
  \/ exists m, owner (Ring_new [shard_a; shard_b]) 0 = Some m /\ member_id m = lit "shard-0.cache".
Proof. exact (ring_minimal_disruption [shard_a; shard_b] (lit "shard-0.cache") 0 shards_nodup). Defined.

Lemma owner_is_nearest_witness : exists m, owner (Ring_new [shard_a; shard_b]) 7 = Some m.
Proof.
  destruct (owner_is_nearest [shard_a; shard_b] 7 ltac:(discriminate) ltac:(split; discriminate)) as (m & v & H & _).
  exists m. exact H.
Defined.

Lemma routing_key_injective_witness :
  routing_key (lit "artifact") (lit "ab") ≠ routing_key (lit "artifacta") (lit "b").
Proof.
  intros H. destruct (routing_key_injective (lit "artifact") (lit "ab") (lit "artifacta") (lit "b")) as [_ Hi].
  destruct (Hi H) as [E _]; [eexists; reflexivity|]. discriminate E.
Defined.
End Witnesses.
