(* ===== verification/Discovery.v ===== *)
(** * Discovery and backend ejection ([agent/discovery.rs])

    The discovered membership with its failure bookkeeping, and the continuum over the members
    that may be routed to.  The lock serialises the operations; each is one step, at the time the
    clock reads when it runs. *)

From S2P Require Import Prelude Externals Concrete Lists Ring.

Record SrvRecord := { srv_target : bytes; srv_port : Z }.
Record SrvSnapshot := { srv_records : list SrvRecord; srv_ttl : Z }.

(** What DNS answers during one refresh. *)
Record Resolver := {
  resolve_srv : bytes -> result bytes SrvSnapshot;
  resolve_ips : bytes -> result bytes (list IpAddr)
}.

(** [trim_end_matches('.')] *)
Definition is_dot (c : ascii) : bool := bool_decide (c = "."%char).
Fixpoint trim_start_dots (s : bytes) : bytes :=
  match s with
  | [] => []
  | c :: s' => if is_dot c then trim_start_dots s' else s
  end.
Definition trim_end_dots (s : bytes) : bytes := rev (trim_start_dots (rev s)).

Definition canonical_member_id (target : bytes) : bytes := to_ascii_lowercase (trim_end_dots target).

Record MemberHealth := { health_member : RingMember; failures : Z; next_retry : option Z }.

Definition health_id (h : MemberHealth) : bytes := member_id (health_member h).

Definition u32_max : Z := 2 ^ 32 - 1.

(** [rand::Rng::random_range] over a half-open range of [f64]s with one exponent, given and
    answered as whole multiples of their last place; [rng] is the generator's state. *)
Class RandLib := {
  random_range : Z -> Z -> Z -> Z;
  random_range_in rng low high : low < high -> low <= random_range rng low high < high
}.

Section Discovery.
Context {SH : Sha256Lib} {HX : HexLib}.

Record RingInner := {
  discovered : list MemberHealth;
  active_ring : Ring;
  earliest_retry : option Z;
  last_refresh : option Z;
  last_error : option bytes
}.

(** [RingState]; the lock and the clock apart. *)
Record RingState := { inner : RingInner; failure_limit : Z; retry_timeout_seconds : Z }.

Definition with_inner (st : RingState) (i : RingInner) : RingState :=
  {| inner := i; failure_limit := failure_limit st; retry_timeout_seconds := retry_timeout_seconds st |}.

Definition RingState_new (limit timeout : Z) : RingState := {|
  inner := {| discovered := []; active_ring := Ring_new []; earliest_retry := None; last_refresh := None; last_error := None |};
  failure_limit := Z.max limit 1; retry_timeout_seconds := timeout |}.

(** [member] and [member_mut]: the index the binary search finds. *)
Definition member_index (ms : list MemberHealth) (id : bytes) : option nat :=
  match binary_search_by (fun h => bytes_compare (health_id h) id) ms with
  | Found i => Some i
  | InsertAt _ => None
  end.

Definition find_health (ms : list MemberHealth) (id : bytes) : option MemberHealth :=
  i ← member_index ms id; ms !! i.

(** The loop of [rebuild]: the members after readmission, the eligible ones, the soonest deadline. *)
Fixpoint rebuild_loop (now : Z) (ms : list MemberHealth) (earliest : option Z)
    : list MemberHealth * list RingMember * option Z :=
  match ms with
  | [] => ([], [], earliest)
  | h :: ms =>
      match next_retry h with
      | Some deadline =>
          if deadline <=? now then
            let '(hs, eligible, earliest) := rebuild_loop now ms earliest in
            ({| health_member := health_member h; failures := 0; next_retry := None |} :: hs,
             health_member h :: eligible, earliest)
          else
            let '(hs, eligible, earliest) := rebuild_loop now ms
              (Some (match earliest with None => deadline | Some soonest => Z.min soonest deadline end)) in
            (h :: hs, eligible, earliest)
      | None =>
          let '(hs, eligible, earliest) := rebuild_loop now ms earliest in
          (h :: hs, health_member h :: eligible, earliest)
      end
  end.

Definition rebuild (i : RingInner) (now : Z) : RingInner :=
  let '(hs, eligible, earliest) := rebuild_loop now (discovered i) None in
  {| discovered := hs; active_ring := Ring_new eligible; earliest_retry := earliest;
     last_refresh := last_refresh i; last_error := last_error i |}.

Definition none_or_before (now : Z) (deadline : option Z) : bool :=
  match deadline with None => true | Some deadline => now <? deadline end.

(** [RingState::ring] *)
Definition current_ring (now : Z) (st : RingState) : Ring * RingState :=
  if none_or_before now (earliest_retry (inner st)) then (active_ring (inner st), st)
  else let i := rebuild (inner st) now in (active_ring i, with_inner st i).

Definition set_discovered (i : RingInner) (ms : list MemberHealth) : RingInner :=
  {| discovered := ms; active_ring := active_ring i; earliest_retry := earliest_retry i;
     last_refresh := last_refresh i; last_error := last_error i |}.

Definition set_failures (n : Z) (h : MemberHealth) : MemberHealth :=
  {| health_member := health_member h; failures := n; next_retry := next_retry h |}.
Definition set_next_retry (deadline : option Z) (h : MemberHealth) : MemberHealth :=
  {| health_member := health_member h; failures := failures h; next_retry := deadline |}.

Definition record_success (id : bytes) (st : RingState) : RingState :=
  let ms := discovered (inner st) in
  match find_health ms id with
  | None => st
  | Some found =>
      if failures found =? 0 then st
      else match member_index ms id with
           | None => st
           | Some i =>
               match ms !! i with
               | None => st
               | Some found => with_inner st (set_discovered (inner st) (<[i := set_failures 0 found]> ms))
               end
           end
  end.

Definition record_failure (now : Z) (id : bytes) (st : RingState) : bool * RingState :=
  let ms := discovered (inner st) in
  match member_index ms id with
  | None => (false, st)
  | Some i =>
      match ms !! i with
      | None => (false, st)
      | Some found =>
          let found := set_failures (Z.min (failures found + 1) u32_max) found in
          if bool_decide (is_Some (next_retry found)) || (failures found <? failure_limit st)
          then (false, with_inner st (set_discovered (inner st) (<[i := found]> ms)))
          else
            let found := set_next_retry (Some (wrapping_add now (retry_timeout_seconds st))) found in
            (true, with_inner st (rebuild (set_discovered (inner st) (<[i := found]> ms)) now))
      end
  end.

(** The health a discovered member starts with: what was known of its identity. *)
Definition carry_over (old : list MemberHealth) (m : RingMember) : MemberHealth :=
  let previous := find_health old (member_id m) in
  {| failures := match previous with Some h => failures h | None => 0 end;
     next_retry := h ← previous; next_retry h;
     health_member := m |}.

Definition apply_snapshot (now : Z) (ms : list RingMember) (st : RingState) : RingState :=
  let hs := sorted_unique health_id bytes_le (map (carry_over (discovered (inner st))) ms) in
  with_inner st (rebuild {| discovered := hs; active_ring := active_ring (inner st);
    earliest_retry := earliest_retry (inner st); last_refresh := Some now; last_error := None |} now).

Definition record_refresh_error (error : bytes) (st : RingState) : RingState :=
  with_inner st {| discovered := discovered (inner st); active_ring := active_ring (inner st);
    earliest_retry := earliest_retry (inner st); last_refresh := last_refresh (inner st); last_error := Some error |}.

Definition known_addresses (st : RingState) : list (bytes * SocketAddr) :=
  map (fun h => (health_id h, address (health_member h))) (discovered (inner st)).

(** [RingState::status] *)
Record MemberStatus := {
  status_id : bytes; status_address : SocketAddr; status_failures : Z; status_next_retry : option Z; status_ejected : bool
}.
Record RingStatus := {
  status_fingerprint : bytes; status_last_refresh : option Z; status_last_error : option bytes;
  status_members : list MemberStatus
}.

Definition status (now : Z) (st : RingState) : RingStatus := {|
  status_fingerprint := fingerprint (active_ring (inner st));
  status_last_refresh := last_refresh (inner st);
  status_last_error := last_error (inner st);
  status_members := map (fun h => {|
    status_id := health_id h; status_address := address (health_member h); status_failures := failures h;
    status_next_retry := next_retry h;
    status_ejected := match next_retry h with Some deadline => now <? deadline | None => false end |})
    (discovered (inner st)) |}.

(** ** One refresh *)

(** [ips.into_iter().min()] *)
Definition min_ip (first : IpAddr) (rest : list IpAddr) : IpAddr :=
  fold_left (fun best x => if ip_le best x then best else x) rest first.

Definition refresh_member (r : Resolver) (known : gmap bytes SocketAddr) (record : SrvRecord) : option RingMember :=
  let id := canonical_member_id (srv_target record) in
  match resolve_ips r (srv_target record) with
  | Ok (first :: rest) => Some {| member_id := id; address := {| ip := min_ip first rest; port := srv_port record |} |}
  | _ =>
      previous ← known !! id;
      Some {| member_id := id; address := {| ip := ip previous; port := srv_port record |} |}
  end.

Definition refresh_once (r : Resolver) (srv_name : bytes) (now : Z) : M RingState bytes Z := fun st =>
  match resolve_srv r srv_name with
  | Err e => (Err e, st)
  | Ok snapshot =>
      let known := list_to_map (rev (known_addresses st)) in
      (Ok (srv_ttl snapshot), apply_snapshot now (omap (refresh_member r known) (srv_records snapshot)) st)
  end.

(** ** The discovery loop

    Durations are in nanoseconds. *)

Definition from_secs (secs : Z) : Z := secs * 1000000000.

(** [Duration]'s range is that of a [u64] of seconds. *)
Definition in_duration (d : Z) : option Z := if d <? from_secs (2^64) then Some d else None.

(** [Duration::clamp] panics, [None], when its bounds are out of order. *)
Definition clamp (x lo hi : Z) : option Z := if lo <=? hi then Some (Z.min (Z.max x lo) hi) else None.

(** The nearest whole number to [a / b], the even one of two. *)
Definition div_round (a b : Z) : Z :=
  let q := a / b in
  let r := a mod b in
  if (b <? 2 * r) || ((b =? 2 * r) && Z.odd q) then q + 1 else q.

(** [Duration::mul_f64] by a factor in [0.5, 1), which as an [f64] is a multiple of 2^-53, [m] of
    them.  The product is exact here; the code's two float operations round by less than a part in
    2^51 in all, which the billionth allowed in the theorems covers.  A result out of range is a panic. *)
Definition mul_f64 (d m : Z) : option Z := in_duration (div_round (d * m) (2^53)).

(** The literals of the code, as multiples of 2^-53. *)
Definition f64_0_5 : Z := 2^52.
Definition f64_0_7 : Z := 6305039478318694.
Definition f64_0_9 : Z := 8106479329266893.
Definition f64_1_0 : Z := 2^53.

Definition jitter {RN : RandLib} (rng : Z) (duration low high : Z) : option Z := mul_f64 duration (random_range rng low high).

(** One turn: the refresh, the next backoff and the delay slept; [None] is a panic.  [rng] is the
    state of the generator. *)
Definition discovery_turn {RN : RandLib} (r : Resolver) (srv_name : bytes) (now rng refresh_max backoff : Z) (st : RingState)
    : option (Z * Z) * RingState :=
  let minimum := from_secs 1 in
  match refresh_once r srv_name now st with
  | (Ok ttl, st) => ((ttl ← clamp ttl minimum refresh_max; delay ← jitter rng ttl f64_0_7 f64_0_9; Some (minimum, delay)), st)
  | (Err e, st) =>
      ((delay ← jitter rng backoff f64_0_5 f64_1_0;
        doubled ← in_duration (backoff * 2);
        Some (Z.max (Z.min doubled refresh_max) minimum, delay)), record_refresh_error e st)
  end.
End Discovery.
