(* ===== verification/DiscoveryClaims.v ===== *)
(** * What discovery and ejection guarantee

    The membership stays ordered, so searches find what is there; the continuum is always that of
    the members that are not ejected; snapshots keep what is known of a member. *)

From S2P Require Import Prelude Externals Concrete Lists Ring RingClaims Discovery.

Section Lemmas.
Context {SH : Sha256Lib} {HX : HexLib}.
Implicit Types (ms : list MemberHealth) (h : MemberHealth) (i : RingInner) (st : RingState).

(** *** Searches *)

Definition ordered ms : Prop := StronglySorted (key_lt health_id bytes_le) ms.

Lemma ordered_monotone ms id : ordered ms -> monotone (fun h => bytes_compare (health_id h) id) ms.
Proof.
  intros Hs i j x y Hij Hx Hy. destruct (decide (i = j)) as [->|Hne]; [naive_solver|].
  destruct (sorted_lookup _ _ i j x y Hs) as [Hle _]; [lia|done|done|]. split.
  - intros H. change (bytes_le (health_id x) id). by transitivity (health_id y).
  - intros H. change (bytes_lt (health_id x) id). apply bytes_le_lt_eq in Hle as [Hlt| ->]; [|done]. by eapply bytes_lt_trans.
Qed.

Lemma member_index_spec ms id n : ordered ms ->
  member_index ms id = Some n <-> exists h, ms !! n = Some h /\ health_id h = id.
Proof.
  intros Hs. pose proof (binary_search_spec _ ms (ordered_monotone ms id Hs)) as H. unfold member_index.
  destruct (binary_search_by _ ms) as [k|k].
  - destruct H as (x & Hx & Ex%bytes_compare_eq). split; [intros [= <-]; eauto|]. intros (h & Hh & E). f_equal.
    eapply (NoDup_lookup (health_id <$> ms)); [by apply (key_lt_nodup health_id bytes_le)|..]; rewrite list_lookup_fmap.
    + by rewrite Hx.
    + rewrite Hh. cbn. congruence.
  - split; [done|]. intros (h & Hh & E). destruct H as (_ & H1 & H2).
    assert (bytes_compare (health_id h) id = Eq) as E' by (by apply bytes_compare_eq).
    destruct (decide (n < k)%nat); [rewrite (H1 n h) in E'|rewrite (H2 n h) in E']; by auto with lia.
Qed.

Lemma find_health_spec ms id h : ordered ms -> find_health ms id = Some h <-> h ∈ ms /\ health_id h = id.
Proof.
  intros Hs. unfold find_health. rewrite bind_Some. split.
  - intros (n & (h' & Hh' & E)%member_index_spec & Hn); [|done]. simplify_eq. split; [by eapply list_elem_of_lookup_2|done].
  - intros [[n Hn]%list_elem_of_lookup E]. exists n. split; [|done]. apply member_index_spec; eauto.
Qed.

(** *** The continuum of the eligible members *)

Definition eligible (now : Z) h : bool := match next_retry h with None => true | Some deadline => deadline <=? now end.
Definition routable h : bool := match next_retry h with None => true | Some _ => false end.

Definition readmit (now : Z) h : MemberHealth :=
  match next_retry h with
  | Some deadline => if deadline <=? now then {| health_member := health_member h; failures := 0; next_retry := None |} else h
  | None => h
  end.

Definition sooner (x y : option Z) : option Z :=
  match x, y with Some a, Some b => Some (Z.min a b) | Some a, None => Some a | None, y => y end.

Fixpoint soonest ms : option Z := match ms with [] => None | h :: ms => sooner (next_retry h) (soonest ms) end.

Lemma sooner_assoc x y z : sooner x (sooner y z) = sooner (sooner x y) z.
Proof. destruct x, y, z; cbn; try done. f_equal. lia. Qed.

Lemma rebuild_loop_spec now ms earliest :
  rebuild_loop now ms earliest
  = (map (readmit now) ms, map health_member (List.filter (eligible now) ms), sooner earliest (soonest (map (readmit now) ms))).
Proof.
  revert earliest. induction ms as [|h ms IH]; intros earliest; cbn [rebuild_loop map List.filter soonest]; [by destruct earliest|].
  rewrite !IH, sooner_assoc. destruct (readmit now h) as [m' f' r'] eqn:Er. unfold readmit in Er. unfold eligible at 3.
  destruct (next_retry h) as [d|] eqn:Ed; [destruct (d <=? now)|]; simplify_eq/=;
    destruct earliest; rewrite ?IH; done.
Qed.

Lemma routable_readmit now h : routable (readmit now h) = eligible now h.
Proof.
  unfold readmit, eligible, routable. destruct (next_retry h) as [d|] eqn:E; [|by rewrite E].
  destruct (d <=? now); cbn; by rewrite ?E.
Qed.

Lemma health_member_readmit now h : health_member (readmit now h) = health_member h.
Proof. unfold readmit. destruct (next_retry h) as [d|]; [by destruct (d <=? now)|done]. Qed.

Lemma filter_readmit now ms :
  map health_member (List.filter routable (map (readmit now) ms)) = map health_member (List.filter (eligible now) ms).
Proof.
  induction ms as [|h ms IH]; [done|]. cbn. rewrite routable_readmit. destruct (eligible now h); [|done]. cbn.
  by rewrite health_member_readmit, IH.
Qed.

Lemma health_id_readmit now h : health_id (readmit now h) = health_id h.
Proof. unfold readmit. destruct (next_retry h) as [d|]; [by destruct (d <=? now)|done]. Qed.

Lemma ordered_map (f : MemberHealth -> MemberHealth) ms :
  (forall h, health_id (f h) = health_id h) -> ordered ms -> ordered (map f ms).
Proof.
  intros Hf Hs. eapply sorted_fmap; [exact Hs|]. intros x y _ _. unfold key_lt. by rewrite !Hf.
Qed.

(** *** The invariant *)

Record ring_ok i : Prop := {
  ro_ordered : ordered (discovered i);
  ro_ring : active_ring i = Ring_new (map health_member (List.filter routable (discovered i)));
  ro_earliest : earliest_retry i = soonest (discovered i)
}.

Lemma rebuild_ok i now : ordered (discovered i) ->
  ring_ok (rebuild i now) /\ discovered (rebuild i now) = map (readmit now) (discovered i)
  /\ active_ring (rebuild i now) = Ring_new (map health_member (List.filter (eligible now) (discovered i))).
Proof.
  intros Hs. unfold rebuild. rewrite rebuild_loop_spec. cbn. split; [|done]. split; cbn.
  - apply ordered_map; [apply health_id_readmit|done].
  - by rewrite filter_readmit.
  - done.
Qed.

Lemma rebuild_discovered i now : discovered (rebuild i now) = map (readmit now) (discovered i).
Proof. unfold rebuild. by rewrite rebuild_loop_spec. Qed.

Lemma soonest_none ms now : soonest ms = None -> List.filter routable ms = List.filter (eligible now) ms /\ map (readmit now) ms = ms.
Proof.
  induction ms as [|h ms IH]; [done|]. cbn. unfold routable at 1, eligible at 1, readmit at 1. destruct (next_retry h) eqn:E; cbn; [by destruct (soonest ms)|].
  intros H. destruct (IH H) as [-> ->]. done.
Qed.

Lemma soonest_later ms now d : soonest ms = Some d -> now < d ->
  List.filter routable ms = List.filter (eligible now) ms /\ map (readmit now) ms = ms.
Proof.
  revert d. induction ms as [|h ms IH]; intros d; [done|]. cbn. unfold routable at 1, eligible at 1, readmit at 1.
  destruct (next_retry h) as [x|] eqn:E; cbn.
  - intros H Hd. assert (now < x /\ (soonest ms = None \/ exists d', soonest ms = Some d' /\ now < d')) as [Hx Hm].
    { destruct (soonest ms) as [y|]; cbn in H; injection H as <-; [|auto]. split; [lia|]. right. exists y. split; [done|lia]. }
    rewrite (proj2 (Z.leb_gt x now)) by done.
    destruct Hm as [Hm|(d' & Hm & Hd')]; [apply (soonest_none ms now) in Hm as [-> ->]|destruct (IH d' Hm Hd') as [-> ->]]; done.
  - intros H Hd. destruct (IH d H Hd) as [-> ->]. done.
Qed.

Lemma current_ring_spec now st : ring_ok (inner st) ->
  (current_ring now st).1 = Ring_new (map health_member (List.filter (eligible now) (discovered (inner st))))
  /\ ring_ok (inner (current_ring now st).2)
  /\ discovered (inner (current_ring now st).2) = map (readmit now) (discovered (inner st)).
Proof.
  intros Hok. unfold current_ring. destruct (none_or_before now (earliest_retry (inner st))) eqn:E.
  - cbn. rewrite (ro_ring _ Hok). rewrite (ro_earliest _ Hok) in E.
    assert (List.filter routable (discovered (inner st)) = List.filter (eligible now) (discovered (inner st))
            /\ map (readmit now) (discovered (inner st)) = discovered (inner st)) as [-> ->]; [|done].
    unfold none_or_before in E. destruct (soonest _) eqn:Es; [|by apply soonest_none]. zify_bool. by eapply soonest_later.
  - cbn. destruct (rebuild_ok (inner st) now (ro_ordered _ Hok)) as (H1 & H2 & H3). by rewrite H3.
Qed.

(** Updating the failure count of one member. *)
Lemma ring_ok_update i n h h' :
  ring_ok i -> discovered i !! n = Some h -> health_member h' = health_member h -> next_retry h' = next_retry h ->
  ring_ok (set_discovered i (<[n := h']> (discovered i))).
Proof.
  intros [Hs Hr He] Hn Em En. set (ms := discovered i) in *.
  assert (Forall2 (fun x y => health_member x = health_member y /\ next_retry x = next_retry y) (<[n := h']> ms) ms) as HF.
  { apply Forall2_same_length_lookup. split; [by rewrite length_insert|]. intros k x y Hx Hy.
    destruct (decide (n = k)) as [<-|Hne].
    - rewrite list_lookup_insert_eq in Hx by (by eapply lookup_lt_Some). simplify_eq. done.
    - rewrite list_lookup_insert_ne in Hx by done. simplify_eq. done. }
  split; cbn; fold ms.
  - clear -Hs HF. assert (Forall2 (fun x y => health_id x = health_id y) (<[n:=h']> ms) ms) as HF'.
    { eapply Forall2_impl; [exact HF|]. intros x y [E _]. unfold health_id. by rewrite E. }
    revert Hs. generalize dependent (<[n:=h']> ms). intros l _ HF. induction HF as [|x y l ms Exy HF IH]; intros Hs; [constructor|].
    inversion_clear Hs as [|?? Hs' Hy]. constructor; [by apply IH|]. clear -HF Hy Exy.
    induction HF as [|u v l ms Euv HF IH]; constructor; inversion_clear Hy as [|?? H1 H2]; [|by apply IH].
    unfold key_lt in *. by rewrite Exy, Euv.
  - rewrite Hr. clear -HF. f_equal. induction HF as [|x y l ms [E1 E2] HF IH]; [done|]. cbn. assert (routable x = routable y) as Exy by (unfold routable; by rewrite E2).
    rewrite Exy. destruct (routable y); [|done]. cbn. by rewrite E1, IH.
  - rewrite He. clear -HF. induction HF as [|x y l ms [E1 E2] HF IH]; [done|]. cbn. by rewrite E2, IH.
Qed.
End Lemmas.

Section Claims.
Context {SH : Sha256Lib} {HX : HexLib}.
Implicit Types (ms : list MemberHealth) (h : MemberHealth) (st : RingState).

(** *** Operations *)

Inductive ring_call :=
| CallRing (now : Z)
| CallSuccess (id : bytes)
| CallFailure (now : Z) (id : bytes)
| CallSnapshot (now : Z) (ms : list RingMember)
| CallRefresh (now : Z) (r : Resolver) (srv_name : bytes)
| CallRefreshError (e : bytes).

Definition ring_step st (call : ring_call) : RingState :=
  match call with
  | CallRing now => (current_ring now st).2
  | CallSuccess id => record_success id st
  | CallFailure now id => (record_failure now id st).2
  | CallSnapshot now ms => apply_snapshot now ms st
  | CallRefresh now r name => (refresh_once r name now st).2
  | CallRefreshError e => record_refresh_error e st
  end.

Definition ring_run (calls : list ring_call) st : RingState := fold_left ring_step calls st.

Lemma record_success_ok id st : ring_ok (inner st) -> ring_ok (inner (record_success id st)).
Proof.
  intros Hok. unfold record_success. destruct (find_health _ id) as [h|] eqn:E; [|done]. case_bool; [done|].
  destruct (member_index _ id) as [i|]; [|done]. destruct (discovered (inner st) !! i) as [h'|] eqn:Eh; [|done].
  cbn. by eapply ring_ok_update.
Qed.

(** A failure: below the limit only the count changes, at the limit the member leaves. *)
Lemma record_failure_spec now id st h :
  ring_ok (inner st) -> find_health (discovered (inner st)) id = Some h ->
  let n := Z.min (failures h + 1) u32_max in
  exists i, discovered (inner st) !! i = Some h /\
  if bool_decide (is_Some (next_retry h)) || (n <? failure_limit st)
  then record_failure now id st
       = (false, with_inner st (set_discovered (inner st) (<[i := set_failures n h]> (discovered (inner st)))))
  else record_failure now id st
       = (true, with_inner st (rebuild (set_discovered (inner st)
           (<[i := set_next_retry (Some (wrapping_add now (retry_timeout_seconds st))) (set_failures n h)]> (discovered (inner st)))) now)).
Proof.
  intros Hok Hf n. unfold find_health in Hf. apply bind_Some in Hf as (i & Hi & Hh). exists i. split; [done|].
  unfold record_failure. rewrite Hi, Hh. cbn. fold n. by case_bool.
Qed.

Lemma ordered_insert ms i h h' : ordered ms -> ms !! i = Some h -> health_id h' = health_id h -> ordered (<[i := h']> ms).
Proof.
  intros Hs Hi E. assert (<[i := h']> ms = map (fun x => if bool_decide (health_id x = health_id h) then h' else x) ms) as ->.
  { apply list_eq. intros k. change (map ?f ms) with (f <$> ms). rewrite list_lookup_fmap. destruct (decide (i = k)) as [<-|Hne].
    - rewrite list_lookup_insert_eq by (by eapply lookup_lt_Some). rewrite Hi. cbn. by rewrite bool_decide_true.
    - rewrite list_lookup_insert_ne by done. destruct (ms !! k) as [x|] eqn:Ek; [|done]. cbn.
      rewrite bool_decide_false; [done|]. intros Ex. apply Hne.
      eapply (NoDup_lookup (health_id <$> ms)); [by apply (key_lt_nodup health_id bytes_le)|..]; rewrite list_lookup_fmap.
      + by rewrite Hi.
      + rewrite Ek. cbn. by rewrite Ex. }
  apply ordered_map; [|done]. intros x. case_bool_decide; congruence.
Qed.

Lemma record_failure_ok now id st : ring_ok (inner st) -> ring_ok (inner (record_failure now id st).2).
Proof.
  intros Hok. destruct (find_health (discovered (inner st)) id) as [h|] eqn:E.
  - destruct (record_failure_spec now id st h Hok E) as (i & Hi & Hr).
    destruct (bool_decide (is_Some (next_retry h)) || _) in Hr; rewrite Hr; cbn.
    + by eapply ring_ok_update.
    + apply rebuild_ok. cbn. eapply ordered_insert; [apply Hok|exact Hi|done].
  - unfold record_failure. unfold find_health in E. destruct (member_index _ id) as [i|]; [|done]. cbn in E. by rewrite E.
Qed.

Lemma apply_snapshot_ok now (ms : list RingMember) st : ring_ok (inner (apply_snapshot now ms st)).
Proof. apply rebuild_ok. cbn. apply (sorted_unique_sorted health_id bytes_le); apply _. Qed.

Lemma ring_step_ok st call : ring_ok (inner st) -> ring_ok (inner (ring_step st call)).
Proof.
  intros Hok. destruct call; cbn.
  - by apply current_ring_spec.
  - by apply record_success_ok.
  - by apply record_failure_ok.
  - apply apply_snapshot_ok.
  - unfold refresh_once. destruct (resolve_srv r srv_name); [apply apply_snapshot_ok|done].
  - destruct Hok. by split.
Qed.

Lemma ring_run_ok calls limit timeout : ring_ok (inner (ring_run calls (RingState_new limit timeout))).
Proof.
  unfold ring_run. assert (ring_ok (inner (RingState_new limit timeout))) as H by (split; [constructor|done|done]).
  revert H. generalize (RingState_new limit timeout). induction calls as [|c calls IH]; intros st H; [done|]. cbn. by apply IH, ring_step_ok.
Qed.

(** Whatever sends succeed or fail and whatever DNS answers, in any order and at any times, the
    membership is ordered with one entry per identity, looking an identity up finds its entry
    exactly when there is one, and the continuum a request is routed against is that of all the
    discovered members whose retry deadline is absent or has passed. *)
Theorem routes_to_eligible_members (calls : list ring_call) (limit timeout now : Z) (id : bytes) :
  let st := ring_run calls (RingState_new limit timeout) in
  NoDup (map health_id (discovered (inner st)))
  /\ (forall h, find_health (discovered (inner st)) id = Some h <-> h ∈ discovered (inner st) /\ health_id h = id)
  /\ (current_ring now st).1 = Ring_new (map health_member (List.filter (eligible now) (discovered (inner st)))).
Proof.
  intros st. pose proof (ring_run_ok calls limit timeout) as Hok. fold st in Hok. split; [|split].
  - apply (key_lt_nodup health_id bytes_le), Hok.
  - intros h. apply find_health_spec, Hok.
  - by apply current_ring_spec.
Qed.

Lemma ring_ids ms now id : ordered ms ->
  id ∈ map member_id (members (Ring_new (map health_member (List.filter (eligible now) ms))))
  <-> exists h, find_health ms id = Some h /\ eligible now h = true.
Proof.
  intros Hs. etransitivity; [apply (sorted_unique_keys member_id bytes_le)|]. split.
  - intros (m & -> & (h & -> & [Hh He]%list_elem_of_In%filter_In)%list_elem_of_fmap)%list_elem_of_fmap.
    exists h. split; [|done]. apply find_health_spec; [done|]. split; [by apply list_elem_of_In|done].
  - intros (h & [Hh E]%find_health_spec & He); [|done]. apply list_elem_of_fmap. exists (health_member h). split; [done|].
    apply list_elem_of_fmap. exists h. split; [done|]. apply list_elem_of_In, filter_In. by rewrite <- list_elem_of_In.
Qed.

Lemma routed_ids now st id : ring_ok (inner st) ->
  id ∈ map member_id (members (current_ring now st).1)
  <-> exists h, find_health (discovered (inner st)) id = Some h /\ eligible now h = true.
Proof. intros Hok. rewrite (proj1 (current_ring_spec now st Hok)). apply ring_ids, Hok. Qed.

Lemma eligible_readmit now now' h : now <= now' -> eligible now' (readmit now h) = eligible now' h.
Proof.
  intros H. unfold eligible, readmit. destruct (next_retry h) as [d|] eqn:E; [|by rewrite E].
  destruct (Z.leb_spec d now); cbn; [|by rewrite E]. symmetry. apply Z.leb_le. lia.
Qed.

Lemma find_health_map (f : MemberHealth -> MemberHealth) ms id : (forall h, health_id (f h) = health_id h) -> ordered ms ->
  find_health (map f ms) id = f <$> find_health ms id.
Proof.
  intros Hf Hs. pose proof (ordered_map f ms Hf Hs) as Hs'. apply option_eq. intros x. rewrite find_health_spec by done.
  rewrite fmap_Some. split.
  - intros [(y & -> & Hy)%list_elem_of_fmap E]. exists y. split; [|done]. apply find_health_spec; [done|]. split; [done|]. by rewrite <- Hf.
  - intros (y & [Hy E]%find_health_spec & ->); [|done]. split; [by apply list_elem_of_fmap_2|]. by rewrite Hf.
Qed.

Lemma find_health_insert ms i h h' id : ordered ms -> ms !! i = Some h -> health_id h' = health_id h ->
  find_health (<[i := h']> ms) id = if decide (id = health_id h) then Some h' else find_health ms id.
Proof.
  intros Hs Hi E. pose proof (ordered_insert ms i h h' Hs Hi E) as Hs'. apply option_eq. intros x. rewrite find_health_spec by done.
  pose proof (lookup_lt_Some _ _ _ Hi) as Hlt. case_decide as Hd.
  - subst id. split.
    + intros [[k Hk]%list_elem_of_lookup Ex]. destruct (decide (i = k)) as [<-|Hne].
      * by rewrite list_lookup_insert_eq in Hk.
      * rewrite list_lookup_insert_ne in Hk by done. exfalso. apply Hne.
        eapply (NoDup_lookup (health_id <$> ms)); [by apply (key_lt_nodup health_id bytes_le)|..]; rewrite list_lookup_fmap.
        -- by rewrite Hi.
        -- rewrite Hk. cbn. by rewrite Ex.
    + intros [= <-]. split; [|done]. apply list_elem_of_lookup. exists i. by apply list_lookup_insert_eq.
  - rewrite find_health_spec by done. split; intros [[k Hk]%list_elem_of_lookup Ex]; (split; [|done]); apply list_elem_of_lookup; exists k.
    + destruct (decide (i = k)) as [<-|Hne]; [rewrite list_lookup_insert_eq in Hk by done; congruence|]. by rewrite list_lookup_insert_ne in Hk.
    + rewrite list_lookup_insert_ne; [done|]. intros <-. congruence.
Qed.

(** C29: A member is ejected exactly when its consecutive failures reach the limit: a failure below
    it changes no routing; the one that reaches it takes the member out of the continuum until the
    retry timeout has passed and puts it back from then on, while every other member stays routed
    to exactly when it was. *)
Theorem ejection_window (now : Z) (id : bytes) st h :
  ring_ok (inner st) -> find_health (discovered (inner st)) id = Some h -> next_retry h = None ->
  0 <= failures h < u32_max -> 0 <= now -> now + retry_timeout_seconds st <= u64_max -> 0 <= retry_timeout_seconds st ->
  let '(ejected, st') := record_failure now id st in
  ejected = (failure_limit st <=? failures h + 1)
  /\ forall now' other, now <= now' ->
     (other ∈ map member_id (members (current_ring now' st').1)
      <-> if ejected && bool_decide (other = id) then now + retry_timeout_seconds st <= now'
          else other ∈ map member_id (members (current_ring now' st).1)).
Proof.
  intros Hok Hf Hn Hb H0 Ho Ht. destruct (record_failure_spec now id st h Hok Hf) as (i & Hi & Hr).
  rewrite Hn, bool_decide_false, Z.min_l in Hr by (unfold u32_max in *; by try lia || intros [? ?]). cbn in Hr.
  pose proof (record_failure_ok now id st Hok) as Hok'.
  apply find_health_spec in Hf as [Hin Hid]; [|apply Hok].
  destruct (Z.ltb_spec (failures h + 1) (failure_limit st)) as [Hlt|Hge]; rewrite Hr in Hok' |- *; cbn [snd] in Hok'.
  - split; [symmetry; apply Z.leb_gt; lia|]. intros now' other _. cbn [andb].
    rewrite !routed_ids by done. cbn [inner with_inner discovered set_discovered].
    rewrite (find_health_insert _ i h) by (done || apply Hok). case_decide as Ed; [|done]. subst other.
    assert (find_health (discovered (inner st)) (health_id h) = Some h) as -> by (apply find_health_spec; [apply Hok|done]).
    split; intros (x & [= <-] & He); eexists; (split; [done|]); unfold eligible; cbn; by rewrite Hn.
  - split; [symmetry; apply Z.leb_le; lia|]. intros now' other Hnow. cbn [andb].
    rewrite !routed_ids by done. cbn [inner with_inner].
    set (h' := set_next_retry _ _) in *.
    assert (ordered (<[i:=h']> (discovered (inner st)))) as Hs by (eapply ordered_insert; [apply Hok|exact Hi|done]).
    rewrite (proj1 (proj2 (rebuild_ok (set_discovered (inner st) (<[i:=h']> (discovered (inner st)))) now Hs))). cbn [discovered set_discovered].
    rewrite (find_health_map _ _ _ (health_id_readmit now) Hs), (find_health_insert _ i h) by (done || apply Hok).
    rewrite Hid. case_decide as Ed.
    + rewrite bool_decide_true by done. assert (wrapping_add now (retry_timeout_seconds st) = now + retry_timeout_seconds st) as Ew.
      { unfold wrapping_add, u64_max in *. apply Z.mod_small. lia. }
      split.
      * intros (x & Hx & He). apply fmap_Some in Hx as (y & Hy%(inj Some) & ->). rewrite eligible_readmit in He by done.
        rewrite <- Hy in He. unfold eligible, h' in He. cbn in He. rewrite Ew in He. by zify_bool.
      * intros Hle. exists (readmit now h'). split; [done|]. rewrite eligible_readmit by done. unfold eligible, h'. cbn. rewrite Ew. by apply Z.leb_le.
    + rewrite bool_decide_false, routed_ids by done. split.
      * intros (x & Hx & He). apply fmap_Some in Hx as (y & Hy & ->). rewrite eligible_readmit in He by done. eauto.
      * intros (y & Hy & He). exists (readmit now y). rewrite Hy, eligible_readmit by done. done.
Qed.

Lemma snapshot_health now (ms : list RingMember) st id h :
  find_health (discovered (inner (apply_snapshot now ms st))) id = Some h ->
  exists m, m ∈ ms /\ member_id m = id /\ h = readmit now (carry_over (discovered (inner st)) m).
Proof.
  intros Hf. set (hs := sorted_unique health_id bytes_le (map (carry_over (discovered (inner st))) ms)).
  assert (ordered hs) as Hs by (apply (sorted_unique_sorted health_id bytes_le); apply _).
  cbn [inner with_inner apply_snapshot] in Hf. fold hs in Hf.
  rewrite rebuild_discovered in Hf. cbn [discovered] in Hf.
  rewrite (find_health_map _ _ _ (health_id_readmit now) Hs) in Hf. apply fmap_Some in Hf as (y & Hy & ->).
  apply find_health_spec in Hy as [Hy E]; [|done]. apply (sorted_unique_elem health_id bytes_le) in Hy.
  apply list_elem_of_fmap in Hy as (m & -> & Hm). eauto.
Qed.

Lemma snapshot_ids now (ms : list RingMember) st id :
  is_Some (find_health (discovered (inner (apply_snapshot now ms st))) id) <-> id ∈ map member_id ms.
Proof.
  set (hs := sorted_unique health_id bytes_le (map (carry_over (discovered (inner st))) ms)).
  assert (ordered hs) as Hs by (apply (sorted_unique_sorted health_id bytes_le); apply _).
  cbn [inner with_inner apply_snapshot]. fold hs. rewrite rebuild_discovered. cbn [discovered].
  rewrite (find_health_map _ _ _ (health_id_readmit now) Hs), fmap_is_Some.
  transitivity (id ∈ health_id <$> hs).
  - rewrite list_elem_of_fmap. split.
    + intros [y [Hy <-]%find_health_spec]; [|done]. eauto.
    + intros (y & -> & Hy). exists y. by apply find_health_spec.
  - etransitivity; [apply (sorted_unique_keys health_id bytes_le)|]. change (map ?f ms) with (f <$> ms).
    rewrite <- list_fmap_compose. done.
Qed.

(** A snapshot replaces the membership and nothing else: the identities after it are those it
    lists; a member that was known keeps its failure count and its retry deadline (cleared only if
    that deadline has passed), at the newly listed address, and a new one starts with a clean
    record. *)
Theorem snapshot_keeps_health (now : Z) (ms : list RingMember) st id :
  ring_ok (inner st) ->
  match find_health (discovered (inner (apply_snapshot now ms st))) id with
  | None => id ∉ map member_id ms
  | Some h => health_member h ∈ ms /\ health_id h = id
      /\ match find_health (discovered (inner st)) id with
         | None => failures h = 0 /\ next_retry h = None
         | Some old =>
             if eligible now old && negb (routable old) then failures h = 0 /\ next_retry h = None
             else failures h = failures old /\ next_retry h = next_retry old
         end
  end.
Proof.
  intros Hok. destruct (find_health _ id) as [h|] eqn:E.
  - apply snapshot_health in E as (m & Hm & Hid & ->). rewrite health_member_readmit, health_id_readmit.
    split; [done|]. split; [done|]. unfold carry_over. rewrite Hid.
    destruct (find_health (discovered (inner st)) id) as [old|] eqn:Eo; cbn; [|done].
    unfold readmit, eligible, routable. cbn. destruct (next_retry old) as [d|]; cbn; [|done]. by destruct (d <=? now).
  - intros Hin. apply (snapshot_ids now ms st) in Hin as [h Hh]. congruence.
Qed.

Lemma known_lookup st id :
  ring_ok (inner st) ->
  (list_to_map (rev (known_addresses st)) : gmap bytes SocketAddr) !! id = (fun h => address (health_member h)) <$> find_health (discovered (inner st)) id.
Proof.
  intros Hok. apply option_eq. intros x. rewrite <- elem_of_list_to_map.
  - rewrite fmap_Some, <- (Permutation_rev (known_addresses st)). unfold known_addresses. rewrite list_elem_of_fmap. split.
    + intros (h & [= -> ->] & Hh). exists h. split; [|done]. apply find_health_spec; [apply Hok|done].
    + intros (h & [Hh <-]%find_health_spec & ->); [eauto|apply Hok].
  - rewrite <- (Permutation_rev (known_addresses st)). unfold known_addresses. change (map ?f ?l) with (f <$> l). rewrite <- list_fmap_compose.
    apply (key_lt_nodup health_id bytes_le), Hok.
Qed.

(** A refresh follows DNS without losing members to transient failures: a failed SRV query
    leaves the state as it was; after an answer, the members are exactly the listed targets (by
    canonical identity) that resolve or were already known, and a known target that does not
    resolve now keeps its last address on the newly listed port. *)
Theorem refresh_tracks_dns (r : Resolver) (name : bytes) (now : Z) st :
  ring_ok (inner st) ->
  match resolve_srv r name with
  | Err e => refresh_once r name now st = (Err e, st)
  | Ok answer =>
      (refresh_once r name now st).1 = Ok (srv_ttl answer)
      /\ forall id,
         (is_Some (find_health (discovered (inner (refresh_once r name now st).2)) id)
          <-> exists record, record ∈ srv_records answer /\ canonical_member_id (srv_target record) = id
              /\ ((exists first rest, resolve_ips r (srv_target record) = Ok (first :: rest))
                  \/ is_Some (find_health (discovered (inner st)) id)))
         /\ forall h, find_health (discovered (inner (refresh_once r name now st).2)) id = Some h ->
            (forall record, record ∈ srv_records answer -> canonical_member_id (srv_target record) = id ->
               forall ips, resolve_ips r (srv_target record) = Ok ips -> ips = []) ->
            exists old, find_health (discovered (inner st)) id = Some old /\ ip (address (health_member h)) = ip (address (health_member old))
  end.
Proof.
  intros Hok. unfold refresh_once. destruct (resolve_srv r name) as [answer|e]; [|done]. split; [done|]. intros id. cbn [snd].
  set (known := list_to_map (rev (known_addresses st)) : gmap bytes SocketAddr).
  assert (forall k, known !! k = (fun h => address (health_member h)) <$> find_health (discovered (inner st)) k) as Hk
    by (intros k; by apply known_lookup).
  split.
  - rewrite snapshot_ids. change (map member_id ?l) with (member_id <$> l). rewrite list_elem_of_fmap. split.
    + intros (m & -> & (record & Hrec & Hm)%list_elem_of_omap). exists record. unfold refresh_member in Hm.
      destruct (resolve_ips r (srv_target record)) as [[|first rest]|er]; cbn in Hm;
        [|injection Hm as <-; split; [done|]; split; [done|]; left; by exists first, rest|];
        destruct (known !! _) as [a|] eqn:Ek; cbn in Hm; try done; injection Hm as <-; (split; [done|]; split; [done|]); right; cbn;
        rewrite Hk in Ek; apply fmap_Some in Ek as (o & -> & _); done.
    + intros (record & Hrec & Hid & Hres).
      assert (exists m, refresh_member r known record = Some m /\ member_id m = id) as (m & Hm & E).
      { unfold refresh_member. destruct (resolve_ips r (srv_target record)) as [[|first rest]|er] eqn:Er; cbn; [|eauto|];
          (destruct Hres as [(? & ? & ?)|[o Ho]]; [done|]); rewrite Hk, Hid, Ho; cbn; eauto. }
      exists m. split; [done|]. apply list_elem_of_omap. eauto.
  - intros h Hh Hno. apply snapshot_health in Hh as (m & Hm & Hid & ->). rewrite health_member_readmit. cbn.
    apply list_elem_of_omap in Hm as (record & Hrec & Hm). unfold refresh_member in Hm.
    assert (canonical_member_id (srv_target record) = id) as Hc.
    { destruct (resolve_ips r (srv_target record)) as [[|first rest]|er]; cbn in Hm; [|by injection Hm as <-|];
        destruct (known !! _); cbn in Hm; by simplify_eq. }
    specialize (Hno record Hrec Hc). destruct (resolve_ips r (srv_target record)) as [[|first rest]|er];
      [|by specialize (Hno _ eq_refl)|];
      cbn in Hm; destruct (known !! _) as [a|] eqn:Ek; cbn in Hm; try done; injection Hm as <-; cbn;
      rewrite Hk, Hc in Ek; apply fmap_Some in Ek as (o & Ho & ->); by exists o.
Qed.

(** [delay] is between [low] and [high] billionths of [d]. *)
Definition portion (d low high delay : Z) : Prop := low * d <= from_secs delay <= high * d.

Lemma div_round_near a b : 0 < b -> - b <= 2 * (b * div_round a b - a) <= b.
Proof.
  intros Hb. unfold div_round. pose proof (Z.div_mod a b ltac:(lia)). pose proof (Z.mod_pos_bound a b Hb).
  destruct (Z.ltb_spec b (2 * (a mod b))); cbn [orb]; [lia|]. destruct (Z.eqb_spec b (2 * (a mod b))); cbn [andb]; [|lia].
  destruct (Z.odd _); lia.
Qed.

Lemma jitter_portion `{RN : RandLib} rng d low high least most : from_secs 1 <= d < from_secs (2^64) -> 0 <= low < high -> high <= 2^53 ->
  (2 * least + 1) * 2^53 <= 2 * low * 10^9 -> 2 * high * 10^9 <= (2 * most - 1) * 2^53 ->
  exists delay, jitter rng d low high = Some delay /\ portion d least most delay.
Proof.
  unfold jitter, mul_f64, in_duration, portion, from_secs. intros Hd Hl Hh H1 H2.
  pose proof (random_range_in rng low high ltac:(lia)) as Hr. set (m := random_range _ _ _) in *.
  pose proof (div_round_near (d * m) (2^53) ltac:(lia)) as Hn. set (y := div_round _ _) in *.
  assert (d * m <= d * (2^53 - 1)) by (apply Z.mul_le_mono_nonneg_l; lia).
  assert (d * low <= d * m) by (apply Z.mul_le_mono_nonneg_l; lia).
  assert (d * m <= d * high) by (apply Z.mul_le_mono_nonneg_l; lia).
  assert (d * ((2 * least + 1) * 2^53) <= d * (2 * low * 10^9)) by (apply Z.mul_le_mono_nonneg_l; lia).
  assert (d * (2 * high * 10^9) <= d * ((2 * most - 1) * 2^53)) by (apply Z.mul_le_mono_nonneg_l; lia).
  rewrite (proj2 (Z.ltb_lt _ _)) by lia. exists y. split; [done|]. lia.
Qed.

(** The discovery loop never stalls or panics: with a refresh bound between a second and the longest
    that can be doubled, every turn yields a delay, of 70 to 90 % of the answer's lifetime within the
    bound after a success and of 50 to 100 % of the backoff after a failure, and a next backoff
    between one second and the bound, doubling after a failure and reset by a success; and a failed
    turn leaves membership and routing untouched. *)
Theorem discovery_loop_bounded `{RN : RandLib} (r : Resolver) (name : bytes) (now rng refresh_max backoff : Z) st :
  from_secs 1 <= refresh_max < from_secs (2^63) -> from_secs 1 <= backoff <= refresh_max ->
  exists backoff' delay, (discovery_turn r name now rng refresh_max backoff st).1 = Some (backoff', delay)
    /\ from_secs 1 <= backoff' <= refresh_max
    /\ match resolve_srv r name with
       | Ok answer => backoff' = from_secs 1
           /\ portion (Z.min (Z.max (srv_ttl answer) (from_secs 1)) refresh_max) 699999999 900000001 delay
       | Err e => backoff' = Z.min (2 * backoff) refresh_max /\ portion backoff 499999999 1000000001 delay
           /\ discovered (inner (discovery_turn r name now rng refresh_max backoff st).2) = discovered (inner st)
           /\ active_ring (inner (discovery_turn r name now rng refresh_max backoff st).2) = active_ring (inner st)
           /\ last_error (inner (discovery_turn r name now rng refresh_max backoff st).2) = Some e
       end.
Proof.
  intros Hm Hb. unfold discovery_turn, refresh_once. destruct (resolve_srv r name) as [answer|e]; cbn [fst snd].
  - unfold clamp. rewrite (proj2 (Z.leb_le (from_secs 1) refresh_max)) by lia. cbn [mbind option_bind].
    set (d := Z.min _ _). destruct (jitter_portion rng d f64_0_7 f64_0_9 699999999 900000001) as (delay & -> & Hp).
    { subst d. unfold from_secs in *. lia. }
    all: try (unfold f64_0_7, f64_0_9; lia).
    eexists _, _. split; [done|]. split; [lia|]. done.
  - unfold in_duration. rewrite (proj2 (Z.ltb_lt _ _)) by (unfold from_secs in *; lia).
    destruct (jitter_portion rng backoff f64_0_5 f64_1_0 499999999 1000000001) as (delay & -> & Hp).
    { unfold from_secs in *. lia. }
    all: try (unfold f64_0_5, f64_1_0; lia).
    cbn [mbind option_bind]. eexists _, _. split; [done|]. unfold from_secs in *. split; [lia|]. split; [lia|done].
Qed.
End Claims.

Section Witnesses.
#[local] Existing Instances toy_sha256 real_hex.

Definition two_shards : RingState := apply_snapshot 100 [shard_a; shard_b] (RingState_new 1 30).

Lemma two_shards_ok : ring_ok (inner two_shards).
Proof. apply apply_snapshot_ok. Qed.

Lemma two_shards_found : find_health (discovered (inner two_shards)) (lit "shard-0.cache")
  = Some {| health_member := shard_a; failures := 0; next_retry := None |}.
Proof. vm_compute. reflexivity. Qed.

Lemma ejection_window_witness :
  let '(ejected, st') := record_failure 200 (lit "shard-0.cache") two_shards in
  ejected = true /\ (lit "shard-0.cache" ∈ map member_id (members (current_ring 230 st').1)).
Proof.
  pose proof (ejection_window 200 (lit "shard-0.cache") two_shards _ two_shards_ok two_shards_found eq_refl
    ltac:(split; [discriminate|reflexivity]) ltac:(discriminate) ltac:(discriminate) ltac:(discriminate)) as H.
  destruct (record_failure 200 (lit "shard-0.cache") two_shards) as [ejected st']. destruct H as [He H].
  assert (ejected = true) as -> by (rewrite He; reflexivity). split; [reflexivity|].
  apply (H 230 (lit "shard-0.cache")); [discriminate|]. rewrite bool_decide_true by reflexivity. cbn. discriminate.
Defined.

Lemma snapshot_keeps_health_witness :
  match find_health (discovered (inner (apply_snapshot 300 [shard_b] two_shards))) (lit "shard-0.cache") with
  | None => lit "shard-0.cache" ∉ map member_id [shard_b]
  | Some _ => True
  end.
Proof.
  pose proof (snapshot_keeps_health 300 [shard_b] two_shards (lit "shard-0.cache") two_shards_ok) as H.
  destruct (find_health _ _); [exact Logic.I|exact H].
Defined.

(** DNS lists one of the two shards, whose address does not resolve. *)
Definition flaky_dns : Resolver := {|
  resolve_srv := fun _ => Ok {| srv_records := [{| srv_target := lit "Shard-0.cache."; srv_port := 9090 |}]; srv_ttl := 30 |};
  resolve_ips := fun _ => Err (lit "timeout") |}.

Lemma refresh_tracks_dns_witness :
  is_Some (find_health (discovered (inner (refresh_once flaky_dns (lit "cache") 300 two_shards).2)) (lit "shard-0.cache")).
Proof.
  pose proof (refresh_tracks_dns flaky_dns (lit "cache") 300 two_shards two_shards_ok) as H.
  change (resolve_srv flaky_dns (lit "cache")) with
    (Ok (E := bytes) {| srv_records := [{| srv_target := lit "Shard-0.cache."; srv_port := 9090 |}]; srv_ttl := 30 |}) in H.
  destruct H as [_ H]. apply (proj1 (H (lit "shard-0.cache"))).
  exists {| srv_target := lit "Shard-0.cache."; srv_port := 9090 |}. split; [by left|]. split; [vm_compute; reflexivity|].
  right. rewrite two_shards_found. eexists. reflexivity.
Defined.

Lemma toy_range_in rng low high : low < high -> low <= low + rng mod (high - low) < high.
Proof. intros H. pose proof (Z.mod_pos_bound rng (high - low) ltac:(lia)). lia. Qed.

(** A generator that walks through the range. *)
Definition toy_rand : RandLib := {| random_range rng low high := low + rng mod (high - low); random_range_in := toy_range_in |}.
#[local] Existing Instance toy_rand.

Lemma discovery_loop_bounded_witness :
  exists backoff' delay,
    (discovery_turn flaky_dns (lit "cache") 300 12345 (from_secs 60) (from_secs 8) two_shards).1 = Some (backoff', delay).
Proof.
  destruct (discovery_loop_bounded flaky_dns (lit "cache") 300 12345 (from_secs 60) (from_secs 8) two_shards) as (backoff' & delay & H & _);
    [split; [discriminate|reflexivity]|split; discriminate|].
  exists backoff', delay. exact H.
Defined.
End Witnesses.
