(* ===== verification/Agent.v ===== *)
(** * The routing agent ([agent/mod.rs])

    Classification of request paths, forwarding to the one owner, and the degraded answers when
    there is none.  Sending over HTTP is a parameter; what was sent is logged. *)

From S2P Require Import Prelude Externals Concrete Text Lists Ring RingClaims Discovery DiscoveryClaims.

Inductive RouteClass := BuildCacheRead | BuildCacheWrite | Passthrough.

Record RoutedKey := { routed_kind : bytes; routed_id : bytes; routed_class : RouteClass }.

(** ** Paths *)

Definition slash : ascii := "/"%char.

Fixpoint trim_start_slashes (s : bytes) : bytes :=
  match s with
  | [] => []
  | c :: s' => if bool_decide (c = slash) then trim_start_slashes s' else s
  end.

(** [str::split('/')]: always at least one segment. *)
Fixpoint split_slash (s : bytes) : list bytes :=
  match s with
  | [] => [[]]
  | c :: s' =>
      if bool_decide (c = slash) then [] :: split_slash s'
      else match split_slash s' with
           | [] => [[c]]
           | segment :: segments => (c :: segment) :: segments
           end
  end.

Definition is_lit (name : string) (segment : bytes) : bool := bool_decide (segment = lit name).

(** The degradation class of a build-cache route. *)
Definition build_cache_class (method : Method) : RouteClass :=
  match method with
  | GET | HEAD => BuildCacheRead
  | PUT | POST => BuildCacheWrite
  | _ => Passthrough
  end.

Definition first_is (name : string) (segments : list bytes) : bool :=
  match segments with segment :: _ => is_lit name segment | [] => false end.

(** The object of a route: its kind and identifier, [None] for the fallback on the path. *)
Inductive route_object := Keyed (kind id : bytes) | Proxied (protocol : bytes) (rest : list bytes) | Fallback.

Definition route_of (segments : list bytes) : route_object :=
  match segments with
  | [a; b; c] =>
      if is_lit "artifacts" a then Keyed (lit "artifact") c
      else if is_lit "build-cache" a && is_lit "http" b then Keyed (lit "http-cache") c
      else if is_lit "proxy" a then Proxied b [c]
      else Fallback
  | [a; b; c; d] =>
      if is_lit "build-cache" a && is_lit "bazel" b && is_lit "cas" c then Keyed (lit "artifact") d
      else if is_lit "build-cache" a && is_lit "bazel" b && is_lit "ac" c then Keyed (lit "bazel-action") d
      else if is_lit "proxy" a then Proxied b [c; d]
      else Fallback
  | [a; b] => if is_lit "references" a then Keyed (lit "reference") b else Fallback
  | a :: b :: rest => if is_lit "proxy" a then Proxied b rest else Fallback
  | _ => Fallback
  end.

Definition classify (method : Method) (path : bytes) : RoutedKey :=
  let segments := split_slash (trim_start_slashes path) in
  match route_of segments with
  | Proxied protocol rest => {| routed_kind := protocol; routed_id := join [slash] rest; routed_class := Passthrough |}
  | Fallback => {| routed_kind := lit "path"; routed_id := path; routed_class := Passthrough |}
  | Keyed kind id =>
      {| routed_kind := kind; routed_id := id;
         routed_class := if first_is "build-cache" segments then build_cache_class method else Passthrough |}
  end.

(** ** Requests and responses *)

Record AgentRequest := {
  a_method : Method; a_path : bytes; a_path_and_query : bytes; a_headers : headers; a_body : bytes
}.

Record UpstreamRequest := {
  up_method : Method; up_address : SocketAddr; up_path_and_query : bytes; up_headers : headers; up_body : option bytes
}.

Record HttpResponse := { resp_status : Z; resp_headers : headers; resp_body : bytes }.

(** [reqwest::Error], by the two questions asked of it. *)
Record SendError := { is_connect : bool; is_timeout : bool }.

Definition status_only (code : Z) : HttpResponse := {| resp_status := code; resp_headers := []; resp_body := [] |}.

Definition skip_request_header (name : bytes) : bool :=
  bool_decide (name ∈ map lit ["connection"; "keep-alive"; "proxy-authenticate"; "proxy-authorization"; "te"; "trailer";
    "transfer-encoding"; "upgrade"; "host"; "expect"]%string).

Definition skip_response_header (name : bytes) : bool :=
  bool_decide (name ∈ map lit ["connection"; "keep-alive"; "te"; "trailer"; "transfer-encoding"; "upgrade"]%string).

Definition proxied_response (upstream : HttpResponse) : HttpResponse := {|
  resp_status := resp_status upstream;
  resp_headers := List.filter (fun h => negb (skip_response_header h.1)) (resp_headers upstream);
  resp_body := resp_body upstream |}.

(** ** The agent *)

Record AgentMetrics := {
  m_requests : Z; m_forwarded : Z; m_forward_failures : Z; m_misses : Z; m_bypasses : Z; m_unavailable : Z;
  m_ejections : Z; m_prefetch_hits : Z; m_prefetch_misses : Z; m_prefetch_unavailable : Z
}.

Definition zero_agent_metrics : AgentMetrics := {|
  m_requests := 0; m_forwarded := 0; m_forward_failures := 0; m_misses := 0; m_bypasses := 0; m_unavailable := 0;
  m_ejections := 0; m_prefetch_hits := 0; m_prefetch_misses := 0; m_prefetch_unavailable := 0 |}.

(** The counters of one event. *)
Definition add_metrics (x y : AgentMetrics) : AgentMetrics := {|
  m_requests := m_requests x + m_requests y; m_forwarded := m_forwarded x + m_forwarded y;
  m_forward_failures := m_forward_failures x + m_forward_failures y; m_misses := m_misses x + m_misses y;
  m_bypasses := m_bypasses x + m_bypasses y; m_unavailable := m_unavailable x + m_unavailable y;
  m_ejections := m_ejections x + m_ejections y; m_prefetch_hits := m_prefetch_hits x + m_prefetch_hits y;
  m_prefetch_misses := m_prefetch_misses x + m_prefetch_misses y;
  m_prefetch_unavailable := m_prefetch_unavailable x + m_prefetch_unavailable y |}.

Definition one_request := {|
  m_requests := 1; m_forwarded := 0; m_forward_failures := 0; m_misses := 0; m_bypasses := 0; m_unavailable := 0;
  m_ejections := 0; m_prefetch_hits := 0; m_prefetch_misses := 0; m_prefetch_unavailable := 0 |}.
Definition one_forwarded := {|
  m_requests := 0; m_forwarded := 1; m_forward_failures := 0; m_misses := 0; m_bypasses := 0; m_unavailable := 0;
  m_ejections := 0; m_prefetch_hits := 0; m_prefetch_misses := 0; m_prefetch_unavailable := 0 |}.
Definition one_failure := {|
  m_requests := 0; m_forwarded := 0; m_forward_failures := 1; m_misses := 0; m_bypasses := 0; m_unavailable := 0;
  m_ejections := 0; m_prefetch_hits := 0; m_prefetch_misses := 0; m_prefetch_unavailable := 0 |}.
Definition one_miss := {|
  m_requests := 0; m_forwarded := 0; m_forward_failures := 0; m_misses := 1; m_bypasses := 0; m_unavailable := 0;
  m_ejections := 0; m_prefetch_hits := 0; m_prefetch_misses := 0; m_prefetch_unavailable := 0 |}.
Definition one_bypass := {|
  m_requests := 0; m_forwarded := 0; m_forward_failures := 0; m_misses := 0; m_bypasses := 1; m_unavailable := 0;
  m_ejections := 0; m_prefetch_hits := 0; m_prefetch_misses := 0; m_prefetch_unavailable := 0 |}.
Definition one_unavailable := {|
  m_requests := 0; m_forwarded := 0; m_forward_failures := 0; m_misses := 0; m_bypasses := 0; m_unavailable := 1;
  m_ejections := 0; m_prefetch_hits := 0; m_prefetch_misses := 0; m_prefetch_unavailable := 0 |}.
Definition one_ejection := {|
  m_requests := 0; m_forwarded := 0; m_forward_failures := 0; m_misses := 0; m_bypasses := 0; m_unavailable := 0;
  m_ejections := 1; m_prefetch_hits := 0; m_prefetch_misses := 0; m_prefetch_unavailable := 0 |}.
Definition one_prefetch_hit := {|
  m_requests := 0; m_forwarded := 0; m_forward_failures := 0; m_misses := 0; m_bypasses := 0; m_unavailable := 0;
  m_ejections := 0; m_prefetch_hits := 1; m_prefetch_misses := 0; m_prefetch_unavailable := 0 |}.
Definition one_prefetch_miss := {|
  m_requests := 0; m_forwarded := 0; m_forward_failures := 0; m_misses := 0; m_bypasses := 0; m_unavailable := 0;
  m_ejections := 0; m_prefetch_hits := 0; m_prefetch_misses := 1; m_prefetch_unavailable := 0 |}.
Definition one_prefetch_unavailable := {|
  m_requests := 0; m_forwarded := 0; m_forward_failures := 0; m_misses := 0; m_bypasses := 0; m_unavailable := 0;
  m_ejections := 0; m_prefetch_hits := 0; m_prefetch_misses := 0; m_prefetch_unavailable := 1 |}.

Section Agent.
Context {SH : Sha256Lib} {HX : HexLib}.

(** The shared state, and everything sent so far, latest first. *)
Record AgentState := { agent_ring : RingState; agent_metrics : AgentMetrics; agent_sent : list UpstreamRequest }.

Definition count (x : AgentMetrics) (st : AgentState) : AgentState :=
  {| agent_ring := agent_ring st; agent_metrics := add_metrics x (agent_metrics st); agent_sent := agent_sent st |}.
Definition on_ring (f : RingState -> RingState) (st : AgentState) : AgentState :=
  {| agent_ring := f (agent_ring st); agent_metrics := agent_metrics st; agent_sent := agent_sent st |}.
Definition log_sent (u : UpstreamRequest) (st : AgentState) : AgentState :=
  {| agent_ring := agent_ring st; agent_metrics := agent_metrics st; agent_sent := u :: agent_sent st |}.
Definition count_if (b : bool) (x : AgentMetrics) (st : AgentState) : AgentState := if b then count x st else st.

Definition degrade (class : RouteClass) (empty_ring : bool) (st : AgentState) : HttpResponse * AgentState :=
  match class with
  | BuildCacheRead => (status_only 404, count one_miss st)
  | BuildCacheWrite => (status_only 200, count one_bypass st)
  | Passthrough => (status_only (if empty_ring then 503 else 502), count one_unavailable st)
  end.

Definition record_send_failure (now : Z) (id : bytes) (error : SendError) (st : AgentState) : AgentState :=
  if negb (is_connect error || is_timeout error) then st
  else
    let st := count one_failure st in
    let '(ejected, ring) := record_failure now id (agent_ring st) in
    count_if ejected one_ejection (on_ring (fun _ => ring) st).

Definition is_success (status : Z) : bool := (200 <=? status) && (status <=? 299).

Definition prefetch_outcome (status : Z) : AgentMetrics :=
  if is_success status then one_prefetch_hit else if status =? 404 then one_prefetch_miss else one_prefetch_unavailable.

Definition is_channel_path (path : bytes) : bool :=
  bool_decide (path = lit "/channels") || starts_with (lit "/channels/") path.

Definition upstream_request (request : AgentRequest) (address_ : SocketAddr) : UpstreamRequest := {|
  up_method := a_method request; up_address := address_; up_path_and_query := a_path_and_query request;
  up_headers := List.filter (fun h => negb (skip_request_header h.1)) (a_headers request);
  up_body := match a_method request with GET | HEAD => None | _ => Some (a_body request) end |}.

(** The clock reads [now] when the request is routed and [later] when its send has failed; [send]
    is what the network does with what is sent. *)
Definition forward_request (now later : Z) (send : UpstreamRequest -> result SendError HttpResponse)
    (request : AgentRequest) (prefetch : bool) (st : AgentState) : HttpResponse * AgentState :=
  let routed := classify (a_method request) (a_path request) in
  if is_channel_path (a_path request) then (status_only 501, st)
  else
    match key_position (routed_kind routed) (routed_id routed) with
    | None => (status_only 414, st)
    | Some pos =>
        let '(ring, ring_state) := current_ring now (agent_ring st) in
        let st := on_ring (fun _ => ring_state) st in
        match owner ring pos with
        | None => degrade (routed_class routed) true (count_if prefetch one_prefetch_unavailable st)
        | Some m =>
            let upstream := upstream_request request (address m) in
            let st := log_sent upstream st in
            match send upstream with
            | Ok response =>
                let st := on_ring (record_success (member_id m)) st in
                let st := count_if prefetch (prefetch_outcome (resp_status response)) (count one_forwarded st) in
                (proxied_response response, st)
            | Err error =>
                let st := record_send_failure later (member_id m) error st in
                degrade (routed_class routed) false (count_if prefetch one_prefetch_unavailable st)
            end
        end
    end.

Definition REQUEST_PURPOSE_HEADER : bytes := lit "x-flywheel-request-purpose".
Definition REQUEST_PURPOSE_PREFETCH : bytes := lit "prefetch".

Definition forward (now later : Z) (send : UpstreamRequest -> result SendError HttpResponse)
    (request : AgentRequest) (st : AgentState) : HttpResponse * AgentState :=
  let prefetch := bool_decide (header REQUEST_PURPOSE_HEADER (a_headers request) = Some REQUEST_PURPOSE_PREFETCH) in
  forward_request now later send request prefetch (count one_request st).
End Agent.
