(* ===== verification/AgentClaims.v ===== *)
(** * What the agent guarantees

    One owner per object and no replay, build-cache routes that fail open, ejections only for
    backend failures, and counters that add up. *)

From S2P Require Import Prelude Externals Concrete Text Lists Ring RingClaims Discovery DiscoveryClaims Agent.

Section Claims.
Context {SH : Sha256Lib} {HX : HexLib}.
Implicit Types (st : AgentState) (send : UpstreamRequest -> result SendError HttpResponse).

Lemma degrade_ring class empty st : agent_ring (degrade class empty st).2 = agent_ring st /\ agent_sent (degrade class empty st).2 = agent_sent st.
Proof. by destruct class. Qed.

Lemma count_if_ring b x st : agent_ring (count_if b x st) = agent_ring st /\ agent_sent (count_if b x st) = agent_sent st.
Proof. by destruct b. Qed.

Lemma send_failure_sent now id e st : agent_sent (record_send_failure now id e st) = agent_sent st.
Proof.
  unfold record_send_failure. case_bool; [done|]. destruct (record_failure _ _ _) as [ejected ring]. by destruct ejected.
Qed.

(** The headers that belong to one connection, and so do not travel to the backend. *)
Definition connection_headers : list bytes := map lit ["connection"; "keep-alive"; "proxy-authenticate"; "proxy-authorization";
  "te"; "trailer"; "transfer-encoding"; "upgrade"; "host"; "expect"]%string.

(** [u] carries [request] to [a]: its method, target and body, and every value of every
    end-to-end header, in order. *)
Definition carries (request : AgentRequest) (a : SocketAddr) (u : UpstreamRequest) : Prop :=
  up_method u = a_method request /\ up_address u = a /\ up_path_and_query u = a_path_and_query request
  /\ up_body u = (if decide (a_method request = GET \/ a_method request = HEAD) then None else Some (a_body request))
  /\ (forall name, filter (fun h => h.1 = name) (up_headers u)
      = if decide (name ∈ connection_headers) then [] else filter (fun h => h.1 = name) (a_headers request))
  /\ up_headers u `sublist_of` a_headers request.

Lemma end_to_end_kept name (hs : headers) :
  filter (fun h => h.1 = name) (List.filter (fun h => negb (skip_request_header h.1)) hs)
  = if decide (name ∈ connection_headers) then [] else filter (fun h => h.1 = name) hs.
Proof.
  induction hs as [|h hs IH]; [by case_decide|]. rewrite (filter_cons _ h hs).
  assert (skip_request_header h.1 = bool_decide (h.1 ∈ connection_headers)) as Hs by done.
  assert (List.filter (fun h => negb (skip_request_header h.1)) (h :: hs) = (if bool_decide (h.1 ∈ connection_headers) then [] else [h])
    ++ List.filter (fun h => negb (skip_request_header h.1)) hs) as -> by (rewrite <- Hs; cbn [List.filter]; by destruct (skip_request_header h.1)).
  rewrite filter_app, IH. case_bool_decide; [|rewrite filter_cons, filter_nil]; repeat case_decide; subst; done.
Qed.

Lemma upstream_carries request a : carries request a (upstream_request request a).
Proof.
  split; [done|]. split; [done|]. split; [done|]. split; [cbn; case_decide as Hm; [by destruct Hm as [-> | ->]|destruct (a_method request); naive_solver]|].
  split; [intros name; apply end_to_end_kept|]. cbn. induction (a_headers request) as [|h hs IH]; cbn; [done|].
  destruct (skip_request_header _); cbn; by constructor.
Qed.

(** The key of a request, and the member that owns it on the continuum of the moment. *)
Definition object_owner now st (kind id : bytes) : option RingMember :=
  pos ← key_position kind id; owner (current_ring now (agent_ring st)).1 pos.

Lemma forward_cases now later send request st :
  let routed := classify (a_method request) (a_path request) in
  let refused := is_channel_path (a_path request) = true \/ key_position (routed_kind routed) (routed_id routed) = None in
  let '(response, st') := forward now later send request st in
  (refused /\ agent_sent st' = agent_sent st
   /\ response = status_only (if is_channel_path (a_path request) then 501 else 414))
  \/ ~ refused /\ match object_owner now st (routed_kind routed) (routed_id routed) with
     | None => agent_sent st' = agent_sent st /\ response = (degrade (routed_class routed) true st).1
     | Some m =>
         agent_sent st' = upstream_request request (address m) :: agent_sent st
         /\ response = match send (upstream_request request (address m)) with
                       | Ok answer => proxied_response answer
                       | Err _ => (degrade (routed_class routed) false st).1
                       end
     end.
Proof.
  unfold object_owner. destruct (forward now later send request st) as [response st'] eqn:Ef. revert Ef. unfold forward, forward_request.
  set (prefetch := bool_decide _). case_bool; [intros [= <- <-]; left; eauto|].
  destruct (key_position _ _) as [pos|]; [|intros [= <- <-]; left; eauto]. cbn [agent_ring count mbind option_bind].
  destruct (current_ring now (agent_ring st)) as [ring rs]. cbn [fst]. intros Ef. right. split; [intros [?|?]; done|].
  assert (forall class empty s, (degrade class empty s).1 = (degrade class empty st).1) as Hd by (by intros []).
  destruct (owner ring pos) as [m|]; [destruct (send _) as [answer|error]|].
  - injection Ef as <- <-. by rewrite (proj2 (count_if_ring _ _ _)).
  - match type of Ef with ?l = _ => rewrite <- (Hd _ _ (count_if prefetch one_prefetch_unavailable (record_send_failure later (member_id m) error
      (log_sent (upstream_request request (address m)) (on_ring (fun _ => rs) (count one_request st)))))) end.
    rewrite Ef. split; [|done]. change st' with (response, st').2. rewrite <- Ef.
    by rewrite (proj2 (degrade_ring _ _ _)), (proj2 (count_if_ring _ _ _)), send_failure_sent.
  - rewrite <- (Hd _ _ (count_if prefetch one_prefetch_unavailable (on_ring (fun _ => rs) (count one_request st)))).
    rewrite Ef. split; [|done]. change st' with (response, st').2. rewrite <- Ef.
    by rewrite (proj2 (degrade_ring _ _ _)), (proj2 (count_if_ring _ _ _)).
Qed.

(** C30: A request is sent to at most one backend, once.  If the object's key has an owner on the
    continuum of the moment, exactly one request is sent, to the owner's address, with the method,
    the path and query and the body of the original (none for a [GET] or a [HEAD]), and with every
    value of each of its headers in order, apart from the ten headers of one connection, which are
    dropped; whatever the outcome of the send, nothing is sent again.  Nothing is sent when there is
    no owner, for a channel path, or for a key too long to be hashed. *)
Theorem forwards_once_to_owner now later send request st :
  let routed := classify (a_method request) (a_path request) in
  let st' := (forward now later send request st).2 in
  match object_owner now st (routed_kind routed) (routed_id routed) with
  | Some m =>
      if is_channel_path (a_path request) then agent_sent st' = agent_sent st
      else exists u, agent_sent st' = u :: agent_sent st /\ carries request (address m) u
  | None => agent_sent st' = agent_sent st
  end.
Proof.
  cbv zeta. pose proof (forward_cases now later send request st) as H. destruct (forward now later send request st) as [response st']. cbn [snd].
  destruct H as [([Hc|Hk] & Hs & _)|(Hn & H)].
  - rewrite Hc. by destruct (object_owner _ _ _ _).
  - unfold object_owner. by rewrite Hk.
  - destruct (object_owner _ _ _ _) as [m|]; [|by destruct H]. destruct H as [Hs _].
    destruct (is_channel_path _); [destruct Hn; auto|]. eexists. split; [done|]. apply upstream_carries.
Qed.

(** The build-cache routes, each with the kind of its keys. *)
Definition build_cache_routes : list (string * string) :=
  [("/build-cache/http/", "http-cache"); ("/build-cache/bazel/cas/", "artifact"); ("/build-cache/bazel/ac/", "bazel-action")]%string.

Lemma split_app_slash a b : slash ∉ a -> split_slash (a ++ slash :: b) = a :: split_slash b.
Proof.
  induction a as [|c a IH]; cbn; intros H; [done|]. rewrite bool_decide_false by (intros ->; apply H; by left).
  rewrite IH; [done|]. intros ?. apply H. by right.
Qed.

Lemma split_no_slash a : slash ∉ a -> split_slash a = [a].
Proof.
  induction a as [|c a IH]; cbn; intros H; [done|]. rewrite bool_decide_false by (intros ->; apply H; by left).
  rewrite IH; [done|]. intros ?. apply H. by right.
Qed.

Lemma build_cache_classified method prefix kind (key : bytes) : (prefix, kind) ∈ build_cache_routes -> slash ∉ key ->
  classify method (lit prefix ++ key) = {| routed_kind := lit kind; routed_id := key; routed_class := build_cache_class method |}
  /\ is_channel_path (lit prefix ++ key) = false.
Proof.
  intros Hr Hk. split; [|by set_unfold in Hr; destruct Hr as [[= -> ->]|[[= -> ->]|[[= -> ->]|[]]]]].
  assert (forall (x : bytes), bool_decide (slash ∈ x) = false -> slash ∉ x) as Hx by (intros x Hb; exact (bool_decide_eq_false_1 _ Hb)).
  set_unfold in Hr. destruct Hr as [[= -> ->]|[[= -> ->]|[[= -> ->]|[]]]].
  - unfold classify. change (trim_start_slashes _) with (lit "build-cache" ++ slash :: lit "http" ++ slash :: key).
    by rewrite !split_app_slash, split_no_slash by (try done; by apply Hx).
  - unfold classify. change (trim_start_slashes _) with (lit "build-cache" ++ slash :: lit "bazel" ++ slash :: lit "cas" ++ slash :: key).
    by rewrite !split_app_slash, split_no_slash by (try done; by apply Hx).
  - unfold classify. change (trim_start_slashes _) with (lit "build-cache" ++ slash :: lit "bazel" ++ slash :: lit "ac" ++ slash :: key).
    by rewrite !split_app_slash, split_no_slash by (try done; by apply Hx).
Qed.

Lemma short_key_hashed kind (key : bytes) : Z.of_nat (length kind) <= 65535 ->
  key_position kind key = None <-> 65535 < Z.of_nat (length key).
Proof.
  intros Hk. unfold key_position, routing_key, encode_parts, encode_part.
  change (Z.of_nat (length ROUTING_VERSION) <=? 65535) with true.
  rewrite (proj2 (Z.leb_le (Z.of_nat (length kind)) 65535)) by lia. cbn [mbind option_bind].
  destruct (Z.leb_spec (Z.of_nat (length key)) 65535); cbn; split; [done|lia|done..].
Qed.

(** C38: Build-cache traffic fails open.  A read ([GET] or [HEAD]) or write ([PUT] or [POST]) of a
    key under [/build-cache/http/], [/build-cache/bazel/cas/] or [/build-cache/bazel/ac/] is sent to
    the member that owns the key, and whatever that member answers is the answer; when there is no
    such member or the send fails, in any way, a read is answered as a miss (404) and a write as a
    success (200), so that no unavailable backend reaches the build.  The one answer the agent makes
    of its own besides is 414, to a key of more than 65535 bytes. *)
Theorem build_cache_fails_open now later send request st prefix kind (key : bytes) (read : bool) :
  (prefix, kind) ∈ build_cache_routes -> slash ∉ key -> a_path request = lit prefix ++ key ->
  a_method request ∈ (if read then [GET; HEAD] else [PUT; POST]) ->
  let response := (forward now later send request st).1 in
  if 65535 <? Z.of_nat (length key) then response = status_only 414
  else match object_owner now st (lit kind) key with
       | Some m => exists u, carries request (address m) u
           /\ match send u with
              | Ok answer => resp_status response = resp_status answer /\ resp_body response = resp_body answer
              | Err _ => response = status_only (if read then 404 else 200)
              end
       | None => response = status_only (if read then 404 else 200)
       end.
Proof.
  intros Hr Hk Hp Hm. cbv zeta. pose proof (forward_cases now later send request st) as H.
  destruct (forward now later send request st) as [response st']. cbn [fst].
  destruct (build_cache_classified (a_method request) prefix kind key Hr Hk) as [Ec Hc]. rewrite Hp, Ec, Hc in H. cbn [routed_kind routed_id routed_class] in H.
  assert (Z.of_nat (length (lit kind)) <= 65535) as Hl by (clear - Hr; set_unfold in Hr; destruct Hr as [[= -> ->]|[[= -> ->]|[[= -> ->]|[]]]]; cbn; lia).
  assert (forall empty, (degrade (build_cache_class (a_method request)) empty st).1 = status_only (if read then 404 else 200)) as Hd
    by (intros empty; clear - Hm; destruct read; set_unfold in Hm; destruct Hm as [->|[->|[]]]; done).
  destruct (Z.ltb_spec 65535 (Z.of_nat (length key))) as [Hlong|Hshort].
  - destruct H as [(_ & _ & ->)|(Hn & _)]; [done|]. destruct Hn. right. by apply short_key_hashed.
  - destruct H as [([?|H] & _)|(_ & H)]; [done|apply short_key_hashed in H; [lia|done]|].
    destruct (object_owner _ _ _ _) as [m|]; destruct H as [_ ->]; [|apply Hd]. eexists. split; [apply upstream_carries|].
    destruct (send _) as [answer|error]; [done|apply Hd].
Qed.

Definition outcomes (m : AgentMetrics) : Z := m_forwarded m + m_misses m + m_bypasses m + m_unavailable m.

(** The counters add up: every request is counted once, and, unless it was refused locally (a
    channel path or an oversized key), counted in exactly one outcome: forwarded, synthesized miss,
    write bypass or unavailable. *)
Theorem agent_counters_balance now later send request st :
  let st' := (forward now later send request st).2 in
  let refused := is_channel_path (a_path request)
    || bool_decide (key_position (routed_kind (classify (a_method request) (a_path request)))
                      (routed_id (classify (a_method request) (a_path request))) = None) in
  m_requests (agent_metrics st') = m_requests (agent_metrics st) + 1
  /\ outcomes (agent_metrics st') = outcomes (agent_metrics st) + (if refused then 0 else 1).
Proof.
  assert (forall class empty b x (s : AgentState), m_requests x = 0 -> outcomes x = 0 ->
    m_requests (agent_metrics (degrade class empty (count_if b x s)).2) = m_requests (agent_metrics s)
    /\ outcomes (agent_metrics (degrade class empty (count_if b x s)).2) = outcomes (agent_metrics s) + 1) as Hd.
  { intros class empty b x s H1 H2. unfold outcomes in *. destruct class, b; cbn; split; lia. }
  assert (forall id e (s : AgentState), m_requests (agent_metrics (record_send_failure later id e s)) = m_requests (agent_metrics s)
    /\ outcomes (agent_metrics (record_send_failure later id e s)) = outcomes (agent_metrics s)) as Hf.
  { intros id e s. unfold record_send_failure, outcomes. case_bool; [done|]. destruct (record_failure _ _ _) as [[] ring]; cbn; lia. }
  intros st' refused. subst st' refused. unfold forward, forward_request. set (prefetch := bool_decide (header _ _ = _)).
  destruct (is_channel_path _); [cbn; unfold outcomes; cbn; lia|]. cbn [orb].
  destruct (key_position _ _) as [pos|]; [rewrite bool_decide_false by done|rewrite bool_decide_true by done; unfold outcomes; cbn; lia].
  cbn [agent_ring count]. destruct (current_ring now (agent_ring st)) as [ring rs]. destruct (owner ring pos) as [m|].
  - destruct (send _) as [answer|error].
    + unfold prefetch_outcome, outcomes. destruct prefetch; cbn; [|lia]. repeat case_bool; cbn; lia.
    + set (s := record_send_failure _ _ _ _). destruct (Hd (routed_class (classify (a_method request) (a_path request))) false
        prefetch one_prefetch_unavailable s eq_refl eq_refl) as [-> ->]. subst s. edestruct Hf as [-> ->]. unfold outcomes. cbn. lia.
  - set (s := on_ring _ _). destruct (Hd (routed_class (classify (a_method request) (a_path request))) true
        prefetch one_prefetch_unavailable s eq_refl eq_refl) as [-> ->]. subst s. unfold outcomes. cbn. lia.
Qed.

(** Only backend failures count against a backend: when a send fails for another reason (a
    client aborting its own upload), no failure count and no retry deadline changes. *)
Theorem client_aborts_never_eject now later send request st error :
  is_connect error = false -> is_timeout error = false ->
  (forall u, send u = Err error) ->
  agent_ring (forward now later send request st).2 = agent_ring st
  \/ agent_ring (forward now later send request st).2 = (current_ring now (agent_ring st)).2.
Proof.
  intros Hc Ht Hs. unfold forward, forward_request. set (prefetch := bool_decide (header _ _ = _)). case_bool; [by left|].
  destruct (key_position _ _); [|by left]. right. cbn [agent_ring count]. destruct (current_ring now (agent_ring st)) as [ring rs].
  destruct (owner ring _) as [m|]; [rewrite Hs|]; rewrite (proj1 (degrade_ring _ _ _)), (proj1 (count_if_ring _ _ _)); [|done].
  unfold record_send_failure. by rewrite Hc, Ht.
Qed.

(** *** Paths *)

(** Every way to name an object routes to the same owner: the method never changes the routing
    key, and an artifact has the same key under its artifact route and under the Bazel CAS route. *)
Theorem object_has_one_key (m1 m2 : Method) (path digest : bytes) :
  (routed_kind (classify m1 path), routed_id (classify m1 path)) = (routed_kind (classify m2 path), routed_id (classify m2 path))
  /\ (slash ∉ digest ->
      let a := classify m1 (lit "/artifacts/sha256/" ++ digest) in
      let b := classify m2 (lit "/build-cache/bazel/cas/" ++ digest) in
      key_position (routed_kind a) (routed_id a) = key_position (routed_kind b) (routed_id b)
      /\ routed_id a = digest).
Proof.
  split; [unfold classify; by destruct (route_of _)|]. intros Hd.
  assert (split_slash (trim_start_slashes (lit "/artifacts/sha256/" ++ digest)) = [lit "artifacts"; lit "sha256"; digest]) as E1.
  { change (trim_start_slashes (lit "/artifacts/sha256/" ++ digest)) with (lit "artifacts" ++ slash :: lit "sha256" ++ slash :: digest).
    rewrite !split_app_slash, split_no_slash by (try done; apply (bool_decide_eq_false_1 _); by vm_compute). done. }
  assert (split_slash (trim_start_slashes (lit "/build-cache/bazel/cas/" ++ digest)) = [lit "build-cache"; lit "bazel"; lit "cas"; digest]) as E2.
  { change (trim_start_slashes (lit "/build-cache/bazel/cas/" ++ digest))
      with (lit "build-cache" ++ slash :: lit "bazel" ++ slash :: lit "cas" ++ slash :: digest).
    rewrite !split_app_slash, split_no_slash by (try done; apply (bool_decide_eq_false_1 _); by vm_compute). done. }
  unfold classify. rewrite E1, E2. done.
Qed.
End Claims.

Section Witnesses.
#[local] Existing Instances toy_sha256 real_hex.

Definition sample_agent : AgentState := {| agent_ring := two_shards; agent_metrics := zero_agent_metrics; agent_sent := [] |}.

Definition put_cas : AgentRequest := {|
  a_method := PUT; a_path := lit "/build-cache/bazel/cas/ab"; a_path_and_query := lit "/build-cache/bazel/cas/ab";
  a_headers := [(lit "host", lit "cache"); (lit "content-length", lit "2")]; a_body := lit "hi" |}.

Definition refused_connection : SendError := {| is_connect := true; is_timeout := false |}.
Definition aborted_upload : SendError := {| is_connect := false; is_timeout := false |}.

Lemma build_cache_fails_open_witness :
  (forward 200 200 (fun _ => Err refused_connection) put_cas sample_agent).1 = status_only 200.
Proof.
  assert (slash ∉ lit "ab") as Hk by (apply (bool_decide_eq_false_1 (slash ∈ lit "ab")); vm_compute; reflexivity).
  assert (a_method put_cas ∈ [PUT; POST]) as Hm by (cbn [a_method put_cas]; left).
  pose proof (build_cache_fails_open 200 200 (fun _ => Err refused_connection) put_cas sample_agent
    "/build-cache/bazel/cas/" "artifact" (lit "ab") false (list_elem_of_further _ _ _ (list_elem_of_here _ _)) Hk eq_refl Hm) as H.
  change (65535 <? Z.of_nat (length (lit "ab"))) with false in H. cbv iota in H.
  destruct (object_owner _ _ _ _) as [m|]; [|exact H]. destruct H as (u & _ & H). exact H.
Defined.

Lemma client_aborts_never_eject_witness :
  agent_ring (forward 200 200 (fun _ => Err aborted_upload) put_cas sample_agent).2 = two_shards
  \/ agent_ring (forward 200 200 (fun _ => Err aborted_upload) put_cas sample_agent).2 = (current_ring 200 two_shards).2.
Proof.
  exact (client_aborts_never_eject 200 200 (fun _ => Err aborted_upload) put_cas sample_agent aborted_upload
    eq_refl eq_refl (fun _ => eq_refl)).
Defined.

Lemma object_has_one_key_witness :
  routed_id (classify GET (lit "/artifacts/sha256/" ++ lit "ab")) = lit "ab".
Proof.
  destruct (object_has_one_key GET PUT (lit "/") (lit "ab")) as [_ H]. destruct H as [_ H].
  - apply (bool_decide_eq_false_1 (slash ∈ lit "ab")). vm_compute. reflexivity.
  - exact H.
Defined.
End Witnesses.
