(* ===== verification/Http.v ===== *)
(** * The HTTP transport ([transport/http/mod.rs], [transport/mod.rs])

    Header parsing and every channel, artifact, reference and build-cache handler, over the shard's
    services.  Routing, percent-decoding and JSON syntax are axum's: a handler takes the captured
    segments and the parsed payload. *)

From S2P Require Import Prelude Externals Domain Metadata MetadataView MetadataStore Space RecentUse Filesystem ArtifactFiles World Channels Cache Text.

(** ** Ranges and negotiation *)

Inductive RangeSelection := Full | Partial (start end_ : Z) | Unsatisfiable.

Definition parse_range (value : option bytes) (len : Z) : RangeSelection :=
  match value with
  | None => Full
  | Some value =>
      match to_str value with
      | None => Full
      | Some value =>
          match strip_prefix (lit "bytes=") value with
          | None => Full
          | Some range =>
              if bool_decide (","%char ∈ range) then Full
              else
                match split_once "-" range with
                | None => Full
                | Some (start, end_) =>
                    match start with
                    | [] =>
                        match parse_u64 end_ with
                        | None => Full
                        | Some suffix =>
                            if (suffix =? 0) || (len =? 0) then Unsatisfiable
                            else Partial (saturating_sub len suffix) (len - 1)
                        end
                    | _ :: _ =>
                        match parse_u64 start with
                        | None => Full
                        | Some start =>
                            let bounded (end_ : option Z) :=
                              if len <=? start then Unsatisfiable
                              else Partial start (Z.min (default (len - 1) end_) (len - 1)) in
                            match end_ with
                            | [] => bounded None
                            | _ :: _ =>
                                match parse_u64 end_ with
                                | None => Full
                                | Some end_ => if end_ <? start then Full else bounded (Some end_)
                                end
                            end
                        end
                    end
                end
          end
      end
  end.

Definition accepts_zstd (hs : headers) : bool :=
  match header (lit "accept-encoding") hs with
  | None => false
  | Some value =>
      match to_str value with
      | None => false
      | Some value =>
          existsb (fun token =>
            match split_on ";" (trim token) with
            | [] => false
            | name :: _ => bool_decide (trim name = lit "zstd")
            end) (split_on "," value)
      end
  end.

(** [transport::content_length] *)
Definition content_length (hs : headers) : option Z :=
  value ← header (lit "content-length") hs;
  value ← to_str value;
  parse_u64 value.

Definition content_type_of (hs : headers) : option bytes := value ← header (lit "content-type") hs; to_str value.

Definition build_reference (kind key : bytes) : bytes := lit "build:" ++ kind ++ lit ":" ++ key.

(** ** Responses *)

Inductive resp_header :=
| ContentLength (n : Z)
| ETagOf (a : ArtifactId)
| AcceptRangesBytes
| VaryAcceptEncoding
| ContentEncodingZstd
| ContentTypeIs (b : bytes)
| ContentRangeOf (start end_ len : Z)
| ContentRangeUnsatisfied (len : Z)
| RetryAfterOne
| WwwAuthenticateBearer.

#[export] Instance resp_header_eq_dec : EqDecision resp_header.
Proof. solve_decision. Defined.

Section Http.
Context {UL : UlidLib} {HX : HexLib} {SH : Sha256Lib} {BS : Base64Lib} {ZS : ZstdLib} {DH : DefaultHasherLib}.
Context {S : Type} {MS : MetadataStore S}.

(** [ChannelView] *)
Record ChannelView := {
  view_channel : bytes; view_token : option bytes; view_access_control : bool; view_expiry_seconds : Z; view_state : Lifecycle
}.

(** A streamed body is what reading it to the end delivers, [None] when the decoder fails. *)
Inductive payload :=
| NoBody
| Streamed (content : option bytes)
| JsonError (code : string)
| JsonChannel (v : ChannelView)
| JsonBinding (algorithm digest : bytes).

Record Response := { status : Z; resp_headers : list resp_header; body : payload }.

Definition plain (code : Z) : Response := {| status := code; resp_headers := []; body := NoBody |}.
Definition api_error (code : Z) (kind : string) : Response := {| status := code; resp_headers := []; body := JsonError kind |}.
Definition busy_response : Response := {| status := 429; resp_headers := [RetryAfterOne]; body := NoBody |}.
Definition insufficient_storage : Response := {| status := 507; resp_headers := [RetryAfterOne]; body := NoBody |}.
Definition invalid_channel : Response := api_error 400 "invalid_channel".

(** [AppState]: the shard and the free slots of the foreground budget. *)
Record AppState := { world : World S; foreground : nat }.

Record HttpConfig := { http_cache : CacheConfig; default_expiry_seconds : Z }.

Definition set_world (w : World S) (s : AppState) : AppState := {| world := w; foreground := foreground s |}.
Definition count (f : Metrics -> Metrics) (s : AppState) : AppState :=
  set_world (set_metrics (f (w_metrics (world s))) (world s)) s.

(** *** Counters ([telemetry.rs]) *)

Definition authorization_denial (m : Metrics) : Metrics := {|
  requests := requests m; hits := hits m; misses := misses m; bytes_read := bytes_read m; bytes_written := bytes_written m;
  authorization_denials := authorization_denials m + 1; maintenance_reclaimed := maintenance_reclaimed m;
  maintenance_requeued := maintenance_requeued m; build_cache_bypasses := build_cache_bypasses m;
  raw_pressure_errors := raw_pressure_errors m; foreground_in_flight := foreground_in_flight m;
  foreground_rejections := foreground_rejections m; free_observed_bytes := free_observed_bytes m;
  reserved_bytes := reserved_bytes m; committed_since_bytes := committed_since_bytes m |}.

Definition build_cache_bypass (m : Metrics) : Metrics := {|
  requests := requests m; hits := hits m; misses := misses m; bytes_read := bytes_read m; bytes_written := bytes_written m;
  authorization_denials := authorization_denials m; maintenance_reclaimed := maintenance_reclaimed m;
  maintenance_requeued := maintenance_requeued m; build_cache_bypasses := build_cache_bypasses m + 1;
  raw_pressure_errors := raw_pressure_errors m; foreground_in_flight := foreground_in_flight m;
  foreground_rejections := foreground_rejections m; free_observed_bytes := free_observed_bytes m;
  reserved_bytes := reserved_bytes m; committed_since_bytes := committed_since_bytes m |}.

Definition raw_pressure_error (m : Metrics) : Metrics := {|
  requests := requests m; hits := hits m; misses := misses m; bytes_read := bytes_read m; bytes_written := bytes_written m;
  authorization_denials := authorization_denials m; maintenance_reclaimed := maintenance_reclaimed m;
  maintenance_requeued := maintenance_requeued m; build_cache_bypasses := build_cache_bypasses m;
  raw_pressure_errors := raw_pressure_errors m + 1; foreground_in_flight := foreground_in_flight m;
  foreground_rejections := foreground_rejections m; free_observed_bytes := free_observed_bytes m;
  reserved_bytes := reserved_bytes m; committed_since_bytes := committed_since_bytes m |}.

(** Moves the in-flight gauge and the rejection counter. *)
Definition foreground_metrics (in_flight rejected : Z) (m : Metrics) : Metrics := {|
  requests := requests m; hits := hits m; misses := misses m; bytes_read := bytes_read m; bytes_written := bytes_written m;
  authorization_denials := authorization_denials m; maintenance_reclaimed := maintenance_reclaimed m;
  maintenance_requeued := maintenance_requeued m; build_cache_bypasses := build_cache_bypasses m;
  raw_pressure_errors := raw_pressure_errors m; foreground_in_flight := foreground_in_flight m + in_flight;
  foreground_rejections := foreground_rejections m + rejected; free_observed_bytes := free_observed_bytes m;
  reserved_bytes := reserved_bytes m; committed_since_bytes := committed_since_bytes m |}.

(** *** The foreground budget *)

Definition acquire_foreground (s : AppState) : bool * AppState :=
  match foreground s with
  | O => (false, count (foreground_metrics 0 1) s)
  | Datatypes.S free => (true, count (foreground_metrics 1 0) {| world := world s; foreground := free |})
  end.

(** Dropping a [ForegroundPermit]. *)
Definition release_foreground (s : AppState) : AppState :=
  count (foreground_metrics (-1) 0) {| world := world s; foreground := Datatypes.S (foreground s) |}.

(** A handler: an early [return] is the error channel. *)
Definition Handler (A : Type) : Type := M AppState Response A.

Definition respond (h : Handler Response) (s : AppState) : Response * AppState :=
  match h s with (Ok r, s) => (r, s) | (Err r, s) => (r, s) end.

Definition holds_permit (r : Response) : bool := match body r with Streamed _ => true | _ => false end.

(** The rest of a handler under a permit, which a streamed body takes along. *)
Definition with_permit (h : Handler Response) : Handler Response := fun s =>
  match acquire_foreground s with
  | (false, s) => (Err busy_response, s)
  | (true, s) =>
      let '(r, s) := respond h s in (Ok r, if holds_permit r then s else release_foreground s)
  end.

Definition cache {A} (m : M (World S) CacheError A) : Handler (result CacheError A) := try (zoom world set_world m).
Definition channels {A} (m : M (World S) ChannelError A) : Handler (result ChannelError A) := try (zoom world set_world m).

(** ** Channels *)

Definition credential (hs : headers) : option bytes :=
  authorization ← header (lit "authorization") hs;
  authorization ← to_str authorization;
  match strip_prefix (lit "Bearer ") authorization with
  | Some token => Some token
  | None =>
      match strip_prefix (lit "Basic ") authorization with
      | Some encoded =>
          decoded ← base64_std_decode encoded;
          if is_utf8 decoded then snd <$> split_once ":" decoded else None
      | None => if starts_with (lit "flywheel_") authorization then Some authorization else None
      end
  end.

Definition channel_failure (e : ChannelError) : Response :=
  match e with
  | ChannelNotFound | ChannelIsDeleting => api_error 404 "channel_not_found"
  | Unauthorized => {| status := 401; resp_headers := [WwwAuthenticateBearer]; body := JsonError "unauthorized" |}
  | DefaultChannel => api_error 409 "default_channel"
  | _ => api_error 500 "internal"
  end.

Definition channel_denied (e : ChannelError) (s : AppState) : Response * AppState :=
  (channel_failure e, match e with Unauthorized => count authorization_denial s | _ => s end).

Definition deny {A} (e : ChannelError) : Handler A := fun s => let '(r, s) := channel_denied e s in (Err r, s).

Definition authorize_channel (channel : bytes) (hs : headers) : Handler ChannelRecord :=
  match ChannelId_from_str channel with
  | Err _ => throw invalid_channel
  | Ok channel =>
      outcome ← channels (authorize channel (credential hs));
      match outcome with Ok record => mret record | Err e => deny e end
  end.

Definition channel_lease (channel : bytes) (hs : headers) : Handler ChannelRecord :=
  match ChannelId_from_str channel with
  | Err _ => throw invalid_channel
  | Ok channel =>
      outcome ← channels (authorize_with_lease channel (credential hs));
      match outcome with Ok lease => mret lease | Err e => deny e end
  end.

Record ChannelContext := { ctx_channel : ChannelId; ctx_scope : option ChannelId; ctx_access_control : bool }.

Definition channel_context (channel : option bytes) (hs : headers) : Handler ChannelContext :=
  match channel with
  | None => mret {| ctx_channel := DEFAULT; ctx_scope := None; ctx_access_control := false |}
  | Some channel =>
      record ← authorize_channel channel hs;
      mret {| ctx_channel := channel_id record; ctx_scope := Some (channel_id record);
              ctx_access_control := is_protected (access record) |}
  end.

Definition route_prefix (c : ChannelContext) : bytes :=
  match ctx_scope c with None => [] | Some channel => lit "/channels/" ++ ChannelId_to_string channel end.

Definition ChannelView_from_record (r : ChannelRecord) (token : option bytes) : ChannelView := {|
  view_channel := ChannelId_to_string (channel_id r); view_token := token;
  view_access_control := is_protected (access r); view_expiry_seconds := expiry_seconds r; view_state := state r |}.

Definition register_channel (cfg : HttpConfig) (id : ChannelId) (secret : bytes32)
    (access_control : option bool) (expiry : option Z) : Handler Response :=
  let protected := default false access_control in
  let expiry := default (default_expiry_seconds cfg) expiry in
  if expiry =? 0 then throw (api_error 400 "invalid_policy")
  else
    outcome ← channels (register id secret protected expiry);
    match outcome with
    | Ok issued => mret {| status := 201; resp_headers := [];
        body := JsonChannel (ChannelView_from_record (issued_record issued) (issued_token issued)) |}
    | Err e => mret (channel_failure e)
    end.

Definition get_channel (channel : bytes) (hs : headers) : Handler Response :=
  record ← authorize_channel channel hs;
  mret {| status := 200; resp_headers := []; body := JsonChannel (ChannelView_from_record record None) |}.

(** [patch] is the parsed payload, [None] when axum rejected it. *)
Definition patch_channel (channel : bytes) (hs : headers) (patch : option (option Z)) : Handler Response :=
  match patch with
  | None => throw (api_error 400 "invalid_patch")
  | Some patch =>
      lease ← channel_lease channel hs;
      let expiry := default (expiry_seconds lease) patch in
      if expiry =? 0 then throw (api_error 400 "invalid_policy")
      else
        outcome ← channels (update_expiry lease expiry);
        match outcome with
        | Ok record => mret {| status := 200; resp_headers := []; body := JsonChannel (ChannelView_from_record record None) |}
        | Err e => mret (channel_failure e)
        end
  end.

Definition handle_delete_channel (cfg : HttpConfig) (channel : bytes) (hs : headers) : Handler Response :=
  match ChannelId_from_str channel with
  | Err _ => throw invalid_channel
  | Ok channel =>
      outcome ← channels (delete_channel (cache_files (http_cache cfg)) channel (credential hs));
      match outcome with Ok _ => mret (plain 202) | Err e => mret (channel_failure e) end
  end.

(** ** Uploads *)

Definition cache_write_failure (e : CacheError) (s : AppState) : Response * AppState :=
  match e with
  | CacheLocal OutOfSpace => (insufficient_storage, count raw_pressure_error s)
  | CacheLocal DigestMismatch => (plain 409, s)
  | CacheLocal TooLarge => (plain 413, s)
  | ChannelDeleting | MissingChannel => (plain 404, s)
  | _ => (plain 500, s)
  end.

Definition cache_write_failure_with_bypass (e : CacheError) (s : AppState) : Response * AppState :=
  match e with
  | CacheLocal OutOfSpace => (plain 200, count build_cache_bypass s)
  | _ => cache_write_failure e s
  end.

Definition failing (f : CacheError -> AppState -> Response * AppState) (e : CacheError) : Handler Response :=
  fun s => let '(r, s) := f e s in (Ok r, s).

Definition upload (cfg : HttpConfig) (name : bytes) (c : ChannelContext) (target : PublicationTarget) (hs : headers)
    (stream : body_stream) (d : Durability) (e : StoredEncoding) : Handler (result CacheError Publication) :=
  cache (cache_publish (http_cache cfg) name {|
    req_channel := ctx_channel c; req_target := target; req_content_type := content_type_of hs; req_stream := stream;
    req_content_length := content_length hs; req_durability := d; req_encoding := e |}).

Definition put_artifact (cfg : HttpConfig) (name : bytes) (channel : option bytes) (algorithm digest_ : bytes)
    (hs : headers) (stream : body_stream) : Handler Response :=
  context ← channel_context channel hs;
  match ArtifactId_parse algorithm digest_ with
  | Err _ => throw (plain 400)
  | Ok artifact =>
      with_permit (
        outcome ← upload cfg name context (ById artifact) hs stream Durable Identity;
        match outcome with
        | Ok publication => mret (plain (match pub_outcome publication with PublicationCreated => 201 | PublicationExisting => 204 end))
        | Err e => failing cache_write_failure e
        end)
  end.

Definition put_bazel_cas (cfg : HttpConfig) (name : bytes) (channel : option bytes) (hash : bytes)
    (hs : headers) (stream : body_stream) : Handler Response :=
  context ← channel_context channel hs;
  match ArtifactId_parse (lit "sha256") hash with
  | Err _ => throw (plain 400)
  | Ok artifact =>
      with_permit (
        outcome ← upload cfg name context (ById artifact) hs stream Durable Identity;
        match outcome with Ok _ => mret (plain 200) | Err e => failing cache_write_failure e end)
  end.

(** The common part of the two build-cache writes. *)
Definition put_build (cfg : HttpConfig) (name : bytes) (context : ChannelContext) (reference : bytes)
    (hs : headers) (stream : body_stream) : Handler Response :=
  with_permit (
    outcome ← upload cfg name context (ContentAddressed (Some reference)) hs stream BestEffort Zstd;
    match outcome with Ok _ => mret (plain 200) | Err e => failing cache_write_failure_with_bypass e end).

Definition put_http_cache (cfg : HttpConfig) (name : bytes) (channel : option bytes) (key : bytes)
    (hs : headers) (stream : body_stream) : Handler Response :=
  context ← channel_context channel hs;
  if negb (Reference_is_valid key) then throw (plain 400)
  else put_build cfg name context (build_reference (lit "http") key) hs stream.

Definition put_bazel_ac (cfg : HttpConfig) (name : bytes) (channel : option bytes) (hash : bytes)
    (hs : headers) (stream : body_stream) : Handler Response :=
  context ← channel_context channel hs;
  if negb (is_ok (ArtifactId_parse (lit "sha256") hash)) then throw (plain 400)
  else put_build cfg name context (build_reference (lit "bazel-ac") hash) hs stream.

(** ** Downloads *)

(** The response for a located artifact; the file is read from [start] on for [length] bytes. *)
Definition artifact_response (artifact : ArtifactId) (hs : headers) (head : bool) (located : LocatedArtifact) : Response :=
  let m := located_metadata located in
  let file := located_file located in
  let range := if negb head && bool_decide (encoding m = Identity)
               then parse_range (header (lit "range") hs) (content_len m) else Full in
  match range with
  | Unsatisfiable =>
      {| status := 416; resp_headers := [AcceptRangesBytes; ContentRangeUnsatisfied (content_len m); ETagOf artifact];
         body := NoBody |}
  | _ =>
      let '(start, end_, len) := match range with
        | Partial start end_ => (start, end_, end_ - start + 1)
        | _ => (0, saturating_sub (content_len m) 1, content_len m)
        end in
      let partial := match range with Partial _ _ => true | _ => false end in
      let passthrough := bool_decide (encoding m = Zstd) && accepts_zstd hs in
      {| status := if partial then 206 else 200;
         resp_headers :=
           [ContentLength (if passthrough then stored_len m else len); ETagOf artifact]
           ++ (if bool_decide (encoding m = Identity) then [AcceptRangesBytes] else [])
           ++ (if bool_decide (encoding m = Zstd) then [VaryAcceptEncoding] else [])
           ++ (if passthrough then [ContentEncodingZstd] else [])
           ++ (match content_type m with Some t => [ContentTypeIs t] | None => [] end)
           ++ (if partial then [ContentRangeOf start end_ (content_len m)] else []);
         body :=
           if head || ((len =? 0) && negb passthrough) then NoBody
           else Streamed (match encoding m with
             | Zstd => if passthrough then Some file else take (Z.to_nat len) <$> zstd_decode file
             | Identity => Some (take (Z.to_nat len) (drop (Z.to_nat start) file))
             end) |}
  end.

(** Whether the file is sought in: for a range of an unencoded body that starts after its first byte. *)
Definition seeks (hs : headers) (head : bool) (located : LocatedArtifact) : bool :=
  let m := located_metadata located in
  negb head && bool_decide (encoding m = Identity)
  && match parse_range (header (lit "range") hs) (content_len m) with Partial start _ => 0 <? start | _ => false end.

Definition serve_artifact (cfg : HttpConfig) (channel : ChannelId) (artifact : ArtifactId) (hs : headers) (head : bool)
    : Handler Response :=
  with_permit (
    outcome ← cache (locate (http_cache cfg) channel artifact);
    match outcome with
    | Ok (Some located) =>
        let response := artifact_response artifact hs head located in
        if seeks hs head located then
          sought ← cache file_io;
          match sought with Ok _ => mret response | Err _ => throw (plain 500) end
        else mret response
    | Ok None => throw (plain 404)
    | Err _ => throw (plain 500)
    end).

Definition get_artifact (cfg : HttpConfig) (channel : option bytes) (algorithm digest_ : bytes) (method : Method) (hs : headers)
    : Handler Response :=
  context ← channel_context channel hs;
  match ArtifactId_parse algorithm digest_ with
  | Err _ => throw (plain 400)
  | Ok artifact => serve_artifact cfg (ctx_channel context) artifact hs (bool_decide (method = HEAD))
  end.

Definition get_bazel_cas (cfg : HttpConfig) (channel : option bytes) (hash : bytes) (method : Method) (hs : headers)
    : Handler Response :=
  context ← channel_context channel hs;
  match ArtifactId_parse (lit "sha256") hash with
  | Err _ => throw (plain 400)
  | Ok artifact => serve_artifact cfg (ctx_channel context) artifact hs (bool_decide (method = HEAD))
  end.

(** The permit of the lookup is dropped before the artifact is served. *)
Definition resolve_with_permit (channel : ChannelId) (reference : bytes)
    : Handler (result CacheError (option ReferenceRecord)) := fun s =>
  match acquire_foreground s with
  | (false, s) => (Err busy_response, s)
  | (true, s) => let '(r, s) := cache (resolve_reference channel reference) s in (r, release_foreground s)
  end.

Definition serve_reference_artifact (cfg : HttpConfig) (channel : ChannelId) (reference : bytes) (hs : headers) (head : bool)
    : Handler Response :=
  resolved ← resolve_with_permit channel reference;
  match resolved with
  | Ok (Some record) => serve_artifact cfg channel (ref_artifact record) hs head
  | Ok None => throw (plain 404)
  | Err _ => throw (plain 500)
  end.

Definition get_http_cache (cfg : HttpConfig) (channel : option bytes) (key : bytes) (method : Method) (hs : headers)
    : Handler Response :=
  context ← channel_context channel hs;
  serve_reference_artifact cfg (ctx_channel context) (build_reference (lit "http") key) hs (bool_decide (method = HEAD)).

Definition get_bazel_ac (cfg : HttpConfig) (channel : option bytes) (hash : bytes) (method : Method) (hs : headers)
    : Handler Response :=
  context ← channel_context channel hs;
  serve_reference_artifact cfg (ctx_channel context) (build_reference (lit "bazel-ac") hash) hs (bool_decide (method = HEAD)).

(** ** References *)

Definition reference_failure (e : CacheError) : Response :=
  match e with
  | ChannelDeleting | MissingChannel => api_error 404 "channel_not_found"
  | _ => api_error 500 "internal"
  end.

(** [payload] is the artifact of the JSON body, or the status axum rejects the body with; the
    channel's refusal is held back until the body has parsed. *)
Definition put_reference (channel : option bytes) (reference : bytes) (payload : result Z (bytes * bytes)) (hs : headers)
    : Handler Response :=
  context ← try (channel_context channel hs);
  match payload with
  | Err code => throw (plain code)
  | Ok (algorithm, digest_) =>
      context ← lift context;
      match Reference_parse reference with
      | Err _ => throw (api_error 400 "invalid_reference")
      | Ok reference =>
          match ArtifactId_parse algorithm digest_ with
          | Err _ => throw (api_error 400 "invalid_artifact")
          | Ok artifact =>
              with_permit (
                outcome ← cache (cache_bind_reference (ctx_channel context) reference artifact);
                match outcome with Ok _ => mret (plain 204) | Err e => mret (reference_failure e) end)
          end
      end
  end.

Definition get_reference (channel : option bytes) (reference : bytes) (hs : headers) : Handler Response :=
  context ← channel_context channel hs;
  match Reference_parse reference with
  | Err _ => throw (api_error 400 "invalid_reference")
  | Ok reference =>
      with_permit (
        outcome ← cache (resolve_reference (ctx_channel context) reference);
        match outcome with
        | Ok (Some record) => mret {| status := 200; resp_headers := [];
            body := JsonBinding (lit "sha256") (Digest_to_string (digest (ref_artifact record))) |}
        | Ok None => mret (api_error 404 "reference_not_found")
        | Err _ => mret (api_error 500 "internal")
        end)
  end.

Definition handle_delete_reference (channel : option bytes) (reference : bytes) (hs : headers) : Handler Response :=
  context ← channel_context channel hs;
  match Reference_parse reference with
  | Err _ => throw (api_error 400 "invalid_reference")
  | Ok reference =>
      with_permit (
        outcome ← cache (cache_delete_reference (ctx_channel context) reference);
        match outcome with Ok _ => mret (plain 204) | Err e => mret (reference_failure e) end)
  end.

(** ** Readiness *)

Definition handle_ready (cfg : HttpConfig) : Handler Response :=
  outcome ← cache (ready (http_cache cfg));
  match outcome with Ok _ => mret (plain 200) | Err _ => mret (plain 503) end.
End Http.
