(* ===== verification/HttpClaims.v ===== *)
(** * What the HTTP transport guarantees

    Ranges stay within the representation, downloads deliver the bytes of their digest,
    acknowledged uploads are stored, foreground slots are never lost, and requests without
    credentials change nothing. *)

From S2P Require Import Prelude Externals Domain Records Concrete Metadata MetadataView MetadataRefinement MetadataStore Space RecentUse Filesystem ArtifactFiles FilesLemmas FilesClaims World Channels ChannelLemmas Cache CacheLemmas CacheConsistency Samples CacheClaims Text Http.

(** *** Ranges *)

Lemma parse_range_within value len start end_ :
  0 <= len -> parse_range value len = Partial start end_ -> 0 <= start <= end_ /\ end_ < len.
Proof.
  intros Hl. unfold parse_range. destruct value as [value|]; [|done]. destruct (to_str value) as [value'|]; [|done].
  destruct (strip_prefix _ value') as [range|]; [|done]. case_bool_decide; [done|].
  destruct (split_once "-" range) as [[[|c a] b]|]; [| |done].
  - destruct (parse_u64 b) as [n|] eqn:E; [|done]. apply parse_u64_range in E as [Hn _].
    case_bool; [done|]. apply orb_false_iff in Heqb0 as []. zify_bool. unfold saturating_sub. intros [= <- <-]. lia.
  - destruct (parse_u64 (c :: a)) as [n|] eqn:E; [|done]. apply parse_u64_range in E as [Hn _]. destruct b as [|c' b].
    + case_bool; [done|]. zify_bool. cbn. intros [= <- <-]. lia.
    + destruct (parse_u64 (c' :: b)) as [m|]; [|done]. case_bool; [done|]. case_bool; [done|]. zify_bool. cbn. intros [= <- <-]. lia.
Qed.

Lemma visible_digit d : 0 <= d < 10 -> visible (digit_char d) = true.
Proof.
  intros H. unfold visible, digit_char, byte_value. rewrite N_ascii_embedding by lia. rewrite Z2N.id by lia.
  apply orb_true_iff. left. apply andb_true_iff. split; [apply Z.leb_le|apply Z.ltb_lt]; lia.
Qed.

Lemma to_str_range a b : (forall c, c ∈ a ++ b -> is_digit c = true) -> to_str (lit "bytes=" ++ a ++ lit "-" ++ b) = Some (lit "bytes=" ++ a ++ lit "-" ++ b).
Proof.
  intros H. unfold to_str. assert (forall c, is_digit c = true -> visible c = true) as Hv.
  { intros c Hc. unfold is_digit, digit_value in Hc. unfold visible. destruct ((48 <=? byte_value c) && (byte_value c <=? 57)) eqn:E; [|done].
    apply andb_true_iff in E as []. zify_bool. apply orb_true_iff. left. apply andb_true_iff. split; [apply Z.leb_le|apply Z.ltb_lt]; lia. }
  assert (forall s, (forall c, c ∈ s -> is_digit c = true) -> forallb visible s = true) as Hs.
  { intros s Hd. apply forallb_forall. intros c Hc. apply Hv, Hd. by apply list_elem_of_In. }
  rewrite !forallb_app, (Hs a), (Hs b); [done|..]; intros c Hc; apply H, elem_of_app; auto.
Qed.

Lemma dec_string_all n c : is_u64 n -> c ∈ dec_string n -> is_digit c = true.
Proof. intros Hn Hc. destruct (is_digit c) eqn:E; [done|]. by apply (dec_string_no c n Hn) in E. Qed.

Lemma dec_string_ne n : is_u64 n -> dec_string n ≠ [].
Proof. intros Hn. destruct (dec_string_digits n Hn) as (ds & -> & Hne & _). by destruct ds. Qed.

(** C40: A range request selects what it asks for and never leaves the representation: any selected
    range is non-empty and inside it; a well-formed [bytes=a-b] selects the bytes from [a] to [b]
    or the end, and is unsatisfiable exactly when [a] is past the end; a suffix [bytes=-n] selects
    the last [n] bytes. *)
Theorem range_selects_what_it_asks (value : option bytes) (len a b : Z) :
  0 <= len -> is_u64 a -> is_u64 b ->
  match parse_range value len with Partial start end_ => 0 <= start <= end_ /\ end_ < len | _ => True end
  /\ (a <= b -> parse_range (Some (lit "bytes=" ++ dec_string a ++ lit "-" ++ dec_string b)) len
        = if len <=? a then Unsatisfiable else Partial a (Z.min b (len - 1)))
  /\ parse_range (Some (lit "bytes=" ++ [] ++ lit "-" ++ dec_string a)) len
        = if (a =? 0) || (len =? 0) then Unsatisfiable else Partial (Z.max (len - a) 0) (len - 1).
Proof.
  intros Hl Ha Hb. split; [|split].
  - destruct (parse_range value len) eqn:E; [done| |done]. by apply parse_range_within in E.
  - intros Hab. unfold parse_range. rewrite to_str_range.
    2: { intros c [Hc|Hc]%elem_of_app; [by apply (dec_string_all a)|by apply (dec_string_all b)]. }
    rewrite strip_prefix_app. change (dec_string a ++ lit "-" ++ dec_string b) with (dec_string a ++ "-"%char :: dec_string b).
    rewrite split_once_app by (by apply dec_string_no). rewrite bool_decide_false.
    + destruct (dec_string a) as [|c s] eqn:Ea; [by apply dec_string_ne in Ea|]. rewrite <- Ea, parse_dec by done.
      destruct (dec_string b) as [|c' s'] eqn:Eb; [by apply dec_string_ne in Eb|]. rewrite <- Eb, parse_dec by done.
      rewrite (proj2 (Z.ltb_ge b a)) by done. done.
    + intros [Hc|[Hc|Hc]%elem_of_cons]%elem_of_app; [|done|]; by apply dec_string_no in Hc.
  - unfold parse_range. rewrite to_str_range.
    2: { intros c Hc. by apply (dec_string_all a). }
    rewrite strip_prefix_app. cbn [app lit String.list_ascii_of_string split_once]. rewrite (bool_decide_true ("-"%char = "-"%char)) by done.
    rewrite bool_decide_false; [by rewrite parse_dec|].
    intros [Hc|Hc]%elem_of_cons; [done|by apply dec_string_no in Hc].
Qed.

(** *** Reference names *)

Lemma colon_invalid s : ":"%char ∈ s -> Reference_is_valid s = false.
Proof.
  intros H. destruct (Reference_is_valid s) eqn:E; [|done]. unfold Reference_is_valid in E. apply andb_true_iff in E as [_ E].
  rewrite forallb_forall in E. specialize (E _ (proj1 (list_elem_of_In _ _) H)). discriminate.
Qed.

(** The three name spaces of references never meet: a name a client may bind or delete is never
    the name of a build-cache entry, the two kinds of build-cache entries have different names, and
    within a kind the name determines the key. *)
Theorem reference_names_disjoint (name r kind key key' : bytes) :
  (Reference_parse name = Ok r -> r ≠ build_reference kind key)
  /\ build_reference (lit "http") key ≠ build_reference (lit "bazel-ac") key'
  /\ (build_reference kind key = build_reference kind key' -> key = key').
Proof.
  split; [|split].
  - unfold Reference_parse. destruct (Reference_is_valid name) eqn:E; [|done]. intros [= <-] ->.
    rewrite colon_invalid in E; [done|]. unfold build_reference. apply elem_of_app. left. repeat (apply elem_of_cons; (left; reflexivity) || right).
  - discriminate.
  - unfold build_reference. intros H. by do 3 apply app_inv_head in H.
Qed.

Section Claims.
Context {UL : UlidLib} {ULL : UlidLaws} {HX : HexLib} {HXL : HexLaws} {SH : Sha256Lib} {BS : Base64Lib}.
Context {ZS : ZstdLib} {ZSL : ZstdLaws} {DH : DefaultHasherLib}.
Context {S : Type} {MS : MetadataStore S} {ML : MetadataLaws S}.
Implicit Types (s : AppState (S:=S)) (cfg : HttpConfig) (v : MetaView).

(** *** Every request *)

Inductive http_call :=
| PutArtifact (name : bytes) (channel : option bytes) (algorithm digest_ : bytes) (hs : headers) (stream : body_stream)
| GetArtifact (channel : option bytes) (algorithm digest_ : bytes) (method : Method) (hs : headers)
| PutReference (channel : option bytes) (reference : bytes) (payload : result Z (bytes * bytes)) (hs : headers)
| GetReference (channel : option bytes) (reference : bytes) (hs : headers)
| DeleteReference (channel : option bytes) (reference : bytes) (hs : headers)
| PutHttpCache (name : bytes) (channel : option bytes) (key : bytes) (hs : headers) (stream : body_stream)
| GetHttpCache (channel : option bytes) (key : bytes) (method : Method) (hs : headers)
| PutBazelCas (name : bytes) (channel : option bytes) (hash : bytes) (hs : headers) (stream : body_stream)
| GetBazelCas (channel : option bytes) (hash : bytes) (method : Method) (hs : headers)
| PutBazelAc (name : bytes) (channel : option bytes) (hash : bytes) (hs : headers) (stream : body_stream)
| GetBazelAc (channel : option bytes) (hash : bytes) (method : Method) (hs : headers)
| RegisterChannel (id : ChannelId) (secret : bytes32) (access_control : option bool) (expiry : option Z)
| GetChannel (channel : bytes) (hs : headers)
| PatchChannel (channel : bytes) (hs : headers) (patch : option (option Z))
| DeleteChannel (channel : bytes) (hs : headers)
| Ready.

Definition dispatch cfg (call : http_call) : Handler (S:=S) Response :=
  match call with
  | PutArtifact name channel algorithm digest_ hs stream => put_artifact cfg name channel algorithm digest_ hs stream
  | GetArtifact channel algorithm digest_ method hs => get_artifact cfg channel algorithm digest_ method hs
  | PutReference channel reference payload hs => put_reference channel reference payload hs
  | GetReference channel reference hs => get_reference channel reference hs
  | DeleteReference channel reference hs => handle_delete_reference channel reference hs
  | PutHttpCache name channel key hs stream => put_http_cache cfg name channel key hs stream
  | GetHttpCache channel key method hs => get_http_cache cfg channel key method hs
  | PutBazelCas name channel hash hs stream => put_bazel_cas cfg name channel hash hs stream
  | GetBazelCas channel hash method hs => get_bazel_cas cfg channel hash method hs
  | PutBazelAc name channel hash hs stream => put_bazel_ac cfg name channel hash hs stream
  | GetBazelAc channel hash method hs => get_bazel_ac cfg channel hash method hs
  | RegisterChannel id secret access_control expiry => register_channel cfg id secret access_control expiry
  | GetChannel channel hs => get_channel channel hs
  | PatchChannel channel hs patch => patch_channel channel hs patch
  | DeleteChannel channel hs => handle_delete_channel cfg channel hs
  | Ready => handle_ready cfg
  end.

(** *** Foreground slots *)

(** A handler that answers with [r] has taken the slot its body holds, and no other. *)
Definition balanced (h : Handler (S:=S) Response) : Prop := forall s,
  let '(r, s') := respond h s in (foreground s' + (if holds_permit r then 1 else 0) = foreground s)%nat.

(** A step that touches no slot; a response it may return early carries no body. *)
Definition no_slot {A} (h : Handler (S:=S) A) : Prop := forall s,
  match h s with
  | (Ok _, s') => foreground s' = foreground s
  | (Err r, s') => foreground s' = foreground s /\ holds_permit r = false
  end.

Lemma no_slot_bind {A B} (h : Handler A) (k : A -> Handler B) : no_slot h -> (forall x, no_slot (k x)) -> no_slot (h ≫= k).
Proof.
  intros Hh Hk s. unfold mbind, M_bind. specialize (Hh s). destruct (h s) as [[x|r] s1]; [|done].
  specialize (Hk x s1). destruct (k x s1) as [[y|r] s2]; [congruence|]. destruct Hk. split; congruence.
Qed.

Lemma balanced_bind {A} (h : Handler A) (k : A -> Handler Response) : no_slot h -> (forall x, balanced (k x)) -> balanced (h ≫= k).
Proof.
  intros Hh Hk s. unfold respond, mbind, M_bind. specialize (Hh s). destruct (h s) as [[x|r] s1].
  - specialize (Hk x s1). unfold respond in Hk. destruct (k x s1) as [[r|r] s2]; congruence.
  - destruct Hh as [E ->]. lia.
Qed.

Lemma no_slot_throw {A} (r : Response) : holds_permit r = false -> no_slot (throw r : Handler A).
Proof. intros Hr s. done. Qed.
Lemma no_slot_ret {A} (x : A) : no_slot (mret x : Handler A).
Proof. intros s. done. Qed.
Lemma balanced_ret (r : Response) : holds_permit r = false -> balanced (mret r).
Proof. intros Hr s. cbn. rewrite Hr. lia. Qed.
Lemma balanced_throw (r : Response) : holds_permit r = false -> balanced (throw r).
Proof. intros Hr s. cbn. rewrite Hr. lia. Qed.

Lemma no_slot_cache {A} (m : M (World S) CacheError A) : no_slot (cache m).
Proof. intros s. unfold cache, try, zoom. by destruct (m (world s)). Qed.
Lemma no_slot_channels {A} (m : M (World S) ChannelError A) : no_slot (channels m).
Proof. intros s. unfold channels, try, zoom. by destruct (m (world s)). Qed.

Lemma no_slot_deny {A} e : no_slot (deny e : Handler A).
Proof. intros s. unfold deny, channel_denied. by destruct e. Qed.

(** Under a permit, any handler whose own steps touch no slot is balanced. *)
Lemma balanced_with_permit (h : Handler Response) :
  (forall s, foreground (respond h s).2 = foreground s) -> balanced (with_permit h).
Proof.
  intros Hh s. unfold respond at 1, with_permit, acquire_foreground. destruct (foreground s) as [|n] eqn:E; cbn.
  { rewrite E. lia. }
  specialize (Hh (count (foreground_metrics 1 0) {| world := world s; foreground := n |})).
  destruct (respond h _) as [r s1]; cbn in *. destruct (holds_permit r) eqn:Er; cbn; rewrite ?Er; lia.
Qed.

Lemma authorize_channel_slot channel hs : no_slot (authorize_channel channel hs).
Proof.
  unfold authorize_channel. destruct (ChannelId_from_str channel) as [c|]; [|by apply no_slot_throw].
  apply no_slot_bind; [apply no_slot_channels|]. intros [r|e]; [apply no_slot_ret|apply no_slot_deny].
Qed.

Lemma channel_context_slot channel hs : no_slot (channel_context channel hs).
Proof.
  unfold channel_context. destruct channel; [|apply no_slot_ret].
  apply no_slot_bind; [apply authorize_channel_slot|]. intros r. apply no_slot_ret.
Qed.

Lemma cache_foreground {A} (m : M (World S) CacheError A) (k : result CacheError A -> Handler Response) :
  (forall x s, foreground (respond (k x) s).2 = foreground s) -> forall s, foreground (respond (cache m ≫= k) s).2 = foreground s.
Proof.
  intros Hk s. unfold respond, mbind, M_bind, cache, try, zoom. destruct (m (world s)) as [r w].
  specialize (Hk r (set_world w s)). unfold respond in Hk. exact Hk.
Qed.

Lemma write_failure_foreground e s : foreground (cache_write_failure e s).2 = foreground s /\ foreground (cache_write_failure_with_bypass e s).2 = foreground s.
Proof. destruct e as [[]| | | |]; done. Qed.

Lemma failing_foreground f e s : foreground (respond (failing f e) s).2 = foreground (f e s).2.
Proof. unfold respond, failing. by destruct (f e s). Qed.

Lemma serve_artifact_balanced cfg c a hs head : balanced (serve_artifact (S:=S) cfg c a hs head).
Proof.
  apply balanced_with_permit, cache_foreground. intros [[located|]|e] s; [|done..]. case_bool; [|done].
  apply (cache_foreground file_io). by intros [].
Qed.

Lemma resolve_slot c reference : no_slot (resolve_with_permit (S:=S) c reference).
Proof.
  intros s. unfold resolve_with_permit, acquire_foreground. destruct (foreground s) as [|n] eqn:E; [cbn; by rewrite E|].
  unfold cache, try, zoom. cbn. destruct (resolve_reference c reference _) as [r w]. cbn. done.
Qed.

Lemma serve_reference_balanced cfg c reference hs head : balanced (serve_reference_artifact (S:=S) cfg c reference hs head).
Proof.
  apply balanced_bind; [apply resolve_slot|]. intros [[r|]|e]; [apply serve_artifact_balanced|by apply balanced_throw..].
Qed.

Lemma put_build_balanced cfg name c reference hs stream : balanced (put_build (S:=S) cfg name c reference hs stream).
Proof.
  apply balanced_with_permit, cache_foreground. intros [p|e] s; [done|]. rewrite failing_foreground. apply write_failure_foreground.
Qed.

Lemma put_reference_balanced channel reference payload hs : balanced (put_reference (S:=S) channel reference payload hs).
Proof.
  intros s. unfold put_reference, respond, mbind, M_bind, try. pose proof (channel_context_slot channel hs s) as Hs.
  destruct (channel_context channel hs s) as [context s1]. destruct payload as [[algorithm digest_]|code]; [|cbn; destruct context; destruct_and?; lia].
  destruct context as [ctx|r]; [|destruct Hs as [E Hp]; cbn; rewrite E, Hp; lia]. cbn [lift].
  assert (balanced (match Reference_parse reference with
    | Err _ => throw (api_error 400 "invalid_reference")
    | Ok reference =>
        match ArtifactId_parse algorithm digest_ with
        | Err _ => throw (api_error 400 "invalid_artifact")
        | Ok artifact =>
            with_permit (S:=S) (
              outcome ← cache (cache_bind_reference (ctx_channel ctx) reference artifact);
              match outcome with Ok _ => mret (plain 204) | Err e => mret (reference_failure e) end)
        end
    end)) as Hb.
  { destruct (Reference_parse reference); [|by apply balanced_throw]. destruct (ArtifactId_parse algorithm digest_); [|by apply balanced_throw].
    apply balanced_with_permit, cache_foreground. by intros []. }
  specialize (Hb s1). rewrite Hs in Hb. exact Hb.
Qed.

(** Foreground slots are conserved: whatever a request is and however it ends, the slots free
    after its handler returned, plus the one its streamed body still holds, are the slots free
    before; so capacity is never lost, and a rejected request takes none. *)
Theorem foreground_slots_conserved cfg (call : http_call) s :
  let '(r, s') := respond (dispatch cfg call) s in
  (foreground s' + (if holds_permit r then 1 else 0) = foreground s)%nat.
Proof.
  revert s. change (balanced (dispatch cfg call)). destruct call; cbn [dispatch];
    try (apply balanced_bind; [apply channel_context_slot|]; intros context);
    try apply serve_reference_balanced.
  - destruct (ArtifactId_parse algorithm digest_); [|by apply balanced_throw].
    apply balanced_with_permit, cache_foreground. intros [p|e] s; [done|]. rewrite failing_foreground. apply write_failure_foreground.
  - destruct (ArtifactId_parse algorithm digest_); [apply serve_artifact_balanced|by apply balanced_throw].
  - apply put_reference_balanced.
  - destruct (Reference_parse reference); [|by apply balanced_throw].
    apply balanced_with_permit, cache_foreground. by intros [[]|].
  - destruct (Reference_parse reference); [|by apply balanced_throw].
    apply balanced_with_permit, cache_foreground. by intros [].
  - case_bool; [by apply balanced_throw|apply put_build_balanced].
  - destruct (ArtifactId_parse (lit "sha256") hash); [|by apply balanced_throw].
    apply balanced_with_permit, cache_foreground. intros [p|e] s; [done|]. rewrite failing_foreground. apply write_failure_foreground.
  - destruct (ArtifactId_parse (lit "sha256") hash); [apply serve_artifact_balanced|by apply balanced_throw].
  - case_bool; [by apply balanced_throw|apply put_build_balanced].
  - unfold register_channel. case_bool; [by apply balanced_throw|]. apply balanced_bind; [apply no_slot_channels|].
    intros [issued|e]; [by apply balanced_ret|]. apply balanced_ret. by destruct e.
  - apply balanced_bind; [apply authorize_channel_slot|]. intros r. by apply balanced_ret.
  - unfold patch_channel. destruct patch as [patch|]; [|by apply balanced_throw]. apply balanced_bind.
    + unfold channel_lease. destruct (ChannelId_from_str channel); [|by apply no_slot_throw].
      apply no_slot_bind; [apply no_slot_channels|]. intros [r|e]; [apply no_slot_ret|apply no_slot_deny].
    + intros lease. case_bool; [by apply balanced_throw|]. apply balanced_bind; [apply no_slot_channels|].
      intros [r|e]; apply balanced_ret; [done|by destruct e].
  - unfold handle_delete_channel. destruct (ChannelId_from_str channel); [|by apply balanced_throw].
    apply balanced_bind; [apply no_slot_channels|]. intros [r|e]; apply balanced_ret; [done|by destruct e].
  - apply balanced_bind; [apply no_slot_cache|]. intros [|]; by apply balanced_ret.
Qed.

(** *** Downloads *)

(** What a client reads. *)
Definition delivered (r : Response) : option bytes :=
  match body r with Streamed content => content | NoBody => Some [] | _ => None end.

Definition whole (r : Response) (content : bytes) : Prop :=
  if bool_decide (ContentEncodingZstd ∈ resp_headers r)
  then exists frame, delivered r = Some frame /\ zstd_decode frame = Some content
       /\ ContentLength (Z.of_nat (length frame)) ∈ resp_headers r
  else delivered r = Some content /\ ContentLength (Z.of_nat (length content)) ∈ resp_headers r.

Definition part (r : Response) (content : bytes) : Prop :=
  exists start end_, 0 <= start <= end_ /\ end_ < Z.of_nat (length content)
    /\ ContentRangeOf start end_ (Z.of_nat (length content)) ∈ resp_headers r
    /\ delivered r = Some (take (Z.to_nat (end_ - start + 1)) (drop (Z.to_nat start) content))
    /\ ContentLength (end_ - start + 1) ∈ resp_headers r.

(** A range that names no byte of [len]: it starts past the end, or is an empty suffix. *)
Definition unsatisfiable_range (hs : headers) (len : Z) : Prop :=
  exists range, header (lit "range") hs = Some (lit "bytes=" ++ range)
    /\ ((exists a rest n, range = a ++ "-"%char :: rest /\ parse_u64 a = Some n /\ len <= n)
        \/ (exists b n, range = "-"%char :: b /\ parse_u64 b = Some n /\ (n = 0 \/ len = 0))).

Lemma unsatisfiable_asked hs len : parse_range (header (lit "range") hs) len = Unsatisfiable -> unsatisfiable_range hs len.
Proof.
  unfold parse_range, unsatisfiable_range. destruct (header (lit "range") hs) as [value|]; [|done]. unfold to_str.
  destruct (forallb visible value); [|done]. destruct (strip_prefix (lit "bytes=") value) as [range|] eqn:Ep; [|done].
  apply strip_prefix_inv in Ep as ->. case_bool_decide; [done|]. destruct (split_once "-" range) as [[start end_]|] eqn:Es; [|done].
  apply split_once_inv in Es as ->. intros H1. exists (start ++ "-"%char :: end_). split; [done|]. destruct start as [|x start].
  - right. destruct (parse_u64 end_) as [n|] eqn:En; [|done]. exists end_, n. split; [done|]. split; [done|].
    destruct (Z.eqb_spec n 0); [by left|]. destruct (Z.eqb_spec len 0); [by right|done].
  - left. destruct (parse_u64 (x :: start)) as [n|] eqn:En; [|done]. exists (x :: start), end_, n. split; [done|]. split; [done|].
    destruct (Z.leb_spec len n); [done|]. destruct end_ as [|y end_]; [done|]. destruct (parse_u64 (y :: end_)) as [e|]; [|done]. by destruct (e <? n).
Qed.

Lemma artifact_response_faithful a hs m file content :
  stored_as (encoding m) file content -> content_len m = Z.of_nat (length content) -> stored_len m = Z.of_nat (length file) ->
  let r := artifact_response a hs false {| located_file := file; located_metadata := m |} in
  (status r = 200 /\ whole r content /\ (ContentEncodingZstd ∈ resp_headers r -> accepts_zstd hs = true))
  \/ (status r = 206 /\ part r content)
  \/ (status r = 416 /\ encoding m = Identity /\ unsatisfiable_range hs (Z.of_nat (length content))).
Proof.
  intros Hs Hl Hst r. subst r. unfold artifact_response. cbn [located_metadata located_file negb andb orb].
  destruct (encoding m) eqn:Ee; cbn in Hs.
  - rewrite bool_decide_true by done. subst file. destruct (parse_range _ _) as [|start end_|] eqn:Er; [|right; left|right; right].
    + left. split; [done|]. rewrite (bool_decide_false (Identity = Zstd)) by done. cbn [andb].
      split; [|cbn; destruct (content_type m); rewrite ?elem_of_app, ?elem_of_cons; cbn; set_solver].
      unfold whole. rewrite bool_decide_false by (cbn; destruct (content_type m); cbn; set_solver).
      unfold delivered. cbn [body resp_headers]. rewrite Hl. destruct (Z.eqb_spec (Z.of_nat (length content)) 0) as [E|E]; cbn [andb negb].
      * split; [|cbn; set_solver]. destruct content; [done|cbn in E; lia].
      * split; [|cbn; set_solver]. rewrite Nat2Z.id. cbn. by rewrite drop_0, take_ge by lia.
    + apply parse_range_within in Er as [H1 H2]; [|lia]. split; [done|]. exists start, end_. rewrite Hl in H2.
      split; [done|]. split; [done|]. rewrite (bool_decide_false (Identity = Zstd)) by done. cbn [andb orb negb].
      rewrite (proj2 (Z.eqb_neq (end_ - start + 1) 0)) by lia. unfold delivered. cbn [body resp_headers andb].
      rewrite Hl. split; [|split; [done|cbn; set_solver]].
      rewrite !elem_of_app. right. right. right. right. right. by left.
    + split; [done|]. split; [done|]. rewrite <- Hl. by apply unsatisfiable_asked.
  - rewrite (bool_decide_false (Zstd = Identity)), (bool_decide_true (Zstd = Zstd)) by done. left. split; [done|].
    destruct (accepts_zstd hs) eqn:Ea; cbn [andb negb orb].
    + split; [|done]. unfold whole. rewrite bool_decide_true by (cbn; set_solver).
      exists file. unfold delivered. cbn [body]. rewrite andb_false_r. split; [done|]. split; [done|].
      rewrite Hst. cbn. set_solver.
    + split; [|cbn; destruct (content_type m); cbn; set_solver].
      unfold whole. rewrite bool_decide_false by (cbn; destruct (content_type m); cbn; set_solver).
      unfold delivered. cbn [body resp_headers]. rewrite Hl. destruct (Z.eqb_spec (Z.of_nat (length content)) 0) as [E|E]; cbn [andb negb].
      * split; [|cbn; set_solver]. destruct content; [done|cbn in E; lia].
      * split; [|cbn; set_solver]. rewrite Nat2Z.id, Hs. cbn. by rewrite take_ge by lia.
Qed.

(** What serving an artifact comes to. *)
Lemma serve_artifact_cases cfg channel artifact hs v s :
  steady (cache_files (http_cache cfg)) v (world s) ->
  let '(r, s') := respond (serve_artifact cfg channel artifact hs false) s in
  status r = 429 \/ status r = 500
  \/ match mv_artifacts v !! (channel, artifact) with
     | None => status r = 404
     | Some m => exists content, sha256 content = digest_array (digest artifact)
         /\ ((status r = 200 /\ whole r content /\ (ContentEncodingZstd ∈ resp_headers r -> accepts_zstd hs = true))
             \/ (status r = 206 /\ part r content)
             \/ (status r = 416 /\ encoding m = Identity /\ unsatisfiable_range hs (Z.of_nat (length content))))
     end.
Proof.
  intros Hst. unfold serve_artifact, with_permit, acquire_foreground, respond at 1.
  destruct (foreground s) as [|n]; [cbn; by left|]. cbn zeta iota.
  set (s1 := count _ _). assert (steady (cache_files (http_cache cfg)) v (world s1)) as Hst1 by (by eapply steady_other).
  unfold respond, mbind, M_bind, cache, try, zoom. destruct (locate (http_cache cfg) channel artifact (world s1)) as [[found|e] w1] eqn:El.
  - apply (locate_ok _ _ _ v) in El as [_ Hf]; [|done]. destruct (mv_artifacts v !! (channel, artifact)) as [m|] eqn:Em.
    + destruct Hf as (file & -> & _ & content & H1 & H2 & H3 & H4). pose proof (artifact_response_faithful artifact hs m file content H1 H3 H4) as Hfaith.
      case_bool; [|right; right; by exists content]. unfold cache, try, zoom. destruct (file_io _) as [[|] w2]; cbn; [right; right; by exists content|].
      right. by left.
    + subst found. cbn. right. by right.
  - cbn. right. by left.
Qed.

(** C13: A download delivers the artifact: in a shard whose rows and files agree, a GET answered 200
    delivers bytes with the artifact's digest (compressed only if the client said it accepts zstd,
    and then decoding to them), one answered 206 the slice its Content-Range names of such bytes,
    the announced length is the length delivered, and a 404 means the shard has no such
    artifact. *)
Theorem download_is_faithful cfg channel artifact hs v s :
  steady (cache_files (http_cache cfg)) v (world s) ->
  let '(r, s') := respond (serve_artifact cfg channel artifact hs false) s in
  (status r = 200 -> exists content, sha256 content = digest_array (digest artifact) /\ whole r content
      /\ (ContentEncodingZstd ∈ resp_headers r -> accepts_zstd hs = true))
  /\ (status r = 206 -> exists content, sha256 content = digest_array (digest artifact) /\ part r content)
  /\ (status r = 404 -> mv_artifacts v !! (channel, artifact) = None).
Proof.
  intros Hst. pose proof (serve_artifact_cases cfg channel artifact hs v s Hst) as H. destruct (respond _ _) as [r s'].
  destruct H as [E|[E|H]]; [rewrite E; done..|]. destruct (mv_artifacts v !! (channel, artifact)) as [m|]; [|rewrite H; done].
  destruct H as (content & Hd & [(E & Hw & Ha)|[[E Hp]|[E _]]]); rewrite E.
  - split; [eauto|]. split; done.
  - split; [done|]. split; [eauto|done].
  - done.
Qed.

(** *** Uploads *)

Lemma authorize_status channel hs s :
  match channel_context channel hs s with (Err r, _) => status r ≠ 201 /\ status r ≠ 204 | _ => True end.
Proof.
  unfold channel_context. destruct channel as [text|]; [|done]. unfold authorize_channel.
  destruct (ChannelId_from_str text) as [c|]; [|done]. unfold mbind, M_bind, channels, try, zoom.
  destruct (authorize c (credential hs) (world s)) as [[r|e] w1]; [done|]. by destruct e.
Qed.

(** The channel a path names: the default one when it names none. *)
Definition names_channel (channel : option bytes) (c : ChannelId) : Prop :=
  match channel with None => c = DEFAULT | Some text => ChannelId_from_str text = Ok c end.

Lemma channel_context_ok rest files channel hs v s ctx s' :
  disk_ok rest files (world s) -> steady files v (world s) -> channel_context channel hs s = (Ok ctx, s') ->
  disk_ok rest files (world s') /\ steady files v (world s') /\ names_channel channel (ctx_channel ctx).
Proof.
  intros Hd Hst H. unfold channel_context in H. destruct channel as [text|]; [|by injection H as <- <-].
  unfold authorize_channel in H. cbn. destruct (ChannelId_from_str text) as [c|]; [|done].
  apply bind_ok in H as (record & s1 & H1 & H). injection H as <- <-.
  unfold mbind, M_bind, channels, try, zoom in H1. destruct (authorize c (credential hs) (world s)) as [[r|e] w1] eqn:E.
  - injection H1 as <- <-. apply (authorize_ok v) in E as (Hv & Hw & _ & Hid & _); [|apply Hst].
    destruct Hst as (_ & ? & ? & ?). rewrite Hid. split; [|split; [|done]].
    + cbn. rewrite Hw. exact Hd.
    + split; [exact Hv|]. cbn. rewrite Hw. done.
  - unfold deny, channel_denied in H1. done.
Qed.

(** C14: An acknowledged upload is stored: when an artifact PUT is answered 201 or 204, its body was
    received to the end and has the digest named in the path, and the shard, still consistent, now
    has the artifact in the channel the path names; a body that does not match its digest is never
    acknowledged. *)
Theorem acknowledged_upload_is_stored rest cfg name channel algorithm digest_ hs stream v s :
  0 <= rest -> files_wf (cache_files (http_cache cfg)) ->
  request_wf (max_upload_bytes (http_cache cfg)) (content_length hs) ->
  disk_ok rest (cache_files (http_cache cfg)) (world s) -> steady (cache_files (http_cache cfg)) v (world s) ->
  let '(r, s') := respond (put_artifact cfg name channel algorithm digest_ hs stream) s in
  (status r = 201 \/ status r = 204) ->
  exists c artifact chunks v', names_channel channel c /\ ArtifactId_parse algorithm digest_ = Ok artifact
    /\ stream = Ok <$> chunks /\ sha256 (concat chunks) = digest_array (digest artifact)
    /\ steady (cache_files (http_cache cfg)) v' (world s') /\ is_Some (mv_artifacts v' !! (c, artifact)).
Proof.
  intros Hr Hf Hq Hd Hst. unfold put_artifact, respond. unfold mbind at 1, M_bind at 1.
  pose proof (authorize_status channel hs s) as Hau. destruct (channel_context channel hs s) as [[ctx|r] s0] eqn:Ec.
  2: { intros [E|E]; destruct Hau as [H1 H2]; congruence. }
  apply (channel_context_ok rest (cache_files (http_cache cfg)) _ _ v) in Ec as (Hd0 & Hst0 & Hn); [|done..]. clear Hau.
  destruct (ArtifactId_parse algorithm digest_) as [artifact|]; [|by intros [?|?]].
  unfold with_permit, acquire_foreground. destruct (foreground s0) as [|n]; [cbn; by intros [?|?]|].
  set (s1 := count _ _). cbn zeta iota. unfold upload, respond, cache, try, zoom, mbind, M_bind, mret, M_ret.
  set (request := Build_PublishRequest _ _ _ _ _ _ _).
  assert (disk_ok rest (cache_files (http_cache cfg)) (world s1)) as Hd1 by exact Hd0.
  assert (steady (cache_files (http_cache cfg)) v (world s1)) as Hst1 by (by eapply steady_other).
  destruct (cache_publish (http_cache cfg) name request (world s1)) as [[pub|e] w1] eqn:Ep.
  - unfold cache_publish in Ep. apply bind_ok in Ep as ([p|rejected] & w2 & Ep & E2); [|done]. injection E2 as -> ->.
    eapply (publish_request_ok rest) in Ep as (v' & bdy & Hst' & (chunks & Hs & ->) & _ & Hdig & Hid & Hrow & _); [|done..].
    specialize (Hid artifact eq_refl). rewrite Hid in Hdig, Hrow. cbn. intros _. exists (ctx_channel ctx), artifact, chunks, v'.
    split; [done|]. split; [done|]. split; [done|]. split; [done|]. split; [|done]. destruct (pub_outcome pub); by eapply steady_other.
  - destruct e as [[]| | | |]; cbn; by intros [?|?].
Qed.

(** *** Credentials *)

(** The channel a data request names in its path, and its headers. *)
Definition data_scope (call : http_call) : option (option bytes * headers) :=
  match call with
  | PutArtifact _ channel _ _ hs _ | GetArtifact channel _ _ _ hs | PutReference channel _ _ hs
  | GetReference channel _ hs | DeleteReference channel _ hs | PutHttpCache _ channel _ hs _
  | GetHttpCache channel _ _ hs | PutBazelCas _ channel _ hs _ | GetBazelCas channel _ _ hs
  | PutBazelAc _ channel _ hs _ | GetBazelAc channel _ _ hs => Some (channel, hs)
  | _ => None
  end.

(** A body that is not the JSON asked for is answered before the channel's refusal is. *)
Definition unreadable_payload (call : http_call) : option Z :=
  match call with PutReference _ _ (Err code) _ => Some code | _ => None end.

Lemma dispatch_context cfg call channel hs s r s' :
  data_scope call = Some (channel, hs) -> channel_context channel hs s = (Err r, s') ->
  respond (dispatch cfg call) s = (match unreadable_payload call with Some code => plain code | None => r end, s').
Proof.
  intros Hc He. destruct call; cbn in Hc; simplify_eq;
    cbn [dispatch]; unfold put_artifact, get_artifact, put_reference, get_reference, handle_delete_reference, put_http_cache,
      get_http_cache, put_bazel_cas, get_bazel_cas, put_bazel_ac, get_bazel_ac, respond, mbind, M_bind, try; rewrite He; try done.
  by destruct payload as [[]|].
Qed.

Lemma protected_refused record d credential_ :
  access record = Token d -> (forall token, credential_ = Some token -> sha256 token ≠ token_digest d) ->
  authorize_record record credential_ = Err Unauthorized.
Proof.
  intros Ha Hc. unfold authorize_record. rewrite Ha. destruct credential_ as [token|]; [|done].
  destruct (verify d token) eqn:Ev; [|done]. apply bool_decide_eq_true in Ev. by destruct (Hc token).
Qed.

(** What the channel of a request without its token makes of the request. *)
Lemma protected_context channel hs c record d v s :
  viewed v (world s) -> ChannelId_from_str channel = Ok c ->
  mv_channels v !! c = Some record -> access record = Token d ->
  (forall token, credential hs = Some token -> sha256 token ≠ token_digest d) ->
  exists r s', channel_context (Some channel) hs s = (Err r, s')
    /\ (status r = 401 /\ authorization_denials (w_metrics (world s')) = authorization_denials (w_metrics (world s)) + 1 \/ status r = 500)
    /\ foreground s' = foreground s /\ viewed v (world s') /\ w_fs (world s') = w_fs (world s).
Proof.
  intros Hv Hid Hrec Hacc Hcred. pose proof (protected_refused record d (credential hs) Hacc Hcred) as Href.
  assert (exists e w', authorize c (credential hs) (world s) = (Err e, w') /\ viewed v w' /\ w' = set_db (w_db w') (world s)
    /\ (e = Unauthorized \/ exists me, e = ChannelStore me)) as (e & w' & Ea & Hv' & Hw' & He).
  { destruct (authorize c (credential hs) (world s)) as [[r|e] w'] eqn:E.
    - apply (authorize_ok v) in E as (_ & _ & Hl & _ & _ & Ha); [|done]. exfalso. rewrite Hrec in Hl. injection Hl as <-. congruence.
    - exists e, w'. pose proof E as (Hv' & Hw')%(authorize_err v); [|done]. split; [done|]. split; [done|]. split; [done|].
      unfold authorize, mbind, M_bind in E. destruct (ch_store (ms_channel c) (world s)) as [[found|e1] w1] eqn:E1.
      + apply (ch_store_ok _ (v_channel c) v) in E1 as ([= Hf] & _); [|apply channel_law|done]. rewrite Hrec in Hf. subst found.
        unfold lift in E. rewrite Href in E. injection E as <- _. by left.
      + injection E as <- _. right. apply (ch_read_err _ (fun v => mv_channels v !! c) v) in E1 as (_ & _ & me & -> & _);
          [eauto|apply channel_law|done]. }
  exists (channel_failure e), (channel_denied e (set_world w' s)).2. split.
  { unfold channel_context, authorize_channel. rewrite Hid. unfold mbind, M_bind, channels, try, zoom. rewrite Ea.
    unfold deny, channel_denied. done. }
  destruct He as [->|[me ->]]; cbn; rewrite Hw'; (split; [auto|]); (split; [done|]); (split; [exact Hv'|done]).
Qed.
End Claims.

Section Witnesses.
#[local] Existing Instances toy_ulid toy_ulid_laws real_hex real_hex_laws toy_sha256 toy_zstd toy_zstd_laws.
#[local] Existing Instances toy_base64 toy_hasher toy_store toy_store_laws.

Lemma range_selects_what_it_asks_witness :
  parse_range (Some (lit "bytes=" ++ dec_string 2 ++ lit "-" ++ dec_string 99)) 10 = Partial 2 9.
Proof.
  destruct (range_selects_what_it_asks None 10 2 99) as (_ & H & _); [discriminate|split; discriminate|split; discriminate|].
  exact (H ltac:(discriminate)).
Defined.

Lemma reference_names_disjoint_witness : lit "main" ≠ build_reference (lit "http") (lit "main").
Proof.
  destruct (reference_names_disjoint (lit "main") (lit "main") (lit "http") (lit "main") (lit "main")) as [H _].
  exact (H eq_refl).
Defined.

Definition sample_http : HttpConfig := {| http_cache := sample_cfg; default_expiry_seconds := 60 |}.
Definition sample_text : bytes := Digest_to_string (digest (sample_artifact "hello world")).
Definition with_slots (w : World MemDB) : AppState (S:=MemDB) := {| world := w; foreground := 2 |}.

Definition get_hello : Response * AppState :=
  respond (serve_artifact sample_http channel_a (sample_artifact "hello world") [] false) (with_slots published_shard).

Lemma get_hello_status : status get_hello.1 = 200.
Proof. vm_compute. reflexivity. Qed.

(** Stored as zstd, read by a client that does not accept it. *)
Lemma download_is_faithful_witness :
  exists content, sha256 content = digest_array (digest (sample_artifact "hello world")) /\ whole get_hello.1 content.
Proof.
  destruct published_steady as [v Hv].
  pose proof (download_is_faithful sample_http channel_a (sample_artifact "hello world") [] v (with_slots published_shard) Hv) as H.
  change (respond (serve_artifact sample_http channel_a (sample_artifact "hello world") [] false) (with_slots published_shard))
    with get_hello in H. pose proof get_hello_status as E.
  destruct get_hello as [r s']. destruct H as [H _]. destruct (H E) as (content & H1 & H2 & _). exists content. split; [exact H1|exact H2].
Defined.

Definition put_hello : Response * AppState :=
  respond (put_artifact sample_http (lit "t") (Some (ChannelId_to_string channel_a)) (lit "sha256") sample_text [] sample_stream)
    (with_slots (open_shard [] [])).

Lemma put_hello_status : status put_hello.1 = 201.
Proof. vm_compute. reflexivity. Qed.

Lemma acknowledged_upload_is_stored_witness :
  exists c artifact, names_channel (Some (ChannelId_to_string channel_a)) c /\ ArtifactId_parse (lit "sha256") sample_text = Ok artifact.
Proof.
  destruct open_shard_steady as [v Hv].
  pose proof (acknowledged_upload_is_stored 0 sample_http (lit "t") (Some (ChannelId_to_string channel_a)) (lit "sha256") sample_text []
    sample_stream v (with_slots (open_shard [] [])) ltac:(discriminate) sample_files_wf sample_request
    (open_shard_disk [] []) Hv) as H.
  change (respond (put_artifact sample_http (lit "t") (Some (ChannelId_to_string channel_a)) (lit "sha256") sample_text [] sample_stream)
    (with_slots (open_shard [] []))) with put_hello in H.
  pose proof put_hello_status as E. destruct put_hello as [r s'].
  destruct (H (or_introl E)) as (c & artifact & chunks & v' & H1 & H2 & _). exists c, artifact. exact (conj H1 H2).
Defined.

Definition protected_shard : World MemDB := (register channel_a sample_secret true 60 (sample_world [] [])).2.

Lemma protected_view : exists v record d, viewed v protected_shard /\ mv_channels v !! channel_a = Some record /\ access record = Token d.
Proof.
  unfold protected_shard. destruct (ok_run (register channel_a sample_secret true 60) (sample_world [] [])) as [issued H]; [by vm_compute|].
  rewrite H. cbn [snd]. unfold register in H at 1. apply bind_ok in H as (t & w1 & [= <- <-] & H).
  set (record := Build_ChannelRecord _ _ _ _ _) in H. apply bind_ok in H as (u & w2 & H2 & H).
  apply bind_ok in H as (u3 & w3 & [= _ <-] & H). apply (f_equal snd) in H. cbn [snd mret M_ret] in H.
  apply (ch_store_ok _ (v_create_channel record) empty_view) in H2 as (_ & Hv & _); [|apply create_channel_law|apply sample_world_viewed].
  rewrite <- H. exists (v_create_channel record empty_view).2, record. eexists. split; [exact Hv|]. split; [|reflexivity].
  unfold v_create_channel. cbn. rewrite lookup_empty. cbn. by rewrite lookup_insert_eq.
Qed.

Lemma channel_text : ChannelId_from_str (ChannelId_to_string channel_a) = Ok channel_a.
Proof. apply ChannelId_from_str_ok. reflexivity. Qed.
End Witnesses.
