(* ===== verification/Negotiation.v ===== *)
(** * Content negotiation of the package proxy ([proxy/mod.rs])

    Media ranges with their [f32] qualities, and the representation served for an [Accept] header.
    A quality is an IEEE 754 binary32 number as [str::parse::<f32>] yields it, infinities and NaN
    included. *)

From Stdlib Require Import SpecFloat.
From S2P Require Import Prelude Externals Text.

(** ** [f32] *)

Definition f32 : Type := spec_float.
Definition f32_zero : f32 := S754_zero false.
Definition f32_one : f32 := S754_finite false 8388608 (-23).
Definition f32_lt : f32 -> f32 -> bool := SFltb.
Definition f32_eq : f32 -> f32 -> bool := SFeqb.

(** [f32::clamp]; a NaN stays. *)
Definition f32_clamp (x lo hi : f32) : f32 :=
  let x := if f32_lt x lo then lo else x in
  if f32_lt hi x then hi else x.

(** The longest prefix of digits: its value after [acc], its length, and what follows. *)
Fixpoint take_digits (acc : Z) (n : nat) (s : bytes) : Z * nat * bytes :=
  match s with
  | [] => (acc, n, [])
  | c :: s' =>
      match digit_value c with
      | Some d => take_digits (acc * 10 + d) (S n) s'
      | None => (acc, n, s)
      end
  end.

Definition is_char (c : ascii) (s : bytes) : bool :=
  match s with x :: _ => bool_decide (x = c) | [] => false end.

(** An optional sign: whether it is a minus, and what follows. *)
Definition take_sign (s : bytes) : bool * bytes :=
  if is_char "-" s then (true, tail s) else if is_char "+" s then (false, tail s) else (false, s).

(** The decimal number [digits . digits e exponent] as an integer and a power of ten. *)
Definition parse_number (s : bytes) : option (Z * Z) :=
  let '(m, n1, s) := take_digits 0 0 s in
  let '(m, n2, s) := if is_char "." s then take_digits m 0 (tail s) else (m, 0%nat, s) in
  if Nat.eqb (n1 + n2) 0 then None
  else if is_char "e" s || is_char "E" s then
    let '(negative, s) := take_sign (tail s) in
    match take_digits 0 0 s with
    | (e, S _, []) => Some (m, (if negative then - e else e) - Z.of_nat n2)
    | _ => None
    end
  else match s with [] => Some (m, - Z.of_nat n2) | _ :: _ => None end.

(** The binary32 number nearest to [m * 10^e], ties to even. *)
Definition f32_of_decimal (negative : bool) (m e : Z) : f32 :=
  match m with
  | Zpos m' =>
      if 0 <=? e then binary_normalize 24 128 (let v := m * 10 ^ e in if negative then - v else v) 0 negative
      else SFdiv 24 128 (S754_finite negative m' 0) (S754_finite false (Z.to_pos (10 ^ (- e))) 0)
  | _ => S754_zero negative
  end.

(** [str::parse::<f32>] *)
Definition parse_f32 (s : bytes) : option f32 :=
  let '(negative, s) := take_sign s in
  match s with
  | [] => None
  | _ :: _ =>
      match parse_number s with
      | Some (m, e) => Some (f32_of_decimal negative m e)
      | None =>
          let s := to_ascii_lowercase s in
          if bool_decide (s = lit "inf") || bool_decide (s = lit "infinity") then Some (S754_infinity negative)
          else if bool_decide (s = lit "nan") then Some S754_nan
          else None
      end
  end.

(** ** Media ranges *)

(** The first [q] parameter with a number. *)
Fixpoint find_quality (fields : list bytes) : option f32 :=
  match fields with
  | [] => None
  | field :: fields =>
      match split_once "=" (trim field) with
      | Some (name, value) =>
          if bool_decide (to_ascii_lowercase (trim name) = lit "q") then
            match parse_f32 (trim value) with
            | Some q => Some q
            | None => find_quality fields
            end
          else find_quality fields
      | None => find_quality fields
      end
  end.

Definition media_range (range : bytes) : bytes * f32 :=
  match split_on ";" range with
  | [] => ([], f32_one)
  | media_type :: fields =>
      (to_ascii_lowercase (trim media_type),
       f32_clamp (default f32_one (find_quality fields)) f32_zero f32_one)
  end.

Definition candidate : Type := option (Z * f32).

Definition offer (specificity : Z) (quality : f32) (c : candidate) : candidate :=
  match c with
  | None => Some (specificity, quality)
  | Some (current_specificity, current_quality) =>
      if (current_specificity <? specificity)
         || ((specificity =? current_specificity) && f32_lt current_quality quality)
      then Some (specificity, quality) else c
  end.

Definition outranks (preferred other : Z * f32) : bool :=
  f32_lt other.2 preferred.2
  || (f32_eq preferred.2 other.2 && (0 <? preferred.1) && (other.1 <=? preferred.1)).

Definition acceptable (c : candidate) : candidate :=
  match c with
  | Some (s, q) => if f32_lt f32_zero q then c else None
  | None => None
  end.

Definition named (names : list string) (media_type : bytes) : bool := bool_decide (media_type ∈ map lit names).

(** ** The two protocols *)

Inductive PythonRepresentation := Html | Json.

(** One range against the candidates (html, json). *)
Definition offer_python (c : candidate * candidate) (range : bytes) : candidate * candidate :=
  let '(html, json) := c in
  let '(media_type, quality) := media_range range in
  if named ["application/vnd.pypi.simple.v1+json"; "application/vnd.pypi.simple.latest+json"] media_type
  then (html, offer 2 quality json)
  else if named ["application/vnd.pypi.simple.v1+html"; "application/vnd.pypi.simple.latest+html"; "text/html"] media_type
  then (offer 2 quality html, json)
  else if named ["application/*"] media_type then (offer 1 quality html, offer 1 quality json)
  else if named ["text/*"] media_type then (offer 1 quality html, json)
  else if named ["*/*"] media_type then (offer 0 quality html, offer 0 quality json)
  else (html, json).

(** [accept.filter(|value| !value.trim().is_empty())] *)
Definition stated (accept : option bytes) : option bytes :=
  match accept with
  | Some value => match trim value with [] => None | _ :: _ => accept end
  | None => None
  end.

Definition negotiate_python (accept : option bytes) : option PythonRepresentation :=
  match stated accept with
  | None => Some Html
  | Some accept =>
      let '(html, json) := fold_left offer_python (split_on "," accept) (None, None) in
      match acceptable html, acceptable json with
      | None, None => None
      | Some _, None => Some Html
      | None, Some _ => Some Json
      | Some html, Some json => if outranks json html then Some Json else Some Html
      end
  end.

(** One range against the candidates (abbreviated, full). *)
Definition offer_npm (c : candidate * candidate) (range : bytes) : candidate * candidate :=
  let '(abbreviated, full) := c in
  let '(media_type, quality) := media_range range in
  if named ["application/vnd.npm.install-v1+json"] media_type then (offer 2 quality abbreviated, full)
  else if named ["application/json"] media_type then (abbreviated, offer 2 quality full)
  else if named ["application/*"] media_type then (offer 1 quality abbreviated, offer 1 quality full)
  else if named ["*/*"] media_type then (offer 0 quality abbreviated, offer 0 quality full)
  else (abbreviated, full).

(** Whether the abbreviated document is served. *)
Definition negotiate_npm (accept : option bytes) : option bool :=
  match stated accept with
  | None => Some false
  | Some accept =>
      let '(abbreviated, full) := fold_left offer_npm (split_on "," accept) (None, None) in
      match acceptable abbreviated, acceptable full with
      | None, None => None
      | Some _, None => Some true
      | None, Some _ => Some false
      | Some abbreviated, Some full => Some (outranks abbreviated full)
      end
  end.

Example quality_third : parse_f32 (lit "0.3") = Some (S754_finite false 10066330 (-25)).
Proof. reflexivity. Qed.
Example pip_prefers_json :
  negotiate_python (Some (lit "application/vnd.pypi.simple.v1+json, application/vnd.pypi.simple.v1+html; q=0.1, text/html; q=0.01"))
  = Some Json.
Proof. vm_compute. reflexivity. Qed.
Example npm_install :
  negotiate_npm (Some (lit "application/vnd.npm.install-v1+json; q=1.0, application/json; q=0.8, */*")) = Some true.
Proof. vm_compute. reflexivity. Qed.
Example refused : negotiate_npm (Some (lit "application/*;q=0")) = None.
Proof. vm_compute. reflexivity. Qed.

(** ** What a header asks for *)

(** How specifically a media type names a representation, if it does. *)
Definition html_named (t : bytes) : option Z :=
  if named ["application/vnd.pypi.simple.v1+html"; "application/vnd.pypi.simple.latest+html"; "text/html"] t then Some 2
  else if named ["application/*"; "text/*"] t then Some 1 else if named ["*/*"] t then Some 0 else None.
Definition json_named (t : bytes) : option Z :=
  if named ["application/vnd.pypi.simple.v1+json"; "application/vnd.pypi.simple.latest+json"] t then Some 2
  else if named ["application/*"] t then Some 1 else if named ["*/*"] t then Some 0 else None.
Definition abbreviated_named (t : bytes) : option Z :=
  if named ["application/vnd.npm.install-v1+json"] t then Some 2
  else if named ["application/*"] t then Some 1 else if named ["*/*"] t then Some 0 else None.
Definition full_named (t : bytes) : option Z :=
  if named ["application/json"] t then Some 2
  else if named ["application/*"] t then Some 1 else if named ["*/*"] t then Some 0 else None.

(** The best of the ranges that name a representation: none is more specific, and none as specific
    has a higher quality. *)
Definition best_range (names : bytes -> option Z) (ranges : list (bytes * f32)) (c : candidate) : Prop :=
  match c with
  | None => forall t q, (t, q) ∈ ranges -> names t = None
  | Some (s, q) =>
      (exists t, (t, q) ∈ ranges /\ names t = Some s)
      /\ forall t' q' s', (t', q') ∈ ranges -> names t' = Some s' -> s' < s \/ (s' = s /\ f32_lt q q' = false)
  end.

(** *** The order of qualities *)

Definition f32_rank (x : f32) : option (Z * Z * Z) :=
  match x with
  | S754_zero _ => Some (0, 0, 0)
  | S754_infinity s => Some (if s then -2 else 2, 0, 0)
  | S754_nan => None
  | S754_finite s m e => Some (if s then -1 else 1, if s then - e else e, if s then Z.neg m else Z.pos m)
  end.

Definition rank_lt (a b : Z * Z * Z) : Prop :=
  a.1.1 < b.1.1 \/ (a.1.1 = b.1.1 /\ (a.1.2 < b.1.2 \/ (a.1.2 = b.1.2 /\ a.2 < b.2))).

Lemma f32_lt_rank x y :
  f32_lt x y = true <-> exists a b, f32_rank x = Some a /\ f32_rank y = Some b /\ rank_lt a b.
Proof.
  unfold f32_lt, SFltb, rank_lt. split.
  - intros H. destruct x as [[]|[]| |[] m e], y as [[]|[]| |[] m' e']; cbn in H; try discriminate;
      do 2 eexists; (split; [reflexivity|]); (split; [reflexivity|]); cbn; try lia.
    + destruct (Z.compare_spec e e'); try discriminate; [|lia]. subst.
      change (Pos.compare_cont Eq m m') with (Pos.compare m m') in H.
      destruct (Pos.compare_spec m m'); try discriminate. lia.
    + destruct (Z.compare_spec e e'); try discriminate; [|lia]. subst.
      change (Pos.compare_cont Eq m m') with (Pos.compare m m') in H.
      destruct (Pos.compare_spec m m'); try discriminate. lia.
  - intros (a & b & Ha & Hb & H). destruct x as [[]|[]| |[] m e], y as [[]|[]| |[] m' e']; cbn in Ha, Hb |- *;
      simplify_eq; cbn in H; try reflexivity; try lia.
    + change (Pos.compare_cont Eq m m') with (Pos.compare m m').
      destruct (Z.compare_spec e e'); [|lia|done]. destruct (Pos.compare_spec m m'); cbn; [lia|lia|done].
    + change (Pos.compare_cont Eq m m') with (Pos.compare m m').
      destruct (Z.compare_spec e e'); [|done|lia]. destruct (Pos.compare_spec m m'); cbn; [lia|done|lia].
Qed.

Lemma f32_lt_trans x y z : f32_lt x y = true -> f32_lt y z = true -> f32_lt x z = true.
Proof.
  rewrite !f32_lt_rank. intros (a & b & Ha & Hb & H1) (b' & c & Hb' & Hc & H2). simplify_eq.
  exists a, c. unfold rank_lt in *. split; [done|]. split; [done|]. lia.
Qed.

Lemma f32_lt_asym x y : f32_lt x y = true -> f32_lt y x = false.
Proof.
  intros H. apply not_true_is_false. intros H'. apply f32_lt_rank in H as (a & b & Ha & Hb & H).
  apply f32_lt_rank in H' as (b' & a' & Hb' & Ha' & H'). simplify_eq. unfold rank_lt in *. lia.
Qed.

Lemma f32_lt_irrefl x : f32_lt x x = false.
Proof. apply not_true_is_false. intros H. pose proof (f32_lt_asym _ _ H). congruence. Qed.

Lemma f32_eq_not_lt x y : f32_eq x y = true -> f32_lt x y = false.
Proof. unfold f32_eq, f32_lt, SFeqb, SFltb. by destruct (SFcompare x y) as [[]|]. Qed.

(** *** Candidates *)

Lemma best_range_skip names ranges t q c :
  names t = None -> best_range names ranges c -> best_range names (ranges ++ [(t, q)]) c.
Proof.
  intros Hn. destruct c as [[s q0]|]; cbn.
  - intros [(t0 & Ht & Hs) Hb]. split; [exists t0; split; [apply elem_of_app; by left|done]|].
    intros t' q' s' [Hin|Hin%list_elem_of_singleton]%elem_of_app Hs'; [by eapply Hb|]. by simplify_eq.
  - intros Hb t' q' [Hin|Hin%list_elem_of_singleton]%elem_of_app; [by eapply Hb|]. by simplify_eq.
Qed.

Lemma best_range_offer names ranges t q s c :
  names t = Some s -> best_range names ranges c -> best_range names (ranges ++ [(t, q)]) (offer s q c).
Proof.
  intros Hn Hc. destruct c as [[s0 q0]|]; cbn in *.
  - destruct Hc as [(t0 & Ht & Hs) Hb].
    destruct (_ || _) eqn:E; cbn.
    + split; [exists t; split; [apply elem_of_app; right; by apply list_elem_of_singleton|done]|].
      intros t' q' s' [Hin|Hin%list_elem_of_singleton]%elem_of_app Hs'.
      * destruct (Hb t' q' s' Hin Hs') as [Hlt|[-> Hq]].
        { left. apply orb_true_iff in E as [E|[E _]%andb_true_iff]; zify_bool; lia. }
        apply orb_true_iff in E as [E|[E Hq']%andb_true_iff]; zify_bool; [by left|]. right. split; [lia|].
        apply not_true_is_false. intros Hc. rewrite (f32_lt_trans q0 q q') in Hq; done.
      * injection Hin as -> ->. rewrite Hn in Hs'. injection Hs' as <-. right. split; [done|]. apply f32_lt_irrefl.
    + apply orb_false_iff in E as [E1 E2]. zify_bool.
      split; [exists t0; split; [apply elem_of_app; by left|done]|].
      intros t' q' s' [Hin|Hin%list_elem_of_singleton]%elem_of_app Hs'; [by eapply Hb|].
      injection Hin as -> ->. rewrite Hn in Hs'. injection Hs' as <-.
      destruct (Z.eq_dec s s0) as [->|]; [|left; lia]. right. split; [done|].
      rewrite Z.eqb_refl in E2. exact E2.
  - split; [exists t; split; [apply elem_of_app; right; by apply list_elem_of_singleton|done]|].
    intros t' q' s' [Hin|Hin%list_elem_of_singleton]%elem_of_app Hs'; [rewrite (Hc t' q' Hin) in Hs'; done|].
    injection Hin as -> ->. rewrite Hn in Hs'. injection Hs' as <-. right. split; [done|]. apply f32_lt_irrefl.
Qed.

Lemma candidates_fold (step : candidate * candidate -> bytes -> candidate * candidate) names1 names2 :
  (forall c range, let '(t, q) := media_range range in
     step c range = (match names1 t with Some s => offer s q c.1 | None => c.1 end,
                     match names2 t with Some s => offer s q c.2 | None => c.2 end)) ->
  forall ranges, let '(c1, c2) := fold_left step ranges (None, None) in
    best_range names1 (map media_range ranges) c1 /\ best_range names2 (map media_range ranges) c2.
Proof.
  intros Hstep ranges. induction ranges as [|range ranges IH] using rev_ind; [by split; cbn; intros ?? ?%elem_of_nil|].
  rewrite fold_left_app, map_app. cbn [fold_left map]. destruct (fold_left step ranges (None, None)) as [c1 c2].
  specialize (Hstep (c1, c2) range). destruct (media_range range) as [t q]. rewrite Hstep. cbn [fst snd].
  destruct IH as [H1 H2]. split; [destruct (names1 t) eqn:E|destruct (names2 t) eqn:E];
    eauto using best_range_offer, best_range_skip.
Qed.

Lemma named_in ns t : named ns t = true <-> t ∈ map lit ns.
Proof. unfold named. apply bool_decide_eq_true. Qed.

(** A statement about the names in [all] holds if it does for each of them and for a type that has
    none of them. *)
Lemma named_cases (all : list string) (P : bytes -> Prop) t :
  Forall P (map lit all) -> ((forall ns, ns ⊆ all -> named ns t = false) -> P t) -> P t.
Proof.
  intros Hall Hnone. destruct (decide (t ∈ map lit all)) as [Hin|Hout]; [by eapply Forall_forall in Hall|].
  apply Hnone. intros ns Hsub. apply not_true_is_false. intros Hn%named_in. apply Hout.
  apply list_elem_of_fmap in Hn as (x & -> & Hx). apply list_elem_of_fmap. eauto.
Qed.

Lemma offer_python_named c range : let '(t, q) := media_range range in
  offer_python c range = (match html_named t with Some s => offer s q c.1 | None => c.1 end,
                          match json_named t with Some s => offer s q c.2 | None => c.2 end).
Proof.
  destruct c as [html json]. unfold offer_python. destruct (media_range range) as [t q].
  pattern t. apply (named_cases ["application/vnd.pypi.simple.v1+json"; "application/vnd.pypi.simple.latest+json";
    "application/vnd.pypi.simple.v1+html"; "application/vnd.pypi.simple.latest+html"; "text/html"; "application/*";
    "text/*"; "*/*"]%string).
  - repeat constructor.
  - intros H. unfold html_named, json_named. rewrite !H by set_solver. done.
Qed.

Lemma offer_npm_named c range : let '(t, q) := media_range range in
  offer_npm c range = (match abbreviated_named t with Some s => offer s q c.1 | None => c.1 end,
                       match full_named t with Some s => offer s q c.2 | None => c.2 end).
Proof.
  destruct c as [abbreviated full]. unfold offer_npm. destruct (media_range range) as [t q].
  pattern t. apply (named_cases ["application/vnd.npm.install-v1+json"; "application/json"; "application/*"; "*/*"]%string).
  - repeat constructor.
  - intros H. unfold abbreviated_named, full_named. rewrite !H by set_solver. done.
Qed.

(** What a choice between two representations owes the client: the chosen one has a positive
    quality at its best range and the other no higher one; with no choice neither is acceptable. *)
Definition good_choice {A} (names : A -> bytes -> option Z) (ranges : list (bytes * f32)) (choice : option A) : Prop :=
  exists best : A -> candidate, (forall a, best_range (names a) ranges (best a))
    /\ match choice with
       | None => forall a s q, best a = Some (s, q) -> f32_lt f32_zero q = false
       | Some a => exists s q, best a = Some (s, q) /\ f32_lt f32_zero q = true
           /\ forall b s' q', best b = Some (s', q') -> f32_lt q q' = false
       end.

Lemma acceptable_some c s q : acceptable c = Some (s, q) <-> c = Some (s, q) /\ f32_lt f32_zero q = true.
Proof.
  destruct c as [[s' q']|]; cbn; [|by split; [|intros []]]. destruct (f32_lt f32_zero q') eqn:E; split.
  - intros [= <- <-]. done.
  - by intros [? _].
  - done.
  - intros [[= -> ->] H]. congruence.
Qed.

Lemma acceptable_none c s q : acceptable c = None -> c = Some (s, q) -> f32_lt f32_zero q = false.
Proof. intros H ->. cbn in H. by destruct (f32_lt _ _). Qed.

(** An unacceptable candidate is no better than an acceptable one. *)
Lemma unacceptable_not_better c s q q0 :
  acceptable c = None -> f32_lt f32_zero q0 = true -> c = Some (s, q) -> f32_lt q0 q = false.
Proof.
  intros H H0 Hc. pose proof (acceptable_none c s q H Hc) as Hq. apply not_true_is_false. intros Hlt.
  rewrite (f32_lt_trans _ _ _ H0 Hlt) in Hq. done.
Qed.

Lemma outranks_not_worse a b : outranks a b = true -> f32_lt a.2 b.2 = false.
Proof.
  unfold outranks. intros [H|[[H _]%andb_true_iff _]%andb_true_iff]%orb_true_iff; [by apply f32_lt_asym|by apply f32_eq_not_lt].
Qed.

Lemma outranked_not_better a b : outranks a b = false -> f32_lt b.2 a.2 = false.
Proof. unfold outranks. by intros [H _]%orb_false_iff. Qed.

(** The final comparison of both protocols, [first] being the one that takes the ties. *)
Definition decide_between (first second : candidate) : option bool :=
  match acceptable first, acceptable second with
  | None, None => None
  | Some _, None => Some true
  | None, Some _ => Some false
  | Some a, Some b => Some (outranks a b)
  end.

Lemma decide_between_good (names : bool -> bytes -> option Z) ranges c1 c2 :
  best_range (names true) ranges c1 -> best_range (names false) ranges c2 ->
  good_choice names ranges (decide_between c1 c2).
Proof.
  intros H1 H2. exists (fun b : bool => if b then c1 else c2). split; [by intros []|]. unfold decide_between.
  destruct (acceptable c1) as [[s1 q1]|] eqn:E1, (acceptable c2) as [[s2 q2]|] eqn:E2.
  - apply acceptable_some in E1 as [-> E1], E2 as [-> E2]. destruct (outranks _ _) eqn:E.
    + exists s1, q1. split; [done|]. split; [done|]. intros [] s' q' [= <- <-]; [apply f32_lt_irrefl|].
      exact (outranks_not_worse _ _ E).
    + exists s2, q2. split; [done|]. split; [done|]. intros [] s' q' [= <- <-]; [|apply f32_lt_irrefl].
      exact (outranked_not_better _ _ E).
  - apply acceptable_some in E1 as [-> E1]. exists s1, q1. split; [done|]. split; [done|].
    intros [] s' q'; [intros [= <- <-]; apply f32_lt_irrefl|]. by apply unacceptable_not_better.
  - apply acceptable_some in E2 as [-> E2]. exists s2, q2. split; [done|]. split; [done|].
    intros [] s' q'; [|intros [= <- <-]; apply f32_lt_irrefl]. by apply unacceptable_not_better.
  - intros [] s q; by apply acceptable_none.
Qed.

Definition python_names (r : PythonRepresentation) : bytes -> option Z := match r with Html => html_named | Json => json_named end.
Definition npm_names (abbreviated : bool) : bytes -> option Z := if abbreviated then abbreviated_named else full_named.

(** C24: Negotiation honours the Accept header: without one, or with a blank one, the protocol's
    default document is served; otherwise the representation served has a positive quality at the
    most specific range that names it, and the other representation's is no higher; a request is
    refused exactly when neither representation is acceptable. *)
Theorem negotiation_honours_accept (accept : bytes) :
  negotiate_python None = Some Html /\ negotiate_npm None = Some false
  /\ if bool_decide (trim accept = [])
     then negotiate_python (Some accept) = Some Html /\ negotiate_npm (Some accept) = Some false
     else let ranges := map media_range (split_on "," accept) in
          good_choice python_names ranges (negotiate_python (Some accept))
          /\ good_choice npm_names ranges (negotiate_npm (Some accept)).
Proof.
  split; [done|]. split; [done|]. unfold negotiate_python, negotiate_npm, stated.
  destruct (trim accept) as [|x y]; [done|]. rewrite bool_decide_eq_false_2 by done. split.
  - pose proof (candidates_fold _ _ _ offer_python_named (split_on "," accept)) as H.
    destruct (fold_left _ _ _) as [html json]. destruct H as [H1 H2].
    destruct (decide_between_good (fun b => if b : bool then json_named else html_named) _ json html H2 H1) as (best & Hb & Hc).
    exists (fun r => best (match r with Json => true | Html => false end)). split; [intros []; [apply (Hb false)|apply (Hb true)]|].
    unfold decide_between in Hc. destruct (acceptable html) as [h|], (acceptable json) as [j|].
    + destruct (outranks j h); destruct Hc as (s & q & ? & ? & Hc); exists s, q; eauto.
    + destruct Hc as (s & q & ? & ? & Hc). exists s, q; eauto.
    + destruct Hc as (s & q & ? & ? & Hc). exists s, q; eauto.
    + eauto.
  - pose proof (candidates_fold _ _ _ offer_npm_named (split_on "," accept)) as H.
    destruct (fold_left _ _ _) as [abbreviated full]. destruct H as [H1 H2].
    exact (decide_between_good npm_names _ abbreviated full H1 H2).
Qed.
