(* ===== verification/Web.v ===== *)
(** * The crates of the package proxy

    The [url], [reqwest], [serde_json], [lol_html] and [html_escape] crates, as [Externals.v] does
    for the rest: the operations the code calls, and the documented behaviour it relies on. *)

From S2P Require Import Prelude Externals Text.

(** ** [url] *)

Class UrlLib := {
  Url : Type;
  Url_eq_dec :: EqDecision Url;
  Origin : Type;
  Origin_eq_dec :: EqDecision Origin;
  Origin_countable :: Countable Origin;
  (** [Url::parse] and [Url::join] *)
  url_parse : bytes -> result bytes Url;
  url_join : Url -> bytes -> result bytes Url;
  (** [Url::as_str] *)
  url_as_str : Url -> bytes;
  (** [Url::origin]; [None] is an opaque origin, which equals no other *)
  url_origin : Url -> option Origin;
  url_scheme : Url -> bytes;
  url_has_host : Url -> bool;
  url_username : Url -> bytes;
  url_password : Url -> option bytes;
  url_path : Url -> bytes;
  url_set_path : bytes -> Url -> Url;
  url_fragment : Url -> option bytes;
  url_set_fragment : option bytes -> Url -> Url;
  (** [Url::make_relative] *)
  url_make_relative : Url -> Url -> option bytes
}.

Class UrlLaws `{UrlLib} : Prop := {
  (** a URL is what its serialization parses to, and the serialization is ASCII *)
  url_parse_as_str u : url_parse (url_as_str u) = Ok u;
  url_as_str_utf8 u : is_utf8 (url_as_str u) = true;
  (** the origin of an http URL is its scheme, host and port, whatever its path and fragment *)
  url_set_path_origin p u : url_scheme u = lit "http" \/ url_scheme u = lit "https" -> url_origin (url_set_path p u) = url_origin u;
  url_set_fragment_origin f u : url_scheme u = lit "http" \/ url_scheme u = lit "https" -> url_origin (url_set_fragment f u) = url_origin u;
  (** nor do scheme and credentials depend on the fragment *)
  url_set_fragment_scheme f u : url_scheme (url_set_fragment f u) = url_scheme u;
  url_set_fragment_username f u : url_username (url_set_fragment f u) = url_username u;
  url_set_fragment_password f u : url_password (url_set_fragment f u) = url_password u
}.

(** ** [base64]: the URL-safe engine without padding *)

Definition is_base64url (c : ascii) : bool :=
  let v := byte_value c in
  ((65 <=? v) && (v <=? 90)) || ((97 <=? v) && (v <=? 122)) || ((48 <=? v) && (v <=? 57)) || (v =? 45) || (v =? 95).

Class Base64Laws `{Base64Lib} : Prop := {
  base64_url_decode_encode b : base64_url_decode (base64_url_encode b) = Some b;
  base64_url_alphabet b : Forall (fun c => is_base64url c = true) (base64_url_encode b)
}.

(** ** [serde_json] *)

Inductive Value :=
| Null
| Bool (b : bool)
| Number (text : bytes)
| JString (s : bytes)
| Array (values : list Value)
| Object (fields : list (bytes * Value)).

Class JsonLib := {
  (** [from_slice] and [to_vec] *)
  json_from_slice : bytes -> option Value;
  json_to_vec : Value -> option bytes
}.

(** ** [lol_html] and [html_escape]

    [rewrite_str] with one handler on [a[href]]: the handler sees the attributes of an element and
    answers with those to set, in order. *)

Class HtmlLib := {
  html_rewrite : ((bytes -> option bytes) -> list (bytes * bytes)) -> bytes -> result bytes bytes;
  decode_html_entities : bytes -> bytes
}.

(** ** [reqwest] *)

Record UpstreamCall `{UrlLib} := { call_url : Url; call_headers : list (bytes * bytes) }.

(** A response: the stream yields its chunks, or ends in an error. *)
Record UpstreamResponse := {
  up_status : Z;
  up_headers : headers;
  up_stream : list (result string bytes)
}.

(** [reqwest::Error], by the two questions asked of it. *)
Record HttpError := { error_is_connect : bool; error_is_timeout : bool }.

(** What the network answers to a call, given everything called before. *)
Abbreviation Network := (list UpstreamCall -> UpstreamCall -> result HttpError UpstreamResponse).

(** [Response::bytes] *)
Fixpoint collect_stream (stream : list (result string bytes)) : option bytes :=
  match stream with
  | [] => Some []
  | Ok chunk :: stream => rest ← collect_stream stream; Some (chunk ++ rest)
  | Err _ :: _ => None
  end.

Lemma collect_stream_ok chunks : collect_stream (Ok <$> chunks) = Some (concat chunks).
Proof. induction chunks as [|c chunks IH]; cbn; [done|]. by rewrite IH. Qed.
