(* ===== verification/Config.v ===== *)
(** * Configuration ([config.rs])

    The settings of a shard, their defaults and what [validate] demands of them. *)

From S2P Require Import Prelude Externals Text Filesystem Web.

Record Config := {
  data_dir : path;
  max_upload_bytes : Z;
  default_expiry_seconds : Z;
  go_upstream : bytes;
  python_upstream : bytes;
  npm_upstream : bytes;
  cargo_index_upstream : bytes;
  cargo_crate_upstream : bytes;
  proxy_revalidation_seconds : Z;
  proxy_concurrency : nat;
  upstream_timeout_seconds : Z;
  proxy_allowed_origins : list bytes;
  foreground_concurrency : nat;
  reservation_extent_bytes : Z;
  low_watermark_bytes : Z;
  high_watermark_bytes : Z;
  emergency_headroom_bytes : Z;
  bloom_bits : Z;
  reclaim_candidate_limit : nat;
  reclaim_byte_limit : Z;
  orphan_scan_limit : nat
}.

(** [Config::new] *)
Definition Config_new (dir : path) : Config := {|
  data_dir := dir;
  max_upload_bytes := 10 * 1024 * 1024 * 1024;
  default_expiry_seconds := 7 * 24 * 60 * 60;
  go_upstream := lit "https://proxy.golang.org/";
  python_upstream := lit "https://pypi.org/simple/";
  npm_upstream := lit "https://registry.npmjs.org/";
  cargo_index_upstream := lit "https://index.crates.io/";
  cargo_crate_upstream := lit "https://static.crates.io/crates/";
  proxy_revalidation_seconds := 300;
  proxy_concurrency := 64;
  upstream_timeout_seconds := 30;
  proxy_allowed_origins := [];
  foreground_concurrency := 256;
  reservation_extent_bytes := 64 * 1024 * 1024;
  low_watermark_bytes := 2 * 1024 * 1024 * 1024;
  high_watermark_bytes := 8 * 1024 * 1024 * 1024;
  emergency_headroom_bytes := 1024 * 1024 * 1024;
  bloom_bits := Z.shiftl 1 20;
  reclaim_candidate_limit := 256;
  reclaim_byte_limit := 8 * 1024 * 1024 * 1024;
  orphan_scan_limit := 4096
|}.

Section Validate.
Context {URL : UrlLib}.

(** [anyhow::ensure!]; the checks form a sequence that stops at the first failure. *)
Definition ensure (condition : bool) (message : string) (rest : result string unit) : result string unit :=
  if condition then rest else Err message.

Fixpoint check_upstreams (upstreams : list (string * bytes)) (rest : result string unit) : result string unit :=
  match upstreams with
  | [] => rest
  | (name, value) :: upstreams => ensure (is_ok (url_parse value)) name (check_upstreams upstreams rest)
  end.

Definition is_http (u : Url) : bool := bool_decide (url_scheme u = lit "http") || bool_decide (url_scheme u = lit "https").

Fixpoint check_allowed (entries : list bytes) : result string unit :=
  match entries with
  | [] => Ok tt
  | entry :: entries =>
      match url_parse entry with
      | Err _ => Err "allowed origin is invalid"%string
      | Ok origin =>
          ensure (is_http origin && url_has_host origin) "allowed origin must be an http(s) URL with a host" (check_allowed entries)
      end
  end.

Definition validate (c : Config) : result string unit :=
  ensure (0 <? max_upload_bytes c) "max upload bytes must be positive" (
  ensure (0 <? default_expiry_seconds c) "default expiry seconds must be positive" (
  ensure (Nat.ltb 0 (proxy_concurrency c)) "proxy concurrency must be positive" (
  ensure (0 <? upstream_timeout_seconds c) "upstream timeout must be positive" (
  ensure (Nat.ltb 0 (foreground_concurrency c)) "foreground concurrency must be positive" (
  ensure (0 <? reservation_extent_bytes c) "reservation extent must be positive" (
  ensure (low_watermark_bytes c <=? high_watermark_bytes c) "high watermark must be at least the low watermark" (
  ensure (0 <? bloom_bits c) "bloom filter bits must be positive" (
  ensure (Nat.ltb 0 (reclaim_candidate_limit c)) "reclaim candidate limit must be positive" (
  check_upstreams [("go upstream"%string, go_upstream c); ("python upstream"%string, python_upstream c);
                   ("npm upstream"%string, npm_upstream c); ("cargo index upstream"%string, cargo_index_upstream c);
                   ("cargo crate upstream"%string, cargo_crate_upstream c)]
    (check_allowed (proxy_allowed_origins c))))))))))).
End Validate.
