(* ===== verification/Proxy.v ===== *)
(** * The package proxy ([proxy/mod.rs])

    Upstream URLs and their origin policy, cached and revalidated fetches, and the rewriting of
    package metadata.  The network is a parameter that answers each call given all earlier ones;
    the calls made are logged. *)

From S2P Require Import Prelude Externals Domain Metadata MetadataView MetadataStore Space RecentUse Filesystem ArtifactFiles World Config Channels Cache Text Http Web Negotiation.

Definition REDIRECT_HOP_LIMIT : nat := 5.
Definition PYTHON_DOWNLOAD_ORIGINS : list bytes := [lit "https://files.pythonhosted.org"].

Inductive Protocol := Go | Python | Npm | CargoIndex | CargoCrate.

#[export] Instance Protocol_eq_dec : EqDecision Protocol.
Proof. solve_decision. Defined.

(** ** Transforms *)

Inductive Transform :=
| NoTransform
| PythonHtml (route_prefix_ : bytes) (is_project_page : bool)
| PythonJson (route_prefix_ : bytes) (is_project_page : bool)
| NpmMetadata (route_prefix_ : bytes) (abbreviated : bool).

Fixpoint trim_slashes (s : bytes) : bytes :=
  match s with [] => [] | c :: s' => if bool_decide (c = "/"%char) then trim_slashes s' else s end.

Definition python_simple (prefix path_ : bytes) (accept : option bytes) : option Transform :=
  let is_project_page := match rev (trim_slashes (rev (trim_slashes path_))) with [] => false | _ :: _ => true end in
  match negotiate_python accept with
  | None => None
  | Some Html => Some (PythonHtml prefix is_project_page)
  | Some Json => Some (PythonJson prefix is_project_page)
  end.

Definition npm_metadata (prefix : bytes) (accept : option bytes) : option Transform :=
  NpmMetadata prefix <$> negotiate_npm accept.

Definition upstream_accept (t : Transform) : option bytes :=
  match t with
  | PythonHtml _ _ => Some (lit "application/vnd.pypi.simple.v1+html")
  | PythonJson _ _ => Some (lit "application/vnd.pypi.simple.v1+json")
  | NpmMetadata _ true => Some (lit "application/vnd.npm.install-v1+json")
  | NpmMetadata _ false => Some (lit "application/json")
  | NoTransform => None
  end.

Definition cache_variant (t : Transform) : bytes :=
  match t with
  | PythonHtml _ _ => lit "html"
  | PythonJson _ _ => lit "json"
  | NpmMetadata _ true => lit "install-v1"
  | NpmMetadata _ false => lit "full"
  | NoTransform => []
  end.

(** ** Statuses *)

Definition is_redirect (status_ : Z) : bool :=
  (status_ =? 301) || (status_ =? 302) || (status_ =? 303) || (status_ =? 307) || (status_ =? 308).
Definition is_server_error (status_ : Z) : bool := (500 <=? status_) && (status_ <=? 599).
Definition status_is_success (status_ : Z) : bool := (200 <=? status_) && (status_ <=? 299).

Definition header_string (value : option bytes) : option bytes := value ← value; to_str value.

Section Proxy.
Context {UL : UlidLib} {HX : HexLib} {SH : Sha256Lib} {BS : Base64Lib} {ZS : ZstdLib} {DH : DefaultHasherLib}.
Context {URL : UrlLib} {JS : JsonLib} {HT : HtmlLib}.
Context {S : Type} {MS : MetadataStore S}.

(** ** The service *)

Record UpstreamBases := { base_go : Url; base_python : Url; base_npm : Url; base_cargo_index : Url; base_cargo_crate : Url }.

Record AllowedOrigins := {
  allowed_go : gset Origin; allowed_python : gset Origin; allowed_npm : gset Origin;
  allowed_cargo_index : gset Origin; allowed_cargo_crate : gset Origin
}.

Definition for_protocol (a : AllowedOrigins) (p : Protocol) : gset Origin :=
  match p with
  | Go => allowed_go a
  | Python => allowed_python a
  | Npm => allowed_npm a
  | CargoIndex => allowed_cargo_index a
  | CargoCrate => allowed_cargo_crate a
  end.

(** An opaque origin in the set would be equal to none. *)
Definition insert_origin (o : option Origin) (s : gset Origin) : gset Origin :=
  match o with Some o => {[o]} ∪ s | None => s end.

Fixpoint parse_all (entries : list bytes) : result bytes (list Url) :=
  match entries with
  | [] => Ok []
  | entry :: entries =>
      match url_parse entry, parse_all entries with
      | Ok u, Ok us => Ok (u :: us)
      | Err e, _ => Err e
      | Ok _, Err e => Err e
      end
  end.

Definition origin_set (base : Url) (shared : list (option Origin)) (defaults : list bytes) : result bytes (gset Origin) :=
  match parse_all defaults with
  | Err e => Err e
  | Ok parsed => Ok (foldr insert_origin ∅ (url_origin base :: shared ++ map url_origin parsed))
  end.

Record ProxyService := {
  proxy_cache : CacheConfig;
  bases : UpstreamBases;
  allowed : AllowedOrigins;
  ttl : Z
}.

(** [ProxyService::new], the HTTP client apart. *)
Definition ProxyService_new (cache_ : CacheConfig) (c : Config) : result bytes ProxyService :=
  match url_parse (go_upstream c), url_parse (python_upstream c), url_parse (npm_upstream c),
        url_parse (cargo_index_upstream c), url_parse (cargo_crate_upstream c), parse_all (proxy_allowed_origins c) with
  | Ok go, Ok python, Ok npm, Ok index, Ok crate, Ok entries =>
      let shared := map url_origin entries in
      match origin_set go shared [], origin_set python shared PYTHON_DOWNLOAD_ORIGINS, origin_set npm shared [],
            origin_set index shared [], origin_set crate shared [] with
      | Ok o1, Ok o2, Ok o3, Ok o4, Ok o5 =>
          Ok {| proxy_cache := cache_;
                bases := {| base_go := go; base_python := python; base_npm := npm; base_cargo_index := index; base_cargo_crate := crate |};
                allowed := {| allowed_go := o1; allowed_python := o2; allowed_npm := o3; allowed_cargo_index := o4; allowed_cargo_crate := o5 |};
                ttl := proxy_revalidation_seconds c |}
      | _, _, _, _, _ => Err (lit "invalid default origin")
      end
  | _, _, _, _, _, _ => Err (lit "invalid upstream")
  end.

Inductive ProxyError :=
| Busy
| InvalidEncodedUrl
| DisallowedOrigin
| ProxyUrl (e : bytes)
| ProxyHttp (e : HttpError)
| Unavailable (message : string)
| Malformed (message : string)
| ProxyCache (e : CacheError).

Inductive ProxyOutcome :=
| OutArtifact (a : ArtifactId)
| CachedMetadata (body_ : bytes) (content_type_ : option bytes)
| OutUpstream (status_ : Z) (body_ : bytes) (content_type_ : option bytes)
| UpstreamStream (status_ : Z) (stream : body_stream) (content_type_ : option bytes).

(** The state: the shard, the calls made (latest first), the free upstream permits and, per
    coalescing key, the number of requests holding its lock's [Arc]. *)
Record UpstreamState := { up_log : list UpstreamCall; up_permits : nat; up_flights : gmap bytes nat }.
Record ProxyState := { p_world : World S; p_up : UpstreamState }.

Definition set_p_world (w : World S) (p : ProxyState) : ProxyState := {| p_world := w; p_up := p_up p |}.
Definition on_up (f : UpstreamState -> UpstreamState) (p : ProxyState) : ProxyState := {| p_world := p_world p; p_up := f (p_up p) |}.

Definition p_world_op {A} (f : CacheError -> ProxyError) (m : M (World S) CacheError A) : M ProxyState ProxyError A :=
  raising f (zoom p_world set_p_world m).
Definition p_cache {A} : M (World S) CacheError A -> M ProxyState ProxyError A := p_world_op ProxyCache.

(** ** URLs *)

Definition check_origin (svc : ProxyService) (p : Protocol) (u : Url) : result ProxyError unit :=
  match url_origin u with
  | Some o => if bool_decide (o ∈ for_protocol (allowed svc) p) then Ok tt else Err DisallowedOrigin
  | None => Err DisallowedOrigin
  end.

Definition base_of (svc : ProxyService) (p : Protocol) : Url :=
  match p with
  | Go => base_go (bases svc)
  | Python => base_python (bases svc)
  | Npm => base_npm (bases svc)
  | CargoIndex => base_cargo_index (bases svc)
  | CargoCrate => base_cargo_crate (bases svc)
  end.

Definition url_for (svc : ProxyService) (p : Protocol) (path_ : bytes) : result ProxyError Url :=
  match url_join (base_of svc p) path_ with
  | Err e => Err (ProxyUrl e)
  | Ok u => match check_origin svc p u with Ok _ => Ok u | Err e => Err e end
  end.

Definition protocol_name (p : Protocol) : bytes :=
  match p with
  | Go => lit "go"
  | Python => lit "python"
  | Npm => lit "npm"
  | CargoIndex => lit "cargo-index"
  | CargoCrate => lit "cargo-crate"
  end.

(** What [proxy_reference] digests. *)
Definition reference_preimage (u : Url) (variant : bytes) : bytes :=
  be_bytes 8 (Z.of_nat (length (url_as_str u))) ++ url_as_str u ++ variant.

Definition proxy_reference (p : Protocol) (u : Url) (variant : bytes) : bytes :=
  lit "proxy:" ++ protocol_name p ++ lit ":" ++ hex_encode (b32 (sha256 (reference_preimage u variant))).

(** ** Rewriting *)

Definition routed_download_url (prefix route : bytes) (upstream : Url) : bytes :=
  prefix ++ route ++ lit "/" ++ base64_url_encode (url_as_str (url_set_fragment None upstream))
  ++ match url_fragment upstream with Some fragment => lit "#" ++ fragment | None => [] end.

Definition PYTHON_FILES : bytes := lit "/proxy/python/files".
Definition NPM_TARBALL : bytes := lit "/proxy/npm/-/tarball/".

(** A link the proxy would fetch, resolved against the document's URL. *)
Definition allowed_link (upstream : Url) (origins : gset Origin) (link : bytes) : option Url :=
  match url_join upstream link with
  | Err _ => None
  | Ok u =>
      match url_origin u with
      | Some o => if bool_decide (o ∈ origins) then Some u else None
      | None => None
      end
  end.

Fixpoint rewrite_tarballs (upstream : Url) (prefix : bytes) (origins : gset Origin) (v : Value) : Value :=
  match v with
  | Object fields =>
      Object (map (fun f =>
        (f.1, if bool_decide (f.1 = lit "tarball") then
                match f.2 with
                | JString candidate =>
                    match allowed_link upstream origins candidate with
                    | Some u => JString (prefix ++ NPM_TARBALL ++ base64_url_encode (url_as_str u))
                    | None => f.2
                    end
                | _ => f.2
                end
              else rewrite_tarballs upstream prefix origins f.2)) fields)
  | Array values => Array (map (rewrite_tarballs upstream prefix origins) values)
  | _ => v
  end.

Definition rewrite_npm (upstream : Url) (prefix : bytes) (content : bytes) (origins : gset Origin) : result ProxyError bytes :=
  match json_from_slice content with
  | None => Err (Malformed "invalid npm metadata")
  | Some metadata =>
      match json_to_vec (rewrite_tarballs upstream prefix origins metadata) with
      | Some b => Ok b
      | None => Err (Malformed "npm metadata")
      end
  end.

(** [Value::get] and the assignment to an existing field. *)
Definition get_field (name : bytes) (v : Value) : option Value :=
  match v with Object fields => snd <$> List.find (fun f => bool_decide (f.1 = name)) fields | _ => None end.
Definition set_field (name : bytes) (x : Value) (v : Value) : Value :=
  match v with
  | Object fields => Object (map (fun f => if bool_decide (f.1 = name) then (f.1, x) else f) fields)
  | _ => v
  end.

Definition rewrite_field (upstream : Url) (prefix : bytes) (origins : gset Origin) (file : Value) (field : bytes) : Value :=
  match get_field field file with
  | Some (JString candidate) =>
      match allowed_link upstream origins candidate with
      | Some u => set_field field (JString (routed_download_url prefix PYTHON_FILES u)) file
      | None => file
      end
  | _ => file
  end.

Definition rewrite_python_json (svc : ProxyService) (upstream : Url) (prefix : bytes) (is_project_page : bool) (content : bytes)
    : result ProxyError bytes :=
  match json_from_slice content with
  | None => Err (Malformed "invalid Python metadata")
  | Some metadata =>
      let metadata :=
        match (if is_project_page then get_field (lit "files") metadata else None) with
        | Some (Array files) =>
            set_field (lit "files") (Array (map (fun file =>
              fold_left (rewrite_field upstream prefix (allowed_python (allowed svc))) [lit "url"; lit "provenance"] file)
              files)) metadata
        | _ => metadata
        end in
      match json_to_vec metadata with
      | Some b => Ok b
      | None => Err (Malformed "Python metadata")
      end
  end.

(** [trim_start_matches], of the two-character pattern for the current directory *)
Fixpoint trim_start_current (s : bytes) : bytes :=
  match s with
  | a :: ((b :: s'') as s') =>
      if bool_decide (a = "."%char) && bool_decide (b = "/"%char) then trim_start_current s'' else s
  | _ => s
  end.

Definition routed_href (svc : ProxyService) (upstream : Url) (prefix : bytes) (is_project_page : bool) (href : bytes) : option bytes :=
  if is_project_page then
    routed_download_url prefix PYTHON_FILES <$> allowed_link upstream (allowed_python (allowed svc)) (decode_html_entities href)
  else
    match url_join upstream (decode_html_entities href) with
    | Err _ => None
    | Ok u =>
        relative ← url_make_relative upstream u;
        if starts_with (lit "../") relative then None
        else Some (prefix ++ lit "/proxy/python/simple/" ++ trim_start_current relative)
    end.

(** The handler of an [a] element: the attributes it sets. *)
Definition rewrite_anchor (svc : ProxyService) (upstream : Url) (prefix : bytes) (is_project_page : bool)
    (attribute : bytes -> option bytes) : list (bytes * bytes) :=
  (match href ← attribute (lit "href"); routed_href svc upstream prefix is_project_page href with
   | Some routed => [(lit "href", routed)]
   | None => []
   end) ++
  (if is_project_page then
     match provenance ← attribute (lit "data-provenance");
           allowed_link upstream (allowed_python (allowed svc)) (decode_html_entities provenance) with
     | Some u => [(lit "data-provenance", routed_download_url prefix PYTHON_FILES u)]
     | None => []
     end
   else []).

Definition rewrite_python (svc : ProxyService) (upstream : Url) (prefix : bytes) (is_project_page : bool) (content : bytes)
    : result ProxyError bytes :=
  if negb (is_utf8 content) then Err (Malformed "Python simple response is not UTF-8")
  else match html_rewrite (rewrite_anchor svc upstream prefix is_project_page) content with
       | Ok html => Ok html
       | Err _ => Err (Malformed "invalid Python HTML")
       end.

Definition rewrite_metadata (svc : ProxyService) (upstream : Url) (t : Transform) (content : bytes) : result ProxyError bytes :=
  match t with
  | NoTransform => Ok content
  | PythonHtml prefix page => rewrite_python svc upstream prefix page content
  | PythonJson prefix page => rewrite_python_json svc upstream prefix page content
  | NpmMetadata prefix _ => rewrite_npm upstream prefix content (allowed_npm (allowed svc))
  end.

(** ** Upstream calls *)

Definition conditional_headers (current : option ReferenceRecord) (accept : option bytes) : list (bytes * bytes) :=
  match accept with Some a => [(lit "accept", a)] | None => [] end ++
  match current with
  | Some r =>
      match etag r with Some e => [(lit "if-none-match", e)] | None => [] end ++
      match last_modified r with Some l => [(lit "if-modified-since", l)] | None => [] end
  | None => []
  end.

Definition send (net : Network) (call : UpstreamCall) : M ProxyState ProxyError (result HttpError UpstreamResponse) := fun p =>
  (Ok (net (up_log (p_up p)) call),
   on_up (fun u => {| up_log := call :: up_log u; up_permits := up_permits u; up_flights := up_flights u |}) p).

(** The attempts at one hop, [n] of them left. *)
Fixpoint attempts (net : Network) (n : nat) (call : UpstreamCall) : M ProxyState ProxyError (option UpstreamResponse) :=
  match n with
  | O => mret None
  | Datatypes.S n =>
      answer ← send net call;
      match answer with
      | Ok candidate =>
          if is_server_error (up_status candidate) && Nat.ltb 0 n then attempts net n call else mret (Some candidate)
      | Err e =>
          if Nat.ltb 0 n && (error_is_connect e || error_is_timeout e) then attempts net n call else throw (ProxyHttp e)
      end
  end.

(** The hops, [n] of them left. *)
Fixpoint hops (svc : ProxyService) (net : Network) (p : Protocol) (hs : list (bytes * bytes)) (n : nat) (target : Url)
    : M ProxyState ProxyError UpstreamResponse :=
  match n with
  | O => throw (Unavailable "upstream redirect limit exceeded")
  | Datatypes.S n =>
      answered ← attempts net 3 {| call_url := target; call_headers := hs |};
      response ← ok_or answered (Unavailable "upstream retry budget exhausted");
      if negb (is_redirect (up_status response)) then mret response
      else
        location ← ok_or (header_string (header (lit "location") (up_headers response)))
                     (Unavailable "redirect without a Location header");
        next ← lift (map_err ProxyUrl (url_join target location));
        _ ← lift (check_origin svc p next);
        hops svc net p hs n next
  end.

Definition send_validated (svc : ProxyService) (net : Network) (p : Protocol) (u : Url) (current : option ReferenceRecord)
    (accept : option bytes) : M ProxyState ProxyError UpstreamResponse :=
  hops svc net p (conditional_headers current accept) (Datatypes.S REDIRECT_HOP_LIMIT) u.

(** ** Cached outcomes *)

Definition cached_outcome (svc : ProxyService) (channel : ChannelId) (artifact : ArtifactId) (upstream : Url) (t : Transform)
    : M ProxyState ProxyError (option ProxyOutcome) :=
  match t with
  | NoTransform => mret (Some (OutArtifact artifact))
  | _ =>
      found ← p_cache (locate (proxy_cache svc) channel artifact);
      match found with
      | None => mret None
      | Some located =>
          if negb (bool_decide (encoding (located_metadata located) = Identity))
          then throw (Malformed "cached package metadata has an unsupported encoding")
          else
            _ ← p_world_op (fun _ => Unavailable "cached body could not be read") file_io;
            body_ ← lift (rewrite_metadata svc upstream t (located_file located));
            mret (Some (CachedMetadata body_ (content_type (located_metadata located))))
      end
  end.

(** The clock is read only when there is a record. *)
Definition fresh_outcome (svc : ProxyService) (channel : ChannelId) (record : option ReferenceRecord) (upstream : Url) (t : Transform)
    : M ProxyState ProxyError (option ProxyOutcome) :=
  match record with
  | None => mret None
  | Some r =>
      time ← p_cache now;
      if saturating_sub time (updated_at r) <? ttl svc then cached_outcome svc channel (ref_artifact r) upstream t
      else mret None
  end.

Definition revalidated (svc : ProxyService) (channel : ChannelId) (reference : bytes) (current : option ReferenceRecord)
    (upstream : Url) (t : Transform) : M ProxyState ProxyError ProxyOutcome :=
  record ← ok_or current (Unavailable "upstream returned 304 without a cached value");
  _ ← p_cache (bind_reference_with_validators channel reference (ref_artifact record) (etag record) (last_modified record) BestEffort);
  outcome ← cached_outcome svc channel (ref_artifact record) upstream t;
  ok_or outcome (Unavailable "upstream returned 304 for a missing cached body").

(** ** Fetching *)

(** [name] is the identifier of the temporary file. *)
Definition serve_metadata (svc : ProxyService) (name : bytes) (channel : ChannelId) (reference : bytes)
    (content_type_ etag_ last_modified_ : option bytes) (raw rewritten : bytes) : M ProxyState ProxyError ProxyOutcome :=
  published ← try (p_cache (cache_publish (proxy_cache svc) name {|
    req_channel := channel; req_target := ContentAddressed None; req_content_type := content_type_; req_stream := [Ok raw];
    req_content_length := Some (Z.of_nat (length raw)); req_durability := BestEffort; req_encoding := Identity |}));
  match (published : result ProxyError Publication) with
  | Ok publication =>
      _ ← p_cache (bind_reference_with_validators channel reference (pub_artifact publication) etag_ last_modified_ BestEffort);
      mret (CachedMetadata rewritten content_type_)
  | Err (ProxyCache (CacheLocal OutOfSpace)) => mret (OutUpstream 200 rewritten content_type_)
  | Err e => throw e
  end.

(** The raw-file path: the body is streamed into the cache, or past it. *)
Definition serve_raw (svc : ProxyService) (name : bytes) (channel : ChannelId) (reference : bytes)
    (content_type_ etag_ last_modified_ : option bytes) (response : UpstreamResponse) : M ProxyState ProxyError ProxyOutcome :=
  admission ← p_cache (publish_or_reject (proxy_cache svc) name {|
    req_channel := channel; req_target := ContentAddressed None; req_content_type := content_type_;
    req_stream := up_stream response; req_content_length := content_length (up_headers response);
    req_durability := BestEffort; req_encoding := Identity |});
  match admission with
  | AdmissionPublished publication =>
      _ ← p_cache (bind_reference_with_validators channel reference (pub_artifact publication) etag_ last_modified_ BestEffort);
      mret (OutArtifact (pub_artifact publication))
  | AdmissionRejected stream => mret (UpstreamStream (up_status response) stream content_type_)
  end.

(** What is done with an answer other than 304. *)
Definition handle_response (svc : ProxyService) (name : bytes) (channel : ChannelId) (reference : bytes) (u : Url) (t : Transform)
    (response : UpstreamResponse) : M ProxyState ProxyError ProxyOutcome :=
  let content_type_ := header_string (header (lit "content-type") (up_headers response)) in
  let etag_ := header_string (header (lit "etag") (up_headers response)) in
  let last_modified_ := header_string (header (lit "last-modified") (up_headers response)) in
  let read := ok_or (collect_stream (up_stream response)) (ProxyHttp {| error_is_connect := false; error_is_timeout := false |}) in
  if negb (status_is_success (up_status response)) then
    body_ ← read;
    mret (OutUpstream (up_status response) body_ content_type_)
  else
    match t with
    | NoTransform => serve_raw svc name channel reference content_type_ etag_ last_modified_ response
    | _ =>
        raw ← read;
        rewritten ← lift (rewrite_metadata svc u t raw);
        serve_metadata svc name channel reference content_type_ etag_ last_modified_ raw rewritten
    end.

(** The coalescing entry: taken by [entry], dropped with the flight when only the map and this
    request own the lock. *)
Definition enter_flight (key : bytes) (u : UpstreamState) : UpstreamState :=
  {| up_log := up_log u; up_permits := up_permits u;
     up_flights := <[key := Datatypes.S (default 0%nat (up_flights u !! key))]> (up_flights u) |}.
Definition drop_flight (key : bytes) (u : UpstreamState) : UpstreamState :=
  {| up_log := up_log u; up_permits := up_permits u;
     up_flights := match up_flights u !! key with
                   | Some (Datatypes.S (Datatypes.S n)) => <[key := Datatypes.S n]> (up_flights u)
                   | _ => delete key (up_flights u)
                   end |}.

Definition with_flight {A} (key : bytes) (m : M ProxyState ProxyError A) : M ProxyState ProxyError A := fun p =>
  let '(r, p) := m (on_up (enter_flight key) p) in (r, on_up (drop_flight key) p).

Definition set_permits (n : nat) (u : UpstreamState) : UpstreamState :=
  {| up_log := up_log u; up_permits := n; up_flights := up_flights u |}.

Definition with_upstream_permit {A} (m : M ProxyState ProxyError A) : M ProxyState ProxyError A := fun p =>
  match up_permits (p_up p) with
  | O => (Err Busy, p)
  | Datatypes.S n =>
      let '(r, p) := m (on_up (set_permits n) p) in
      (r, on_up (fun u => set_permits (Datatypes.S (up_permits u)) u) p)
  end.

Definition fetch_url (svc : ProxyService) (net : Network) (name : bytes) (channel : ChannelId) (p : Protocol) (u : Url) (t : Transform)
    : M ProxyState ProxyError ProxyOutcome :=
  let reference := proxy_reference p u (cache_variant t) in
  cached ← p_cache (resolve_reference channel reference);
  outcome ← fresh_outcome svc channel cached u t;
  match outcome with
  | Some outcome => mret outcome
  | None =>
      with_flight (ChannelId_to_string channel ++ lit ":" ++ reference) (
        current ← p_cache (resolve_reference channel reference);
        outcome ← fresh_outcome svc channel current u t;
        match outcome with
        | Some outcome => mret outcome
        | None =>
            with_upstream_permit (
              response ← send_validated svc net p u current (upstream_accept t);
              if up_status response =? 304 then revalidated svc channel reference current u t
              else handle_response svc name channel reference u t response)
        end)
  end.

Definition fetch (svc : ProxyService) (net : Network) (name : bytes) (channel : ChannelId) (p : Protocol) (path_ : bytes) (t : Transform)
    : M ProxyState ProxyError ProxyOutcome :=
  u ← lift (url_for svc p path_);
  fetch_url svc net name channel p u t.

(** [fetch_encoded_url] up to the fetch: the URL an encoded path stands for. *)
Definition decode_url (svc : ProxyService) (p : Protocol) (encoded suffix : bytes) : result ProxyError Url :=
  match base64_url_decode encoded with
  | None => Err InvalidEncodedUrl
  | Some value =>
      if negb (is_utf8 value) then Err InvalidEncodedUrl
      else
        match url_parse value with
        | Err e => Err (ProxyUrl e)
        | Ok u =>
            if negb (is_http u) || negb (bool_decide (url_username u = [])) || bool_decide (is_Some (url_password u))
            then Err InvalidEncodedUrl
            else
              let u := match suffix with [] => u | _ :: _ => url_set_path (url_path u ++ suffix) u end in
              match check_origin svc p u with Ok _ => Ok u | Err e => Err e end
        end
  end.

Definition fetch_encoded_url (svc : ProxyService) (net : Network) (name : bytes) (channel : ChannelId) (p : Protocol)
    (encoded suffix : bytes) : M ProxyState ProxyError ProxyOutcome :=
  u ← lift (decode_url svc p encoded suffix);
  fetch_url svc net name channel p u NoTransform.
End Proxy.
