(* ===== verification/Packages.v ===== *)
(** * The package routes ([transport/http/packages.rs])

    The handlers between axum's routes and the package proxy, and what they answer. *)

From S2P Require Import Prelude Externals Domain Metadata MetadataView MetadataStore Space RecentUse Filesystem ArtifactFiles World Config Channels Cache Text Http Web Negotiation Proxy.

Definition strip_suffix (suffix s : bytes) : option bytes := @rev ascii <$> strip_prefix (rev suffix) (rev s).

(** The sidecar suffixes of [python_file]: the encoded URL and the suffix to append to its path. *)
Definition split_sidecar (encoded : bytes) : bytes * bytes :=
  match strip_suffix (lit ".metadata") encoded with
  | Some e => (e, lit ".metadata")
  | None =>
      match strip_suffix (lit ".asc") encoded with
      | Some e => (e, lit ".asc")
      | None => (encoded, [])
      end
  end.

Section Packages.
Context {UL : UlidLib} {HX : HexLib} {SH : Sha256Lib} {BS : Base64Lib} {ZS : ZstdLib} {DH : DefaultHasherLib}.
Context {URL : UrlLib} {JS : JsonLib} {HT : HtmlLib}.
Context {S : Type} {MS : MetadataStore S}.

(** A response of the shard itself, a document held in memory, a body relayed from upstream while
    it arrives, or the configuration of a cargo registry. *)
Inductive PackageResponse :=
| FromShard (r : Response)
| Document (status_ : Z) (content_length_ : option Z) (content_type_ : option bytes) (content : bytes)
| Relayed (status_ : Z) (content_type_ : option bytes) (stream : body_stream)
| CargoConfig (dl : bytes) (auth_required : bool).

Record PackageState := { pk_app : @AppState UL S; pk_up : @UpstreamState URL }.

Definition set_app (a : AppState) (k : PackageState) : PackageState := {| pk_app := a; pk_up := pk_up k |}.

Definition PackageHandler (A : Type) : Type := M PackageState PackageResponse A.

(** A handler of the shard, and an operation of the proxy on the shard's world. *)
Definition in_app {A} (h : Handler A) : PackageHandler A := raising FromShard (zoom pk_app set_app h).
Definition proxy_view (k : PackageState) : ProxyState := {| p_world := world (pk_app k); p_up := pk_up k |}.
Definition set_proxy_view (p : ProxyState) (k : PackageState) : PackageState :=
  {| pk_app := set_world (p_world p) (pk_app k); pk_up := p_up p |}.
Definition in_proxy {A} (m : M ProxyState ProxyError A) : PackageHandler (result ProxyError A) :=
  try (zoom proxy_view set_proxy_view m).

Definition proxy_failure (e : ProxyError) : PackageResponse :=
  match e with
  | Busy => FromShard busy_response
  | DisallowedOrigin => FromShard (plain 403)
  | _ => FromShard (plain 502)
  end.

Definition outcome_response (cfg : HttpConfig) (channel : ChannelId) (o : ProxyOutcome) : PackageHandler PackageResponse :=
  match o with
  | OutArtifact artifact => r ← in_app (serve_artifact cfg channel artifact [] false); mret (FromShard r)
  | CachedMetadata content content_type_ => mret (Document 200 (Some (Z.of_nat (length content))) content_type_ content)
  | OutUpstream status_ content content_type_ => mret (Document status_ None content_type_ content)
  | UpstreamStream status_ stream content_type_ => mret (Relayed status_ content_type_ stream)
  end.

Section Routes.
Variables (cfg : HttpConfig) (svc : ProxyService) (net : Network) (name : bytes).

Definition answer (channel : ChannelId) (m : M ProxyState ProxyError ProxyOutcome) : PackageHandler PackageResponse :=
  outcome ← in_proxy m;
  match outcome with Ok o => outcome_response cfg channel o | Err e => mret (proxy_failure e) end.

Definition package_fetch (channel : ChannelId) (p : Protocol) (path_ : bytes) (t : Transform) : PackageHandler PackageResponse :=
  answer channel (fetch svc net name channel p path_ t).

Definition fetch_encoded (channel : ChannelId) (p : Protocol) (encoded suffix : bytes) : PackageHandler PackageResponse :=
  answer channel (fetch_encoded_url svc net name channel p encoded suffix).

Definition go (channel : option bytes) (hs : headers) (path_ : bytes) : PackageHandler PackageResponse :=
  context ← in_app (channel_context channel hs);
  package_fetch (ctx_channel context) Go path_ NoTransform.

Definition accept_of (hs : headers) : option bytes := value ← header (lit "accept") hs; to_str value.

(** [python_simple] and, with an empty path, [python_simple_root] *)
Definition fetch_python_simple (channel : option bytes) (hs : headers) (path_ : bytes) : PackageHandler PackageResponse :=
  context ← in_app (channel_context channel hs);
  match python_simple (route_prefix context) path_ (accept_of hs) with
  | None => throw (FromShard (plain 406))
  | Some t => package_fetch (ctx_channel context) Python path_ t
  end.

Definition python_file (channel : option bytes) (hs : headers) (encoded : bytes) : PackageHandler PackageResponse :=
  context ← in_app (channel_context channel hs);
  let '(encoded, suffix) := split_sidecar encoded in
  fetch_encoded (ctx_channel context) Python encoded suffix.

Definition npm (channel : option bytes) (hs : headers) (path_ : bytes) : PackageHandler PackageResponse :=
  context ← in_app (channel_context channel hs);
  match strip_prefix (lit "-/tarball/") path_ with
  | Some encoded => fetch_encoded (ctx_channel context) Npm encoded []
  | None =>
      match npm_metadata (route_prefix context) (accept_of hs) with
      | None => throw (FromShard (plain 406))
      | Some t => package_fetch (ctx_channel context) Npm path_ t
      end
  end.

Definition cargo_index (channel : option bytes) (hs : headers) (path_ : bytes) : PackageHandler PackageResponse :=
  context ← in_app (channel_context channel hs);
  package_fetch (ctx_channel context) CargoIndex path_ NoTransform.

Definition cargo_config (channel : option bytes) (hs : headers) : PackageHandler PackageResponse :=
  context ← in_app (channel_context channel hs);
  mret (CargoConfig (route_prefix context ++ lit "/proxy/cargo/crates") (ctx_access_control context)).

Definition cargo_crate (channel : option bytes) (hs : headers) (crate version : bytes) : PackageHandler PackageResponse :=
  context ← in_app (channel_context channel hs);
  if bool_decide (crate = []) || bool_decide (version = []) || bool_decide ("/"%char ∈ crate) || bool_decide ("/"%char ∈ version)
  then throw (FromShard (plain 400))
  else package_fetch (ctx_channel context) CargoCrate (crate ++ lit "/" ++ crate ++ lit "-" ++ version ++ lit ".crate") NoTransform.
End Routes.
End Packages.
