(* ===== verification/ProxyLemmas.v ===== *)
(** * Lemmas on the package proxy

    What an operation of the proxy calls, and what it keeps of the upstream state. *)

From S2P Require Import Prelude Externals Domain Metadata MetadataView MetadataStore Space RecentUse Filesystem ArtifactFiles World Config Channels Cache Text Http Web Negotiation Proxy.

Section Calls.
Context {UL : UlidLib} {HX : HexLib} {SH : Sha256Lib} {BS : Base64Lib} {ZS : ZstdLib} {DH : DefaultHasherLib}.
Context {URL : UrlLib} {JS : JsonLib} {HT : HtmlLib}.
Context {S : Type} {MS : MetadataStore S}.
Implicit Types (svc : ProxyService) (net : Network) (p : @ProxyState UL URL S).

(** ** Calls

    [calls Q n m]: running [m] makes at most [n] upstream calls, each of them in [Q]. *)

Definition calls {A} (Q : UpstreamCall -> Prop) (n : nat) (m : M (@ProxyState UL URL S) ProxyError A) : Prop :=
  forall p, exists new, up_log (p_up (m p).2) = new ++ up_log (p_up p) /\ Forall Q new /\ (length new <= n)%nat.

Lemma calls_quiet {A} Q n (m : M (@ProxyState UL URL S) ProxyError A) :
  (forall p, up_log (p_up (m p).2) = up_log (p_up p)) -> calls Q n m.
Proof. intros H p. exists []. rewrite H. split; [done|]. split; [constructor|cbn; lia]. Qed.

Lemma calls_ret {A} Q n (a : A) : calls Q n (mret a).
Proof. by apply calls_quiet. Qed.
Lemma calls_throw {A} Q n e : calls Q n (throw e : M _ _ A).
Proof. by apply calls_quiet. Qed.
Lemma calls_lift {A} Q n (r : result ProxyError A) : calls Q n (lift r).
Proof. by apply calls_quiet. Qed.
Lemma calls_ok_or {A} Q n (o : option A) e : calls Q n (ok_or o e).
Proof. destruct o; [apply calls_ret|apply calls_throw]. Qed.

Lemma calls_world {A} Q n f (m : M (World S) CacheError A) : calls Q n (p_world_op f m).
Proof.
  apply calls_quiet. intros p. unfold p_world_op, raising, zoom. by destruct (m (p_world p)).
Qed.
Lemma calls_cache {A} Q n (m : M (World S) CacheError A) : calls Q n (p_cache m).
Proof. apply calls_world. Qed.

Lemma calls_bind {A B} Q n1 n2 (m : M (@ProxyState UL URL S) ProxyError A) (k : A -> M (@ProxyState UL URL S) ProxyError B) :
  calls Q n1 m -> (forall a, calls Q n2 (k a)) -> calls Q (n1 + n2) (m ≫= k).
Proof.
  intros Hm Hk p. destruct (Hm p) as (new & E & HQ & Hl). unfold mbind, M_bind. destruct (m p) as [[a|e] p1]; cbn in E |- *.
  - destruct (Hk a p1) as (new' & E' & HQ' & Hl'). exists (new' ++ new). rewrite E', E, app_assoc.
    split; [done|]. split; [by apply Forall_app|]. rewrite length_app. lia.
  - exists new. split; [done|]. split; [done|]. lia.
Qed.

(** A quiet first step costs nothing. *)
Lemma calls_then {A B} Q n (m : M (@ProxyState UL URL S) ProxyError A) (k : A -> M (@ProxyState UL URL S) ProxyError B) :
  calls Q 0 m -> (forall a, calls Q n (k a)) -> calls Q n (m ≫= k).
Proof. apply (calls_bind Q 0 n). Qed.

Lemma calls_try {A} Q n (m : M (@ProxyState UL URL S) ProxyError A) : calls Q n m -> calls (A:=result ProxyError A) Q n (try m).
Proof. intros H p. specialize (H p). unfold try. by destruct (m p). Qed.

Lemma calls_send (Q : UpstreamCall -> Prop) net call : Q call -> calls Q 1 (send net call).
Proof. intros H p. exists [call]. split; [done|]. split; [by repeat constructor|done]. Qed.

Lemma calls_weaken {A} Q n n' (m : M (@ProxyState UL URL S) ProxyError A) : (n <= n')%nat -> calls Q n m -> calls Q n' m.
Proof. intros Hn H p. destruct (H p) as (new & ? & ? & ?). exists new. split; [done|]. split; [done|]. lia. Qed.

Lemma calls_attempts (Q : UpstreamCall -> Prop) net n call : Q call -> calls Q n (attempts net n call).
Proof.
  intros HQ. induction n as [|n IH]; cbn [attempts]; [apply calls_ret|].
  apply (calls_bind Q 1 n); [by apply calls_send|]. intros [candidate|e]; case_bool; auto using calls_ret, calls_throw.
Qed.

(** A URL the protocol may be fetched from. *)
Definition origin_allowed svc (pr : Protocol) (u : Url) : Prop :=
  exists o, url_origin u = Some o /\ o ∈ for_protocol (allowed svc) pr.

Lemma check_origin_ok svc pr u x : check_origin svc pr u = Ok x <-> origin_allowed svc pr u.
Proof.
  unfold check_origin, origin_allowed. destruct (url_origin u) as [o|]; [|split; [done|by intros (? & ? & ?)]].
  case_bool_decide as H; split; [eauto|by destruct x|done|]. intros (o' & [= <-] & ?). done.
Qed.

Lemma calls_lift_bind {A B} Q n (r : result ProxyError A) (k : A -> M (@ProxyState UL URL S) ProxyError B) :
  (forall a, r = Ok a -> calls Q n (k a)) -> calls Q n (lift r ≫= k).
Proof.
  intros H. destruct r as [a|e].
  - exact (H a eq_refl).
  - exact (calls_throw Q n e).
Qed.

Lemma calls_hops svc net pr hs n target : origin_allowed svc pr target ->
  calls (fun c => origin_allowed svc pr (call_url c)) (n * 3) (hops svc net pr hs n target).
Proof.
  revert target. induction n as [|n IH]; intros target Ht; cbn [hops]; [apply calls_throw|].
  apply (calls_bind _ 3 (n * 3)); [by apply calls_attempts|]. intros answered.
  apply calls_then; [apply calls_ok_or|]. intros response. case_bool; [apply calls_ret|].
  apply calls_then; [apply calls_ok_or|]. intros location. apply calls_then; [apply calls_lift|]. intros next.
  apply calls_lift_bind. intros x Hx. apply IH. by apply check_origin_ok in Hx.
Qed.

Lemma calls_flight {A} Q n key (m : M (@ProxyState UL URL S) ProxyError A) : calls Q n m -> calls Q n (with_flight key m).
Proof.
  intros H p. destruct (H (on_up (enter_flight key) p)) as (new & E & ?). unfold with_flight.
  destruct (m _) as [r p']. exists new. split; [exact E|done].
Qed.

Lemma calls_permit {A} Q n (m : M (@ProxyState UL URL S) ProxyError A) : calls Q n m -> calls Q n (with_upstream_permit m).
Proof.
  intros H p. unfold with_upstream_permit. destruct (up_permits (p_up p)) as [|k]; [by apply (calls_quiet (A:=A) Q n (fun p => (Err Busy, p)))|].
  destruct (H (on_up (set_permits k) p)) as (new & E & ?). destruct (m _) as [r p']. exists new. split; [exact E|done].
Qed.

Lemma calls_cached_outcome Q svc c a u t : calls Q 0 (cached_outcome svc c a u t).
Proof.
  assert (calls Q 0 (found ← p_cache (S:=S) (locate (proxy_cache svc) c a);
    match found with
    | None => mret None
    | Some located =>
        if negb (bool_decide (encoding (located_metadata located) = Identity))
        then throw (Malformed "cached package metadata has an unsupported encoding")
        else
          _ ← p_world_op (fun _ => Unavailable "cached body could not be read") file_io;
          body_ ← lift (rewrite_metadata svc u t (located_file located));
          mret (Some (CachedMetadata body_ (content_type (located_metadata located))))
    end)) as H.
  { apply calls_then; [apply calls_cache|]. intros [located|]; [|apply calls_ret]. case_bool; [apply calls_throw|].
    apply calls_then; [apply calls_world|]. intros _. apply calls_then; [apply calls_lift|]. intros b. apply calls_ret. }
  by destruct t; [apply calls_ret|..].
Qed.

Lemma calls_fresh_outcome Q svc c record u t : calls Q 0 (fresh_outcome svc c record u t).
Proof.
  destruct record as [r|]; cbn [fresh_outcome]; [|apply calls_ret].
  apply calls_then; [apply calls_cache|]. intros time. case_bool; [apply calls_cached_outcome|apply calls_ret].
Qed.

Lemma calls_revalidated Q svc c n current u t : calls Q 0 (revalidated svc c n current u t).
Proof.
  apply calls_then; [apply calls_ok_or|]. intros r. apply calls_then; [apply calls_cache|]. intros _.
  apply calls_then; [apply calls_cached_outcome|]. intros o. apply calls_ok_or.
Qed.

Lemma calls_handle_response Q svc name c n u t response : calls Q 0 (handle_response svc name c n u t response).
Proof.
  unfold handle_response. case_bool; [apply calls_then; [apply calls_ok_or|intros b; apply calls_ret]|].
  assert (forall raw rewritten ct e l, calls Q 0 (serve_metadata svc name c n ct e l raw rewritten)) as Hm.
  { intros. apply calls_then; [apply calls_try, calls_cache|]. intros [pub|e0].
    - apply calls_then; [apply calls_cache|]. intros _. apply calls_ret.
    - destruct e0 as [| | | | | | |[[]| | | |]]; try apply calls_throw; apply calls_ret. }
  destruct t.
  2-4: apply calls_then; [apply calls_ok_or|]; intros raw; apply calls_then; [apply calls_lift|]; intros; apply Hm.
  apply calls_then; [apply calls_cache|]. intros [pub|stream]; [|apply calls_ret].
  apply calls_then; [apply calls_cache|]. intros _. apply calls_ret.
Qed.

Lemma calls_fetch_url svc net name c pr u t : origin_allowed svc pr u ->
  calls (fun call => origin_allowed svc pr (call_url call)) 18 (fetch_url svc net name c pr u t).
Proof.
  intros Hu. apply calls_then; [apply calls_cache|]. intros cached. apply calls_then; [apply calls_fresh_outcome|].
  intros [o|]; [apply calls_ret|]. apply calls_flight, calls_then; [apply calls_cache|]. intros current.
  apply calls_then; [apply calls_fresh_outcome|]. intros [o|]; [apply calls_ret|].
  apply calls_permit, (calls_bind _ 18 0); [by apply calls_hops|]. intros response.
  case_bool; [apply calls_revalidated|apply calls_handle_response].
Qed.

Lemma url_for_allowed svc pr path_ u : url_for svc pr path_ = Ok u -> origin_allowed svc pr u.
Proof.
  unfold url_for. destruct (url_join _ _) as [u0|e]; [|done]. destruct (check_origin svc pr u0) as [x|e] eqn:E; [|done].
  intros [= <-]. by apply check_origin_ok in E.
Qed.

Lemma decode_url_allowed svc pr encoded suffix u : decode_url svc pr encoded suffix = Ok u -> origin_allowed svc pr u.
Proof.
  unfold decode_url. destruct (base64_url_decode encoded) as [b|]; [|done]. case_bool; [done|].
  destruct (url_parse b) as [u0|e]; [|done]. case_bool; [done|]. destruct (check_origin _ _ _) as [x|e] eqn:E; [|done].
  intros [= <-]. by apply check_origin_ok in E.
Qed.

(** ** The configured origins *)

Definition upstream_of (c : Config) (pr : Protocol) : bytes :=
  match pr with
  | Go => go_upstream c
  | Python => python_upstream c
  | Npm => npm_upstream c
  | CargoIndex => cargo_index_upstream c
  | CargoCrate => cargo_crate_upstream c
  end.

(** The origin of the protocol's upstream, of an entry the operator supplied, or of Python's
    public download host. *)
Definition configured_origin (c : Config) (pr : Protocol) (o : Origin) : Prop :=
  exists entry u, url_parse entry = Ok u /\ url_origin u = Some o
    /\ (entry = upstream_of c pr \/ entry ∈ proxy_allowed_origins c \/ (pr = Python /\ entry ∈ PYTHON_DOWNLOAD_ORIGINS)).

Lemma elem_of_origins o os : o ∈ foldr insert_origin ∅ os <-> Some o ∈ os.
Proof.
  induction os as [|[x|] os IH]; cbn.
  - rewrite elem_of_empty, elem_of_nil. done.
  - rewrite elem_of_union, elem_of_singleton, elem_of_cons, IH. split; intros [?|?]; auto; left; congruence.
  - rewrite IH, elem_of_cons. split; [auto|]. by intros [?|?].
Qed.

Lemma parse_all_elem entries us u : parse_all entries = Ok us -> u ∈ us -> exists entry, entry ∈ entries /\ url_parse entry = Ok u.
Proof.
  revert us. induction entries as [|entry entries IH]; cbn; intros us H Hu; [injection H as <-; by apply elem_of_nil in Hu|].
  destruct (url_parse entry) as [u0|] eqn:E; [|done]. destruct (parse_all entries) as [us0|] eqn:E'; [|done].
  injection H as <-. apply elem_of_cons in Hu as [->|Hu]; [exists entry; split; [apply elem_of_cons; by left|done]|].
  destruct (IH us0 eq_refl Hu) as (x & ? & ?). exists x. split; [apply elem_of_cons; by right|done].
Qed.

Lemma origin_set_elem base shared defaults s o :
  origin_set base shared defaults = Ok s -> o ∈ s ->
  url_origin base = Some o \/ Some o ∈ shared \/ exists entry u, entry ∈ defaults /\ url_parse entry = Ok u /\ url_origin u = Some o.
Proof.
  unfold origin_set. destruct (parse_all defaults) as [us|] eqn:E; [|done]. intros Hs Ho. assert (s = foldr insert_origin ∅ (url_origin base :: shared ++ map url_origin us)) as -> by congruence.
  apply elem_of_origins, elem_of_cons in Ho as [H|[H|H]%elem_of_app]; [by left|right; by left|]. right; right.
  apply list_elem_of_fmap in H as (u & Hu & Hin). destruct (parse_all_elem _ _ _ E Hin) as (entry & ? & ?). eauto.
Qed.

Lemma allowed_configured cache_ c svc pr o :
  ProxyService_new cache_ c = Ok svc -> o ∈ for_protocol (allowed svc) pr -> configured_origin c pr o.
Proof.
  unfold ProxyService_new. intros H Ho.
  destruct (url_parse (go_upstream c)) as [go|] eqn:E1; [|done]. destruct (url_parse (python_upstream c)) as [python|] eqn:E2; [|done].
  destruct (url_parse (npm_upstream c)) as [npm|] eqn:E3; [|done]. destruct (url_parse (cargo_index_upstream c)) as [index|] eqn:E4; [|done].
  destruct (url_parse (cargo_crate_upstream c)) as [crate|] eqn:E5; [|done]. destruct (parse_all (proxy_allowed_origins c)) as [us|] eqn:E6; [|done].
  assert (forall base entry0 defaults s, url_parse entry0 = Ok base -> entry0 = upstream_of c pr ->
    (forall entry, entry ∈ defaults -> pr = Python /\ entry ∈ PYTHON_DOWNLOAD_ORIGINS) ->
    origin_set base (map url_origin us) defaults = Ok s -> o ∈ s -> configured_origin c pr o) as Hset.
  { intros base entry0 defaults s Hb He Hd Hs Hin.
    destruct (origin_set_elem _ _ _ _ _ Hs Hin) as [H1|[H1|(entry & u & H1 & H2 & H3)]].
    - exists entry0, base. split; [done|]. split; [done|by left].
    - apply list_elem_of_fmap in H1 as (u & Hu & H1). destruct (parse_all_elem _ _ _ E6 H1) as (entry & ? & ?). exists entry, u.
      split; [done|]. split; [done|right; by left].
    - exists entry, u. split; [done|]. split; [done|right; right; by apply Hd]. }
  destruct (origin_set go _ _) as [o1|] eqn:F1; [|done]. destruct (origin_set python _ _) as [o2|] eqn:F2; [|done].
  destruct (origin_set npm _ _) as [o3|] eqn:F3; [|done]. destruct (origin_set index _ _) as [o4|] eqn:F4; [|done].
  destruct (origin_set crate _ _) as [o5|] eqn:F5; [|done]. injection H as <-.
  destruct pr; cbn in Ho; [eapply (Hset go)|eapply (Hset python)|eapply (Hset npm)|eapply (Hset index)|eapply (Hset crate)];
    try done; by intros entry ?%elem_of_nil.
Qed.

(** ** Permits and coalescing entries *)

Definition flights_wf p : Prop := map_Forall (fun _ n => (0 < n)%nat) (up_flights (p_up p)).

(** Whatever its outcome, [m] leaves permits and entries as it found them. *)
Definition settles_up {A} (m : M (@ProxyState UL URL S) ProxyError A) : Prop :=
  forall p, flights_wf p ->
    up_permits (p_up (m p).2) = up_permits (p_up p) /\ up_flights (p_up (m p).2) = up_flights (p_up p).

Lemma settles_bind {A B} (m : M (@ProxyState UL URL S) ProxyError A) (k : A -> M (@ProxyState UL URL S) ProxyError B) :
  settles_up m -> (forall a, settles_up (k a)) -> settles_up (m ≫= k).
Proof.
  intros Hm Hk p Hp. destruct (Hm p Hp) as [E1 E2]. unfold mbind, M_bind. destruct (m p) as [[a|e] p1]; cbn in *; [|done].
  destruct (Hk a p1) as [E3 E4]; [by unfold flights_wf; rewrite E2|]. by rewrite E3, E4.
Qed.

Lemma settles_world {A} f (m : M (World S) CacheError A) : settles_up (p_world_op f m).
Proof. intros p _. unfold p_world_op, raising, zoom. by destruct (m (p_world p)). Qed.
Lemma settles_cache {A} (m : M (World S) CacheError A) : settles_up (p_cache m).
Proof. apply settles_world. Qed.

Lemma settles_quiet {A} (r : result ProxyError A) : settles_up (fun p => (r, p)).
Proof. by intros p _. Qed.

Lemma settles_ok_or {A} (o : option A) e : settles_up (ok_or o e).
Proof. by destruct o; intros p _. Qed.

Lemma settles_try {A} (m : M (@ProxyState UL URL S) ProxyError A) : settles_up m -> settles_up (A:=result ProxyError A) (try m).
Proof. intros H p Hp. specialize (H p Hp). unfold try. by destruct (m p). Qed.

Lemma settles_attempts net n call : settles_up (attempts net n call).
Proof.
  induction n as [|n IH]; cbn [attempts]; [apply (settles_quiet (Ok _))|].
  apply settles_bind; [by intros p _|]. intros [candidate|e]; case_bool; auto using (settles_quiet (A:=option UpstreamResponse)).
  - apply (settles_quiet (Ok _)).
  - apply (settles_quiet (Err _)).
Qed.

Lemma settles_hops svc net pr hs n target : settles_up (hops svc net pr hs n target).
Proof.
  revert target. induction n as [|n IH]; intros target; cbn [hops]; [apply (settles_quiet (Err _))|].
  apply settles_bind; [apply settles_attempts|]. intros answered. apply settles_bind; [apply settles_ok_or|]. intros response.
  case_bool; [apply (settles_quiet (Ok _))|]. apply settles_bind; [apply settles_ok_or|]. intros location.
  apply settles_bind; [apply settles_quiet|]. intros next. apply settles_bind; [apply settles_quiet|]. intros _. apply IH.
Qed.

Lemma settles_flight {A} key (m : M (@ProxyState UL URL S) ProxyError A) : settles_up m -> settles_up (with_flight key m).
Proof.
  intros H p Hp. unfold with_flight. destruct (H (on_up (enter_flight key) p)) as [E1 E2].
  { unfold flights_wf. cbn. apply map_Forall_insert_2; [lia|done]. }
  destruct (m _) as [r p']. cbn in *. split; [done|]. rewrite E2, lookup_insert_eq.
  destruct (up_flights (p_up p) !! key) as [[|n]|] eqn:E; cbn.
  - specialize (Hp key 0%nat E). cbn in Hp. lia.
  - rewrite insert_insert_eq. by apply insert_id.
  - rewrite delete_insert_eq. by apply delete_id.
Qed.

Lemma settles_permit {A} (m : M (@ProxyState UL URL S) ProxyError A) : settles_up m -> settles_up (with_upstream_permit m).
Proof.
  intros H p Hp. unfold with_upstream_permit. destruct (up_permits (p_up p)) as [|k] eqn:E; [done|].
  destruct (H (on_up (set_permits k) p) Hp) as [E1 E2]. destruct (m _) as [r p']. cbn in *. by rewrite E1, E2.
Qed.

Lemma settles_cached_outcome svc c a u t : settles_up (cached_outcome svc c a u t).
Proof.
  destruct t; cbn [cached_outcome]; [apply (settles_quiet (Ok _))|..];
    (apply settles_bind; [apply settles_cache|]; intros [located|]; [|apply (settles_quiet (Ok _))];
     case_bool; [apply (settles_quiet (Err _))|]; apply settles_bind; [apply settles_world|]; intros _;
     apply settles_bind; [apply settles_quiet|]; intros b; apply (settles_quiet (Ok _))).
Qed.

Lemma settles_fresh_outcome svc c record u t : settles_up (fresh_outcome svc c record u t).
Proof.
  destruct record as [r|]; cbn [fresh_outcome]; [|apply (settles_quiet (Ok _))].
  apply settles_bind; [apply settles_cache|]. intros time. case_bool; [apply settles_cached_outcome|apply (settles_quiet (Ok _))].
Qed.

Lemma settles_handle_response svc name c n u t response : settles_up (handle_response svc name c n u t response).
Proof.
  unfold handle_response. case_bool; [apply settles_bind; [apply settles_ok_or|intros b; apply (settles_quiet (Ok _))]|].
  assert (forall raw rewritten ct e l, settles_up (serve_metadata svc name c n ct e l raw rewritten)) as Hm.
  { intros. apply settles_bind; [apply settles_try, settles_cache|]. intros [pub|e0].
    - apply settles_bind; [apply settles_cache|]. intros _. apply (settles_quiet (Ok _)).
    - destruct e0 as [| | | | | | |[[]| | | |]]; apply settles_quiet || apply (settles_quiet (Err _)) || apply (settles_quiet (Ok _)). }
  destruct t.
  2-4: apply settles_bind; [apply settles_ok_or|]; intros raw; apply settles_bind; [apply settles_quiet|]; intros; apply Hm.
  apply settles_bind; [apply settles_cache|]. intros [pub|stream]; [|apply (settles_quiet (Ok _))].
  apply settles_bind; [apply settles_cache|]. intros _. apply (settles_quiet (Ok _)).
Qed.

Lemma settles_fetch_url svc net name c pr u t : settles_up (fetch_url svc net name c pr u t).
Proof.
  apply settles_bind; [apply settles_cache|]. intros cached. apply settles_bind; [apply settles_fresh_outcome|].
  intros [o|]; [apply (settles_quiet (Ok _))|]. apply settles_flight, settles_bind; [apply settles_cache|]. intros current.
  apply settles_bind; [apply settles_fresh_outcome|]. intros [o|]; [apply (settles_quiet (Ok _))|].
  apply settles_permit, settles_bind; [apply settles_hops|]. intros response. case_bool; [|apply settles_handle_response].
  apply settles_bind; [apply settles_ok_or|]. intros r. apply settles_bind; [apply settles_cache|]. intros _.
  apply settles_bind; [apply settles_cached_outcome|]. intros o. apply settles_ok_or.
Qed.
End Calls.
