(* ===== verification/ProxyFetch.v ===== *)
(** * What a fetch of the package proxy does to the shard

    Which parts of the world each step of a fetch touches, and the shape of a fetch that succeeds. *)

From S2P Require Import Prelude Externals Domain Metadata MetadataView MetadataRefinement MetadataStore Space RecentUse Filesystem ArtifactFiles FilesLemmas World Config Channels ChannelLemmas Cache CacheLemmas CacheConsistency Shard Text Http Web Negotiation Proxy ProxyLemmas.

Section Fetch.
Context {UL : UlidLib} {ULL : UlidLaws} {HX : HexLib} {HXL : HexLaws} {SH : Sha256Lib} {BS : Base64Lib}.
Context {ZS : ZstdLib} {ZSL : ZstdLaws} {DH : DefaultHasherLib}.
Context {URL : UrlLib} {JS : JsonLib} {HT : HtmlLib}.
Context {S : Type} {MS : MetadataStore S} {ML : MetadataLaws S}.
Implicit Types (svc : ProxyService) (net : Network) (p : @ProxyState UL URL S) (v : MetaView) (w : World S).

Lemma p_cache_run {A} (m : M (World S) CacheError A) p r p' :
  p_cache m p = (r, p') -> exists r0 w', m (p_world p) = (r0, w') /\ r = map_err ProxyCache r0 /\ p' = set_p_world w' p.
Proof.
  unfold p_cache, p_world_op, raising, zoom. destruct (m (p_world p)) as [r0 w'] eqn:E. intros [= <- <-]. eauto.
Qed.

Lemma p_cache_ok {A} (m : M (World S) CacheError A) p x p' :
  p_cache m p = (Ok x, p') -> m (p_world p) = (Ok x, p_world p') /\ p' = set_p_world (p_world p') p.
Proof.
  intros (r0 & w' & Hm & Hr & ->)%p_cache_run. destruct r0; [|done]. injection Hr as ->. done.
Qed.

(** A failure of the store or of the disk. *)
Definition environmental (e : ProxyError) : Prop := exists ce, e = ProxyCache ce /\ environment ce.

Lemma resolve_run c n v p r p' :
  viewed v (p_world p) -> p_cache (resolve_reference c n) p = (r, p') ->
  viewed v (p_world p') /\ p' = set_p_world (set_db (w_db (p_world p')) (p_world p)) p
  /\ match r with Ok found => found = mv_references v !! (c, n) | Err e => environmental e end.
Proof.
  intros Hv (r0 & w' & Hm & -> & ->)%p_cache_run. unfold resolve_reference in Hm. cbn [p_world set_p_world].
  pose proof Hm as Hm'. unfold c_meta, raising in Hm.
  pose proof (in_db_spec (ms_reference c n) (v_reference c n) v (p_world p) (reference_law c n) Hv) as Hs.
  destruct (in_db _ _) as [[x|e] w1]; injection Hm as <- <-.
  - destruct Hs as ([= ->] & Hv' & Hw). rewrite <- Hw. done.
  - destruct Hs as (Hw & Hs). split; [|split].
    + by destruct Hs as [[_ ?]|[_ [?|?]]].
    + by rewrite <- Hw.
    + exists (CacheMetadata e). split; [done|]. cbn. by destruct Hs as [[? _]|[? _]].
Qed.

(** ** Freshness of a raw file *)

Definition is_fresh svc (r : ReferenceRecord) w : bool :=
  saturating_sub (w_clock w (w_ticks w)) (updated_at r) <? ttl svc.

Lemma fresh_raw svc c r u p :
  fresh_outcome svc c (Some r) u NoTransform p
  = (Ok (if is_fresh svc r (p_world p) then Some (OutArtifact (ref_artifact r)) else None),
     set_p_world (set_ticks (Datatypes.S (w_ticks (p_world p))) (p_world p)) p).
Proof. unfold fresh_outcome, mbind, M_bind, is_fresh. cbn. by destruct (_ <? _). Qed.

(** ** Scopes *)

Lemma with_flight_run {A} key (m : M (@ProxyState UL URL S) ProxyError A) p r p' :
  with_flight key m p = (r, p') -> exists q q', m q = (r, q') /\ p_world q = p_world p /\ p_world p' = p_world q'.
Proof. unfold with_flight. destruct (m _) as [r0 q'] eqn:E. intros [= <- <-]. eexists _, q'. split; [exact E|done]. Qed.

Lemma with_upstream_permit_ok {A} (m : M (@ProxyState UL URL S) ProxyError A) p x p' :
  with_upstream_permit m p = (Ok x, p') -> exists q q', m q = (Ok x, q') /\ p_world q = p_world p /\ p_world p' = p_world q'.
Proof.
  unfold with_upstream_permit. destruct (up_permits _) as [|n]; [done|]. destruct (m _) as [r0 q'] eqn:E. intros [= -> <-].
  eexists _, q'. split; [exact E|done].
Qed.

(** ** Upstream answers *)

(** [response] is something the network answered. *)
Definition answered net (response : UpstreamResponse) : Prop := exists log call, net log call = Ok response.

Lemma attempts_ok net n call p x p' :
  attempts net n call p = (Ok x, p') -> p_world p' = p_world p /\ (forall response, x = Some response -> answered net response).
Proof.
  revert p. induction n as [|n IH]; intros p; cbn [attempts]; [by intros [= <- <-]|].
  intros (answer & p1 & H1 & H)%bind_ok. injection H1 as <- <-.
  destruct (net (up_log (p_up p)) call) as [candidate|e] eqn:E.
  - destruct (_ && _); [exact (IH _ H)|]. injection H as <- <-. split; [done|]. intros response [= <-]. by eexists _, _.
  - destruct (_ && _); [exact (IH _ H)|done].
Qed.

Lemma hops_ok svc net pr hs n target p response p' :
  hops svc net pr hs n target p = (Ok response, p') -> p_world p' = p_world p /\ answered net response.
Proof.
  revert target p. induction n as [|n IH]; intros target p; cbn [hops]; [done|].
  intros (x & p1 & H1 & H)%bind_ok. apply attempts_ok in H1 as [Hw Hx].
  apply bind_ok in H as (found & p2 & H2 & H). destruct x as [found0|]; [|done]. injection H2 as <- <-.
  destruct (negb _); [injection H as <- <-; eauto|].
  apply bind_ok in H as (location & p3 & H3 & H). destruct (header_string _); [|done]. injection H3 as <- <-.
  apply bind_ok in H as (next & p4 & H4 & H). destruct (url_join target _) as [u|]; [|done]. injection H4 as <- <-.
  apply bind_ok in H as (x & p5 & H5 & H). destruct (check_origin svc pr u); [|done]. injection H5 as <- <-.
  apply IH in H as [-> ?]. done.
Qed.

(** ** Admission *)

Lemma publish_rejected rest cfg name request w stream w' :
  0 <= rest -> files_wf (cache_files cfg) -> request_wf (max_upload_bytes cfg) (req_content_length request) ->
  holds (w_space w) rest -> publish_or_reject cfg name request w = (Ok (AdmissionRejected stream), w') ->
  stream = req_stream request /\ w' = w.
Proof.
  intros Hr Hf Hq Hh H. unfold publish_or_reject in H. apply bind_ok in H as (outcome & w1 & H1 & H).
  unfold c_local, raising, in_local, zoom in H1.
  pose proof (stage_spec rest (cache_files cfg) (req_channel request) name (req_stream request) (max_upload_bytes cfg)
    (req_content_length request) (req_durability request) (req_encoding request) (get_local w) Hr Hf Hq Hh) as HS.
  destruct (stage _ _ _ _ _ _ _ _ (get_local w)) as [[[staged|stream']|e] l]; [injection H1 as <- <-..|discriminate].
  - exfalso. apply bind_ok in H as (? & ? & _ & H). apply bind_ok in H as ([] & ? & _ & H).
    apply bind_ok in H as (? & ? & _ & H). by injection H.
  - injection H as <- <-. destruct HS as (_ & -> & ->). split; [done|]. by destruct w.
Qed.

Lemma content_length_nonneg hs n : content_length hs = Some n -> 0 <= n.
Proof.
  unfold content_length. destruct (header _ hs) as [x|]; [|done]. cbn. destruct (to_str x) as [y|]; [|done]. cbn.
  intros H. by apply parse_u64_range in H as [? _].
Qed.

(** ** Bindings *)

Lemma bind_records files c n a e l d v w u w' :
  steady files v w -> bind_reference_with_validators c n a e l d w = (Ok u, w') ->
  exists v' time, steady files v' w' /\ mv_artifacts v' = mv_artifacts v
    /\ mv_references v' !! (c, n) = Some {| ref_artifact := a; updated_at := time; etag := e; last_modified := l |}.
Proof.
  intros Hst H. unfold bind_reference_with_validators in H. apply bind_ok in H as (x & w1 & H1 & H).
  eapply steady_fence in H1; [|done]. apply bind_ok in H as (t & w2 & [= <- <-] & H).
  set (record := Build_ReferenceRecord _ _ _ _) in H.
  eapply (steady_meta files _ (v_bind_reference c n record) (fun _ => RUnit) (BindReference c n record d) v) in H as [H _];
    [|apply bind_reference_law|done..|by eapply steady_other].
  eexists _, _. split; [exact H|]. split; [done|]. cbn. apply lookup_insert_eq.
Qed.

(** ** One fetch of a raw file *)

Lemma fresh_step svc c record u p outcome p' :
  fresh_outcome svc c record u NoTransform p = (Ok outcome, p') ->
  exists ticks, p' = set_p_world (set_ticks ticks (p_world p)) p
    /\ match record with
       | None => ticks = w_ticks (p_world p) /\ outcome = None
       | Some r => outcome = if is_fresh svc r (p_world p) then Some (OutArtifact (ref_artifact r)) else None
       end.
Proof.
  destruct record as [r|].
  - rewrite fresh_raw. intros [= <- <-]. eauto.
  - intros [= <- <-]. exists (w_ticks (p_world p)). by destruct p as [[]].
Qed.

(** A fetch serves the recorded artifact without a publication, or goes to the upstream. *)
Lemma fetch_url_ok svc net name c pr u v p o p' :
  viewed v (p_world p) -> fetch_url svc net name c pr u NoTransform p = (Ok o, p') ->
  let n := proxy_reference pr u [] in
  (exists r, mv_references v !! (c, n) = Some r /\ o = OutArtifact (ref_artifact r)
     /\ exists db ticks, p_world p' = set_ticks ticks (set_db db (p_world p)) /\ viewed v (p_world p'))
  \/ exists db ticks response q q', p_world q = set_ticks ticks (set_db db (p_world p))
       /\ viewed v (p_world q) /\ answered net response /\ p_world p' = p_world q'
       /\ (if up_status response =? 304 then revalidated svc c n (mv_references v !! (c, n)) u NoTransform
           else handle_response svc name c n u NoTransform response) q = (Ok o, q').
Proof.
  intros Hv H n. unfold fetch_url in H. change (cache_variant NoTransform) with (@nil ascii) in H. fold n in H.
  apply bind_ok in H as (cached & p1 & H1 & H). apply (resolve_run c n v) in H1 as (Hv1 & Hp1 & ->); [|done].
  apply bind_ok in H as (outcome & p2 & H2 & H). apply fresh_step in H2 as (t2 & Hp2 & Ho2).
  destruct outcome as [o'|].
  { left. injection H as <- <-. destruct (mv_references v !! (c, n)) as [r|]; [|by destruct Ho2].
    destruct (is_fresh _ _ _); [|done]. injection Ho2 as ->. exists r. split; [done|]. split; [done|].
    rewrite Hp2. rewrite Hp1 in Hv1 |- *. eexists _, _. split; [done|exact Hv1]. }
  apply with_flight_run in H as (q & q' & H & Hq & Hq').
  assert (exists db ticks, p_world q = set_ticks ticks (set_db db (p_world p))) as (db & ticks & Hqw).
  { rewrite Hq, Hp2, Hp1. eexists _, _. done. }
  assert (viewed v (p_world q)) as Hvq by (rewrite Hq, Hp2; exact Hv1).
  apply bind_ok in H as (current & q1 & H1 & H). apply (resolve_run c n v) in H1 as (Hv3 & Hq1 & ->); [|done].
  apply bind_ok in H as (outcome & q2 & H3 & H). apply fresh_step in H3 as (t3 & Hq2 & Ho3).
  assert (exists db ticks, p_world q2 = set_ticks ticks (set_db db (p_world p))) as (db2 & ticks2 & Hqw2).
  { rewrite Hq2, Hq1. cbn. rewrite Hqw. eexists _, _. done. }
  assert (viewed v (p_world q2)) as Hv2 by (rewrite Hq2; exact Hv3).
  destruct outcome as [o'|].
  { left. injection H as <- <-. destruct (mv_references v !! (c, n)) as [r|]; [|by destruct Ho3].
    destruct (is_fresh svc r (p_world q1)); [|done]. injection Ho3 as ->. exists r. split; [done|]. split; [done|].
    rewrite Hq'. eauto. }
  right. apply with_upstream_permit_ok in H as (s & s' & H & Hs & Hs').
  apply bind_ok in H as (response & s1 & H4 & H). apply hops_ok in H4 as [Hs1 Ha].
  exists db2, ticks2, response, s1, s'. rewrite Hs1, Hs, Hq', Hs'. done.
Qed.
End Fetch.
