(* ===== verification/WebConcrete.v ===== *)
(** * Instances of the proxy's crates

    As in [Concrete.v], simple functions with the documented properties. *)

From S2P Require Import Prelude Externals Concrete Text Web.

(** ** [url]: ASCII strings without fragments, everything before the third slash being the origin *)

Definition is_ascii7 (c : ascii) : bool := byte_value c <? 128.

Record ToyUrl := mkToyUrl { toy_text : bytes; toy_ascii : forallb is_ascii7 toy_text = true }.

#[export] Instance ToyUrl_eq_dec : EqDecision ToyUrl.
Proof.
  intros [a Ha] [b Hb]. destruct (decide (a = b)) as [->|Hn].
  - left. f_equal. apply Eqdep_dec.UIP_dec, Bool.bool_dec.
  - right. congruence.
Defined.

Definition toy_url_parse (s : bytes) : result bytes ToyUrl :=
  match decide (forallb is_ascii7 s = true) with
  | left H => Ok (mkToyUrl s H)
  | right _ => Err (lit "not ASCII")
  end.

Definition toy_scheme (u : ToyUrl) : bytes :=
  match split_once ":" (toy_text u) with Some (scheme, _) => scheme | None => [] end.

(** Scheme, nothing and host, and what follows their slash. *)
Definition toy_authority (u : ToyUrl) : option (bytes * bytes * bytes * bytes) :=
  '(a, rest) ← split_once "/" (toy_text u);
  '(b, rest) ← split_once "/" rest;
  '(c, rest) ← split_once "/" rest;
  Some (a, b, c, rest).

Definition toy_path (u : ToyUrl) : bytes := match toy_authority u with Some (_, _, _, rest) => lit "/" ++ rest | None => [] end.

Definition toy_set_path (p : bytes) (u : ToyUrl) : ToyUrl :=
  match toy_authority u with
  | Some (a, b, c, _) =>
      let path := match strip_prefix (lit "/") p with Some rest => rest | None => p end in
      match toy_url_parse (a ++ lit "/" ++ b ++ lit "/" ++ c ++ lit "/" ++ path) with Ok u' => u' | Err _ => u end
  | None => u
  end.

Definition toy_url : UrlLib := {|
  Url := ToyUrl;
  Origin := list (list ascii);
  url_parse := toy_url_parse;
  url_join := fun base s => if starts_with (lit "http") s then toy_url_parse s else toy_url_parse (toy_text base ++ s);
  url_as_str := toy_text;
  url_origin := fun u => Some (take 3 (split_on "/" (toy_text u)));
  url_scheme := toy_scheme;
  url_has_host := fun _ => true;
  url_username := fun _ => [];
  url_password := fun _ => None;
  url_path := toy_path;
  url_set_path := toy_set_path;
  url_fragment := fun _ => None;
  url_set_fragment := fun _ u => u;
  url_make_relative := fun _ _ => None
|}.

Lemma ascii_utf8 s : forallb is_ascii7 s = true -> is_utf8 s = true.
Proof.
  unfold is_utf8. induction s as [|c s IH]; cbn; [done|]. intros [Hc Hs]%andb_true_iff.
  unfold is_ascii7 in Hc. zify_bool. unfold in_range at 1.
  assert (0 <= byte_value c) by (unfold byte_value; lia).
  rewrite (proj2 (Z.leb_le 0 _)), (proj2 (Z.leb_le _ 127)) by lia. cbn. by apply IH.
Qed.

Lemma split_three (a b c rest : bytes) : "/"%char ∉ a -> "/"%char ∉ b -> "/"%char ∉ c ->
  take 3 (split_on "/" (a ++ "/"%char :: b ++ "/"%char :: c ++ "/"%char :: rest)) = [a; b; c].
Proof. intros Ha Hb Hc. rewrite !split_on_app, !split_on_none by done. reflexivity. Qed.

Lemma toy_set_path_origin p u : take 3 (split_on "/" (toy_text (toy_set_path p u))) = take 3 (split_on "/" (toy_text u)).
Proof.
  unfold toy_set_path. destruct (toy_authority u) as [[[[a b] c] rest]|] eqn:E; [|done]. unfold toy_authority in E.
  destruct (split_once "/" (toy_text u)) as [[a' r1]|] eqn:E1; [|done]. cbn [mbind option_bind] in E.
  destruct (split_once "/" r1) as [[b' r2]|] eqn:E2; [|done]. cbn [mbind option_bind] in E.
  destruct (split_once "/" r2) as [[c' r3]|] eqn:E3; [|done]. injection E as -> -> -> ->.
  pose proof (split_once_first _ _ _ _ E1). pose proof (split_once_first _ _ _ _ E2). pose proof (split_once_first _ _ _ _ E3).
  apply split_once_inv in E1, E2, E3. subst r1 r2. rewrite E1. cbv zeta.
  set (path := match strip_prefix _ p with Some _ => _ | None => _ end).
  unfold toy_url_parse. destruct (decide _) as [H'|H']; cbn [toy_text]; [|by rewrite E1].
  change (lit "/") with ["/"%char]. cbn [app]. by rewrite !split_three.
Qed.

Definition toy_url_laws : @UrlLaws toy_url.
Proof.
  split; cbn; try done.
  - intros [s H]. cbn. unfold toy_url_parse. destruct (decide _) as [H'|H']; [|done]. do 2 f_equal.
    apply Eqdep_dec.UIP_dec, Bool.bool_dec.
  - intros [s H]. by apply ascii_utf8.
  - intros p u _. f_equal. apply toy_set_path_origin.
Qed.

(** ** [base64] *)

Lemma nibbles_base64url c :
  is_base64url (nibble_char (N_of_ascii c / 16)) = true /\ is_base64url (nibble_char (N_of_ascii c mod 16)) = true.
Proof. by destruct c as [[] [] [] [] [] [] [] []]. Qed.

Definition toy_base64_laws : @Base64Laws toy_base64.
Proof.
  split; cbn; induction b as [|c b IH]; cbn [real_hex_encode real_hex_decode]; try done.
  - by rewrite hex_pair_encode, IH.
  - destruct (nibbles_base64url c). by repeat constructor.
Qed.

(** ** [serde_json], [lol_html] and [html_escape] *)

(** Documents of one field, and pages of one anchor. *)
Definition toy_json : JsonLib := {|
  json_from_slice := fun b => Some (Object [(lit "tarball", JString b)]);
  json_to_vec := fun v => match v with Object [(_, JString s)] => Some s | _ => None end
|}.

Definition toy_html : HtmlLib := {|
  html_rewrite := fun handler b => Ok (concat (map snd (handler (fun _ => Some b))));
  decode_html_entities := fun b => b
|}.
