(* ===== verification/ProxyClaims.v ===== *)
(** * What the package proxy guarantees

    Only configured origins are contacted, a bounded number of times; permits and coalescing
    entries are returned; the links a rewritten document carries lead back to the documents they
    replaced; reference names are collision-free up to SHA-256; fetched packages are cached and
    served from the cache. *)

From S2P Require Import Prelude Externals Domain Records Concrete Metadata MetadataView MetadataRefinement MetadataStore Space RecentUse Filesystem ArtifactFiles FilesLemmas FilesClaims World Config Channels ChannelLemmas Cache CacheLemmas CacheConsistency Shard Samples CacheClaims Text Http HttpClaims Web Negotiation Proxy Packages ProxyLemmas ProxyFetch WebConcrete.

Section Claims.
Context {UL : UlidLib} {ULL : UlidLaws} {HX : HexLib} {HXL : HexLaws} {SH : Sha256Lib} {BS : Base64Lib} {BSL : Base64Laws}.
Context {ZS : ZstdLib} {ZSL : ZstdLaws} {DH : DefaultHasherLib}.
Context {URL : UrlLib} {URLL : UrlLaws} {JS : JsonLib} {HT : HtmlLib}.
Context {S : Type} {MS : MetadataStore S} {ML : MetadataLaws S}.
Implicit Types (svc : ProxyService) (net : Network) (p : @ProxyState UL URL S).

(** *** Origins *)

Lemma calls_configured {A} cache_ c svc pr (m : M (@ProxyState UL URL S) ProxyError A) p :
  ProxyService_new cache_ c = Ok svc -> calls (fun call => origin_allowed svc pr (call_url call)) 18 m ->
  exists new, up_log (p_up (m p).2) = new ++ up_log (p_up p) /\ (length new <= 18)%nat
    /\ Forall (fun call => exists o, url_origin (call_url call) = Some o /\ configured_origin c pr o) new.
Proof.
  intros Hs Hm. destruct (Hm p) as (new & E & HF & Hl). exists new. split; [done|]. split; [done|].
  eapply Forall_impl; [exact HF|]. intros call (o & Ho & Hin). exists o. split; [done|]. by eapply allowed_configured.
Qed.

(** C8: The proxy contacts only configured origins: whatever path or encoded URL a client asks for,
    whatever the upstreams answer and wherever they redirect to, every request goes to the origin
    of the protocol's upstream, of an operator-supplied entry or of Python's public download host,
    and at most eighteen requests (six hops of three attempts) are made. *)
Theorem proxy_contacts_configured_origins cache_ c svc net name channel pr path_ t encoded suffix p :
  ProxyService_new cache_ c = Ok svc ->
  let contacted (m : M (@ProxyState UL URL S) ProxyError ProxyOutcome) :=
    exists new, up_log (p_up (m p).2) = new ++ up_log (p_up p) /\ (length new <= 18)%nat
      /\ Forall (fun call => exists o, url_origin (call_url call) = Some o /\ configured_origin c pr o) new in
  contacted (fetch svc net name channel pr path_ t) /\ contacted (fetch_encoded_url svc net name channel pr encoded suffix).
Proof.
  intros Hs contacted. split; eapply calls_configured; try exact Hs; apply calls_lift_bind; intros u Hu; apply calls_fetch_url.
  - by eapply url_for_allowed.
  - by eapply decode_url_allowed.
Qed.

(** Upstream permits and coalescing entries are always given back: however a fetch ends, the
    permits free and the coalescing map are what they were. *)
Theorem proxy_resources_conserved svc net name channel pr path_ t encoded suffix p :
  flights_wf p ->
  let restored (m : M (@ProxyState UL URL S) ProxyError ProxyOutcome) :=
    up_permits (p_up (m p).2) = up_permits (p_up p) /\ up_flights (p_up (m p).2) = up_flights (p_up p) in
  restored (fetch svc net name channel pr path_ t) /\ restored (fetch_encoded_url svc net name channel pr encoded suffix).
Proof.
  intros Hp restored. split; apply settles_bind; try done; try apply settles_quiet; intros u; apply settles_fetch_url.
Qed.

(** *** Reference names *)

Lemma reference_preimage_inj (u u' : Url) (v v' : bytes) :
  is_u64 (Z.of_nat (length (url_as_str u))) -> is_u64 (Z.of_nat (length (url_as_str u'))) ->
  reference_preimage u v = reference_preimage u' v' -> u = u' /\ v = v'.
Proof.
  intros Hu Hu' H. unfold reference_preimage in H.
  apply app_inj_1 in H as [H1 H2]; [|by rewrite !length_be_bytes].
  assert (length (url_as_str u) = length (url_as_str u')) as Hl.
  { apply (f_equal be_value) in H1. rewrite !be_value_be_bytes in H1 by lia.
    unfold is_u64, u64_max in *. rewrite !Z.mod_small in H1 by (cbn; lia). lia. }
  apply app_inj_1 in H2 as [H2 ->]; [|done]. split; [|done].
  apply (f_equal url_parse) in H2. rewrite !url_parse_as_str in H2. congruence.
Qed.

(** Cached package documents are never confused: two references are the same only for the same
    protocol, URL and representation, or for URLs whose SHA-256 preimages, which differ, collide;
    and no name a client may bind, nor the name of a build-cache entry, is one of them. *)
Theorem proxy_reference_identifies pr pr' u u' (t t' name kind key : bytes) r :
  is_u64 (Z.of_nat (length (url_as_str u))) -> is_u64 (Z.of_nat (length (url_as_str u'))) ->
  (proxy_reference pr u t = proxy_reference pr' u' t' ->
   pr = pr' /\ ((u = u' /\ t = t')
     \/ (reference_preimage u t ≠ reference_preimage u' t'
         /\ sha256 (reference_preimage u t) = sha256 (reference_preimage u' t'))))
  /\ (Reference_parse name = Ok r -> r ≠ proxy_reference pr u t)
  /\ build_reference kind key ≠ proxy_reference pr u t.
Proof.
  intros Hu Hu'. split; [|split; [|done]].
  - intros H. unfold proxy_reference in H. apply app_inv_head in H.
    assert (pr = pr' /\ hex_encode (b32 (sha256 (reference_preimage u t))) = hex_encode (b32 (sha256 (reference_preimage u' t')))) as [-> E].
    { destruct pr, pr'; try discriminate H; (split; [done|]); by repeat apply app_inv_head in H. }
    split; [done|]. apply hex_encode_inj, bytes32_eq in E.
    destruct (decide (reference_preimage u t = reference_preimage u' t')) as [Heq|Hne]; [left|by right].
    by apply reference_preimage_inj.
  - unfold Reference_parse. destruct (Reference_is_valid name) eqn:E; [|done]. intros [= <-] ->.
    rewrite colon_invalid in E; [done|]. unfold proxy_reference. apply elem_of_app. left.
    repeat (apply elem_of_cons; (left; reflexivity) || right).
Qed.

(** *** Links *)

(** The strings under [tarball] keys, in document order, and the document without them. *)
Fixpoint tarball_links (v : Value) : list bytes :=
  match v with
  | Object fields =>
      concat (map (fun f => if bool_decide (f.1 = lit "tarball")
                            then match f.2 with JString s => [s] | _ => [] end else tarball_links f.2) fields)
  | Array values => concat (map tarball_links values)
  | _ => []
  end.

Fixpoint without_links (v : Value) : Value :=
  match v with
  | Object fields =>
      Object (map (fun f => (f.1, if bool_decide (f.1 = lit "tarball")
                                  then match f.2 with JString _ => Null | x => x end else without_links f.2)) fields)
  | Array values => Array (map without_links values)
  | _ => v
  end.

(** Induction through arrays and objects. *)
Lemma Value_ind_nested (P : Value -> Prop) :
  P Null -> (forall b, P (Bool b)) -> (forall n, P (Number n)) -> (forall s, P (JString s)) ->
  (forall vs, Forall P vs -> P (Array vs)) -> (forall fs, Forall (fun f => P f.2) fs -> P (Object fs)) -> forall v, P v.
Proof.
  intros H1 H2 H3 H4 H5 H6. fix IH 1. intros [|b|n|s|vs|fs]; [done|apply H2|apply H3|apply H4| |].
  - apply H5. induction vs as [|v vs IHvs]; constructor; [apply IH|exact IHvs].
  - apply H6. induction fs as [|[k v] fs IHfs]; constructor; [apply IH|exact IHfs].
Qed.

(** What a tarball link becomes. *)
Definition rerouted (upstream : Url) (prefix : bytes) (origins : gset Origin) (link : bytes) : bytes :=
  match allowed_link upstream origins link with
  | Some u => prefix ++ NPM_TARBALL ++ base64_url_encode (url_as_str u)
  | None => link
  end.

Lemma rewrite_tarballs_spec (upstream : Url) (prefix : bytes) (origins : gset Origin) (v : Value) :
  tarball_links (rewrite_tarballs upstream prefix origins v) = map (rerouted upstream prefix origins) (tarball_links v)
  /\ without_links (rewrite_tarballs upstream prefix origins v) = without_links v.
Proof.
  induction v as [|b|n|s|vs HF|fs HF] using Value_ind_nested; try done; cbn [rewrite_tarballs tarball_links without_links].
  - induction HF as [|v vs [E1 E2] _ [IH1 IH2]]; [done|]. cbn [map concat]. rewrite E1, E2, map_app.
    split; [congruence|]. injection IH2 as ->. done.
  - induction HF as [|[k v] fs [E1 E2] _ [IH1 IH2]]; [done|]. cbn [map concat fst snd] in *. apply (f_equal (fun v => match v with Object fs => fs | _ => [] end)) in IH2; cbv beta iota in IH2.
    rewrite map_app, IH2. case_bool_decide as Hk; cbn [fst snd].
    + destruct v as [|b|n|s|l|l]; cbn [app]; try (split; [exact IH1|done]).
      cbn [map app]. unfold rerouted at 1. rewrite <- IH1. by destruct (allowed_link upstream origins s).
    + rewrite E1, E2, IH1. done.
Qed.

Definition fetchable (u : Url) : bool :=
  is_http u && bool_decide (url_username u = []) && negb (bool_decide (is_Some (url_password u))).

Lemma decode_url_encoded svc pr u suffix :
  decode_url svc pr (base64_url_encode (url_as_str u)) suffix
  = if fetchable u then
      let u' := match suffix with [] => u | _ :: _ => url_set_path (url_path u ++ suffix) u end in
      match check_origin svc pr u' with Ok _ => Ok u' | Err e => Err e end
    else Err InvalidEncodedUrl.
Proof.
  unfold decode_url, fetchable. rewrite base64_url_decode_encode, url_as_str_utf8, url_parse_as_str. cbn [negb].
  destruct (is_http u); [|done]. destruct (bool_decide (url_username u = [])); [|done]. by case_bool_decide.
Qed.

Lemma allowed_link_origin svc pr upstream link u :
  allowed_link upstream (for_protocol (allowed svc) pr) link = Some u -> origin_allowed svc pr u.
Proof.
  unfold allowed_link. destruct (url_join upstream link) as [u0|]; [|done]. destruct (url_origin u0) as [o|] eqn:E; [|done].
  case_bool_decide; [|done]. intros [= <-]. by exists o.
Qed.

Lemma check_allowed_origin svc pr u : origin_allowed svc pr u -> check_origin svc pr u = Ok tt.
Proof. apply check_origin_ok. Qed.

Lemma strip_prefix_dot (q s : bytes) r : strip_prefix q s = Some r -> "."%char ∈ q -> "."%char ∈ s.
Proof.
  revert s. induction q as [|c q IH]; intros s H Hin; [by apply elem_of_nil in Hin|]. destruct s as [|d s]; [done|]. cbn in H.
  case_bool_decide as E; [|done]. subst d. apply elem_of_cons. apply elem_of_cons in Hin as [->|Hin]; [by left|right; eauto].
Qed.

Lemma base64_no_dot b : "."%char ∉ base64_url_encode b.
Proof. intros H. pose proof (base64_url_alphabet b) as HF. rewrite Forall_forall in HF. by specialize (HF _ H). Qed.

Lemma elem_of_rev {A} (x : A) l : x ∈ rev l <-> x ∈ l.
Proof. rewrite !list_elem_of_In. symmetry. apply in_rev. Qed.

Lemma strip_suffix_none (suffix b : bytes) : "."%char ∈ suffix -> strip_suffix suffix (base64_url_encode b) = None.
Proof.
  intros Hs. unfold strip_suffix. destruct (strip_prefix _ _) eqn:E; [|done]. exfalso. apply (base64_no_dot b).
  apply strip_prefix_dot in E; by apply elem_of_rev.
Qed.

Lemma strip_suffix_app (suffix b : bytes) : strip_suffix suffix (b ++ suffix) = Some b.
Proof. unfold strip_suffix. rewrite rev_app_distr, strip_prefix_app. cbn. by rewrite rev_involutive. Qed.

Lemma split_sidecar_encoded b :
  split_sidecar (base64_url_encode b) = (base64_url_encode b, [])
  /\ split_sidecar (base64_url_encode b ++ lit ".metadata") = (base64_url_encode b, lit ".metadata")
  /\ split_sidecar (base64_url_encode b ++ lit ".asc") = (base64_url_encode b, lit ".asc").
Proof.
  unfold split_sidecar. split; [|split].
  - rewrite !strip_suffix_none; [done|by left..].
  - by rewrite strip_suffix_app.
  - assert (strip_suffix (lit ".metadata") (base64_url_encode b ++ lit ".asc") = None) as ->.
    { unfold strip_suffix. by rewrite rev_app_distr. }
    by rewrite strip_suffix_app.
Qed.

Lemma fetchable_scheme u : fetchable u = true -> url_scheme u = lit "http" \/ url_scheme u = lit "https".
Proof.
  unfold fetchable, is_http. intros [[H _]%andb_true_iff _]%andb_true_iff. apply orb_true_iff in H as [H|H]; apply bool_decide_eq_true in H; auto.
Qed.

(** A tarball link to an allowed origin that carries credentials, or whose scheme is not http, is
    rewritten all the same, to a route that is refused. *)
Theorem refused_tarball_is_rewritten svc upstream (prefix link : bytes) u :
  allowed_link upstream (allowed_npm (allowed svc)) link = Some u -> fetchable u = false ->
  exists encoded, rewrite_tarballs upstream prefix (allowed_npm (allowed svc)) (Object [(lit "tarball", JString link)])
      = Object [(lit "tarball", JString (prefix ++ NPM_TARBALL ++ encoded))]
    /\ decode_url svc Npm encoded [] = Err InvalidEncodedUrl.
Proof.
  intros Hl Hf. exists (base64_url_encode (url_as_str u)). split; [|by rewrite decode_url_encoded, Hf].
  cbn [rewrite_tarballs map fst snd]. rewrite bool_decide_true by done. by rewrite Hl.
Qed.

(** C17: The links of rewritten documents lead back to what they replaced.  In npm metadata only
    tarball links change, and only those to an allowed origin; a link that stood for an http URL
    without credentials becomes a route of this proxy whose fetch goes to the very URL.  A Python
    download link to such a URL decodes to it without its fragment, which stays on the link, and
    with a sidecar suffix to the URL with the suffix on its path.  (A tarball link of an allowed
    origin that carries credentials is rewritten too, and its route refused: see
    [refused_tarball_is_rewritten].) *)
Theorem rewritten_links_lead_back svc upstream (prefix link : bytes) (v : Value) u :
  let v' := rewrite_tarballs upstream prefix (allowed_npm (allowed svc)) v in
  (without_links v' = without_links v
   /\ Forall2 (fun old new =>
        match allowed_link upstream (allowed_npm (allowed svc)) old with
        | None => new = old
        | Some u => fetchable u = true -> exists encoded, new = prefix ++ lit "/proxy/npm/" ++ lit "-/tarball/" ++ encoded
            /\ decode_url svc Npm encoded [] = Ok u
        end) (tarball_links v) (tarball_links v'))
  /\ (allowed_link upstream (allowed_python (allowed svc)) link = Some u -> fetchable u = true ->
      exists encoded, routed_download_url prefix PYTHON_FILES u
          = prefix ++ PYTHON_FILES ++ lit "/" ++ encoded ++ match url_fragment u with Some f => lit "#" ++ f | None => [] end
        /\ let page := url_set_fragment None u in
           (let '(e, suffix) := split_sidecar encoded in decode_url svc Python e suffix) = Ok page
           /\ forall suffix, suffix ∈ [lit ".metadata"; lit ".asc"] ->
              (let '(e, suffix) := split_sidecar (encoded ++ suffix) in decode_url svc Python e suffix)
              = Ok (url_set_path (url_path page ++ suffix) page)).
Proof.
  intros v'. split.
  - destruct (rewrite_tarballs_spec upstream prefix (allowed_npm (allowed svc)) v) as [E1 E2]. fold v' in E1, E2.
    split; [exact E2|]. rewrite E1. apply Forall2_fmap_r, Forall_Forall2_diag, Forall_forall. intros old _. unfold compose, rerouted. cbv beta.
    destruct (allowed_link upstream (allowed_npm (allowed svc)) old) as [x|] eqn:Ex; [|done].
    intros Hf. exists (base64_url_encode (url_as_str x)). split; [done|]. rewrite decode_url_encoded, Hf. cbn zeta beta iota.
    apply (allowed_link_origin svc Npm) in Ex. by rewrite check_allowed_origin.
  - intros Hl Hf. apply (allowed_link_origin svc Python) in Hl as (o & Ho & Hin).
    set (page := url_set_fragment None u). exists (base64_url_encode (url_as_str page)). split; [done|].
    assert (fetchable page = true) as Hp.
    { unfold fetchable, is_http, page in *. by rewrite url_set_fragment_scheme, url_set_fragment_username, url_set_fragment_password. }
    destruct (split_sidecar_encoded (url_as_str page)) as (S1 & S2 & S3). split.
    + rewrite S1, decode_url_encoded, Hp. cbn zeta beta iota. rewrite check_allowed_origin; [done|].
      exists o. unfold page. by rewrite url_set_fragment_origin by (by apply fetchable_scheme).
    + intros suffix Hs. assert (origin_allowed svc Python (url_set_path (url_path page ++ suffix) page)) as Hok.
      { exists o. rewrite url_set_path_origin by (by apply fetchable_scheme). unfold page.
        by rewrite url_set_fragment_origin by (by apply fetchable_scheme). }
      assert (split_sidecar (base64_url_encode (url_as_str page) ++ suffix) = (base64_url_encode (url_as_str page), suffix)
              /\ suffix ≠ []) as [-> Hne].
      { apply elem_of_cons in Hs as [->|Hs%list_elem_of_singleton]; [by rewrite S2|subst suffix; by rewrite S3]. }
      rewrite decode_url_encoded, Hp. destruct suffix; [done|]. cbn zeta. by rewrite check_allowed_origin.
Qed.

(** *** Caching *)

(** A package document that is still fresh costs no upstream call: inside the revalidation
    interval the recorded artifact is the answer, nothing is sent and no row changes; the only
    other outcome is an error of the store. *)
Theorem fresh_package_needs_no_upstream svc net name c pr u v p r :
  viewed v (p_world p) -> mv_references v !! (c, proxy_reference pr u []) = Some r -> is_fresh svc r (p_world p) = true ->
  let '(o, p') := fetch_url svc net name c pr u NoTransform p in
  match o with Ok o => o = OutArtifact (ref_artifact r) | Err e => environmental e end
  /\ up_log (p_up p') = up_log (p_up p) /\ viewed v (p_world p').
Proof.
  intros Hv Hr Hf. unfold fetch_url. change (cache_variant NoTransform) with (@nil ascii). set (n := proxy_reference pr u []) in *.
  unfold mbind at 1, M_bind at 1. destruct (p_cache (resolve_reference c n) p) as [res p1] eqn:E1.
  apply (resolve_run c n v) in E1 as (Hv1 & Hp1 & Hres); [|done]. destruct res as [found|e]; [|by rewrite Hp1].
  subst found. rewrite Hr. unfold mbind, M_bind. rewrite fresh_raw.
  assert (is_fresh svc r (p_world p1) = true) as -> by (rewrite Hp1; exact Hf).
  split; [done|]. split; [by rewrite Hp1|exact Hv1].
Qed.

Lemma steady_after (files : ArtifactFiles) v w db ticks :
  steady files v w -> viewed v (set_ticks ticks (set_db db w)) -> steady files v (set_ticks ticks (set_db db w)).
Proof. intros (_ & ? & ? & ?) Hv. by split. Qed.

(** C16: A package fetched for the first time is cached as the upstream sent it: the answer is an
    answer of the network; on a success its whole body is in the cache under the digest of its
    bytes and the reference bound to it with the upstream's validators; under disk pressure the
    untouched body is passed on and nothing is stored; any other answer is passed on with its
    status. *)
Theorem fetched_package_is_cached rest svc net name c pr u v p o p' :
  0 <= rest -> files_wf (cache_files (proxy_cache svc)) -> 0 <= max_upload_bytes (proxy_cache svc) ->
  disk_ok rest (cache_files (proxy_cache svc)) (p_world p) -> steady (cache_files (proxy_cache svc)) v (p_world p) ->
  mv_references v !! (c, proxy_reference pr u []) = None ->
  fetch_url svc net name c pr u NoTransform p = (Ok o, p') ->
  exists response, answered net response /\
    match o with
    | OutArtifact a => status_is_success (up_status response) = true
        /\ exists v' chunks r, steady (cache_files (proxy_cache svc)) v' (p_world p')
          /\ up_stream response = Ok <$> chunks /\ digest_array (digest a) = sha256 (concat chunks)
          /\ is_Some (mv_artifacts v' !! (c, a))
          /\ mv_references v' !! (c, proxy_reference pr u []) = Some r /\ ref_artifact r = a
          /\ etag r = header_string (header (lit "etag") (up_headers response))
          /\ last_modified r = header_string (header (lit "last-modified") (up_headers response))
    | UpstreamStream s stream _ => s = up_status response /\ stream = up_stream response
        /\ w_fs (p_world p') = w_fs (p_world p) /\ w_space (p_world p') = w_space (p_world p) /\ viewed v (p_world p')
    | OutUpstream s b _ => s = up_status response /\ status_is_success s = false /\ collect_stream (up_stream response) = Some b
    | CachedMetadata _ _ => False
    end.
Proof.
  intros Hr Hf Hm Hd Hst Hn H. apply (fetch_url_ok svc net name c pr u v) in H; [|apply Hst]. cbn zeta in H.
  destruct H as [(r & Hr' & _)|(db & ticks & response & q & q' & Hq & Hvq & Ha & Hw & H)]; [congruence|].
  exists response. split; [done|]. rewrite Hn in H. destruct (_ =? 304); [discriminate|].
  unfold handle_response in H. destruct (status_is_success _) eqn:Es; cbn [negb] in H.
  2: { apply bind_ok in H as (b & q1 & H1 & H). destruct (collect_stream _) as [b'|] eqn:Eb; [|discriminate].
       injection H1 as <- <-. injection H as <- _. done. }
  unfold serve_raw in H. apply bind_ok in H as (admission & q1 & H1 & H). apply p_cache_ok in H1 as [H1 Hq1].
  set (request := Build_PublishRequest _ _ _ _ _ _ _) in H1. rewrite Hq in H1.
  assert (steady (cache_files (proxy_cache svc)) v (set_ticks ticks (set_db db (p_world p)))) as Hst'
    by (apply steady_after; [done|by rewrite <- Hq]).
  assert (request_wf (max_upload_bytes (proxy_cache svc)) (req_content_length request)) as Hwf
    by (split; [done|]; cbn; intros k; apply content_length_nonneg).
  destruct admission as [pub|stream].
  - apply (publish_request_ok rest _ _ _ v) in H1 as (v1 & b & Hst1 & (chunks & Hch & ->) & _ & Hdig & _ & Hart & _); try done.
    apply bind_ok in H as (x & q2 & H2 & H). apply p_cache_ok in H2 as [H2 Hq2]. injection H as <- <-.
    eapply bind_records in H2 as (v2 & time & Hst2 & Ha2 & Hr2); [|exact Hst1].
    split; [done|]. exists v2, chunks. eexists. rewrite Hw. split; [exact Hst2|]. split; [exact Hch|]. split; [exact Hdig|].
    split; [rewrite Ha2; exact Hart|]. split; [exact Hr2|]. done.
  - injection H as <- <-. apply (publish_rejected rest) in H1 as [-> Hw1]; [|done..|apply Hd]. rewrite Hw, Hw1. split; [done|]. split; [done|].
    split; [done|]. split; [done|]. apply Hst'.
Qed.

Lemma missing_artifact_answer (cfg : HttpConfig) c a v (s : AppState) :
  steady (cache_files (http_cache cfg)) v (world s) -> mv_artifacts v !! (c, a) = None ->
  status (respond (serve_artifact cfg c a [] false) s).1 ∈ [404; 429; 500].
Proof.
  intros Hst Hn. unfold serve_artifact, with_permit, respond. destruct (acquire_foreground s) as [[] s1] eqn:Ea; [|set_solver].
  unfold acquire_foreground in Ea. destruct (foreground s) as [|k]; [discriminate|]. injection Ea as <-.
  unfold mbind, M_bind, cache, try, zoom.
  match goal with |- context [locate ?cf ?ch ?ar ?w] => destruct (locate cf ch ar w) as [[found|e] w'] eqn:El end.
  - apply (locate_ok _ _ _ v) in El as [_ Hf]; [|exact Hst]. rewrite Hn in Hf. subst found. cbn. set_solver.
  - cbn. set_solver.
Qed.

(** A package whose body was reclaimed stays unavailable while its upstream answers 304: the
    fetch succeeds with the missing artifact, which the shard cannot serve, and renews the binding,
    so that requests until the next revalidation do not ask the upstream either. *)
Theorem reclaimed_package_stays_missing svc net name (cfg : HttpConfig) c pr u v p r o p' (s : AppState) :
  steady (cache_files (proxy_cache svc)) v (p_world p) -> http_cache cfg = proxy_cache svc ->
  mv_references v !! (c, proxy_reference pr u []) = Some r -> mv_artifacts v !! (c, ref_artifact r) = None ->
  (forall log call response, net log call = Ok response -> up_status response = 304) ->
  fetch_url svc net name c pr u NoTransform p = (Ok o, p') -> world s = p_world p' ->
  o = OutArtifact (ref_artifact r)
  /\ status (respond (serve_artifact cfg c (ref_artifact r) [] false) s).1 ∈ [404; 429; 500]
  /\ exists v' r', steady (cache_files (proxy_cache svc)) v' (p_world p')
     /\ mv_references v' !! (c, proxy_reference pr u []) = Some r' /\ ref_artifact r' = ref_artifact r
     /\ mv_artifacts v' !! (c, ref_artifact r') = None.
Proof.
  intros Hst Hcfg Hr Ha Hnet H Hs.
  enough (o = OutArtifact (ref_artifact r) /\ exists v' r', steady (cache_files (proxy_cache svc)) v' (p_world p')
     /\ mv_references v' !! (c, proxy_reference pr u []) = Some r' /\ ref_artifact r' = ref_artifact r
     /\ mv_artifacts v' !! (c, ref_artifact r') = None) as (Ho & v' & r' & Hst' & Hr' & Ear & Ha').
  { split; [done|]. split; [|eauto 8]. apply (missing_artifact_answer _ _ _ v'); [by rewrite Hs, Hcfg|by rewrite <- Ear]. }
  apply (fetch_url_ok svc net name c pr u v) in H; [|apply Hst]. cbn zeta in H.
  destruct H as [(r0 & Hr0 & -> & db & ticks & Hw & Hv')|(db & ticks & response & q & q' & Hq & Hvq & (log & call & Hcall) & Hw & H)].
  - rewrite Hr in Hr0. injection Hr0 as <-. split; [done|]. exists v, r. split; [|done].
    rewrite Hw in Hv' |- *. by apply steady_after.
  - rewrite (Hnet _ _ _ Hcall), Hr in H. unfold revalidated in H. cbn [Z.eqb Pos.eqb] in H.
    apply bind_ok in H as (r0 & q1 & H1 & H). injection H1 as <- <-.
    apply bind_ok in H as (x & q2 & H2 & H). apply p_cache_ok in H2 as [H2 Hq2]. rewrite Hq in H2.
    eapply bind_records in H2 as (v2 & time & Hst2 & Ha2 & Hr2); [|apply steady_after; [exact Hst|by rewrite <- Hq]].
    injection H as <- <-. split; [done|]. eexists v2, _. rewrite Hw. split; [exact Hst2|]. split; [exact Hr2|].
    split; [done|]. cbn. by rewrite Ha2.
Qed.
End Claims.

Section Witnesses.
#[local] Existing Instances toy_ulid toy_ulid_laws real_hex real_hex_laws toy_sha256 toy_zstd toy_zstd_laws.
#[local] Existing Instances toy_base64 toy_base64_laws toy_hasher toy_store toy_store_laws toy_url toy_url_laws toy_json toy_html.

Definition sample_config : Config := Config_new [lit "data"].

Definition go_url : Url := mkToyUrl (lit "https://proxy.golang.org/pkg") eq_refl.

Definition sample_allowed : gset Origin := {[ [lit "https:"; []; lit "proxy.golang.org"] ]}.

Definition sample_service : ProxyService := {|
  proxy_cache := sample_cfg;
  bases := {| base_go := go_url; base_python := go_url; base_npm := go_url; base_cargo_index := go_url; base_cargo_crate := go_url |};
  allowed := {| allowed_go := sample_allowed; allowed_python := sample_allowed; allowed_npm := sample_allowed;
                allowed_cargo_index := sample_allowed; allowed_cargo_crate := sample_allowed |};
  ttl := 300 |}.

Definition idle : UpstreamState := {| up_log := []; up_permits := 1; up_flights := ∅ |}.

Definition over (w : World MemDB) : ProxyState := {| p_world := w; p_up := idle |}.

(** Every upstream answers with one package, or that nothing changed. *)
Definition package_net : Network := fun _ _ =>
  Ok {| up_status := 200; up_headers := [(lit "etag", lit "v1")]; up_stream := sample_stream |}.
Definition unchanged_net : Network := fun _ _ => Ok {| up_status := 304; up_headers := []; up_stream := [] |}.

Lemma sample_service_new : exists svc, ProxyService_new sample_cfg sample_config = Ok svc.
Proof.
  assert (is_ok (ProxyService_new sample_cfg sample_config) = true) as H by (vm_compute; reflexivity).
  destruct (ProxyService_new sample_cfg sample_config) as [svc|e]; [by exists svc|discriminate].
Qed.

Lemma proxy_contacts_configured_origins_witness :
  exists svc new, ProxyService_new sample_cfg sample_config = Ok svc
    /\ up_log (p_up (fetch svc package_net (lit "t") channel_a Go (lit "pkg") NoTransform (over (open_shard [] []))).2) = new ++ []
    /\ (length new <= 18)%nat.
Proof.
  destruct sample_service_new as [svc Hs]. exists svc.
  destruct (proxy_contacts_configured_origins sample_cfg sample_config svc package_net (lit "t") channel_a Go (lit "pkg") NoTransform
    [] [] (over (open_shard [] [])) Hs) as [(new & H1 & H2 & _) _].
  exists new. exact (conj Hs (conj H1 H2)).
Defined.

Lemma proxy_resources_conserved_witness :
  up_permits (p_up (fetch sample_service package_net (lit "t") channel_a Go (lit "pkg") NoTransform (over (open_shard [] []))).2) = 1%nat.
Proof.
  destruct (proxy_resources_conserved sample_service package_net (lit "t") channel_a Go (lit "pkg") NoTransform [] []
    (over (open_shard [] [])) (map_Forall_empty _)) as [[H _] _].
  exact H.
Defined.

Lemma proxy_reference_identifies_witness :
  build_reference (lit "http") (lit "k") ≠ proxy_reference Go go_url [].
Proof.
  destruct (proxy_reference_identifies Go Go go_url go_url [] [] (lit "n") (lit "http") (lit "k") (lit "n")) as (_ & _ & H).
  - split; discriminate.
  - split; discriminate.
  - exact H.
Defined.

Definition tarball_doc : Value := Object [(lit "tarball", JString (lit "https://proxy.golang.org/x.tgz")); (lit "n", Null)].

Lemma rewritten_links_lead_back_witness :
  without_links (rewrite_tarballs go_url [] sample_allowed tarball_doc) = without_links tarball_doc
  /\ exists encoded, routed_download_url [] PYTHON_FILES (mkToyUrl (lit "https://proxy.golang.org/f") eq_refl)
       = [] ++ PYTHON_FILES ++ lit "/" ++ encoded ++ [].
Proof.
  destruct (rewritten_links_lead_back sample_service go_url [] (lit "https://proxy.golang.org/f") tarball_doc
    (mkToyUrl (lit "https://proxy.golang.org/f") eq_refl)) as [[H1 _] H2].
  destruct H2 as (encoded & H2 & _); [vm_compute; reflexivity|vm_compute; reflexivity|].
  split; [exact H1|]. exists encoded. exact H2.
Defined.

(** A shard in which the package's reference is bound to [content]. *)
Definition bound_to (content : string) (w : World MemDB) : World MemDB :=
  shard_step sample_cfg (Bind channel_a (proxy_reference Go go_url []) (sample_artifact content) None None BestEffort) w.

Lemma bound_steady content w v :
  disk_ok 0 sample_files w -> steady sample_files v w ->
  is_ok (bind_reference_with_validators channel_a (proxy_reference Go go_url []) (sample_artifact content) None None BestEffort w).1 = true ->
  exists v', steady sample_files v' (bound_to content w).
Proof.
  intros Hd Hst Hok. destruct (ok_run _ _ Hok) as [x Hx].
  refine (completed_steady 0 sample_cfg (Bind channel_a (proxy_reference Go go_url []) (sample_artifact content) None None BestEffort) v w _
    ltac:(discriminate) sample_files_wf ltac:(discriminate) I Hd Hst _).
  econstructor. exact Hx.
Qed.

Definition sample_reference : ReferenceRecord :=
  {| ref_artifact := sample_artifact "hello world"; updated_at := 1001; etag := None; last_modified := None |}.

Lemma found_reference : (resolve_reference channel_a (proxy_reference Go go_url []) (bound_to "hello world" (open_shard [] []))).1
  = Ok (Some sample_reference).
Proof. vm_compute. reflexivity. Qed.

(** What a lookup found is in the view. *)
Lemma found_in_view v w n x :
  viewed v w -> (resolve_reference (S:=MemDB) channel_a n w).1 = Ok x -> mv_references v !! (channel_a, n) = x.
Proof.
  intros Hv E. destruct (resolve_reference channel_a n w) as [r w'] eqn:Er. cbn in E. subst r.
  apply (c_meta_ok _ (v_reference channel_a n) v) in Er as ([= Hf] & _); [done|apply reference_law|done].
Qed.

Lemma bound_hello : exists v, steady sample_files v (bound_to "hello world" (open_shard [] [])).
Proof.
  destruct open_shard_steady as [v Hv]. apply (bound_steady _ _ v (open_shard_disk _ _) Hv). vm_compute. reflexivity.
Qed.

Lemma fresh_package_needs_no_upstream_witness :
  up_log (p_up (fetch_url sample_service unchanged_net (lit "t") channel_a Go go_url NoTransform
    (over (bound_to "hello world" (open_shard [] [])))).2) = [].
Proof.
  destruct bound_hello as [v Hv].
  pose proof (fresh_package_needs_no_upstream sample_service unchanged_net (lit "t") channel_a Go go_url v
    (over (bound_to "hello world" (open_shard [] []))) sample_reference (proj1 Hv)
    (found_in_view v _ _ _ (proj1 Hv) found_reference) ltac:(vm_compute; reflexivity)) as H.
  destruct (fetch_url _ _ _ _ _ _ _ _) as [o p']. exact (proj1 (proj2 H)).
Defined.

Lemma sample_fetched :
  (fetch_url sample_service package_net (lit "t") channel_a Go go_url NoTransform (over (open_shard [] []))).1
  = Ok (OutArtifact (sample_artifact "hello world")).
Proof. vm_compute. reflexivity. Qed.

Lemma not_found_reference : (resolve_reference channel_a (proxy_reference Go go_url []) (open_shard [] [])).1 = Ok None.
Proof. vm_compute. reflexivity. Qed.

Lemma fetched_package_is_cached_witness :
  exists response, answered package_net response /\ status_is_success (up_status response) = true.
Proof.
  destruct open_shard_steady as [v Hv].
  destruct (fetched_package_is_cached 0 sample_service package_net (lit "t") channel_a Go go_url v (over (open_shard [] [])) _ _
    ltac:(discriminate) sample_files_wf ltac:(discriminate) (open_shard_disk [] []) Hv
    (found_in_view v _ _ _ (proj1 Hv) not_found_reference) (run_eq _ _ sample_fetched)) as (response & Ha & H & _).
  exists response. exact (conj Ha H).
Defined.

Lemma gone_artifact : (c_meta (ms_artifact channel_a (sample_artifact "hello world")) (bound_to "hello world" (open_shard [] []))).1 = Ok None.
Proof. vm_compute. reflexivity. Qed.

Lemma gone_in_view v : viewed v (bound_to "hello world" (open_shard [] [])) ->
  mv_artifacts v !! (channel_a, ref_artifact sample_reference) = None.
Proof.
  intros Hv. pose proof gone_artifact as E. destruct (c_meta _ _) as [r w'] eqn:Er. cbn in E. subst r.
  apply (c_meta_ok _ (v_artifact channel_a (sample_artifact "hello world")) v) in Er as ([= Hf] & _); [exact Hf|apply artifact_law|done].
Qed.

Definition stale_service : ProxyService :=
  {| proxy_cache := sample_cfg; bases := bases sample_service; allowed := allowed sample_service; ttl := 0 |}.

Lemma refetched :
  (fetch_url stale_service unchanged_net (lit "t") channel_a Go go_url NoTransform (over (bound_to "hello world" (open_shard [] [])))).1
  = Ok (OutArtifact (sample_artifact "hello world")).
Proof. vm_compute. reflexivity. Qed.

Lemma reclaimed_package_stays_missing_witness :
  status (respond (serve_artifact {| http_cache := sample_cfg; default_expiry_seconds := 60 |} channel_a (sample_artifact "hello world") [] false)
    {| world := p_world (fetch_url stale_service unchanged_net (lit "t") channel_a Go go_url NoTransform
                  (over (bound_to "hello world" (open_shard [] [])))).2; foreground := 1 |}).1 ∈ [404; 429; 500].
Proof.
  destruct bound_hello as [v Hv].
  destruct (reclaimed_package_stays_missing stale_service unchanged_net (lit "t")
    {| http_cache := sample_cfg; default_expiry_seconds := 60 |} channel_a Go go_url v
    (over (bound_to "hello world" (open_shard [] []))) sample_reference _ _
    {| world := p_world (fetch_url stale_service unchanged_net (lit "t") channel_a Go go_url NoTransform
                  (over (bound_to "hello world" (open_shard [] [])))).2; foreground := 1 |}
    Hv eq_refl (found_in_view v _ _ _ (proj1 Hv) found_reference) (gone_in_view v (proj1 Hv))
    ltac:(intros log call response [= <-]; reflexivity) (run_eq _ _ refetched) eq_refl) as (_ & H & _).
  exact H.
Defined.
End Witnesses.
