(* ===== verification/Startup.v ===== *)
(** * Assembly of a shard ([lib.rs], [main.rs])

    Opening a shard on what an earlier process left behind, and the maintenance worker.  Opening
    the database files is RocksDB's; the format check that follows it is [ms_open]. *)

From S2P Require Import Prelude Externals Domain Metadata MetadataView MetadataStore Space RecentUse Filesystem ArtifactFiles World Config Channels Cache Text Http Web Negotiation Proxy.

Section Startup.
Context {UL : UlidLib} {HX : HexLib} {SH : Sha256Lib} {BS : Base64Lib} {ZS : ZstdLib} {DH : DefaultHasherLib}.
Context {URL : UrlLib}.
Context {S : Type} {MS : MetadataStore S}.

Inductive StartupError :=
| InvalidConfig (message : string)
| StartIo (e : io_error)
| StartStore (e : MetadataError)
| StartLocal (e : LocalError)
| StartChannels (e : ChannelError)
| StartCache (e : CacheError)
| StartProxy (e : bytes).

(** What [Flywheel] holds besides the shared state: the configuration of its services. *)
Record Flywheel := { fw_http : HttpConfig; fw_proxy : ProxyService; fw_candidate_limit : nat }.

Definition space_policy (c : Config) : SpacePolicy := {|
  low_watermark := low_watermark_bytes c; high_watermark := high_watermark_bytes c;
  emergency_headroom := emergency_headroom_bytes c |}.

(** A process that starts: store, disk and clock are what they are, everything in memory is new. *)
Definition boot (c : Config) (w : World S) : World S := {|
  w_db := w_db w; w_fs := w_fs w; w_space := SpaceLedger_new (space_policy c) None; w_recent := RecentUse_new (bloom_bits c);
  w_gates := ∅; w_cursor := 0; w_clock := w_clock w; w_ticks := w_ticks w; w_metrics := zero_metrics |}.

Definition start_fs {E A} (f : E -> StartupError) (m : M FS E A) : M (World S) StartupError A := fun w =>
  let '(r, fs) := m (w_fs w) in (map_err f r, set_local {| l_fs := fs; l_space := w_space w |} w).

Definition cache_config (c : Config) (files : ArtifactFiles) : CacheConfig := {|
  cache_files := files; max_upload_bytes := Config.max_upload_bytes c;
  reclaim_byte_limit := Config.reclaim_byte_limit c; orphan_scan_limit := Config.orphan_scan_limit c |}.

(** [sample] is the first observation of free space. *)
Definition open_internal (c : Config) (sample : option Z) : M (World S) StartupError Flywheel :=
  _ ← lift (map_err InvalidConfig (validate c));
  _ ← start_fs StartIo (create_dir_all (data_dir c));
  _ ← raising StartStore (in_db ms_open);
  files ← start_fs StartLocal (ArtifactFiles_open (data_dir c ++ [lit "artifacts"]) (reservation_extent_bytes c));
  _ ← raising StartChannels (ensure_default (Config.default_expiry_seconds c));
  _ ← raising StartChannels (resume_deletions files);
  _ ← modify (set_space (SpaceLedger_new (space_policy c) sample));
  _ ← raising StartCache (reconcile (cache_config c files));
  proxy ← lift (map_err StartProxy (ProxyService_new (cache_config c files) c));
  mret {| fw_http := {| http_cache := cache_config c files; default_expiry_seconds := Config.default_expiry_seconds c |};
          fw_proxy := proxy; fw_candidate_limit := reclaim_candidate_limit c |}.

(** *** The maintenance worker *)

(** One burst, [n] passes at most: [observations] are the samples of free space the passes take,
    [cancelled] says after which passes the process is shutting down.  The result is the number of
    passes made; [None] means more were to come. *)
Fixpoint run_maintenance_burst (fw : Flywheel) (observations : nat -> option Z) (cancelled : nat -> bool) (n : nat)
    (w : World S) : option nat * World S :=
  match n with
  | O => (None, w)
  | Datatypes.S k =>
      match flywheel_maintenance (http_cache (fw_http fw)) (observations 0%nat) (fw_candidate_limit fw) w with
      | (Err _, w) => (Some 1%nat, w)
      | (Ok reclaimed, w) =>
          let '(pressed, w) := is_reclaiming w in
          if negb pressed || cancelled 0%nat then (Some 1%nat, w)
          else
            let '(passes, w) := run_maintenance_burst fw (fun i => observations (Datatypes.S i)) (fun i => cancelled (Datatypes.S i)) k w in
            (Datatypes.S <$> passes, w)
      end
  end.
End Startup.
