(* ===== verification/StartupClaims.v ===== *)
(** * What opening a shard establishes

    A successful start re-establishes every invariant the services rely on, whatever history left
    the store and the disk behind; a maintenance burst ends when space is back. *)

From S2P Require Import Prelude Externals Domain Records Concrete Metadata MetadataView MetadataRefinement MetadataStore MetadataClaims Space RecentUse Filesystem ArtifactFiles FilesLemmas FilesClaims World Config Channels ChannelLemmas ChannelClaims Cache CacheLemmas CacheConsistency Shard DiskTree Samples CacheClaims Text Http Web Negotiation Proxy WebConcrete Startup.

Section Claims.
Context {UL : UlidLib} {ULL : UlidLaws} {HX : HexLib} {HXL : HexLaws} {SH : Sha256Lib} {BS : Base64Lib}.
Context {ZS : ZstdLib} {ZSL : ZstdLaws} {DH : DefaultHasherLib}.
Context {URL : UrlLib}.
Context {S : Type} {MS : MetadataStore S} {ML : MetadataLaws S}.
Implicit Types (v : MetaView) (w : World S) (c : Config).

(** *** Configuration *)

Lemma ensure_ok b m r x : ensure b m r = Ok x -> b = true /\ r = Ok x.
Proof. unfold ensure. by destruct b. Qed.

Lemma validate_ok c : validate c = Ok tt ->
  0 < Config.max_upload_bytes c /\ 0 < Config.default_expiry_seconds c /\ 0 < reservation_extent_bytes c
  /\ low_watermark_bytes c <= high_watermark_bytes c /\ 0 < bloom_bits c /\ (0 < reclaim_candidate_limit c)%nat
  /\ (0 < foreground_concurrency c)%nat /\ (0 < proxy_concurrency c)%nat.
Proof.
  unfold validate. intros H. repeat (apply ensure_ok in H as [? H]). clear H.
  rewrite !Nat.ltb_lt in *. zify_bool. lia.
Qed.

(** *** The default channel *)

(** What channel operations on the store leave alone. *)
Definition framed (l : Local SpaceLedger) w : Prop := get_local w = l /\ (forall n, 0 <= w_clock w n).

Lemma framed_store {A} l (m : M S MetadataError A) : preserves (framed l) (ch_store m).
Proof. intros w Hw. unfold ch_store, raising, in_db, zoom. by destruct (m (w_db w)) as [[] db]. Qed.

Lemma ensure_default_framed l expiry : preserves (framed l) (ensure_default (S:=S) expiry).
Proof.
  unfold ensure_default. apply preserves_bind; [apply framed_store|]. intros found. apply preserves_bind.
  - destruct found as [r|]; [apply preserves_ret|]. apply preserves_bind; [by intros w Hw|]. intros t.
    apply preserves_bind; [apply preserves_try, framed_store|].
    intros [?|[| | | | |[]|]]; try apply preserves_ret; try apply preserves_throw.
    apply preserves_bind; [apply framed_store|]. intros [?|]; [apply preserves_ret|apply preserves_throw].
  - intros record. apply preserves_bind; [case_bool; [apply preserves_ret|apply preserves_throw]|].
    intros _. apply preserves_modify. by intros w Hw.
Qed.

Lemma create_view_ok x v : 0 <= expiry_seconds x -> view_ok v -> view_ok (v_create_channel x v).2.
Proof.
  intros Hx [Hq He]. split.
  - pose proof (execute_queued (CreateChannel x) v Hq) as H. cbn in H. by rewrite v_answering_state in H.
  - pose proof (execute_expiries (CreateChannel x) v) as H. cbn in H. rewrite v_answering_state in H.
    apply H; [|done]. by intros y [[= <-]|?].
Qed.

(** Every record of the registry is still there. *)
Definition records_kept v v' : Prop := forall (id : ChannelId) r, mv_channels v !! id = Some r -> mv_channels v' !! id = Some r.

Lemma create_records record v0 v : records_kept v0 v -> records_kept v0 (v_create_channel record v).2.
Proof.
  intros H id r Hr%H. unfold v_create_channel. destruct (mv_channels v !! channel_id record) eqn:E; cbn; [exact Hr|].
  rewrite lookup_insert_ne; [exact Hr|]. intros <-. congruence.
Qed.

Lemma ensure_default_spec expiry v w u w' : 0 <= expiry ->
  viewed v w -> view_ok v -> ensure_default expiry w = (Ok u, w') ->
  exists v', viewed v' w' /\ view_ok v' /\ default_ok v' /\ records_kept v v'.
Proof.
  intros Hexp Hv Hok H. unfold ensure_default in H. apply bind_ok in H as (found & w1 & H1 & H).
  apply (ch_store_ok _ (v_channel DEFAULT) v) in H1 as ([= Hf] & Hv1 & _); [|apply channel_law|done]. cbn in Hv1.
  apply bind_ok in H as (record & w2 & H2 & H). apply bind_ok in H as (u3 & w3 & H3 & H4).
  assert (access record = Open /\ state record = Active /\ w3 = w2) as (Ha & Hs & ->).
  { destruct (bool_decide (access record = Open)) eqn:E1, (bool_decide (state record = Active)) eqn:E2; try done.
    injection H3 as _ <-. repeat split; by eapply bool_decide_eq_true. }
  injection H4 as _ <-.
  assert (exists v2, viewed v2 w2 /\ (view_ok v2 /\ records_kept v v2) /\ mv_channels v2 !! DEFAULT = Some record) as (v2 & Hv2 & [Hok2 Hkept] & Hl);
    [|exists v2; split; [exact Hv2|]; split; [done|]; split; [by exists record|done]].
  destruct found as [r|]; [injection H2 as -> <-; exists v; repeat split; [done|apply Hok|apply Hok|by intros id x|done]|].
  apply bind_ok in H2 as (t & w4 & H5 & H2). injection H5 as <- <-.
  apply bind_ok in H2 as (outcome & w5 & H5 & H2). unfold try in H5. set (fresh := Build_ChannelRecord _ _ _ _ _) in *.
  destruct (ch_store (ms_create_channel fresh) _) as [r w6] eqn:E. injection H5 as <- <-.
  destruct r as [[]|e].
  - apply (ch_store_ok _ (v_create_channel fresh) v) in E as (_ & Hv6 & _); [|apply create_channel_law|done].
    injection H2 as <- <-. exists (v_create_channel fresh v).2. split; [done|]. split; [split; [by apply create_view_ok|apply create_records; by intros id x]|].
    unfold v_create_channel. cbn. rewrite Hf. cbn. by rewrite lookup_insert_eq.
  - destruct e as [| | | | |me|le]; try done. destruct me; try done.
    assert (view_inv (fun v' => view_ok v' /\ records_kept v v') w6) as (v6 & Hv6 & Hok6).
    { pose proof (ch_store_inv (fun v' => view_ok v' /\ records_kept v v') _ _ (create_channel_law fresh)
        (fun v' H => conj (create_view_ok fresh v' Hexp (proj1 H)) (create_records fresh v v' (proj2 H)))
        (set_ticks (Datatypes.S (w_ticks w1)) w1) (ex_intro _ v (conj Hv1 (conj Hok (fun _ _ H => H))))) as HP.
      by rewrite E in HP. }
    apply bind_ok in H2 as (again & w7 & H7 & H8).
    apply (ch_store_ok _ (v_channel DEFAULT) v6) in H7 as ([= Hl] & Hv7 & _); [|apply channel_law|done].
    destruct again as [x|]; [|done]. injection H8 as <- <-. by exists v6.
Qed.

(** *** Opening *)

(** The sizes are machine integers. *)
Definition config_u64 c : Prop :=
  is_u64 (reservation_extent_bytes c) /\ is_u64 (emergency_headroom_bytes c)
  /\ is_u64 (low_watermark_bytes c) /\ is_u64 (high_watermark_bytes c).

Definition artifacts_of c : ArtifactFiles :=
  {| root := data_dir c ++ [lit "artifacts"]; reservation_extent := Z.max (reservation_extent_bytes c) 1 |}.

Lemma new_ledger_holds c sample : config_u64 c -> (forall x, sample = Some x -> is_u64 x) ->
  holds (SpaceLedger_new (space_policy c) sample) 0.
Proof.
  intros (_ & He & Hl & Hh) Hs. apply holds_refresh; [done|]. split; [|done].
  repeat split; cbn; try apply He; try apply Hl; try apply Hh; done.
Qed.

(** What the directories of a start must keep: the store, the clock, and a disk that is whole. *)
Definition prepared files v w : Prop :=
  viewed v w /\ (forall n, 0 <= w_clock w n) /\ disk_ok 0 files w /\ tree_closed (nodes (w_fs w)).

Lemma intact_make_dirs files ps t : intact files t -> intact files (fold_left make_dir ps t).
Proof. intros H. eapply intact_mono; [|exact H]. intros c a x. by rewrite make_dirs_files. Qed.

Lemma start_dirs {E A} files v (f : E -> StartupError) (m : M FS E A) p w x w' :
  (forall fs x fs', m fs = (Ok x, fs') -> exists u, create_dir_all p fs = (Ok u, fs')) ->
  prepared files v w -> start_fs f m w = (Ok x, w') -> prepared files v w'.
Proof.
  intros Hm (Hv & Hk & [Hh Hi] & Hc). unfold start_fs. destruct (m (w_fs w)) as [[y|e] fs] eqn:Em; [|done].
  intros [= <- <-]. apply Hm in Em as [u Ec].
  pose proof (create_dir_all_preserves (intact files) p (fun ps t _ => intact_make_dirs files ps t) (w_fs w) Hi) as HI.
  pose proof (ti_create_dir_all p (w_fs w) Hc) as HC. rewrite Ec in HI, HC. repeat split; [exact Hv|exact Hk|apply Hh..|exact HI|exact HC].
Qed.

Lemma open_files_dirs p extent fs x fs' :
  ArtifactFiles_open p extent fs = (Ok x, fs') ->
  x = {| root := p; reservation_extent := Z.max extent 1 |} /\ exists u, create_dir_all p fs = (Ok u, fs').
Proof.
  unfold ArtifactFiles_open, raising, mbind, M_bind. destruct (create_dir_all p fs) as [[u|e] fs1]; [|done].
  intros [= <- <-]. eauto.
Qed.

(** Reconciling reads the store and never writes it. *)
Lemma reconcile_view cfg v : preserves (view_inv (eq v)) (reconcile (S:=S) cfg).
Proof.
  assert (forall A (m : M (Local SpaceLedger) LocalError A), preserves (view_inv (eq v)) (c_local m : M (World S) CacheError A)) as Hlocal.
  { intros A m w Hw. unfold c_local, raising, in_local, zoom.
    destruct (m (get_local w)) as [[] l]; cbn; destruct Hw as (v' & ? & ?); by exists v'. }
  assert (forall (c : ChannelId) a, preserves (view_inv (eq v)) (c_meta (ms_artifact (S:=S) c a))) as Hread.
  { intros c a. apply preserves_raising. eapply in_db_inv; [apply artifact_law|done]. }
  unfold reconcile. apply preserves_bind; [apply Hlocal|]. intros _. apply preserves_bind; [apply Hlocal|]. intros orphans.
  apply preserves_for_each. intros [c a]. unfold reconcile_one. apply preserves_bind; [apply Hread|].
  intros [m|]; [apply preserves_ret|]. apply preserves_bind; [apply Hread|]. intros [m|]; [apply preserves_ret|apply Hlocal].
Qed.

Definition channels_active v : Prop := forall (id : ChannelId) r, mv_channels v !! id = Some r -> state r = Active.

(** The channels half deleted in the one view have no rows in the other. *)
Definition deletions_finished v v' : Prop :=
  forall (id : ChannelId) r, mv_channels v !! id = Some r -> state r = Deleting -> mv_channels v' !! id = None /\ no_rows id v'.

(** After the interrupted deletions are finished, only active channels are left, the default
    channel among them, and nothing of the others. *)
Lemma resume_active files v w u w' :
  viewed v w -> tree_closed (nodes (w_fs w)) -> default_ok v -> resume_deletions files w = (Ok u, w') ->
  exists v', viewed v' w' /\ default_ok v' /\ channels_active v' /\ deletions_finished v v'.
Proof.
  intros Hv Hc (d & Hd & Ha & Hs) H. destruct (resume_ok files v w u w' Hv Hc H) as (rs & Hv' & _ & Hrs & _).
  destruct (forget_all_spec (channel_id <$> rs) v) as (H1 & _). exists (forget_all (channel_id <$> rs) v). split; [done|].
  assert (forall r, r ∈ rs -> state r = Deleting /\ mv_channels v !! channel_id r = Some r) as Hin by (intros r [? ?]%Hrs; done).
  assert (forall (c : ChannelId) r, mv_channels v !! c = Some r -> state r = Deleting -> c ∈ channel_id <$> rs) as Hmem.
  { intros c r Hr Hdel. pose proof (view_channel_id v (w_db w) c r Hv Hr) as Hid. apply list_elem_of_fmap. exists r.
    split; [done|]. apply Hrs. by rewrite Hid. }
  split; [|split].
  - exists d. rewrite H1. case_decide as Hx; [|done]. apply list_elem_of_fmap in Hx as (r & E & [Hr Hl]%Hin). congruence.
  - intros c r. rewrite H1. case_decide as Hx; [done|]. intros Hr. destruct (state r) eqn:E; [done|].
    destruct Hx. eauto.
  - intros c r Hr Hdel. rewrite H1, decide_True by eauto. split; [done|]. apply no_rows_forgotten. eauto.
Qed.

Lemma boot_prepared files v c w : config_u64 c -> viewed v w -> (forall n, 0 <= w_clock w n) ->
  intact files (nodes (w_fs w)) -> tree_closed (nodes (w_fs w)) -> prepared files v (boot c w).
Proof. intros Hc Hv Hk Hi Ht. repeat split; try done. all: by apply (new_ledger_holds c None). Qed.

Lemma raising_ok {T E F A} (f : E -> F) (m : M T E A) s x s' : raising f m s = (Ok x, s') -> m s = (Ok x, s').
Proof. unfold raising. destruct (m s) as [[] s1]; [by intros [= <- <-]|done]. Qed.

Lemma open_prepared files v w u w' :
  prepared files v w -> raising StartStore (in_db ms_open) w = (Ok u, w') -> prepared files v w'.
Proof.
  intros (Hv & Hrest) H%raising_ok. unfold in_db, zoom in H. pose proof (open_law v (w_db w) Hv) as Hop.
  destruct (ms_open (w_db w)) as [r db]. injection H as _ <-. by split.
Qed.

(** The channels of a starting shard. *)
Lemma channels_prepared files v w expiry u w1 u' w2 : 0 <= expiry ->
  prepared files v w -> view_ok v -> ensure_default expiry w = (Ok u, w1) -> resume_deletions files w1 = (Ok u', w2) ->
  sound w2 /\ disk_ok 0 files w2 /\ exists v', viewed v' w2 /\ default_ok v' /\ channels_active v' /\ deletions_finished v v'.
Proof.
  intros He (Hv & Hk & Hd & Ht) Hok H1 H2.
  destruct (ensure_default_spec expiry v w u w1 He Hv Hok H1) as (v1 & Hv1 & Hok1 & Hdef & Hkept).
  pose proof (ensure_default_framed (get_local w) expiry w (conj eq_refl Hk)) as Hf. rewrite H1 in Hf. destruct Hf as [Hl Hk1].
  assert (disk_ok 0 files w1) as Hd1 by (unfold disk_ok; rewrite Hl; exact Hd).
  assert (tree_closed (nodes (w_fs w1))) as Ht1 by (change (tree_closed (nodes (l_fs (get_local w1)))); by rewrite Hl).
  split; [|split].
  - pose proof (resume_sound files w1 (conj (ex_intro _ v1 (conj Hv1 Hok1)) Hk1)) as HS. by rewrite H2 in HS.
  - destruct (channel_calls_disk 0 files) as (_ & _ & _ & HD). specialize (HD w1 Hd1). by rewrite H2 in HD.
  - destruct (resume_active files v1 w1 u' w2 Hv1 Ht1 Hdef H2) as (v' & Hv' & Hd' & Ha & Hdel). exists v'. split; [done|].
    split; [done|]. split; [done|]. intros id r Hr%Hkept. by apply Hdel.
Qed.

(** *** Every outcome *)

(** A shard that can be started again: a sound store, nothing reserved, and a disk that is whole. *)
Definition whole files w : Prop := sound w /\ disk_ok 0 files w /\ tree_closed (nodes (w_fs w)).

Lemma whole_store {A} files (m : M S MetadataError A) :
  preserves sound (ch_store m) -> preserves (whole files) (ch_store m).
Proof.
  intros Hm w (Hs & Hd & Ht). specialize (Hm w Hs). pose proof (ch_store_disk 0 files m w Hd) as H1.
  pose proof (t_store tree_closed m w Ht) as H2. by destruct (ch_store m w) as [[] w'].
Qed.

Lemma whole_fs {E A} files (f : E -> StartupError) (m : M FS E A) p :
  (forall fs, exists r, create_dir_all p fs = (r, (m fs).2)) -> preserves (whole files) (start_fs (S:=S) f m).
Proof.
  intros Hm w (Hs & [Hh Hi] & Ht). unfold start_fs. destruct (Hm (w_fs w)) as [r Er].
  pose proof (create_dir_all_preserves (intact files) p (fun ps t _ => intact_make_dirs files ps t) (w_fs w) Hi) as HI.
  pose proof (ti_create_dir_all p (w_fs w) Ht) as HT. rewrite Er in HI, HT.
  assert (whole files (set_local {| l_fs := (m (w_fs w)).2; l_space := w_space w |} w)) as Hw.
  { split; [by eapply sound_of_store; [..|exact Hs]|]. split; [split; [exact Hh|]|]; by destruct r. }
  by destruct (m (w_fs w)) as [[] fs].
Qed.

Lemma whole_ensure_default files expiry : 0 <= expiry -> preserves (whole files) (ensure_default (S:=S) expiry).
Proof.
  intros He. assert (preserves (whole files) (ch_store (ms_channel (S:=S) DEFAULT))) as Hread.
  { apply whole_store. eapply (sound_store _ _ RChannel (ReadChannel DEFAULT)); [apply channel_law|done|by intros ? [?|?]]. }
  unfold ensure_default. apply preserves_bind; [exact Hread|]. intros found. apply preserves_bind.
  - destruct found as [r|]; [apply preserves_ret|]. apply preserves_bind.
    { intros w (Hs & Hd & Ht). split; [by eapply sound_of_store; [..|exact Hs]|done]. }
    intros t. apply preserves_bind.
    { apply preserves_try, whole_store.
      eapply (sound_store _ _ (fun _ => RUnit) (CreateChannel _)); [apply create_channel_law|done|by intros x [[= <-]|?]]. }
    intros [[]|e]; [apply preserves_ret|]. repeat case_match; subst; try apply preserves_throw.
    apply preserves_bind; [exact Hread|]. intros again. apply preserves_ok_or.
  - intros r. apply preserves_bind; [case_bool; auto with flywheel|]. intros _. apply preserves_modify.
    intros w (Hs & Hd & Ht). split; [by eapply sound_of_store; [..|exact Hs]|done].
Qed.

Lemma whole_and {E A} files (m : M (World S) E A) :
  preserves sound m -> preserves (disk_ok 0 files) m -> preserves (on_tree tree_closed) m -> preserves (whole files) m.
Proof.
  intros H1 H2 H3 w (Hs & Hd & Ht). specialize (H1 w Hs). specialize (H2 w Hd). specialize (H3 w Ht). by destruct (m w) as [[] w'].
Qed.

(** A start leaves the shard whole whether it succeeds or not. *)
Lemma open_keeps_whole c sample : config_u64 c -> (forall x, sample = Some x -> is_u64 x) ->
  preserves (whole (artifacts_of c)) (open_internal (S:=S) c sample).
Proof.
  intros Hu Hsample. unfold open_internal. destruct (validate c) as [[]|e] eqn:Hval; [|intros w Hw; exact Hw].
  apply validate_ok in Hval as Hpos. apply preserves_bind; [apply preserves_lift|]. intros _.
  apply preserves_bind; [apply (whole_fs _ _ _ (data_dir c)); intros fs; destruct (create_dir_all _ fs) as [r fs']; by exists r|]. intros _.
  apply preserves_bind.
  { apply preserves_raising. intros w ([(v & Hv & Hok) Hk] & Hrest). unfold in_db, zoom. pose proof (open_law v (w_db w) Hv) as Hop.
    destruct (ms_open (w_db w)) as [[] db]; (split; [split; [by exists v|exact Hk]|exact Hrest]). }
  intros _. apply (triple_bind _ _ _ _ (fun files w => files = artifacts_of c /\ whole (artifacts_of c) w) (fun _ => whole (artifacts_of c))).
  { assert (preserves (whole (artifacts_of c)) (start_fs (S:=S) StartLocal (ArtifactFiles_open (data_dir c ++ [lit "artifacts"]) (reservation_extent_bytes c)))) as HW.
    { apply (whole_fs _ _ _ (data_dir c ++ [lit "artifacts"])). intros fs. unfold ArtifactFiles_open, raising, mbind, M_bind.
      destruct (create_dir_all _ fs) as [[]  fs']; eauto. }
    intros w Hw. specialize (HW w Hw). unfold start_fs in *. destruct (ArtifactFiles_open _ _ (w_fs w)) as [[x|e] fs] eqn:E; [|done].
    cbn in *. apply open_files_dirs in E as [-> _]. done. }
  intros files. apply triple_pure. intros ->.
  apply preserves_bind; [apply preserves_raising, whole_ensure_default; lia|]. intros _.
  apply preserves_bind.
  { apply preserves_raising, whole_and; [apply resume_sound|apply channel_calls_disk|apply t_resume]. apply _. }
  intros _. apply preserves_bind.
  { apply preserves_modify. intros w (Hs & [_ Hi] & Ht). split; [by eapply sound_of_store; [..|exact Hs]|].
    split; [split; [by apply new_ledger_holds|exact Hi]|exact Ht]. }
  intros _. apply preserves_bind.
  { apply preserves_raising, whole_and; [apply reconcile_sound|apply (reconcile_disk 0 (cache_config c (artifacts_of c)))|apply t_reconcile]. apply _. }
  intros _. apply preserves_bind; [apply preserves_lift|]. intros proxy. apply preserves_ret.
Qed.

(** The channels of a shard that has started. *)
Lemma startup_channels c sample w0 fw w1 : config_u64 c -> whole (artifacts_of c) w0 ->
  open_internal c sample (boot c w0) = (Ok fw, w1) ->
  validate c = Ok tt /\ http_cache (fw_http fw) = cache_config c (artifacts_of c)
  /\ exists v0 v, viewed v0 w0 /\ viewed v w1 /\ default_ok v /\ channels_active v /\ deletions_finished v0 v.
Proof.
  intros Hu ([(v & Hv & Hok) Hk] & [_ Hi] & Ht) H. unfold open_internal in H.
  apply bind_ok in H as ([] & w2 & H1 & H). injection H1 as Hvalid <-.
  assert (validate c = Ok tt) as Hval by (destruct (validate c) as [[]|]; done). clear Hvalid. split; [done|].
  pose proof (boot_prepared (artifacts_of c) v c w0 Hu Hv Hk Hi Ht) as Hp. generalize dependent (boot c w0). intros wb H Hp.
  apply bind_ok in H as (u1 & w3 & H1 & H). apply (start_dirs (artifacts_of c) v _ _ (data_dir c)) in H1; [|eauto|exact Hp].
  apply bind_ok in H as (u2 & w4 & H2 & H). apply (open_prepared (artifacts_of c) v) in H2; [|done].
  apply bind_ok in H as (files & w5 & H3 & H).
  assert (files = artifacts_of c) as ->.
  { unfold start_fs in H3. destruct (ArtifactFiles_open _ _ (w_fs w4)) as [[x|e] fs] eqn:E; [|done].
    injection H3 as <- _. by apply open_files_dirs in E as [-> _]. }
  apply (start_dirs (artifacts_of c) v _ _ (data_dir c ++ [lit "artifacts"])) in H3; [|by intros fs x fs' [_ ?]%open_files_dirs|done].
  apply bind_ok in H as (u4 & w6 & H4%raising_ok & H). apply bind_ok in H as (u5 & w7 & H5%raising_ok & H).
  apply validate_ok in Hval as Hpos.
  destruct (channels_prepared (artifacts_of c) v w5 (Config.default_expiry_seconds c) u4 w6 u5 w7 ltac:(lia) H3 Hok H4 H5) as (_ & _ & v' & Hv' & Hdef & Hact & Hdel).
  apply bind_ok in H as (u6 & w8 & H6 & H). injection H6 as _ <-. apply bind_ok in H as (u7 & w9 & H7%raising_ok & H).
  pose proof (reconcile_view (cache_config c (artifacts_of c)) v' (set_space (SpaceLedger_new (space_policy c) sample) w7)
    (ex_intro _ v' (conj Hv' eq_refl))) as HC.
  rewrite H7 in HC. destruct HC as (v9 & Hv9 & <-).
  apply bind_ok in H as (proxy & w10 & H8 & H). injection H8 as _ <-. injection H as <- <-. split; [done|]. by exists v, v'.
Qed.

(** C10: A shard that starts over what an earlier process left (a sound store, published files
    intact, every file in a directory that exists: what every process leaves, whatever failed in
    it and wherever it stopped, as C11 shows) finishes what that process left undone: the
    configuration is valid, the default channel is there and open, every channel is active, a
    channel whose deletion had been interrupted has neither record nor row any more, nothing is
    reserved and every published file is intact. Whatever well-formed calls follow, in any order
    and with any faults, the store stays sound, the default channel open, the ledger balanced
    and the published files intact. *)
Theorem startup_recovers c sample w0 fw w1 :
  config_u64 c -> (forall x, sample = Some x -> is_u64 x) ->
  sound w0 -> intact (artifacts_of c) (nodes (w_fs w0)) -> tree_closed (nodes (w_fs w0)) ->
  open_internal c sample (boot c w0) = (Ok fw, w1) ->
  let cfg := http_cache (fw_http fw) in
  validate c = Ok tt
  /\ (exists v0 v, viewed v0 w0 /\ viewed v w1 /\ default_ok v /\ channels_active v /\ deletions_finished v0 v)
  /\ (forall calls, Forall (call_wf cfg) calls ->
       sound (shard_run cfg calls w1) /\ view_inv default_ok (shard_run cfg calls w1)
       /\ disk_ok 0 (artifacts_of c) (shard_run cfg calls w1)).
Proof.
  intros Hu Hsample Hs Hi Ht H. assert (whole (artifacts_of c) (boot c w0)) as Hw.
  { split; [by eapply sound_of_store; [..|exact Hs]|]. split; [split; [by apply (new_ledger_holds c None)|done]|done]. }
  destruct (startup_channels c sample (boot c w0) fw w1 Hu Hw H) as (Hval & Hcfg & v0 & v & Hv0 & Hv & Hdef & Hrest). cbn zeta. rewrite Hcfg.
  pose proof (open_keeps_whole c sample Hu Hsample _ Hw) as HW. rewrite H in HW. destruct HW as (HS & HD & _).
  split; [done|]. split; [by exists v0, v|]. intros calls Hcalls. split; [by apply run_sound|].
  split; [apply run_default; [done..|by exists v]|].
  apply (run_disk 0 (cache_config c (artifacts_of c))); [done| |done..].
  destruct Hu as [Hu _]. unfold files_wf, is_u64, u64_max in *. cbn [reservation_extent artifacts_of cache_files cache_config]. lia.
Qed.

(** *** The maintenance worker *)

Lemma maintenance_space cfg observation limit w :
  w_space (flywheel_maintenance cfg observation limit w).2 = (mode (refresh observation (w_space w))).2.
Proof.
  set (sp := (mode (refresh observation (w_space w))).2).
  assert (forall E (f : World S -> World S), (forall w, w_space (f w) = w_space w) ->
    preserves (fun w => w_space w = sp) (modify f : M (World S) E unit)) as Hmod.
  { intros E f Hf. apply preserves_modify. intros w' Hw. by rewrite Hf. }
  assert (forall A (m : M S MetadataError A), preserves (fun w => w_space w = sp) (c_meta m)) as Hmeta
    by (intros; apply (c_meta_disk (fun _ x => x = sp))).
  assert (triple (fun w' => w' = w) (flywheel_maintenance cfg observation limit)
            (fun _ w => w_space w = sp) (fun _ w => w_space w = sp)) as H.
  { unfold flywheel_maintenance. apply (triple_bind _ _ _ _ (fun _ w => w_space w = sp)).
    2: { intros n. apply preserves_bind; [by apply Hmod|]. intros _. apply preserves_ret. }
    unfold run_maintenance_once.
    apply (triple_bind _ _ _ _ (fun _ w' => w_space w' = refresh observation (w_space w))); [by intros ? ->|]. intros _.
    apply (triple_bind _ _ _ _ (fun _ w' => w_space w' = refresh observation (w_space w))); [by intros ? ?|]. intros _.
    apply (triple_bind _ _ _ _ (fun w0 w' => w_space w0 = refresh observation (w_space w))); [by intros ? ?|]. intros w0.
    destruct (mode (w_space w0)) as [mode_ space] eqn:Em.
    apply (triple_bind _ _ _ _ (fun _ w' => w_space w' = sp)); [intros w' Hw; unfold sp; rewrite <- Hw, Em; done|]. intros _.
    apply preserves_bind; [by intros ? ?|]. intros t.
    apply preserves_bind; [unfold active_channels; apply preserves_bind; [apply Hmeta|intros; apply preserves_ret]|]. intros l.
    apply preserves_bind; [apply preserves_get|]. intros w1.
    apply preserves_bind; [destruct l; [apply preserves_ret|apply preserves_bind; [by apply Hmod|intros; apply preserves_ret]]|].
    intros l'. apply preserves_bind; [apply channels_loop_keeps; [apply Hmeta|intros; apply remove_space|by apply Hmod]|].
    intros b. apply preserves_bind; [by apply Hmod|]. intros _. apply preserves_ret. }
  specialize (H w eq_refl). by destruct (flywheel_maintenance cfg observation limit w) as [[] w'].
Qed.

(** Asking for the mode again, with nothing in between, gives the same answer. *)
Lemma mode_stable l : low_watermark (policy l) <= high_watermark (policy l) -> mode (mode l).2 = mode l.
Proof.
  intros Hw. unfold mode. destruct (reclaiming (ledger_state l)) eqn:Er.
  - destruct (high_watermark (policy l) <=? available_locked l (ledger_state l)) eqn:Eh; cbn; [|by rewrite Er, Eh].
    change (available_locked _ _) with (available_locked l (ledger_state l)). by replace (_ <? _) with false by (zify_bool; lia).
  - destruct (available_locked l (ledger_state l) <? low_watermark (policy l)) eqn:El; cbn; [|by rewrite Er, El].
    change (available_locked _ _) with (available_locked l (ledger_state l)). by replace (_ <=? _) with false by (zify_bool; lia).
Qed.

(** The ledger a pass leaves, and the answer it gives. *)
Lemma pass_mode cfg observation limit w :
  low_watermark (policy (w_space w)) <= high_watermark (policy (w_space w)) ->
  is_reclaiming (flywheel_maintenance cfg observation limit w).2
  = (bool_decide ((mode (refresh observation (w_space w))).1 = Reclaiming),
     (flywheel_maintenance cfg observation limit w).2).
Proof.
  intros Hw. pose proof (maintenance_space cfg observation limit w) as Hs. unfold is_reclaiming. rewrite Hs, mode_stable by done.
  destruct (mode (refresh observation (w_space w))) as [m sp]. f_equal. cbn in Hs. rewrite <- Hs.
  by destruct (flywheel_maintenance _ _ _ _).2.
Qed.

(** The capacity that ends reclaiming. *)
Definition relieved (free : Z) (l : SpaceLedger) : Prop :=
  high_watermark (policy l) + reserved (ledger_state l) + emergency_headroom (policy l) <= free.

Lemma relieved_normal free l : ledger_wf l -> is_u64 free -> low_watermark (policy l) <= high_watermark (policy l) ->
  relieved free l -> (mode (refresh (Some free) l)).1 = Normal.
Proof.
  intros Hl Hf Hw Hr. assert (ledger_wf (refresh (Some free) l)) as Hl' by (by apply (ledger_step_wf (CallRefresh (Some free)))).
  pose proof (available_exact _ Hl') as Ha. unfold relieved in Hr. unfold mode. rewrite Ha. clear Ha. cbn.
  repeat case_match; zify_bool; try done; lia.
Qed.

Definition space_frame (l l' : SpaceLedger) : Prop :=
  policy l' = policy l /\ reserved (ledger_state l') = reserved (ledger_state l) /\ (ledger_wf l -> ledger_wf l').

Lemma pass_frame cfg observation limit w : (forall x, observation = Some x -> is_u64 x) ->
  space_frame (w_space w) (w_space (flywheel_maintenance cfg observation limit w).2).
Proof.
  intros Ho. rewrite maintenance_space. split; [|split].
  - unfold mode. by repeat case_match.
  - unfold mode. repeat case_match; by destruct observation.
  - intros Hl. apply (ledger_step_wf CallMode); [done|]. apply (ledger_step_wf (CallRefresh observation)); [|done].
    destruct observation; [by apply Ho|done].
Qed.

(** Why a burst ends after its [k]th pass in [w']. *)
Definition burst_reason (fw : Flywheel) (observations : nat -> option Z) (cancelled : nat -> bool) (k : nat) w' : Prop :=
  (is_reclaiming w').1 = false \/ cancelled (k - 1)%nat = true
  \/ exists w e, flywheel_maintenance (http_cache (fw_http fw)) (observations (k - 1)%nat) (fw_candidate_limit fw) w = (Err e, w').

(** A maintenance burst under pressure ends: once an observation shows the high watermark
    restored over what is reserved and the emergency headroom, no pass follows the one that made
    it; and it never ends early, but on a failed pass, at shutdown, or with reclaiming over. *)
Theorem maintenance_burst_ends (fw : Flywheel) observations cancelled (n i : nat) free w :
  low_watermark (policy (w_space w)) <= high_watermark (policy (w_space w)) ->
  ledger_wf (w_space w) -> (forall j x, observations j = Some x -> is_u64 x) ->
  (i < n)%nat -> observations i = Some free -> relieved free (w_space w) ->
  exists k w', run_maintenance_burst fw observations cancelled n w = (Some k, w') /\ (1 <= k <= i + 1)%nat
    /\ burst_reason fw observations cancelled k w'.
Proof.
  revert observations cancelled i w. induction n as [|n IH]; intros obs canc i w Hw Hl Ho Hi Hobs Hr; [lia|].
  cbn [run_maintenance_burst]. set (cfg := http_cache (fw_http fw)). set (limit := fw_candidate_limit fw).
  pose proof (pass_mode cfg (obs 0%nat) limit w Hw) as Hm. pose proof (pass_frame cfg (obs 0%nat) limit w (Ho 0%nat)) as (Hp & Hres & Hwf).
  destruct (flywheel_maintenance cfg (obs 0%nat) limit w) as [[reclaimed|e] w1] eqn:E; cbn [snd] in Hm, Hp, Hres, Hwf.
  2: { exists 1%nat, w1. split; [done|]. split; [lia|]. right. right. by exists w, e. }
  rewrite Hm. destruct (negb _ || canc 0%nat) eqn:Estop.
  - exists 1%nat, w1. split; [done|]. split; [lia|]. unfold burst_reason. rewrite Hm. cbn.
    apply orb_true_iff in Estop as [?%negb_true_iff| ?]; auto.
  - apply orb_false_iff in Estop as [Hpress%negb_false_iff%bool_decide_eq_true _].
    destruct i as [|i]; [rewrite Hobs, (relieved_normal free) in Hpress by eauto; done|].
    destruct (IH (fun j => obs (Datatypes.S j)) (fun j => canc (Datatypes.S j)) i w1) as (k & w' & -> & Hk & Hreason);
      rewrite ?Hp; auto; [eauto|lia|unfold relieved; by rewrite Hp, Hres|].
    exists (Datatypes.S k), w'. split; [done|]. split; [lia|]. unfold burst_reason in *.
    replace (Datatypes.S k - 1)%nat with (Datatypes.S (k - 1)) by lia. exact Hreason.
Qed.
End Claims.

Section Witnesses.
#[local] Existing Instances toy_ulid toy_ulid_laws real_hex real_hex_laws toy_sha256 toy_zstd toy_zstd_laws.
#[local] Existing Instances toy_base64 toy_hasher toy_store toy_store_laws toy_url.

(** A small filter, so that the world is small. *)
Definition small_config : Config :=
  let c := Config_new [lit "data"] in
  {| data_dir := data_dir c; Config.max_upload_bytes := Config.max_upload_bytes c;
     Config.default_expiry_seconds := Config.default_expiry_seconds c;
     go_upstream := go_upstream c; python_upstream := python_upstream c; npm_upstream := npm_upstream c;
     cargo_index_upstream := cargo_index_upstream c; cargo_crate_upstream := cargo_crate_upstream c;
     proxy_revalidation_seconds := proxy_revalidation_seconds c; proxy_concurrency := proxy_concurrency c;
     upstream_timeout_seconds := upstream_timeout_seconds c; proxy_allowed_origins := proxy_allowed_origins c;
     foreground_concurrency := foreground_concurrency c; reservation_extent_bytes := reservation_extent_bytes c;
     low_watermark_bytes := low_watermark_bytes c; high_watermark_bytes := high_watermark_bytes c;
     emergency_headroom_bytes := emergency_headroom_bytes c; bloom_bits := 128;
     reclaim_candidate_limit := reclaim_candidate_limit c; Config.reclaim_byte_limit := Config.reclaim_byte_limit c;
     Config.orphan_scan_limit := Config.orphan_scan_limit c |}.

(** What a deletion that failed part way left behind. *)
Definition crashed_world : World MemDB := interrupted_world.

Definition started : result StartupError Flywheel * World MemDB :=
  open_internal small_config (Some 1000) (boot small_config crashed_world).

Lemma started_ok : is_ok started.1 = true.
Proof. vm_compute. reflexivity. Qed.

Lemma small_config_u64 : config_u64 small_config.
Proof. by repeat split. Qed.

Lemma sample_start_sound db_faults : sound (sample_world db_faults []).
Proof. destruct (sample_steady db_faults []) as (Hv & Hok & Hk & _). split; [by exists empty_view|done]. Qed.

Lemma crashed_sound : sound crashed_world.
Proof.
  unfold crashed_world, interrupted_world. apply preserves_after; [apply delete_sound|].
  unfold registered_world. apply preserves_after; [by apply register_sound|apply sample_start_sound].
Qed.

Lemma crashed_fs : w_fs crashed_world = w_fs (sample_world [] []).
Proof. vm_compute. reflexivity. Qed.

Lemma crashed_intact : intact (artifacts_of small_config) (nodes (w_fs crashed_world)).
Proof.
  rewrite crashed_fs. intros c a n H.
  change (({[ [lit "data"] := Directory ]} : tree) !! artifact_path (artifacts_of small_config) c a = Some (File n)) in H.
  rewrite lookup_singleton_ne in H; [done|]. intros E. apply (f_equal length) in E. unfold artifact_path, channel_dir in E.
  rewrite !length_app in E. cbn in E. lia.
Qed.

Lemma sample_u64 x : Some 1000 = Some x -> is_u64 x.
Proof. intros [= <-]. by split. Qed.

Lemma startup_recovers_witness :
  exists fw, started.1 = Ok fw /\ sound started.2 /\ view_inv default_ok started.2 /\ disk_ok 0 (artifacts_of small_config) started.2.
Proof.
  destruct (ok_run (open_internal small_config (Some 1000)) (boot small_config crashed_world) started_ok) as [fw Hfw].
  exists fw. split; [unfold started; by rewrite Hfw|].
  destruct (startup_recovers (S:=MemDB) small_config (Some 1000) crashed_world fw started.2) as (_ & _ & H).
  - exact small_config_u64.
  - exact sample_u64.
  - exact crashed_sound.
  - exact crashed_intact.
  - exact interrupted_closed.
  - exact Hfw.
  - exact (H [] (List.Forall_nil _)).
Defined.

(** Pressed at first, relieved at the second observation. *)
Definition sample_observations (i : nat) : option Z := match i with O => Some 0 | _ => Some (2 ^ 40) end.

Lemma sample_observations_u64 j x : sample_observations j = Some x -> is_u64 x.
Proof. destruct j; intros [= <-]; by split. Qed.

Lemma boot_wf : ledger_wf (w_space (boot small_config crashed_world)).
Proof. exact (proj1 (new_ledger_holds small_config None small_config_u64 ltac:(done))). Qed.

Lemma maintenance_burst_ends_witness :
  exists (fw : Flywheel) k w',
    run_maintenance_burst fw sample_observations (fun _ => false) 5 (boot small_config crashed_world) = (Some k, w') /\ (1 <= k <= 2)%nat.
Proof.
  destruct (ok_run (open_internal small_config (Some 1000)) (boot small_config crashed_world) started_ok) as [fw _].
  destruct (maintenance_burst_ends fw sample_observations (fun _ => false) 5 1 (2 ^ 40) (boot small_config crashed_world)) as (k & w' & H & Hk & _).
  - discriminate.
  - exact boot_wf.
  - exact sample_observations_u64.
  - lia.
  - reflexivity.
  - discriminate.
  - exists fw, k, w'. split; [exact H|exact Hk].
Defined.
End Witnesses.
