(* ===== verification/Manifest.v ===== *)
(** * Session manifests ([manifest.rs], [merge_manifest] of [cacheprog/session.rs])

    What a build used, kept under a cache key derived from its session label, so that the next
    build with the label can prefetch it. *)

From S2P Require Import Prelude Externals Lists.

Definition MANIFEST_VERSION : Z := 1.
Definition MANIFEST_MAX_ENTRIES : Z := 32 * 1024.
Definition MANIFEST_MAX_AGE_SECONDS : Z := 14 * 24 * 60 * 60.

Record ManifestEntry := { entry_output : bytes; entry_size : Z; last_seen : Z }.
Record Manifest := { version : Z; entries : gmap bytes ManifestEntry }.

Definition Manifest_empty : Manifest := {| version := MANIFEST_VERSION; entries := ∅ |}.

(** [UsedEntry] of [session.rs]: what this build touched. *)
Record UsedEntry := { used_output : bytes; used_size : Z }.

Definition manifest_key `{HexLib, Sha256Lib} (label : bytes) : bytes :=
  lit "go-manifest-" ++ hex_encode (b32 (sha256 label)).

(** The key of an action's body. *)
Definition action_key (action : bytes) : bytes := lit "go-" ++ action.

(** *** Merging *)

(** The order of the pairs [by_age] sorts. *)
Definition age_le (x y : Z * bytes) : Prop := x.1 < y.1 \/ (x.1 = y.1 /\ bytes_le x.2 y.2).

#[export] Instance age_le_dec : RelDecision age_le.
Proof. intros x y. unfold age_le. apply _. Defined.

Definition stamp (now : Z) (u : UsedEntry) : ManifestEntry :=
  {| entry_output := used_output u; entry_size := used_size u; last_seen := now |}.

(** The stored entries seen recently enough, and this build's. *)
Definition united (stored : option Manifest) (used : gmap bytes UsedEntry) (now : Z) : gmap bytes ManifestEntry :=
  let kept := filter (fun kv => saturating_sub now (last_seen kv.2) <= MANIFEST_MAX_AGE_SECONDS)
                (match stored with Some m => entries m | None => ∅ end) in
  map_fold (fun action u es => <[action := stamp now u]> es) kept used.

Definition by_age (es : gmap bytes ManifestEntry) : list (Z * bytes) :=
  sort_by age_le (map (fun kv => (last_seen kv.2, kv.1)) (map_to_list es)).

(** Removes the oldest entries above the limit. *)
Definition evict_oldest (limit : Z) (es : gmap bytes ManifestEntry) : gmap bytes ManifestEntry :=
  if limit <? Z.of_nat (size es)
  then fold_left (fun es x => delete x.2 es) (take (Z.to_nat (Z.of_nat (size es) - limit)) (by_age es)) es
  else es.

Definition merge_manifest (stored : option Manifest) (used : gmap bytes UsedEntry) (now : Z) : Manifest :=
  {| version := MANIFEST_VERSION; entries := evict_oldest MANIFEST_MAX_ENTRIES (united stored used now) |}.

(** ** Lemmas *)

Lemma lookup_united stored used now a :
  united stored used now !! a =
  match used !! a with
  | Some u => Some (stamp now u)
  | None =>
      match (match stored with Some m => entries m | None => ∅ end) !! a with
      | Some e => if bool_decide (saturating_sub now (last_seen e) <= MANIFEST_MAX_AGE_SECONDS) then Some e else None
      | None => None
      end
  end.
Proof.
  unfold united. generalize (match stored with Some m => entries m | None => ∅ end). intros es.
  revert used. apply (map_fold_weak_ind (fun r used => r !! a = match used !! a with Some u => Some (stamp now u) | None => _ end)).
  - rewrite lookup_empty, map_lookup_filter. destruct (es !! a) as [e|]; cbn; [|done].
    unfold guard. case_bool_decide; by case_decide.
  - intros b u m r Hb IH. destruct (decide (a = b)) as [->|Hne].
    + by rewrite !lookup_insert_eq.
    + by rewrite !lookup_insert_ne.
Qed.

Lemma lookup_delete_all (xs : list (Z * bytes)) (es : gmap bytes ManifestEntry) a :
  fold_left (fun es x => delete x.2 es) xs es !! a = if decide (a ∈ xs.*2) then None else es !! a.
Proof.
  revert es. induction xs as [|x xs IH]; intros es; cbn [fold_left fmap list_fmap].
  { rewrite decide_False by apply not_elem_of_nil. done. }
  rewrite IH. destruct (decide (a = x.2)) as [->|Hne].
  - rewrite (decide_True (P := x.2 ∈ x.2 :: xs.*2)) by apply elem_of_cons, or_introl, eq_refl.
    case_decide; [done|]. apply lookup_delete_eq.
  - rewrite lookup_delete_ne by done. repeat case_decide; try done; rewrite elem_of_cons in *; naive_solver.
Qed.

#[export] Instance age_le_trans : Transitive age_le.
Proof.
  intros x y z [H1|[H1 H1']] [H2|[H2 H2']]; unfold age_le; try (left; lia). right. split; [lia|]. by etrans.
Qed.
#[export] Instance age_le_total : Total age_le.
Proof.
  intros x y. unfold age_le. destruct (Z.lt_trichotomy x.1 y.1) as [?|[E|?]]; [auto| |auto].
  destruct (total bytes_le x.2 y.2); auto.
Qed.

Lemma by_age_perm es : by_age es ≡ₚ map (fun kv => (last_seen kv.2, kv.1)) (map_to_list es).
Proof. apply sort_by_perm. Qed.

Lemma elem_of_by_age es x : x ∈ by_age es <-> exists e, es !! x.2 = Some e /\ last_seen e = x.1.
Proof.
  rewrite by_age_perm, list_elem_of_fmap. split.
  - intros ([a e] & -> & H%elem_of_map_to_list). by exists e.
  - intros (e & He & Hl). exists (x.2, e). cbn. rewrite Hl. split; [by destruct x|by apply elem_of_map_to_list].
Qed.

Lemma by_age_actions es : (by_age es).*2 ≡ₚ (map_to_list es).*1.
Proof. rewrite by_age_perm. apply reflexive_eq. induction (map_to_list es) as [|x l IH]; cbn; [done|]. by f_equal. Qed.

Lemma by_age_nodup es : NoDup (by_age es).*2.
Proof. rewrite by_age_actions. apply NoDup_fst_map_to_list. Qed.

Lemma by_age_length es : length (by_age es) = size es.
Proof. rewrite by_age_perm, length_map. apply length_map_to_list. Qed.

Lemma by_age_split k es x y : x ∈ take k (by_age es) -> y ∈ drop k (by_age es) -> age_le x y /\ x.2 ≠ y.2.
Proof.
  intros Hx Hy. pose proof (by_age_nodup es) as Hnd. pose proof (sort_by_sorted age_le (map (fun kv => (last_seen kv.2, kv.1)) (map_to_list es))) as Hs.
  fold (by_age es) in Hs. rewrite <- (take_drop k (by_age es)) in Hnd, Hs. split.
  - by eapply StronglySorted_app_1_elem_of.
  - rewrite fmap_app in Hnd. apply NoDup_app in Hnd as (_ & Hd & _). intros E. apply (Hd x.2).
    + by apply list_elem_of_fmap_2.
    + rewrite E. by apply list_elem_of_fmap_2.
Qed.

(** The entries evicted are the oldest ones, as few as the limit demands. *)
Lemma evict_spec limit es : 0 <= limit ->
  Z.of_nat (size (evict_oldest limit es)) = Z.min (Z.of_nat (size es)) limit
  /\ evict_oldest limit es ⊆ es
  /\ (forall a e b e', es !! a = Some e -> evict_oldest limit es !! a = None -> evict_oldest limit es !! b = Some e' ->
        age_le (last_seen e, a) (last_seen e', b) /\ a ≠ b).
Proof.
  intros Hlim. unfold evict_oldest. destruct (limit <? Z.of_nat (size es)) eqn:E; zify_bool.
  2: { split; [lia|]. split; [done|]. intros a e b e' H1 H2. congruence. }
  set (k := Z.to_nat (Z.of_nat (size es) - limit)). set (r := fold_left _ _ es).
  assert (forall a, r !! a = if decide (a ∈ (take k (by_age es)).*2) then None else es !! a) as Hr by apply lookup_delete_all.
  split; [|split].
  - assert (dom r = dom es ∖ list_to_set (take k (by_age es)).*2) as Hd.
    { apply set_eq. intros a. rewrite elem_of_difference, elem_of_list_to_set, !elem_of_dom, Hr. case_decide; [|tauto].
      split; [by intros []|tauto]. }
    rewrite <- size_dom, Hd, size_difference.
    + rewrite size_list_to_set by (eapply sublist_NoDup; [apply by_age_nodup|apply fmap_sublist, sublist_take]).
      rewrite length_fmap, length_take, by_age_length, size_dom. lia.
    + intros a. rewrite elem_of_list_to_set, list_elem_of_fmap. intros (x & -> & Hx). apply elem_of_dom.
      assert (x ∈ by_age es) as (e & He & _)%elem_of_by_age; [|by exists e].
      rewrite <- (take_drop k). apply elem_of_app. by left.
  - apply map_subseteq_spec. intros a e. rewrite Hr. by case_decide.
  - intros a e b e' Ha Hn Hb. rewrite Hr in Hn, Hb. destruct (decide (a ∈ _)) as [Hin|]; [|congruence].
    destruct (decide (b ∈ _)) as [|Hout]; [done|].
    assert ((last_seen e, a) ∈ take k (by_age es)) as Hta.
    { apply list_elem_of_fmap in Hin as ([t x] & -> & Hx).
      assert ((t, x) ∈ by_age es) as (e0 & He0 & Hl)%elem_of_by_age by (rewrite <- (take_drop k); apply elem_of_app; by left).
      cbn in *. congruence. }
    assert ((last_seen e', b) ∈ by_age es) as Hby by (apply elem_of_by_age; eauto).
    rewrite <- (take_drop k), elem_of_app in Hby. destruct Hby as [Hby|Hby].
    + destruct Hout. by apply (list_elem_of_fmap_2 snd) in Hby.
    + destruct (by_age_split k es _ _ Hta Hby). done.
Qed.

(** C23: The manifest a build leaves: this build's actions stamped with the time, and the stored ones
    it did not touch that were seen within two weeks; when that is more than the limit, exactly the
    excess is dropped, the oldest first, so that whatever is dropped is no newer than anything kept. *)
Theorem merge_keeps_newest (stored : option Manifest) (used : gmap bytes UsedEntry) (now : Z) :
  let all := united stored used now in
  let merged := entries (merge_manifest stored used now) in
  (forall a, all !! a =
     match used !! a with
     | Some u => Some {| entry_output := used_output u; entry_size := used_size u; last_seen := now |}
     | None =>
         match (match stored with Some m => entries m | None => ∅ end) !! a with
         | Some e => if bool_decide (saturating_sub now (last_seen e) <= MANIFEST_MAX_AGE_SECONDS) then Some e else None
         | None => None
         end
     end)
  /\ Z.of_nat (size merged) = Z.min (Z.of_nat (size all)) MANIFEST_MAX_ENTRIES
  /\ merged ⊆ all
  /\ (forall a e b e', all !! a = Some e -> merged !! a = None -> merged !! b = Some e' ->
        age_le (last_seen e, a) (last_seen e', b) /\ a ≠ b).
Proof. intros all merged. split; [intros a; apply lookup_united|]. by apply evict_spec. Qed.

(** *** Keys *)

Section Keys.
Context {HX : HexLib} {HXL : HexLaws} {SH : Sha256Lib}.

(** A manifest never shares its key with an action's body. *)
Lemma manifest_key_apart label action_id : manifest_key label ≠ action_key (hex_encode action_id).
Proof.
  unfold manifest_key, action_key. change (lit "go-manifest-") with (lit "go-" ++ lit "manifest-").
  rewrite <- app_assoc. intros E%app_inv_head. pose proof (hex_encode_digits action_id) as H.
  rewrite <- E in H. inversion H. done.
Qed.
End Keys.
