(* ===== verification/Protocol.v ===== *)
(** * The build-cache protocol ([cacheprog/mod.rs])

    Go's GOCACHEPROG messages, and the reader that takes them off standard input.  Reading a line
    may be cancelled after any chunk, because the event loop also waits for running requests; the
    reader keeps the partial line and the pending put in its own state and resumes. *)

From S2P Require Import Prelude Externals.

Record Request := { id : Z; command : bytes; action_id : bytes; output_id : bytes; body_size : Z }.

(** ** [serde_json]

    The fields of a request as they are on the wire, the byte strings still text: the functions of
    [deserialize_with] are the program's. *)

Record RawRequest := {
  raw_id : Z; raw_command : bytes; raw_action_id : option bytes; raw_output_id : option bytes; raw_body_size : option Z }.

Class ProtocolJson := {
  raw_request_from_slice : bytes -> result bytes RawRequest;
  (** [serde_json::from_slice::<String>] *)
  string_from_slice : bytes -> option bytes
}.

Inductive ProtocolMessage := MRequest (request : Request) (encoded_body : bytes) | MInvalid (message : bytes).

Section Reader.
Context {BS : Base64Lib} {PJ : ProtocolJson}.

(** [deserialize_bytes], under [#[serde(default)]] *)
Definition deserialize_bytes (field : option bytes) : option bytes :=
  match field with None => Some [] | Some value => base64_std_decode value end.

Definition parse_request (line : bytes) : result bytes Request :=
  match raw_request_from_slice line with
  | Err e => Err e
  | Ok raw =>
      match deserialize_bytes (raw_action_id raw), deserialize_bytes (raw_output_id raw) with
      | Some action, Some output =>
          Ok {| id := raw_id raw; command := raw_command raw; action_id := action; output_id := output;
                body_size := default 0 (raw_body_size raw) |}
      | _, _ => Err (lit "invalid base64")
      end
  end.

(** ** The reader

    The source yields the chunks [fill_buf] returns, one per poll, or an error. *)

Record ProtocolReader := { source : list (result string bytes); line : bytes; pending_put : option Request }.

Definition ProtocolReader_new (chunks : list (result string bytes)) : ProtocolReader :=
  {| source := chunks; line := []; pending_put := None |}.

(** [u8::is_ascii_whitespace] *)
Definition is_ascii_whitespace (c : ascii) : bool :=
  let v := byte_value c in (v =? 32) || (v =? 9) || (v =? 10) || (v =? 12) || (v =? 13).

Definition newline : ascii := "010".

(** The bytes up to and including the first newline, and those after it. *)
Fixpoint take_line (chunk : bytes) : option (bytes * bytes) :=
  match chunk with
  | [] => None
  | c :: chunk =>
      if bool_decide (c = newline) then Some ([c], chunk)
      else match take_line chunk with Some (head, tail) => Some (c :: head, tail) | None => None end
  end.

(** What one poll of [next_message] comes to: still reading, a message, the end of the input, or an
    error. *)
Inductive polled := Reading | Message (m : ProtocolMessage) | EndOfInput | Failed (message : string).

Definition needs_body (request : Request) : bool := bool_decide (command request = lit "put") && (0 <? body_size request).

(** A complete line: a put's body, or a request. *)
Definition complete_line (r : ProtocolReader) : polled * ProtocolReader :=
  let rest pending := {| source := source r; line := []; pending_put := pending |} in
  match pending_put r with
  | Some request => (Message (MRequest request (line r)), rest None)
  | None =>
      match parse_request (line r) with
      | Err e => (Message (MInvalid e), rest None)
      | Ok request =>
          if needs_body request then (Reading, rest (Some request)) else (Message (MRequest request []), rest None)
      end
  end.

(** [read_protocol_line] once [read_until] has returned: blank lines are skipped. *)
Definition end_line (r : ProtocolReader) : polled * ProtocolReader :=
  if forallb is_ascii_whitespace (line r) then (Reading, {| source := source r; line := []; pending_put := pending_put r |})
  else complete_line r.

Definition poll (r : ProtocolReader) : polled * ProtocolReader :=
  match source r with
  | [] =>
      match line r with
      | [] => (if bool_decide (is_Some (pending_put r)) then Failed "cacheprog put body is missing" else EndOfInput, r)
      | _ :: _ => end_line r
      end
  | Err e :: rest => (Failed e, {| source := rest; line := line r; pending_put := pending_put r |})
  | Ok chunk :: rest =>
      match take_line chunk with
      | None => (Reading, {| source := rest; line := line r ++ chunk; pending_put := pending_put r |})
      | Some (head, tail) =>
          end_line {| source := match tail with [] => rest | _ :: _ => Ok tail :: rest end;
                      line := line r ++ head; pending_put := pending_put r |}
      end
  end.

(** All messages, by at most [n] polls; the flag is false if more polls were needed. *)
Fixpoint read_messages (n : nat) (r : ProtocolReader) : list ProtocolMessage * option polled :=
  match n with
  | O => ([], None)
  | Datatypes.S n =>
      match poll r with
      | (Reading, r) => read_messages n r
      | (Message m, r) => let '(ms, e) := read_messages n r in (m :: ms, e)
      | (e, _) => ([], Some e)
      end
  end.

(** ** A reference: the messages of a whole input *)

(** The lines with their newlines; what follows the last newline is a line if it is not empty. *)
Fixpoint lines_from (current : bytes) (input : bytes) : list bytes :=
  match input with
  | [] => match current with [] => [] | _ :: _ => [current] end
  | c :: input =>
      if bool_decide (c = newline) then (current ++ [c]) :: lines_from [] input else lines_from (current ++ [c]) input
  end.

Definition not_blank (l : bytes) : bool := negb (forallb is_ascii_whitespace l).

Fixpoint messages_of (pending : option Request) (ls : list bytes) : list ProtocolMessage * polled :=
  match ls with
  | [] => ([], if bool_decide (is_Some pending) then Failed "cacheprog put body is missing" else EndOfInput)
  | l :: ls =>
      match pending with
      | Some request => let '(ms, e) := messages_of None ls in (MRequest request l :: ms, e)
      | None =>
          match parse_request l with
          | Err message => let '(ms, e) := messages_of None ls in (MInvalid message :: ms, e)
          | Ok request =>
              if needs_body request then messages_of (Some request) ls
              else let '(ms, e) := messages_of None ls in (MRequest request [] :: ms, e)
          end
      end
  end.

Definition messages (input : bytes) : list ProtocolMessage * polled :=
  messages_of None (List.filter not_blank (lines_from [] input)).

(** ** Lemmas *)

Lemma lines_from_line current chunk head tail input :
  take_line chunk = Some (head, tail) ->
  lines_from current (chunk ++ input) = (current ++ head) :: lines_from [] (tail ++ input).
Proof.
  revert current head tail. induction chunk as [|c chunk IH]; intros current head tail; [done|]. cbn.
  destruct (bool_decide (c = newline)) eqn:E; [by intros [= <- <-]|].
  destruct (take_line chunk) as [[h t]|] eqn:Et; [|done]. intros [= <- <-]. rewrite (IH _ h t) by done.
  by rewrite <- app_assoc.
Qed.

Lemma lines_from_partial current chunk input :
  take_line chunk = None -> lines_from current (chunk ++ input) = lines_from (current ++ chunk) input.
Proof.
  revert current. induction chunk as [|c chunk IH]; intros current; [by rewrite app_nil_r|]. cbn.
  destruct (bool_decide (c = newline)) eqn:E; [done|]. destruct (take_line chunk) as [[h t]|] eqn:Et; [done|]. intros _.
  rewrite IH by done. by rewrite <- app_assoc.
Qed.

(** What is still to be read, as if it came at once. *)
Definition remaining (chunks : list bytes) (r : ProtocolReader) : list ProtocolMessage * polled :=
  messages_of (pending_put r) (List.filter not_blank (lines_from (line r) (concat chunks))).

Definition polls_left (chunks : list bytes) (r : ProtocolReader) : nat :=
  2 * (length (concat chunks) + length chunks) + (match line r with [] => 0 | _ :: _ => 1 end) + 1.

Lemma end_line_spec chunks r :
  let whole := messages_of (pending_put r) (List.filter not_blank (line r :: lines_from [] (concat chunks))) in
  match end_line r with
  | (Reading, r') => whole = remaining chunks r' /\ line r' = [] /\ source r' = source r
  | (Message m, r') => whole = (m :: (remaining chunks r').1, (remaining chunks r').2) /\ line r' = [] /\ source r' = source r
  | _ => False
  end.
Proof.
  cbn zeta. unfold end_line, remaining, not_blank. cbn [List.filter].
  destruct (forallb is_ascii_whitespace (line r)) eqn:Eb; cbn; [done|].
  unfold complete_line. destruct (pending_put r) as [request|]; cbn.
  { by destruct (messages_of None _). }
  destruct (parse_request (line r)) as [request|e]; cbn; [|by destruct (messages_of None _)].
  destruct (needs_body request); cbn; [done|]. by destruct (messages_of None _).
Qed.

Lemma take_line_length chunk head tail : take_line chunk = Some (head, tail) -> (length tail < length chunk)%nat.
Proof.
  revert head tail. induction chunk as [|c chunk IH]; intros head tail; [done|]. cbn.
  case_bool; [intros [= <- <-]; lia|]. destruct (take_line chunk) as [[h t]|]; [|done].
  intros [= <- <-]. specialize (IH h t eq_refl). lia.
Qed.

(** One poll reads no more and no less than the reference does, and the reading comes to an end. *)
Lemma poll_spec chunks r : source r = Ok <$> chunks ->
  match poll r with
  | (Reading, r') =>
      exists chunks', source r' = Ok <$> chunks' /\ remaining chunks r = remaining chunks' r'
        /\ (polls_left chunks' r' < polls_left chunks r)%nat
  | (Message m, r') =>
      exists chunks', source r' = Ok <$> chunks'
        /\ remaining chunks r = (m :: (remaining chunks' r').1, (remaining chunks' r').2)
        /\ (polls_left chunks' r' < polls_left chunks r)%nat
  | (e, _) => remaining chunks r = ([], e)
  end.
Proof.
  intros Hs. unfold poll. rewrite Hs. destruct chunks as [|chunk chunks]; cbn [fmap list_fmap].
  { destruct (line r) as [|c l] eqn:El; [unfold remaining; rewrite El; by destruct (pending_put r)|].
    pose proof (end_line_spec [] r) as H. cbn zeta in H. rewrite El in H.
    change (lines_from [] (concat [])) with (@nil (list ascii)) in H.
    assert (remaining [] r = messages_of (pending_put r) (List.filter not_blank [c :: l])) as Hr.
    { unfold remaining. by rewrite El. }
    rewrite <- El in H. rewrite Hr. unfold polls_left. rewrite El.
    destruct (end_line r) as [[] r']; try done; rewrite El in H; destruct H as (E & Hl & Hsrc);
      exists []; rewrite E, Hl, Hsrc; repeat split; [done|cbn; lia|done|cbn; lia]. }
  destruct (take_line chunk) as [[head tail]|] eqn:Et.
  - set (r1 := {| source := _; line := line r ++ head; pending_put := pending_put r |}).
    set (chunks' := match tail with [] => chunks | _ :: _ => tail :: chunks end).
    assert (source r1 = Ok <$> chunks') as Hs1 by (cbn; unfold chunks'; by destruct tail).
    assert (concat chunks' = tail ++ concat chunks) as Hc by (unfold chunks'; by destruct tail).
    pose proof (take_line_length _ _ _ Et) as Hlen.
    assert (forall r', line r' = [] -> (polls_left chunks' r' < polls_left (chunk :: chunks) r)%nat) as Hm.
    { intros r' Hl. unfold polls_left. rewrite Hl, Hc. cbn. rewrite !length_app. unfold chunks'.
      destruct tail; cbn in *; lia. }
    pose proof (end_line_spec chunks' r1) as H. cbn zeta in H.
    assert (remaining (chunk :: chunks) r = messages_of (pending_put r1) (List.filter not_blank (line r1 :: lines_from [] (concat chunks')))) as ->.
    { unfold remaining. rewrite Hc. cbn [concat]. by rewrite (lines_from_line _ _ head tail). }
    destruct (end_line r1) as [[] r']; try done; destruct H as (-> & Hl & Hsrc); exists chunks'; rewrite Hsrc, Hs1; auto.
  - exists chunks. split; [done|]. split.
    + unfold remaining. cbn [concat line pending_put]. by rewrite lines_from_partial.
    + unfold polls_left. cbn. rewrite length_app. destruct (line r ++ chunk); destruct (line r); lia.
Qed.

Lemma read_messages_spec n chunks r : source r = Ok <$> chunks -> (polls_left chunks r <= n)%nat ->
  read_messages n r = ((remaining chunks r).1, Some (remaining chunks r).2).
Proof.
  revert chunks r. induction n as [|n IH]; intros chunks r Hs Hn; [unfold polls_left in Hn; lia|]. cbn [read_messages].
  pose proof (poll_spec chunks r Hs) as H. destruct (poll r) as [[|m| |e] r'].
  - destruct H as (chunks' & Hs' & -> & Hlt). apply IH; [done|lia].
  - destruct H as (chunks' & Hs' & -> & Hlt). by rewrite (IH chunks') by (done || lia).
  - by rewrite H.
  - by rewrite H.
Qed.

(** C21: However the input is cut into chunks, and however often reading is cancelled between them,
    the reader yields the messages of the whole input (one per line that is not blank, a put with
    the line that follows it), and ends, reporting a missing body as an error; so many polls are
    enough. *)
Theorem reader_ignores_chunking (chunks : list bytes) (n : nat) :
  (2 * (length (concat chunks) + length chunks) < n)%nat ->
  read_messages n (ProtocolReader_new (Ok <$> chunks)) = ((messages (concat chunks)).1, Some (messages (concat chunks)).2).
Proof.
  intros Hn. rewrite (read_messages_spec n chunks); [done|done|unfold polls_left; cbn; lia].
Qed.
End Reader.
