(* ===== verification/Cacheprog.v ===== *)
(** * The build-cache helper ([cacheprog/mod.rs], [cacheprog/session.rs])

    The process Go runs as its build cache: gets and puts against a Flywheel URL with a local
    directory of object files, and the session that prefetches what the previous build used.  A
    request and a download each run as one step of the event loop, so one that is cancelled either
    ran or did not. *)

From S2P Require Import Prelude Externals Text Filesystem Web Manifest Protocol.

(** ** The standard library's paths and files *)

(** [Path::join], of a relative or an absolute name; the filesystem has no symbolic links, so the
    parent of a directory is found in its path. *)
Definition resolve (p : path) (component : bytes) : path :=
  if bool_decide (component = []) || bool_decide (component = lit ".") then p
  else if bool_decide (component = lit "..") then removelast p
  else p ++ [component].

Definition path_join (directory : path) (name : bytes) : path :=
  fold_left resolve (split_on "/" name) (if starts_with (lit "/") name then [] else directory).

(** [to_string_lossy] of a canonical path. *)
Definition path_string (p : path) : bytes := concat (map (fun c => lit "/" ++ c) p).

(** [File::create] *)
Definition create_file (p : path) : M FS io_error unit :=
  syscall (fun t => match t !! p with
                    | Some Directory => (Err (IoOther "is a directory"), t)
                    | Some (File _) => (Ok tt, <[p := File []]> t)
                    | None => if is_dir t (parent p) then (Ok tt, <[p := File []]> t) else (Err IoNotFound, t)
                    end)
          (fun _ t => t).

(** [metadata]: the length of a regular file, nothing for a directory. *)
Definition metadata (p : path) : M FS io_error (option Z) :=
  syscall (fun t => match t !! p with
                    | Some (File content) => (Ok (Some (Z.of_nat (length content))), t)
                    | Some Directory => (Ok None, t)
                    | None => if is_dir t p then (Ok None, t) else (Err IoNotFound, t)
                    end)
          (fun _ t => t).

(** [File::options().write(true).open] *)
Definition open_write (p : path) : M FS io_error unit :=
  syscall (fun t => match t !! p with
                    | Some (File _) => (Ok tt, t)
                    | Some Directory => (Err (IoOther "is a directory"), t)
                    | None => (Err IoNotFound, t)
                    end)
          (fun _ t => t).

(** [canonicalize] *)
Definition canonicalize (p : path) : M FS io_error path :=
  syscall (fun t => if is_dir t p || bool_decide (is_Some (t !! p)) then (Ok p, t) else (Err IoNotFound, t)) (fun _ t => t).

(** ** State *)

Inductive ClientError :=
| CIo (e : io_error)
| CHttp (e : HttpError)
| CUrl (e : bytes)
| CBody
| CJson
| CBase64
| CHex
| CEnsure (message : string)
| CUnsupported (name : bytes)
| CInvalid (message : bytes).

(** [Response]; [r_err] is the error whose text [err] is. *)
Record ProgResponse := {
  r_id : Z; r_err : option ClientError; known_commands : list bytes; miss : bool; r_output_id : bytes; r_size : Z; disk_path : bytes }.

Definition error_response (i : Z) (e : ClientError) : ProgResponse :=
  {| r_id := i; r_err := Some e; known_commands := []; miss := false; r_output_id := []; r_size := 0; disk_path := [] |}.
Definition miss_response (i : Z) : ProgResponse :=
  {| r_id := i; r_err := None; known_commands := []; miss := true; r_output_id := []; r_size := 0; disk_path := [] |}.
Definition stored_response (i : Z) (p : bytes) : ProgResponse :=
  {| r_id := i; r_err := None; known_commands := []; miss := false; r_output_id := []; r_size := 0; disk_path := p |}.
Definition hit_response (i : Z) (output : bytes) (size_ : Z) (p : bytes) : ProgResponse :=
  {| r_id := i; r_err := None; known_commands := []; miss := false; r_output_id := output; r_size := size_; disk_path := p |}.

(** [SessionState]; of the in-flight downloads, their outputs. *)
Record SessionState := { manifest : option Manifest; used : gmap bytes UsedEntry; inflight : gset bytes }.

Definition SessionState_new : SessionState := {| manifest := None; used := ∅; inflight := ∅ |}.

Section Client.
Context {HX : HexLib} {SH : Sha256Lib} {BS : Base64Lib} {URL : UrlLib} {PJ : ProtocolJson}.

(** A request to the cache; a body makes it a PUT. *)
Record ClientCall := { cc_body : option bytes; cc_url : Url; cc_headers : list (bytes * bytes) }.

(** What the cache answers, given everything sent before. *)
Definition CacheServer : Type := list ClientCall -> ClientCall -> result HttpError UpstreamResponse.

(** [serde_json] on manifests. *)
Class ManifestJson := {
  manifest_from_slice : bytes -> option Manifest;
  manifest_to_vec : Manifest -> option bytes
}.
Context {MJ : ManifestJson}.

(** The modification times are those of the files the helper touched. *)
Record Client := {
  c_fs : FS; c_modified : gmap (list (list ascii)) Z; c_session : SessionState; c_log : list ClientCall;
  c_clock : nat -> Z; c_ticks : nat }.

Definition set_c_fs (fs : FS) (c : Client) : Client :=
  {| c_fs := fs; c_modified := c_modified c; c_session := c_session c; c_log := c_log c; c_clock := c_clock c; c_ticks := c_ticks c |}.
Definition on_modified (f : gmap path Z -> gmap path Z) (c : Client) : Client :=
  {| c_fs := c_fs c; c_modified := f (c_modified c); c_session := c_session c; c_log := c_log c; c_clock := c_clock c; c_ticks := c_ticks c |}.
Definition on_session (f : SessionState -> SessionState) (c : Client) : Client :=
  {| c_fs := c_fs c; c_modified := c_modified c; c_session := f (c_session c); c_log := c_log c; c_clock := c_clock c; c_ticks := c_ticks c |}.
Definition log_call (call : ClientCall) (c : Client) : Client :=
  {| c_fs := c_fs c; c_modified := c_modified c; c_session := c_session c; c_log := call :: c_log c; c_clock := c_clock c; c_ticks := c_ticks c |}.
Definition tick (c : Client) : Client :=
  {| c_fs := c_fs c; c_modified := c_modified c; c_session := c_session c; c_log := c_log c; c_clock := c_clock c; c_ticks := Datatypes.S (c_ticks c) |}.

(** What a run is configured with: the parsed URL, token, object directory, manifest key and the
    prefetch concurrency. *)
Record ClientConfig := { base : Url; token : option bytes; directory : path; session_key : bytes; prefetch_concurrency : nat }.

Definition on_disk {A} (m : M FS io_error A) : M Client ClientError A := raising CIo (zoom c_fs set_c_fs m).

(** [unix_now] and [SystemTime::now], in seconds *)
Definition unix_now : M Client ClientError Z := fun c => (Ok (c_clock c (c_ticks c)), tick c).

Definition stamp_now (p : path) : M Client ClientError unit :=
  t ← unix_now; modify (on_modified <[p := t]>).

(** *** Session state *)

Definition record_used (action output : bytes) (size_ : Z) : M Client ClientError unit :=
  modify (on_session (fun s => {| manifest := manifest s;
    used := <[action := {| used_output := output; used_size := size_ |}]> (used s); inflight := inflight s |})).

Definition manifest_entry (action : bytes) (s : SessionState) : option ManifestEntry :=
  m ← manifest s; entries m !! action.

Definition begin_download (output : bytes) (s : SessionState) : SessionState :=
  {| manifest := manifest s; used := used s; inflight := {[ output ]} ∪ inflight s |}.
Definition end_download (output : bytes) (s : SessionState) : SessionState :=
  {| manifest := manifest s; used := used s; inflight := inflight s ∖ {[ output ]} |}.
Definition download_in_progress (output : bytes) (s : SessionState) : bool := bool_decide (output ∈ inflight s).

(** *** Object files *)

Definition file_has_size (p : path) (size_ : Z) : M Client ClientError bool :=
  found ← try (on_disk (metadata p));
  mret (match (found : result ClientError (option Z)) with Ok (Some len) => len =? size_ | _ => false end).

(** [touch]: both calls may fail unnoticed. *)
Definition touch_file (p : path) : M Client ClientError unit :=
  opened ← try (on_disk (open_write p));
  match (opened : result ClientError unit) with
  | Ok _ =>
      stamped ← try (on_disk touch);
      match (stamped : result ClientError unit) with Ok _ => stamp_now p | Err _ => mret tt end
  | Err _ => mret tt
  end.

Definition canonical_path (p : path) : M Client ClientError bytes :=
  q ← on_disk (canonicalize p); mret (path_string q).

(** [temporary_path]; [name] is the ULID and process number. *)
Definition temporary_path (parent_ : path) (name : bytes) : path := parent_ ++ [lit "." ++ name ++ lit ".tmp"].

Definition create_stamped (p : path) : M Client ClientError unit :=
  _ ← on_disk (create_file p); stamp_now p.
Definition write_stamped (p : path) (chunk : bytes) : M Client ClientError unit :=
  _ ← on_disk (write_file p chunk); stamp_now p.
(** [write_all], and no flush before the file is dropped. *)
Definition write_unsettled (p : path) (chunk : bytes) : M Client ClientError unit :=
  _ ← on_disk (write_unflushed p chunk); stamp_now p.
Definition discard_file (p : path) : M Client ClientError unit :=
  _ ← (try (on_disk (remove_file p)) : M Client ClientError (result ClientError unit)); mret tt.

Definition publish_temporary (temporary p : path) : M Client ClientError unit :=
  renamed ← try (on_disk (rename temporary p));
  match (renamed : result ClientError unit) with
  | Ok _ => modify (on_modified (fun m => match m !! temporary with
                                          | Some t => <[p := t]> (delete temporary m : gmap (list (list ascii)) Z)
                                          | None => delete p m
                                          end))
  | Err e =>
      _ ← discard_file temporary;
      there ← on_disk (try_exists p);
      if (there : bool) then mret tt else throw e
  end.

Definition write_atomic (name : bytes) (p : path) (content : bytes) : M Client ClientError unit :=
  if bool_decide (p = []) then throw (CEnsure "cache path has no parent")
  else
    let temporary := temporary_path (parent p) name in
    _ ← create_stamped temporary;
    written ← try (write_unsettled temporary content);
    match (written : result ClientError unit) with
    | Err e => _ ← discard_file temporary; throw e
    | Ok _ => publish_temporary temporary p
    end.

Definition write_disk_file (name : bytes) (dir : path) (object content : bytes) : M Client ClientError bytes :=
  let p := path_join dir object in
  present ← file_has_size p (Z.of_nat (length content));
  if (present : bool) then _ ← touch_file p; canonical_path p
  else _ ← write_atomic name p content; canonical_path p.

(** ** The cache's routes *)

Section Calls.
Variables (cfg : ClientConfig) (server : CacheServer).

(** [bearer_auth] *)
Definition bearer : list (bytes * bytes) :=
  match token cfg with Some t => [(lit "authorization", lit "Bearer " ++ t)] | None => [] end.

Definition send_call (call : ClientCall) : M Client ClientError UpstreamResponse := fun c =>
  (map_err CHttp (server (c_log c) call), log_call call c).

Definition is_success (status_ : Z) : bool := (200 <=? status_) && (status_ <=? 299).

Definition send_put (key content : bytes) : M Client ClientError unit :=
  u ← lift (map_err CUrl (url_join (base cfg) key));
  response ← send_call {| cc_body := Some content; cc_url := u; cc_headers := bearer |};
  if is_success (up_status response) then mret tt else throw (CEnsure "cache PUT returned an error").

Definition get_with (extra : list (bytes * bytes)) (refused : string) (key : bytes) : M Client ClientError (option UpstreamResponse) :=
  u ← lift (map_err CUrl (url_join (base cfg) key));
  response ← send_call {| cc_body := None; cc_url := u; cc_headers := extra ++ bearer |};
  if up_status response =? 404 then mret None
  else if is_success (up_status response) then mret (Some response) else throw (CEnsure refused).

Definition send_get (key : bytes) : M Client ClientError (option UpstreamResponse) :=
  get_with [] "cache GET returned an error" key.

(** [response.bytes().await?] *)
Definition response_bytes (response : UpstreamResponse) : M Client ClientError bytes :=
  ok_or (collect_stream (up_stream response)) CBody.

(** ** Put *)

Definition put_body (request : Request) (encoded_body : bytes) : result ClientError bytes :=
  match (if body_size request =? 0 then Some [] else string_from_slice encoded_body) with
  | None => Err CJson
  | Some text => match base64_std_decode text with Some b => Ok b | None => Err CBase64 end
  end.

Definition put (name : bytes) (request : Request) (encoded_body : bytes) : M Client ClientError ProgResponse :=
  body ← lift (put_body request encoded_body);
  if negb (Z.of_nat (length body) =? body_size request) then throw (CEnsure "cacheprog body size mismatch")
  else if negb (bool_decide (b32 (sha256 body) = output_id request)) then throw (CEnsure "cacheprog output digest mismatch")
  else
    let output := hex_encode (output_id request) in
    stored ← write_disk_file name (directory cfg) output body;
    let action := hex_encode (action_id request) in
    _ ← send_put (action_key action) body;
    _ ← record_used action output (body_size request);
    mret (stored_response (id request) stored).

(** ** Get *)

(** The answer from a verified local file. *)
Definition get_local (request : Request) (entry : ManifestEntry) : M Client ClientError ProgResponse :=
  let p := path_join (directory cfg) (entry_output entry) in
  _ ← touch_file p;
  _ ← record_used (hex_encode (action_id request)) (entry_output entry) (entry_size entry);
  output ← ok_or (hex_decode (entry_output entry)) CHex;
  stored ← canonical_path p;
  mret (hit_response (id request) output (entry_size entry) stored).

(** [trim_matches] of a quote *)
Fixpoint trim_quotes_start (s : bytes) : bytes :=
  match s with c :: s' => if bool_decide (c = "034"%char) then trim_quotes_start s' else s | [] => [] end.
Definition trim_quotes (s : bytes) : bytes := rev (trim_quotes_start (rev (trim_quotes_start s))).

(** The digest an ETag claims. *)
Definition etag_digest (response : UpstreamResponse) : option bytes :=
  value ← header (lit "etag") (up_headers response);
  etag ← to_str value;
  strip_prefix (lit "sha256:") (trim_quotes etag).

(** The answer from the cache. *)
Definition get_remote (name : bytes) (request : Request) : M Client ClientError ProgResponse :=
  let action := hex_encode (action_id request) in
  found ← send_get (action_key action);
  match found with
  | None => mret (miss_response (id request))
  | Some response =>
      body ← response_bytes response;
      let output := hex_encode (b32 (sha256 body)) in
      if match etag_digest response with Some expected => negb (bool_decide (expected = output)) | None => false end
      then mret (miss_response (id request))
      else
        stored ← write_disk_file name (directory cfg) output body;
        let size_ := Z.of_nat (length body) in
        _ ← record_used action output size_;
        output_ ← ok_or (hex_decode output) CHex;
        mret (hit_response (id request) output_ size_ stored)
  end.

(** A get is answered, or waits for the end of a download of the entry it expects. *)
Inductive get_outcome := Answered (r : ProgResponse) | Waits (entry : ManifestEntry).

Definition get_resume (name : bytes) (request : Request) (entry : ManifestEntry) : M Client ClientError ProgResponse :=
  present ← file_has_size (path_join (directory cfg) (entry_output entry)) (entry_size entry);
  if (present : bool) then get_local request entry else get_remote name request.

Definition get_begin (name : bytes) (request : Request) : M Client ClientError get_outcome :=
  c ← get_state;
  match manifest_entry (hex_encode (action_id request)) (c_session c) with
  | None => r ← get_remote name request; mret (Answered r)
  | Some entry =>
      present ← file_has_size (path_join (directory cfg) (entry_output entry)) (entry_size entry);
      if (present : bool) then r ← get_local request entry; mret (Answered r)
      else if download_in_progress (entry_output entry) (c_session c) then mret (Waits entry)
      else r ← get_remote name request; mret (Answered r)
  end.

(** ** [execute_request] *)

Definition answered_by (i : Z) (m : M Client ClientError ProgResponse) : Client -> ProgResponse * Client := fun c =>
  match m c with
  | (Ok r, c) => (r, c)
  | (Err e, c) => (error_response i e, c)
  end.

Definition execute_request (name : bytes) (request : Request) (encoded_body : bytes) (c : Client) : get_outcome * Client :=
  let finish (m : M Client ClientError ProgResponse) := let '(r, c) := answered_by (id request) m c in (Answered r, c) in
  if bool_decide (command request = lit "put") then finish (put name request encoded_body)
  else if bool_decide (command request = lit "get") then
    match get_begin name request c with
    | (Ok o, c) => (o, c)
    | (Err e, c) => (Answered (error_response (id request) e), c)
    end
  else finish (throw (CUnsupported (command request))).

(** ** The session ([session.rs]) *)

Definition EMPTY_OUTPUT : bytes := lit "e3b0c44298fc1c149afbf4c8996fb92427ae41e4649b934ca495991b7852b855".

Definition parse_manifest (content : bytes) : option Manifest :=
  match manifest_from_slice content with
  | Some m => if version m =? MANIFEST_VERSION then Some m else None
  | None => None
  end.

(** The manifest under its key, if it can be read. *)
Definition stored_manifest : M Client ClientError (option Manifest) :=
  found ← send_get (session_key cfg);
  match found with
  | Some response => content ← response_bytes response; mret (parse_manifest content)
  | None => mret None
  end.

(** [get_or_init] *)
Definition install_manifest (m : Manifest) (s : SessionState) : SessionState :=
  {| manifest := Some (match manifest s with Some m => m | None => m end); used := used s; inflight := inflight s |}.

(** The work list of a prefetch. *)
Record Plan := { seen : gset bytes; wanted : list (bytes * ManifestEntry); local_ : nat }.

Definition see (output : bytes) (p : Plan) : Plan :=
  {| seen := {[ output ]} ∪ seen p; wanted := wanted p; local_ := local_ p |}.
Definition count_local (p : Plan) : Plan := {| seen := seen p; wanted := wanted p; local_ := Datatypes.S (local_ p) |}.
Definition want (x : bytes * ManifestEntry) (p : Plan) : Plan :=
  {| seen := seen p; wanted := wanted p ++ [x]; local_ := local_ p |}.

Definition plan_entry (name : bytes) (x : bytes * ManifestEntry) (plan : Plan) : M Client ClientError Plan :=
  let entry := x.2 in
  if bool_decide (entry_output entry ∈ seen plan) then mret plan
  else
    let plan := see (entry_output entry) plan in
    if entry_size entry =? 0 then
      if bool_decide (entry_output entry = EMPTY_OUTPUT) then
        written ← try (write_disk_file name (directory cfg) (entry_output entry) []);
        match (written : result ClientError bytes) with Ok _ => mret (count_local plan) | Err _ => mret plan end
      else mret plan
    else
      let p := path_join (directory cfg) (entry_output entry) in
      present ← file_has_size p (entry_size entry);
      if (present : bool) then _ ← touch_file p; mret (count_local plan) else mret (want x plan).

(** Streams a body into the temporary file; the result is what was hashed. *)
Fixpoint spool_chunks (temporary : path) (stream : list (result string (list ascii))) (hashed : bytes) : M Client ClientError bytes :=
  match stream with
  | [] => mret hashed
  | Err _ :: _ => throw CBody
  | Ok chunk :: stream => _ ← write_stamped temporary chunk; spool_chunks temporary stream (hashed ++ chunk)
  end.

Definition spool_verified (response : UpstreamResponse) (temporary : path) (entry : ManifestEntry) : M Client ClientError unit :=
  _ ← create_stamped temporary;
  body ← spool_chunks temporary (up_stream response) [];
  _ ← on_disk touch;
  if negb (Z.of_nat (length body) =? entry_size entry) then throw (CEnsure "prefetched object size mismatch")
  else if negb (bool_decide (hex_encode (b32 (sha256 body)) = entry_output entry))
  then throw (CEnsure "prefetched object failed digest verification")
  else mret tt.

Definition prefetch_headers : list (bytes * bytes) :=
  [(lit "x-flywheel-request-purpose", lit "prefetch");
   (lit "x-flywheel-prefetch-concurrency", dec_string (Z.of_nat (prefetch_concurrency cfg)));
   (lit "x-flywheel-session", session_key cfg)].

Definition download_object (name : bytes) (x : bytes * ManifestEntry) : M Client ClientError (option Z) :=
  let p := path_join (directory cfg) (entry_output x.2) in
  present ← file_has_size p (entry_size x.2);
  if (present : bool) then mret None
  else
    found ← get_with prefetch_headers "prefetch GET returned an error" (action_key x.1);
    match found with
    | None => mret None
    | Some response =>
        let temporary := temporary_path (directory cfg) name in
        spooled ← try (spool_verified response temporary x.2);
        match (spooled : result ClientError unit) with
        | Err e => _ ← discard_file temporary; throw e
        | Ok _ => _ ← publish_temporary temporary p; mret (Some (entry_size x.2))
        end
    end.

(** *** The end of a session *)

Definition take_used : M Client ClientError (gmap bytes UsedEntry) := fun c =>
  (Ok (used (c_session c)), on_session (fun s => {| manifest := manifest s; used := ∅; inflight := inflight s |}) c).

Definition update_manifest (u : gmap bytes UsedEntry) : M Client ClientError unit :=
  stored ← stored_manifest;
  t ← unix_now;
  content ← ok_or (manifest_to_vec (merge_manifest stored u t)) CJson;
  send_put (session_key cfg) content.

(** The timeout cuts a call short: the server answers it with an error. *)
Definition finalize : M Client ClientError unit :=
  u ← take_used;
  if bool_decide (u = ∅) then mret tt
  else _ ← (try (update_manifest u) : M Client ClientError (result ClientError unit)); mret tt.

(** *** Cleaning up *)

Definition TEMPORARY_MAX_AGE : Z := 60 * 60.

Definition ends_with (suffix s : bytes) : bool := starts_with (rev suffix) (rev s).
Definition is_temporary (name : bytes) : bool := starts_with (lit ".") name && ends_with (lit ".tmp") name.

(** How old an entry may get. *)
Definition max_age (object_max_age : option Z) (name : bytes) : option Z :=
  if is_temporary name then Some TEMPORARY_MAX_AGE else object_max_age.

Definition is_stale (now age : Z) (modified : option Z) : bool :=
  match modified with Some m => (m <=? now) && (age <? now - m) | None => false end.

(** One entry: removed when it is a file that is too old. *)
Definition prune_entry (now : Z) (object_max_age : option Z) (name : bytes) : M Client ClientError unit :=
  match max_age object_max_age name with
  | None => mret tt
  | Some age =>
      found ← try (on_disk (metadata (directory cfg ++ [name])));
      c ← get_state;
      match (found : result ClientError (option Z)) with
      | Ok (Some _) =>
          if is_stale now age (c_modified c !! (directory cfg ++ [name])) then discard_file (directory cfg ++ [name]) else mret tt
      | _ => mret tt
      end
  end.

(** The loop over the entries, which ends early when the next one cannot be read. *)
Fixpoint prune_entries (now : Z) (object_max_age : option Z) (names : list bytes) : M Client ClientError unit :=
  match names with
  | [] => mret tt
  | name :: names =>
      next ← try (on_disk touch);
      match (next : result ClientError unit) with
      | Err _ => mret tt
      | Ok _ => _ ← prune_entry now object_max_age name; prune_entries now object_max_age names
      end
  end.

Definition prune_stale_files (now : Z) (object_max_age : option Z) : M Client ClientError unit :=
  listed ← try (on_disk (read_dir (directory cfg)));
  match (listed : result ClientError (list (bytes * node))) with
  | Err _ => mret tt
  | Ok listed => prune_entries now object_max_age listed.*1
  end.

(** Ends a session: the prefetch task is aborted, which drops its download markers, and what the
    build used is written back. *)
Definition drop_downloads (s : SessionState) : SessionState := {| manifest := manifest s; used := used s; inflight := ∅ |}.

Definition finish_session : Client -> Client := fun c => (finalize (on_session drop_downloads c)).2.

(** [args.prune_days * 24 * 60 * 60], in 64 bits *)
Definition object_max_age (prune_days : Z) : option Z :=
  if 0 <? prune_days then Some (wrapping_mul prune_days (24 * 60 * 60)) else None.

(** What follows the loop. *)
Definition clean_up (ephemeral : bool) (prune_days : Z) : Client -> Client := fun c =>
  if ephemeral then (on_disk (remove_dir_all (directory cfg)) c).2
  else ((t ← unix_now; prune_stale_files t (object_max_age prune_days)) c).2.

(** ** The event loop ([run_with_shutdown])

    A step is one event: a message read, a request run, one piece of the prefetch, the end of a
    wait, the close or a shutdown.  Requests run concurrently and the prefetch beside them, so the
    events come in any order. *)

(** The prefetch task: before the manifest, planning, downloading, or over. *)
Inductive PrefetchTask :=
| PStart
| PPlanning (todo : list (bytes * ManifestEntry)) (plan : Plan)
| PDownloading (todo : list (bytes * ManifestEntry))
| PEnded.

Inductive prefetch_step : PrefetchTask -> Client -> PrefetchTask -> Client -> Prop :=
| prefetch_fails c e c' : stored_manifest c = (Err e, c') -> prefetch_step PStart c PEnded c'
| prefetch_starts c found c' m order :
    stored_manifest c = (Ok found, c') ->
    m = install_manifest (default Manifest_empty found) (c_session c') ->
    order ≡ₚ map_to_list (entries (default Manifest_empty (manifest m))) ->
    prefetch_step PStart c (PPlanning order {| seen := ∅; wanted := []; local_ := 0 |}) (on_session (fun _ => m) c')
| prefetch_plans name x todo plan c plan' c' :
    plan_entry name x plan c = (Ok plan', c') -> prefetch_step (PPlanning (x :: todo) plan) c (PPlanning todo plan') c'
| prefetch_disabled plan c :
    prefetch_concurrency cfg = 0%nat -> prefetch_step (PPlanning [] plan) c PEnded c
| prefetch_registers plan c :
    prefetch_concurrency cfg ≠ 0%nat ->
    prefetch_step (PPlanning [] plan) c (PDownloading (wanted plan))
      (on_session (fun s => fold_left (fun s x => begin_download (entry_output x.2) s) (wanted plan) s) c)
| prefetch_downloads name l1 x l2 c r c' :
    download_object name x c = (r, c') ->
    prefetch_step (PDownloading (l1 ++ x :: l2)) c (PDownloading (l1 ++ l2)) (on_session (end_download (entry_output x.2)) c')
| prefetch_completes c : prefetch_step (PDownloading []) c PEnded c.

(** A request that runs; a get may be waiting for a download. *)
Record Flight := { f_request : Request; f_body : bytes; f_wait : option ManifestEntry }.

Inductive phase := Looping | Leaving | Stopped.

(** The helper: its client, the messages to come and how the input ends, the requests running, the
    close asked for, what was written, the prefetch task and where the run is. *)
Record Helper := Hp {
  h_client : Client; h_input : list ProtocolMessage; h_end : polled; h_in_flight : list Flight; h_close : option Z;
  h_out : list ProgResponse; h_task : PrefetchTask; h_phase : phase }.

Definition capabilities : ProgResponse :=
  {| r_id := 0; r_err := None; known_commands := [lit "get"; lit "put"; lit "close"]; miss := false; r_output_id := [];
     r_size := 0; disk_path := [] |}.

Definition closed_response (i : Z) : ProgResponse :=
  {| r_id := i; r_err := None; known_commands := []; miss := false; r_output_id := []; r_size := 0; disk_path := [] |}.

Definition helper_start (c : Client) (input : list ProtocolMessage) (how : polled) : Helper :=
  Hp c input how [] None [capabilities] PStart Looping.

Definition is_close (request : Request) : bool := bool_decide (command request = lit "close").

Inductive helper_event (ephemeral : bool) (prune_days : Z) : Helper -> Helper -> Prop :=
| step_invalid c m i e f o t :
    helper_event ephemeral prune_days (Hp c (MInvalid m :: i) e f None o t Looping)
      (Hp c i e f None (o ++ [error_response 0 (CInvalid m)]) t Looping)
| step_request c request body i e f o t :
    is_close request = false ->
    helper_event ephemeral prune_days (Hp c (MRequest request body :: i) e f None o t Looping)
      (Hp c i e (f ++ [{| f_request := request; f_body := body; f_wait := None |}]) None o t Looping)
| step_close_asked c request body i e f o t :
    is_close request = true ->
    helper_event ephemeral prune_days (Hp c (MRequest request body :: i) e f None o t Looping)
      (Hp c i e f (Some (id request)) o t Looping)
| step_end_of_input c f o t :
    helper_event ephemeral prune_days (Hp c [] EndOfInput f None o t Looping) (Hp c [] EndOfInput [] None o t Leaving)
| step_input_error c message f o t :
    helper_event ephemeral prune_days (Hp c [] (Failed message) f None o t Looping) (Hp c [] (Failed message) [] None o t Stopped)
| step_answers name c i e f1 request body f2 cl o t r c' :
    execute_request name request body c = (Answered r, c') ->
    helper_event ephemeral prune_days
      (Hp c i e (f1 ++ {| f_request := request; f_body := body; f_wait := None |} :: f2) cl o t Looping)
      (Hp c' i e (f1 ++ f2) cl (o ++ [r]) t Looping)
| step_waits name c i e f1 request body f2 cl o t entry c' :
    execute_request name request body c = (Waits entry, c') ->
    helper_event ephemeral prune_days
      (Hp c i e (f1 ++ {| f_request := request; f_body := body; f_wait := None |} :: f2) cl o t Looping)
      (Hp c' i e (f1 ++ {| f_request := request; f_body := body; f_wait := Some entry |} :: f2) cl o t Looping)
| step_resumes name c i e f1 request body entry f2 cl o t r c' :
    entry_output entry ∉ inflight (c_session c) ->
    answered_by (id request) (get_resume name request entry) c = (r, c') ->
    helper_event ephemeral prune_days
      (Hp c i e (f1 ++ {| f_request := request; f_body := body; f_wait := Some entry |} :: f2) cl o t Looping)
      (Hp c' i e (f1 ++ f2) cl (o ++ [r]) t Looping)
| step_prefetch c i e f cl o t t' c' :
    prefetch_step t c t' c' ->
    helper_event ephemeral prune_days (Hp c i e f cl o t Looping) (Hp c' i e f cl o t' Looping)
| step_closes c i e n o t :
    helper_event ephemeral prune_days (Hp c i e [] (Some n) o t Looping)
      (Hp (finish_session c) i e [] (Some n) (o ++ [closed_response n]) PEnded Leaving)
| step_finishes c i e cl o t :
    helper_event ephemeral prune_days (Hp c i e [] cl o t Leaving)
      (Hp (clean_up ephemeral prune_days (finish_session c)) i e [] cl o PEnded Stopped).

(** A shutdown request, or output that cannot be written. *)
Inductive helper_cut : Helper -> Helper -> Prop :=
| step_shutdown c i e f cl o t : helper_cut (Hp c i e f cl o t Looping) (Hp c i e [] cl o t Leaving)
| step_write_error c i e f cl o t : helper_cut (Hp c i e f cl o t Looping) (Hp c i e [] cl o t Stopped).

Definition helper_step (ephemeral : bool) (prune_days : Z) (h h' : Helper) : Prop :=
  helper_event ephemeral prune_days h h' \/ helper_cut h h'.
End Calls.

(** *** Opening *)

(** [cache_directory]; [temp] is [std::env::temp_dir], [name] the ULID of an ephemeral directory *)
Definition cache_directory (temp : path) (parent_ : option path) (ephemeral : bool) (name : bytes) : M Client ClientError path :=
  let dir := default temp parent_ ++ [if ephemeral then lit "flywheel-cacheprog-" ++ name else lit "flywheel-cacheprog"] in
  _ ← on_disk (create_dir_all dir); mret dir.

Definition open_client (url_ : bytes) (token_ : option bytes) (temp : path) (parent_ : option path) (ephemeral : bool) (name : bytes)
    (label : M Client ClientError bytes) (concurrency : nat) : M Client ClientError ClientConfig :=
  u ← lift (map_err CUrl (url_parse url_));
  if negb (ends_with (lit "/") (url_path u)) then throw (CEnsure "cacheprog URL must end with '/'")
  else
    dir ← cache_directory temp parent_ ephemeral name;
    label ← label;
    mret {| base := u; token := token_; directory := dir; session_key := manifest_key label; prefetch_concurrency := concurrency |}.
End Client.
