(* ===== verification/CacheprogLemmas.v ===== *)
(** * Lemmas on the build-cache helper

    What every operation of the helper does to its object directory: a file under a name that is
    not a temporary one always has that name as its digest. *)

From S2P Require Import Prelude Externals Text Filesystem FilesLemmas Web Manifest Protocol Cacheprog.

(** What is preserved holds in the state left behind. *)
Lemma preserves_run {St E A} (I : St -> Prop) (m : M St E A) s : preserves I m -> I s -> I (m s).2.
Proof. intros H Hs. specialize (H s Hs). by destruct (m s) as [[] s']. Qed.

(** ** Paths *)

Lemma path_join_name dir name :
  "/"%char ∉ name -> name ≠ [] -> name ≠ lit "." -> name ≠ lit ".." -> path_join dir name = dir ++ [name].
Proof.
  intros Hs H1 H2 H3. unfold path_join. rewrite split_on_none by done. cbn [fold_left]. unfold resolve.
  rewrite !bool_decide_false by done. cbn [orb]. destruct name as [|c name]; [done|]. cbn.
  rewrite bool_decide_false; [done|]. intros <-. apply Hs, elem_of_cons. by left.
Qed.

Lemma path_join_hex dir name : name ≠ [] -> Forall (fun c => is_hex_digit c = true) name -> path_join dir name = dir ++ [name].
Proof.
  intros Hne HF. assert (forall c, c ∈ name -> is_hex_digit c = true) as H by (intros c Hc; rewrite Forall_forall in HF; by apply HF).
  apply path_join_name; [intros Hc; by apply H in Hc|done|intros ->|intros ->].
  - discriminate (H "."%char ltac:(apply elem_of_cons; by left)).
  - discriminate (H "."%char ltac:(apply elem_of_cons; by left)).
Qed.

Lemma temporary_is_temporary name : is_temporary (lit "." ++ name ++ lit ".tmp") = true.
Proof.
  unfold is_temporary, ends_with. rewrite !rev_app_distr. apply andb_true_iff. split; [by destruct name|].
  rewrite <- app_assoc. cbn. done.
Qed.

Lemma hex_not_temporary name : Forall (fun c => is_hex_digit c = true) name -> is_temporary name = false.
Proof.
  destruct name as [|c name]; [done|]. intros H%Forall_inv. unfold is_temporary. cbn.
  rewrite bool_decide_false; [done|]. by intros <-.
Qed.

(** ** The object directory *)

Section Objects.
Context {HX : HexLib} {HXL : HexLaws} {SH : Sha256Lib} {BS : Base64Lib} {URL : UrlLib} {PJ : ProtocolJson} {MJ : ManifestJson}.
Implicit Types (c : Client) (t : tree) (dir p : path).

Definition digest_name (content : bytes) : bytes := hex_encode (b32 (sha256 content)).

Lemma digest_name_hex content : Forall (fun x => is_hex_digit x = true) (digest_name content).
Proof. apply hex_encode_digits. Qed.

Lemma digest_name_ne content : digest_name content ≠ [].
Proof.
  intros E. apply (f_equal length) in E. unfold digest_name in E. rewrite hex_encode_length, length_b32 in E. discriminate.
Qed.

(** Whatever is in the directory under a name that is not temporary is a file with that digest. *)
Definition named_by_digest dir t : Prop :=
  forall name n, t !! (dir ++ [name]) = Some n -> is_temporary name = false ->
  exists content, n = File content /\ digest_name content = name.

Definition honest dir t : Prop := is_file t dir = false /\ named_by_digest dir t.

Lemma entry_ne dir (x : bytes) : dir ++ [x] ≠ dir.
Proof. intros E. apply (f_equal length) in E. rewrite length_app in E. cbn in E. lia. Qed.

(** The tree satisfies [I], and no write is lost from here on. *)
Definition on_tree (I : tree -> Prop) c : Prop := I (nodes (c_fs c)) /\ lossless (c_fs c).

Lemma on_tree_weaken (I J : tree -> Prop) c : (forall t, I t -> J t) -> on_tree I c -> on_tree J c.
Proof. intros H [Hc Hl]. split; auto. Qed.

Lemma on_disk_tree {A : Type} (I : tree -> Prop) (act : tree -> result io_error A * tree) torn :
  preserves (fun fs => I (nodes fs)) (syscall act torn) -> preserves (on_tree I) (on_disk (syscall act torn)).
Proof.
  intros Hm c [Hc Hl]. unfold on_disk, raising, zoom. specialize (Hm (c_fs c) Hc). pose proof (syscall_lossless act torn (c_fs c) Hl) as Hs.
  by destruct (syscall act torn (c_fs c)) as [[] fs].
Qed.

Lemma on_disk_ok {A} (act : tree -> result io_error A * tree) torn c a c' :
  on_disk (syscall act torn) c = (Ok a, c') -> act (nodes (c_fs c)) = (Ok a, nodes (c_fs c')).
Proof.
  unfold on_disk, raising, zoom. destruct (syscall act torn (c_fs c)) as [[x|e] fs] eqn:E; [|done].
  intros [= <- <-]. by apply syscall_ok in E.
Qed.

Lemma modify_tree I f : (forall c, c_fs (f c) = c_fs c) -> preserves (on_tree I) (modify f : M Client ClientError unit).
Proof. intros Hf. apply preserves_modify. intros c Hc. unfold on_tree, lossless. by rewrite Hf. Qed.

Lemma unix_now_tree I : preserves (on_tree I) unix_now.
Proof. by intros c Hc. Qed.

Lemma stamp_now_tree I p : preserves (on_tree I) (stamp_now p).
Proof. apply preserves_bind; [apply unix_now_tree|]. intros t. by apply modify_tree. Qed.

Lemma record_used_tree I a o n : preserves (on_tree I) (record_used a o n).
Proof. by apply modify_tree. Qed.

(** Calls that read. *)
Lemma metadata_tree I p : preserves (on_tree I) (on_disk (metadata p)).
Proof. apply on_disk_tree, syscall_preserves; [|done]. intros t Ht. by repeat case_match. Qed.
Lemma touch_tree I : preserves (on_tree I) (on_disk touch).
Proof. apply on_disk_tree, touch_preserves. Qed.
Lemma open_write_tree I p : preserves (on_tree I) (on_disk (open_write p)).
Proof. apply on_disk_tree, syscall_preserves; [|done]. intros t Ht. by repeat case_match. Qed.
Lemma canonicalize_tree I p : preserves (on_tree I) (on_disk (canonicalize p)).
Proof. apply on_disk_tree, syscall_preserves; [|done]. intros t Ht. by repeat case_match. Qed.
Lemma try_exists_tree I p : preserves (on_tree I) (on_disk (try_exists p)).
Proof. apply on_disk_tree, try_exists_preserves. Qed.

Lemma file_has_size_tree I p n : preserves (on_tree I) (file_has_size p n).
Proof. apply preserves_bind; [apply preserves_try, metadata_tree|]. intros found. apply preserves_ret. Qed.

Lemma touch_file_tree I p : preserves (on_tree I) (touch_file p).
Proof.
  apply preserves_bind; [apply preserves_try, open_write_tree|]. intros [?|?]; [|apply preserves_ret].
  apply preserves_bind; [apply preserves_try, touch_tree|]. intros [?|?]; [apply stamp_now_tree|apply preserves_ret].
Qed.

Lemma canonical_path_tree I p : preserves (on_tree I) (canonical_path p).
Proof. apply preserves_bind; [apply canonicalize_tree|]. intros q. apply preserves_ret. Qed.

Lemma file_has_size_true p n c c' :
  file_has_size p n c = (Ok true, c') -> exists content, nodes (c_fs c') !! p = Some (File content) /\ Z.of_nat (length content) = n.
Proof.
  unfold file_has_size, mbind, M_bind, try. destruct (on_disk (metadata p) c) as [[[len|]|e] c1] eqn:E; [|done..].
  intros [= H <-]. apply on_disk_ok in E. destruct (nodes (c_fs c) !! p) as [[|content]|] eqn:Ep; [done| |by case_match].
  injection E as <- <-. exists content. split; [done|]. by apply Z.eqb_eq.
Qed.

Lemma canonical_path_ok p c s c' : canonical_path p c = (Ok s, c') -> s = path_string p.
Proof.
  unfold canonical_path, mbind, M_bind. destruct (on_disk (canonicalize p) c) as [[q|e] c1] eqn:E; [|done].
  intros [= <- <-]. apply on_disk_ok in E. case_match; [by injection E as <- _|done].
Qed.

(** *** Writing *)

Lemma honest_subset dir t t' : t' ⊆ t -> honest dir t -> honest dir t'.
Proof.
  intros Hsub [Hd H]. split.
  - unfold is_file in *. destruct (t' !! dir) as [n|] eqn:E; [|done]. by rewrite (lookup_weaken _ _ _ _ E Hsub) in Hd.
  - intros name n Hn. apply H. by eapply lookup_weaken.
Qed.

Lemma honest_delete dir t q : honest dir t -> honest dir (delete q t).
Proof. apply honest_subset, delete_subseteq. Qed.

(** A change of one entry that is temporary, or becomes what its name says. *)
Lemma honest_change dir x t t' :
  (forall q, q ≠ dir ++ [x] -> t' !! q = t !! q) ->
  (is_temporary x = false -> forall n, t' !! (dir ++ [x]) = Some n -> exists content, n = File content /\ digest_name content = x) ->
  honest dir t -> honest dir t'.
Proof.
  intros Hq Hx [Hd H]. split.
  - unfold is_file. rewrite Hq by (apply not_eq_sym, entry_ne). exact Hd.
  - intros name n Hn Ht. destruct (decide (name = x)) as [->|Hne]; [by apply Hx|].
    rewrite Hq in Hn by (intros E%app_inv_head; congruence). by eapply H.
Qed.

Lemma honest_temporary dir name t n : honest dir t -> honest dir (<[temporary_path dir name := n]> t).
Proof.
  apply honest_change with (x := lit "." ++ name ++ lit ".tmp"); [|by rewrite temporary_is_temporary].
  intros q Hq. by apply lookup_insert_ne.
Qed.

Lemma honest_alter dir name f t : honest dir t -> honest dir (alter f (temporary_path dir name) t).
Proof.
  apply honest_change with (x := lit "." ++ name ++ lit ".tmp"); [|by rewrite temporary_is_temporary].
  intros q Hq. by apply lookup_alter_ne.
Qed.

Lemma honest_insert dir content t : honest dir t -> honest dir (<[dir ++ [digest_name content] := File content]> t).
Proof.
  apply honest_change with (x := digest_name content); [intros q Hq; by apply lookup_insert_ne|].
  intros _ n. rewrite lookup_insert_eq. intros [= <-]. by exists content.
Qed.

(** The temporary file holds [content]. *)
Definition spooled dir name content t : Prop := honest dir t /\ t !! temporary_path dir name = Some (File content).

(** The object is in the directory. *)
Definition held dir object t : Prop :=
  honest dir t /\ exists content, t !! (dir ++ [object]) = Some (File content) /\ digest_name content = object.

Lemma spooled_honest dir name content c : on_tree (spooled dir name content) c -> on_tree (honest dir) c.
Proof. apply on_tree_weaken. by intros t [H _]. Qed.
Lemma held_honest dir object c : on_tree (held dir object) c -> on_tree (honest dir) c.
Proof. apply on_tree_weaken. by intros t [H _]. Qed.

Notation "{{ P }} m {{ Q }} {{ R }}" := (triple (on_tree P) m (fun _ => on_tree Q) (fun _ => on_tree R))
  (at level 20, only parsing).

Lemma on_disk_triple {A} (act : tree -> result io_error A * tree) (torn : io_fault -> tree -> tree) (P Q R : tree -> Prop) :
  (forall t, P t -> match act t with (Ok _, t') => Q t' | (Err _, t') => R t' end) -> (forall f t, P t -> R (torn f t)) ->
  {{ P }} on_disk (syscall act torn) {{ Q }} {{ R }}.
Proof.
  intros Ha Ht c [Hc Hl]. pose proof (syscall_lossless act torn (c_fs c) Hl) as Hs. unfold on_disk, raising, zoom, on_tree in *.
  destruct (syscall act torn (c_fs c)) as [r fs] eqn:E.
  assert (lossless fs) as Hfs by (by destruct r). unfold syscall in E.
  destruct (script (c_fs c)) as [|[f|] rest]; [|injection E as <- <-; by split; [apply Ht|]|];
    specialize (Ha _ Hc); destruct (act (nodes (c_fs c))) as [[] t]; injection E as <- <-; by split.
Qed.

Lemma discard_file_tree dir p : {{ honest dir }} discard_file p {{ honest dir }} {{ honest dir }}.
Proof.
  apply preserves_bind; [|intros r; apply preserves_ret]. apply preserves_try, on_disk_tree, remove_file_preserves.
  intros. by apply honest_delete.
Qed.

Lemma create_spools dir name : {{ honest dir }} create_stamped (temporary_path dir name) {{ spooled dir name [] }} {{ honest dir }}.
Proof.
  eapply triple_bind with (Q' := fun _ => on_tree (spooled dir name [])).
  - apply on_disk_triple; [|done]. intros t Ht.
    assert (spooled dir name [] (<[temporary_path dir name := File []]> t)) as Hs.
    { split; [by apply honest_temporary|by rewrite lookup_insert_eq]. }
    repeat case_match; by simplify_eq.
  - intros u. eapply triple_conseq; [apply (stamp_now_tree (spooled dir name []))|done|done|]. intros e c Hc. exact (spooled_honest _ _ _ _ Hc).
Qed.

Lemma write_spools dir name content chunk :
  {{ spooled dir name content }} write_stamped (temporary_path dir name) chunk {{ spooled dir name (content ++ chunk) }} {{ honest dir }}.
Proof.
  eapply triple_bind with (Q' := fun _ => on_tree (spooled dir name (content ++ chunk))).
  - apply on_disk_triple.
    + intros t [Ht Hl]. split; [by apply honest_alter|]. by rewrite lookup_alter_eq, Hl.
    + intros f t [Ht _]. by apply honest_alter.
  - intros u. eapply triple_conseq; [apply (stamp_now_tree (spooled dir name (content ++ chunk)))|done|done|]. intros e c Hc. exact (spooled_honest _ _ _ _ Hc).
Qed.

(** A write without a flush is as good, as long as it is not lost. *)
Lemma write_unsettled_spools dir name content :
  {{ spooled dir name [] }} write_unsettled (temporary_path dir name) content {{ spooled dir name content }} {{ honest dir }}.
Proof.
  intros c Hc. pose proof (write_spools dir name [] content c Hc) as H. unfold write_stamped, write_unsettled, on_disk, raising, zoom, mbind, M_bind in *.
  rewrite write_unflushed_lossless by apply Hc. exact H.
Qed.

Lemma rename_holds dir name content :
  {{ spooled dir name content }} on_disk (rename (temporary_path dir name) (dir ++ [digest_name content]))
  {{ held dir (digest_name content) }} {{ honest dir }}.
Proof.
  apply on_disk_triple; [|by intros f t []]. intros t [Ht Hl]. rewrite Hl.
  assert (held dir (digest_name content) (<[dir ++ [digest_name content] := File content]> (delete (temporary_path dir name) t))) as Hh.
  { split; [by apply honest_insert, honest_delete|]. exists content. by rewrite lookup_insert_eq. }
  repeat case_match; by simplify_eq.
Qed.

Lemma exists_holds dir content c c' :
  on_tree (honest dir) c -> on_disk (try_exists (dir ++ [digest_name content])) c = (Ok true, c') ->
  on_tree (held dir (digest_name content)) c'.
Proof.
  intros Hc E. pose proof (try_exists_tree (honest dir) (dir ++ [digest_name content]) c Hc) as Hc'. rewrite E in Hc'.
  apply on_disk_ok in E. injection E as E Hn. destruct Hc as [Hc _], Hc' as [Hc' Hl']. split; [|done]. unfold held. rewrite <- Hn in *. split; [done|].
  assert (exists n, nodes (c_fs c) !! (dir ++ [digest_name content]) = Some n) as [n Hl].
  { apply orb_true_iff in E as [E|[n E]%bool_decide_eq_true]; [|eauto]. unfold is_dir in E.
    destruct (dir ++ [digest_name content]) as [|x q] eqn:Ep; [by destruct dir|]. apply bool_decide_eq_true in E. eauto. }
  destruct (proj2 Hc _ _ Hl) as (content' & -> & Hd); [apply hex_not_temporary, digest_name_hex|]. by exists content'.
Qed.

Lemma publish_holds dir name content :
  {{ spooled dir name content }} publish_temporary (temporary_path dir name) (dir ++ [digest_name content])
  {{ held dir (digest_name content) }} {{ honest dir }}.
Proof.
  intros c Hc. pose proof (rename_holds dir name content c Hc) as Hr.
  unfold publish_temporary, mbind at 1, M_bind at 1, try. destruct (on_disk (rename _ _) c) as [[u|e] c1]; [exact Hr|].
  unfold mbind at 1, M_bind at 1. pose proof (discard_file_tree dir (temporary_path dir name) c1 Hr) as Hd.
  destruct (discard_file _ c1) as [[u|e2] c2]; [|done]. unfold mbind, M_bind.
  pose proof (try_exists_tree (honest dir) (dir ++ [digest_name content]) c2 Hd) as Ht.
  destruct (on_disk (try_exists _) c2) as [[[]|e3] c3] eqn:Ee; cbn; [|done..]. exact (exists_holds dir content c2 c3 Hd Ee).
Qed.

Lemma write_atomic_holds dir name content :
  {{ honest dir }} write_atomic name (dir ++ [digest_name content]) content {{ held dir (digest_name content) }} {{ honest dir }}.
Proof.
  unfold write_atomic. rewrite bool_decide_false by (by destruct dir). rewrite parent_app.
  eapply triple_bind; [apply create_spools|]. intros u. cbv beta.
  intros c Hc. pose proof (write_unsettled_spools dir name content c Hc) as Hw. unfold mbind at 1, M_bind at 1, try.
  destruct (write_unsettled _ _ c) as [[v|e] c1]; [by apply publish_holds|]. unfold mbind, M_bind.
  pose proof (discard_file_tree dir (temporary_path dir name) c1 Hw) as Hd. by destruct (discard_file _ c1) as [[] c2].
Qed.

(** What [write_disk_file] returns names a file with the object's digest; it is of the right size
    unless two bodies share the digest. *)
Lemma write_disk_file_holds dir name content :
  triple (on_tree (honest dir)) (write_disk_file name dir (digest_name content) content)
    (fun s c => on_tree (held dir (digest_name content)) c /\ s = path_string (dir ++ [digest_name content]))
    (fun _ => on_tree (honest dir)).
Proof.
  unfold write_disk_file. rewrite path_join_hex by (apply digest_name_ne || apply digest_name_hex).
  set (p := dir ++ [digest_name content]).
  assert (triple (on_tree (held dir (digest_name content))) (canonical_path p)
            (fun s c => on_tree (held dir (digest_name content)) c /\ s = path_string p) (fun _ => on_tree (honest dir))) as Hcan.
  { intros c Hc. pose proof (canonical_path_tree (held dir (digest_name content)) p c Hc) as Ht.
    destruct (canonical_path p c) as [[s|e] c'] eqn:E; [|by eapply held_honest]. split; [done|]. by eapply canonical_path_ok. }
  eapply triple_bind with (Q' := fun present c => on_tree (honest dir) c /\ (present = true -> on_tree (held dir (digest_name content)) c)).
  - intros c Hc. pose proof (file_has_size_tree (honest dir) p (Z.of_nat (length content)) c Hc) as Ht.
    destruct (file_has_size p _ c) as [[b|e] c'] eqn:E; [|done]. split; [done|]. intros ->.
    apply file_has_size_true in E as (content' & Hl & _). destruct Ht as [Ht Hless]. split; [|done]. split; [done|]. exists content'. split; [done|].
    destruct (proj2 Ht _ _ Hl) as (x & [= ->] & Hd); [apply hex_not_temporary, digest_name_hex|done].
  - intros [].
    + eapply triple_bind; [|intros u; exact Hcan].
      intros c [Hc Hh]. pose proof (touch_file_tree (held dir (digest_name content)) p c (Hh eq_refl)) as Ht.
      destruct (touch_file p c) as [[] c']; [exact Ht|by eapply held_honest].
    + eapply triple_bind; [|intros u; exact Hcan]. intros c [Hc _]. by apply write_atomic_holds.
Qed.

(** ** Requests *)

Section Requests.
Variables (cfg : ClientConfig) (server : CacheServer).

Lemma send_call_tree I call : preserves (on_tree I) (send_call server call).
Proof. intros c Hc. unfold send_call. by destruct (server (c_log c) call). Qed.

Lemma send_put_tree I key content : preserves (on_tree I) (send_put cfg server key content).
Proof.
  apply preserves_bind; [apply preserves_lift|]. intros u. apply preserves_bind; [apply send_call_tree|].
  intros r. case_bool; [apply preserves_ret|apply preserves_throw].
Qed.

Lemma get_with_tree I extra refused key : preserves (on_tree I) (get_with cfg server extra refused key).
Proof.
  apply preserves_bind; [apply preserves_lift|]. intros u. apply preserves_bind; [apply send_call_tree|].
  intros r. case_bool; [apply preserves_ret|]. case_bool; [apply preserves_ret|apply preserves_throw].
Qed.

Lemma response_bytes_tree I r : preserves (on_tree I) (response_bytes r).
Proof. apply preserves_ok_or. Qed.

(** The path names a file in the directory that has the digest, and the size unless two bodies
    share a digest. *)
Definition verified dir (stored output : bytes) (size_ : Z) t : Prop :=
  stored = path_string (dir ++ [hex_encode output])
  /\ exists content, t !! (dir ++ [hex_encode output]) = Some (File content) /\ b32 (sha256 content) = output
      /\ (Z.of_nat (length content) = size_ \/ exists other, other ≠ content /\ sha256 other = sha256 content).

Lemma digest_name_inj a b : digest_name a = digest_name b -> sha256 a = sha256 b.
Proof. intros H%hex_encode_inj. by apply bytes32_eq. Qed.

Lemma held_verified dir content t :
  held dir (digest_name content) t ->
  verified dir (path_string (dir ++ [digest_name content])) (b32 (sha256 content)) (Z.of_nat (length content)) t.
Proof.
  intros [_ (x & Hx & Hd)]. split; [done|]. apply digest_name_inj in Hd. exists x. split; [done|]. split; [by rewrite Hd|].
  destruct (decide (x = content)) as [->|Hne]; [by left|]. right. exists content. by split.
Qed.

Lemma put_spec name request body :
  triple (on_tree (honest (directory cfg))) (put cfg server name request body)
    (fun r c => on_tree (honest (directory cfg)) c /\ r_id r = id request
       /\ on_tree (verified (directory cfg) (disk_path r) (output_id request) (body_size request)) c)
    (fun _ => on_tree (honest (directory cfg))).
Proof.
  unfold put. eapply triple_bind with (Q' := fun _ => on_tree (honest (directory cfg))); [apply preserves_lift|]. intros content.
  destruct (Z.of_nat (length content) =? body_size request) eqn:Es; cbn [negb]; [|by apply triple_throw]. apply Z.eqb_eq in Es.
  destruct (bool_decide (b32 (sha256 content) = output_id request)) eqn:Ed; cbn [negb]; [|by apply triple_throw].
  apply bool_decide_eq_true in Ed. rewrite <- Ed. change (hex_encode (b32 (sha256 content))) with (digest_name content).
  eapply triple_bind; [apply write_disk_file_holds|]. intros s. cbv beta.
  set (I := fun c => on_tree (held (directory cfg) (digest_name content)) c /\ s = path_string (directory cfg ++ [digest_name content])).
  assert (forall A (m : M Client ClientError A), preserves (on_tree (held (directory cfg) (digest_name content))) m ->
    triple I m (fun _ => I) (fun _ => on_tree (honest (directory cfg)))) as Hframe.
  { intros A m Hm c [Hc Hs]. specialize (Hm c Hc). destruct (m c) as [[x|e] c']; [done|by eapply held_honest]. }
  eapply triple_bind; [apply Hframe, send_put_tree|]. intros u1. cbv beta.
  eapply triple_bind; [apply Hframe, record_used_tree|]. intros u2. apply triple_ret. intros c [Hh ->].
  split; [by eapply held_honest|]. split; [done|]. cbn. rewrite <- Es. eapply on_tree_weaken, Hh. intros t. apply held_verified.
Qed.

Lemma hex_decode_digits name output : hex_decode name = Some output ->
  forall x, x ∈ name -> is_hex_digit (to_ascii_lowercase_byte x) = true.
Proof.
  intros H%hex_decode_lower x Hc. pose proof (hex_encode_digits output) as HF. rewrite H, Forall_forall in HF.
  apply HF. unfold to_ascii_lowercase. by apply (list_elem_of_fmap_2 to_ascii_lowercase_byte).
Qed.

Lemma hex_decode_path dir name output : hex_decode name = Some output -> name ≠ [] -> path_join dir name = dir ++ [name].
Proof.
  intros H Hne. pose proof (hex_decode_digits name output H) as Hd.
  apply path_join_name; [intros Hc; by apply Hd in Hc|done|intros ->|intros ->];
    discriminate (Hd "."%char ltac:(apply elem_of_cons; by left)).
Qed.

Lemma hex_decode_not_temporary name output : hex_decode name = Some output -> is_temporary name = false.
Proof.
  intros H. pose proof (hex_decode_digits name output H) as Hd. destruct name as [|c name]; [done|].
  unfold is_temporary. cbn. rewrite bool_decide_false; [done|]. intros <-.
  discriminate (Hd "."%char ltac:(apply elem_of_cons; by left)).
Qed.

(** A file of the entry's size is there. *)
Definition present_entry (entry : ManifestEntry) t : Prop :=
  honest (directory cfg) t
  /\ exists content, t !! path_join (directory cfg) (entry_output entry) = Some (File content)
       /\ Z.of_nat (length content) = entry_size entry.

Lemma present_honest entry c : on_tree (present_entry entry) c -> on_tree (honest (directory cfg)) c.
Proof. apply on_tree_weaken. by intros t [H _]. Qed.

(** A local answer is a verified one, of exactly the size reported. *)
Lemma present_verified entry output t s :
  present_entry entry t -> hex_decode (entry_output entry) = Some output -> s = path_string (path_join (directory cfg) (entry_output entry)) ->
  verified (directory cfg) s output (entry_size entry) t.
Proof.
  intros [[Hd Hh] (content & Hl & Hsize)] Hx ->.
  assert (entry_output entry ≠ []) as Hne.
  { intros E. rewrite E in Hl. cbn in Hl. unfold is_file in Hd. by rewrite Hl in Hd. }
  rewrite (hex_decode_path _ _ output) in * by done.
  destruct (Hh _ _ Hl) as (x & [= <-] & Hn); [by eapply hex_decode_not_temporary|].
  assert (b32 (sha256 content) = output) as Ho.
  { rewrite <- Hn in Hx. unfold digest_name in Hx. rewrite hex_decode_any in Hx. congruence. }
  rewrite <- Hn in Hl |- *. rewrite <- Ho. split; [done|]. exists content. by auto.
Qed.

(** What a get may answer: its own identifier, and a hit only with a verified file. *)
Definition get_answer (request : Request) (r : ProgResponse) c : Prop :=
  on_tree (honest (directory cfg)) c /\ r_id r = id request
  /\ (r_err r = None -> miss r = false -> on_tree (verified (directory cfg) (disk_path r) (r_output_id r) (r_size r)) c).

Lemma get_local_spec request entry :
  triple (on_tree (present_entry entry)) (get_local cfg request entry) (get_answer request) (fun _ => on_tree (honest (directory cfg))).
Proof.
  assert (forall A (m : M Client ClientError A), preserves (on_tree (present_entry entry)) m ->
    triple (on_tree (present_entry entry)) m (fun _ => on_tree (present_entry entry)) (fun _ => on_tree (honest (directory cfg)))) as Hframe.
  { intros A m Hm c Hc. specialize (Hm c Hc). destruct (m c) as [[x|e] c']; [done|by apply present_honest in Hm]. }
  unfold get_local. eapply triple_bind; [apply Hframe, touch_file_tree|]. intros u1. cbv beta.
  eapply triple_bind; [apply Hframe, record_used_tree|]. intros u2. cbv beta.
  intros c Hc. unfold ok_or, mbind, M_bind. destruct (hex_decode (entry_output entry)) as [output|] eqn:Eo; [|by apply present_honest in Hc]. cbn [mret M_ret].
  pose proof (canonical_path_tree (present_entry entry) (path_join (directory cfg) (entry_output entry)) c Hc) as Ht.
  destruct (canonical_path _ c) as [[s|e] c'] eqn:Es; [|by apply present_honest in Ht]. split; [by apply present_honest in Ht|]. split; [done|]. intros _ _. cbn.
  destruct Ht as [Ht Hl]. split; [|done]. eapply present_verified; [done..|]. by eapply canonical_path_ok.
Qed.

Lemma get_remote_spec name request :
  triple (on_tree (honest (directory cfg))) (get_remote cfg server name request) (get_answer request) (fun _ => on_tree (honest (directory cfg))).
Proof.
  unfold get_remote. eapply triple_bind with (Q' := fun _ => on_tree (honest (directory cfg))); [apply get_with_tree|].
  intros [response|]; [|by apply triple_ret].
  eapply triple_bind with (Q' := fun _ => on_tree (honest (directory cfg))); [apply response_bytes_tree|]. intros body. cbv zeta.
  set (mismatch := match etag_digest response with Some _ => _ | None => false end). destruct mismatch; [by apply triple_ret|].
  change (hex_encode (b32 (sha256 body))) with (digest_name body).
  eapply triple_bind; [apply write_disk_file_holds|]. intros s c [Hc ->]. cbv beta.
  unfold record_used, ok_or, mbind, M_bind, modify. replace (hex_decode (digest_name body)) with (Some (b32 (sha256 body))) by (symmetry; apply hex_decode_any). cbn [mret M_ret].
  split; [by eapply held_honest|]. split; [done|]. intros _ _. cbn. eapply on_tree_weaken, Hc. intros t. apply held_verified.
Qed.

(** A look for the entry's file. *)
Lemma lookup_entry_spec entry :
  triple (on_tree (honest (directory cfg))) (file_has_size (path_join (directory cfg) (entry_output entry)) (entry_size entry))
    (fun present c => on_tree (honest (directory cfg)) c /\ (present = true -> on_tree (present_entry entry) c))
    (fun _ => on_tree (honest (directory cfg))).
Proof.
  intros c Hc. pose proof (file_has_size_tree (honest (directory cfg)) (path_join (directory cfg) (entry_output entry)) (entry_size entry) c Hc) as Ht.
  destruct (file_has_size _ _ c) as [[b|e] c'] eqn:E; [|done]. split; [done|]. intros ->. destruct Ht as [Ht Hl]. split; [|done]. split; [done|]. by eapply file_has_size_true.
Qed.

Lemma get_resume_spec name request entry :
  triple (on_tree (honest (directory cfg))) (get_resume cfg server name request entry) (get_answer request)
    (fun _ => on_tree (honest (directory cfg))).
Proof.
  unfold get_resume. eapply triple_bind; [apply lookup_entry_spec|]. intros [] c [Hc Hp].
  - by apply get_local_spec, Hp.
  - by apply get_remote_spec.
Qed.

Lemma get_begin_spec name request :
  triple (on_tree (honest (directory cfg))) (get_begin cfg server name request)
    (fun o c => match o with Answered r => get_answer request r c | Waits _ => on_tree (honest (directory cfg)) c end)
    (fun _ => on_tree (honest (directory cfg))).
Proof.
  assert (forall m : M Client ClientError ProgResponse, forall P, triple P m (get_answer request) (fun _ => on_tree (honest (directory cfg))) ->
    triple P (r ← m; mret (Answered r))
      (fun o c => match o with Answered r => get_answer request r c | Waits _ => on_tree (honest (directory cfg)) c end)
      (fun _ => on_tree (honest (directory cfg)))) as Hans.
  { intros m P Hm. eapply triple_bind; [exact Hm|]. intros r. by apply triple_ret. }
  unfold get_begin. eapply triple_bind with (Q' := fun _ => on_tree (honest (directory cfg))); [apply preserves_get|]. intros c0.
  destruct (manifest_entry _ _) as [entry|]; [|apply Hans, get_remote_spec].
  eapply triple_bind; [apply lookup_entry_spec|]. intros [] c [Hc Hp].
  - apply (Hans _ _ (get_local_spec request entry)), Hp, eq_refl.
  - destruct (download_in_progress _ _); [exact Hc|]. by apply (Hans _ _ (get_remote_spec name request)).
Qed.

(** Every answer of the helper. *)
Definition answer_ok (request : Request) (r : ProgResponse) c : Prop :=
  r_id r = id request
  /\ (r_err r = None -> miss r = false ->
      if bool_decide (command request = lit "put")
      then on_tree (verified (directory cfg) (disk_path r) (output_id request) (body_size request)) c
      else on_tree (verified (directory cfg) (disk_path r) (r_output_id r) (r_size r)) c).

Lemma execute_spec name request body c o c' :
  on_tree (honest (directory cfg)) c -> execute_request cfg server name request body c = (o, c') ->
  on_tree (honest (directory cfg)) c' /\ match o with Answered r => answer_ok request r c' | Waits _ => command request = lit "get" end.
Proof.
  intros Hc. unfold execute_request, answer_ok, answered_by.
  destruct (bool_decide (command request = lit "put")) eqn:Ep.
  - pose proof (put_spec name request body c Hc) as H. destruct (put _ _ _ _ _ c) as [[r|e] c1]; intros [= <- <-]; [|done].
    destruct H as (H1 & H2 & H3). done.
  - destruct (bool_decide (command request = lit "get")) eqn:Eg; [|by intros [= <- <-]]. apply bool_decide_eq_true in Eg.
    pose proof (get_begin_spec name request c Hc) as H. destruct (get_begin _ _ _ _ c) as [[[r|entry]|e] c1]; intros [= <- <-]; [|done..].
    destruct H as (H1 & H2 & H3). done.
Qed.

Lemma resume_spec name request entry c r c' :
  on_tree (honest (directory cfg)) c -> answered_by (id request) (get_resume cfg server name request entry) c = (r, c') ->
  get_answer request r c'.
Proof.
  intros Hc. unfold answered_by. pose proof (get_resume_spec name request entry c Hc) as H.
  destruct (get_resume _ _ _ _ _ c) as [[x|e] c1]; intros [= <- <-]; [done|]. by split.
Qed.

(** *** Prefetching *)

Lemma stored_manifest_tree I : preserves (on_tree I) (stored_manifest cfg server).
Proof.
  apply preserves_bind; [apply get_with_tree|]. intros [r|]; [|apply preserves_ret].
  apply preserves_bind; [apply response_bytes_tree|]. intros b. apply preserves_ret.
Qed.

Lemma spool_chunks_spec name stream hashed :
  triple (on_tree (spooled (directory cfg) name hashed)) (spool_chunks (temporary_path (directory cfg) name) stream hashed)
    (fun b => on_tree (spooled (directory cfg) name b)) (fun _ => on_tree (honest (directory cfg))).
Proof.
  revert hashed. induction stream as [|[chunk|e] stream IH]; intros hashed; cbn [spool_chunks].
  - by apply triple_ret.
  - eapply triple_bind; [apply write_spools|]. intros u. apply IH.
  - apply triple_throw. intros c Hc. by eapply spooled_honest.
Qed.

Lemma spool_verified_spec name response entry :
  triple (on_tree (honest (directory cfg))) (spool_verified response (temporary_path (directory cfg) name) entry)
    (fun _ c => exists b, on_tree (spooled (directory cfg) name b) c /\ digest_name b = entry_output entry)
    (fun _ => on_tree (honest (directory cfg))).
Proof.
  unfold spool_verified. eapply triple_bind; [apply create_spools|]. intros u. cbv beta.
  eapply triple_bind; [apply spool_chunks_spec|]. intros b. cbv beta.
  eapply triple_bind with (Q' := fun _ => on_tree (spooled (directory cfg) name b)).
  { intros c Hc. pose proof (touch_tree (spooled (directory cfg) name b) c Hc) as Ht. destruct (on_disk touch c) as [[] c']; [done|by eapply spooled_honest]. }
  intros v. destruct (negb (Z.of_nat _ =? _)); [apply triple_throw; intros c Hc; by eapply spooled_honest|].
  destruct (bool_decide (hex_encode (b32 (sha256 b)) = entry_output entry)) eqn:Ed; cbn [negb];
    [|apply triple_throw; intros c Hc; by eapply spooled_honest]. apply bool_decide_eq_true in Ed. apply triple_ret. intros c Hc. by exists b.
Qed.

Lemma download_tree name x : preserves (on_tree (honest (directory cfg))) (download_object cfg server name x).
Proof.
  unfold download_object. apply preserves_bind; [apply file_has_size_tree|]. intros []; [apply preserves_ret|].
  apply preserves_bind; [apply get_with_tree|]. intros [response|]; [|apply preserves_ret].
  intros c Hc. unfold mbind at 1, M_bind at 1, try. pose proof (spool_verified_spec name response x.2 c Hc) as Hs.
  destruct (spool_verified _ _ _ c) as [[u|e] c1].
  - destruct Hs as (b & Hb & Hn). rewrite <- Hn. rewrite path_join_hex by (apply digest_name_ne || apply digest_name_hex).
    unfold mbind, M_bind. pose proof (publish_holds (directory cfg) name b c1 Hb) as Hp.
    destruct (publish_temporary _ _ c1) as [[v|e] c2]; [by eapply held_honest|exact Hp].
  - unfold mbind, M_bind. pose proof (discard_file_tree (directory cfg) (temporary_path (directory cfg) name) c1 Hs) as Hd.
    by destruct (discard_file _ c1) as [[] c2].
Qed.

(** The constant of the source is the digest of the empty body. *)
Hypothesis empty_digest : digest_name [] = EMPTY_OUTPUT.

Lemma plan_entry_tree name x plan : preserves (on_tree (honest (directory cfg))) (plan_entry cfg name x plan).
Proof.
  unfold plan_entry. case_bool; [apply preserves_ret|]. case_bool.
  - case_bool; [|apply preserves_ret]. apply bool_decide_eq_true in Heqb1. rewrite Heqb1, <- empty_digest.
    apply preserves_bind; [|intros []; apply preserves_ret]. apply preserves_try.
    eapply triple_conseq; [apply (write_disk_file_holds (directory cfg) name [])|done| |done]. intros s c [Hc _]. by eapply held_honest.
  - apply preserves_bind; [apply file_has_size_tree|]. intros []; [|apply preserves_ret].
    apply preserves_bind; [apply touch_file_tree|]. intros u. apply preserves_ret.
Qed.

Lemma prefetch_tree k c k' c' : prefetch_step cfg server k c k' c' -> on_tree (honest (directory cfg)) c -> on_tree (honest (directory cfg)) c'.
Proof.
  intros H Hc. destruct H.
  - pose proof (stored_manifest_tree (honest (directory cfg)) c Hc) as Hs. by rewrite H in Hs.
  - pose proof (stored_manifest_tree (honest (directory cfg)) c Hc) as Hs. by rewrite H in Hs.
  - pose proof (plan_entry_tree name x plan c Hc) as Hs. by rewrite H in Hs.
  - done.
  - exact Hc.
  - pose proof (download_tree name x c Hc) as Hs. rewrite H in Hs. by destruct r.
  - done.
Qed.

(** *** The end *)

Lemma finalize_tree I : preserves (on_tree I) (finalize cfg server).
Proof.
  unfold finalize. apply preserves_bind; [by intros c Hc|]. intros u. case_bool; [apply preserves_ret|].
  apply preserves_bind; [|intros r; apply preserves_ret]. apply preserves_try. unfold update_manifest.
  apply preserves_bind; [apply stored_manifest_tree|]. intros stored. apply preserves_bind; [apply unix_now_tree|]. intros t.
  apply preserves_bind; [apply preserves_ok_or|]. intros content. apply send_put_tree.
Qed.

Lemma finish_session_tree (I : tree -> Prop) c : on_tree I c -> on_tree I (finish_session cfg server c).
Proof.
  intros Hc. apply (preserves_run (on_tree I)); [apply finalize_tree|exact Hc].
Qed.

Lemma prune_entries_tree now age names : preserves (on_tree (honest (directory cfg))) (prune_entries cfg now age names).
Proof.
  induction names as [|name names IH]; [apply preserves_ret|]. cbn [prune_entries].
  apply preserves_bind; [apply preserves_try, touch_tree|]. intros [u|e]; [|apply preserves_ret].
  apply preserves_bind; [|intros v; apply IH]. unfold prune_entry. destruct (max_age age name) as [limit|]; [|apply preserves_ret].
  apply preserves_bind; [apply preserves_try, metadata_tree|]. intros found. apply preserves_bind; [apply preserves_get|].
  intros c0. destruct found as [[len|]|e]; [|apply preserves_ret..]. case_bool; [apply discard_file_tree|apply preserves_ret].
Qed.

Lemma clean_up_tree ephemeral prune_days c :
  on_tree (honest (directory cfg)) c -> on_tree (honest (directory cfg)) (clean_up cfg ephemeral prune_days c).
Proof.
  intros Hc. unfold clean_up. destruct ephemeral.
  - apply (preserves_run (on_tree (honest (directory cfg)))); [|done]. apply on_disk_tree, syscall_preserves.
    + intros t Ht. repeat case_match; cbn; try done. eapply honest_subset; [apply map_filter_subseteq|done].
    + intros f t Ht. eapply honest_subset; [apply map_filter_subseteq|done].
  - apply (preserves_run (on_tree (honest (directory cfg)))); [|done]. apply preserves_bind; [apply unix_now_tree|]. intros t.
    unfold prune_stale_files. apply preserves_bind; [apply preserves_try, on_disk_tree, read_dir_preserves|].
    intros [l|e]; [|apply preserves_ret]. apply prune_entries_tree.
Qed.

(** *** Every event *)

Definition honest_helper (h : Helper) : Prop := on_tree (honest (directory cfg)) (h_client h).

Lemma event_honest ephemeral prune_days h h' :
  helper_step cfg server ephemeral prune_days h h' -> honest_helper h -> honest_helper h'.
Proof.
  unfold honest_helper. intros [H|H] Hc; destruct H; cbn in *; try done.
  - by eapply execute_spec in H as [? _].
  - by eapply execute_spec in H as [? _].
  - by eapply resume_spec in H0 as [? _].
  - by eapply prefetch_tree.
  - by apply finish_session_tree.
  - by apply clean_up_tree, finish_session_tree.
Qed.
End Requests.
End Objects.
