(* ===== verification/CacheprogClaims.v ===== *)
(** * What the build-cache helper guarantees

    Hits name verified files, every request is answered once and the close last, runs come to an
    end, a manifest-known object is served without a request, and cleaning up spares what is live. *)

From Stdlib Require Import Relation_Operators Wellfounded Wf_nat.
From S2P Require Import Prelude Externals Concrete Text Filesystem FilesLemmas Web WebConcrete Manifest Protocol Cacheprog CacheprogLemmas.

(** An invariant of the steps holds in every state a run reaches. *)
Lemma rtc_keeps {A} (R : relation A) (I : A -> Prop) x y : (forall a b, R a b -> I a -> I b) -> I x -> rtc R x y -> I y.
Proof. intros HR Hx H. induction H; eauto. Qed.

Section Claims.
Context {HX : HexLib} {HXL : HexLaws} {SH : Sha256Lib} {BS : Base64Lib} {URL : UrlLib} {PJ : ProtocolJson} {MJ : ManifestJson}.
Implicit Types (cfg : ClientConfig) (server : CacheServer) (h : Helper).


(** *** Answers *)

(** An operation whose answers carry the identifier. *)
Definition answers (i : Z) (m : M Client ClientError ProgResponse) : Prop :=
  forall c r c', m c = (Ok r, c') -> r_id r = i.

Lemma answers_bind {A} i (m : M Client ClientError A) k : (forall a, answers i (k a)) -> answers i (m ≫= k).
Proof. intros H c r c' (a & c1 & _ & E)%bind_ok. by eapply H. Qed.
Lemma answers_ret i r : r_id r = i -> answers i (mret r).
Proof. by intros H c r' c' [= <- _]. Qed.
Lemma answers_throw i e : answers i (throw e).
Proof. done. Qed.

Lemma put_answers cfg server name request body : answers (id request) (put cfg server name request body).
Proof.
  apply answers_bind. intros content. case_bool; [apply answers_throw|]. case_bool; [apply answers_throw|].
  repeat (apply answers_bind; intros ?). by apply answers_ret.
Qed.

Lemma get_local_answers cfg request entry : answers (id request) (get_local cfg request entry).
Proof. repeat (apply answers_bind; intros ?). by apply answers_ret. Qed.

Lemma get_remote_answers cfg server name request : answers (id request) (get_remote cfg server name request).
Proof.
  apply answers_bind. intros [response|]; [|by apply answers_ret]. apply answers_bind. intros body.
  cbv zeta. destruct (match etag_digest response with Some _ => _ | None => false end); [by apply answers_ret|].
  repeat (apply answers_bind; intros ?). by apply answers_ret.
Qed.

Lemma get_resume_answers cfg server name request entry : answers (id request) (get_resume cfg server name request entry).
Proof. apply answers_bind. intros []; [apply get_local_answers|apply get_remote_answers]. Qed.

Lemma answered_id i m c r c' : answers i m -> answered_by i m c = (r, c') -> r_id r = i.
Proof. intros Hm. unfold answered_by. destruct (m c) as [[x|e] c1] eqn:E; intros [= <- <-]; [by eapply Hm|done]. Qed.

Lemma answered_outcome i m c r c' : answers i m -> (y ← m; mret (Answered y)) c = (Ok (Answered r), c') -> r_id r = i.
Proof. intros Hm (y & c1 & E & E2)%bind_ok. injection E2 as <- _. by eapply Hm. Qed.

Lemma get_begin_id cfg server name request c r c' :
  get_begin cfg server name request c = (Ok (Answered r), c') -> r_id r = id request.
Proof.
  intros (c0 & c1 & _ & H)%bind_ok. destruct (manifest_entry _ _) as [entry|].
  - apply bind_ok in H as ([] & c2 & _ & H); [by eapply answered_outcome; [apply get_local_answers|]|].
    destruct (download_in_progress _ _); [done|]. by eapply answered_outcome; [apply get_remote_answers|].
  - by eapply answered_outcome; [apply get_remote_answers|].
Qed.

Lemma execute_id cfg server name request body c r c' :
  execute_request cfg server name request body c = (Answered r, c') -> r_id r = id request.
Proof.
  unfold execute_request. case_bool.
  { destruct (answered_by _ _ c) as [x c1] eqn:E. intros [= <- <-]. by eapply answered_id; [apply put_answers|]. }
  case_bool; [|by intros [= <- <-]].
  destruct (get_begin _ _ _ _ c) as [[o|e] c1] eqn:E; [|by intros [= <- <-]]. intros [= -> <-]. by eapply get_begin_id.
Qed.

Definition message_id (m : ProtocolMessage) : Z := match m with MRequest request _ => id request | MInvalid _ => 0 end.
Definition asks_close (m : ProtocolMessage) : bool := match m with MRequest request _ => is_close request | MInvalid _ => false end.
Definition flight_id (f : Flight) : Z := id (f_request f).

(** The identifiers of the requests read; the capabilities the helper announces carry 0. *)
Definition asked (read : list ProtocolMessage) : list Z := 0 :: (message_id <$> List.filter (fun m => negb (asks_close m)) read).

Arguments asked : simpl never.

(** The close that was read, if any, is the last message read. *)
Definition close_read (close : option Z) (read : list ProtocolMessage) : Prop :=
  match close with
  | None => Forall (fun m => asks_close m = false) read
  | Some n => exists before request body, read = before ++ [MRequest request body] /\ is_close request = true /\ id request = n
      /\ Forall (fun m => asks_close m = false) before
  end.

(** Requests read are answered or running; once the loop is left, they were all answered before the
    close was, or the run was cut short. *)
Definition accounted (input : list ProtocolMessage) h : Prop :=
  exists read, input = read ++ h_input h /\ close_read (h_close h) read /\
  match h_phase h with
  | Looping => (r_id <$> h_out h) ++ (flight_id <$> h_in_flight h) ≡ₚ asked read
  | _ => h_in_flight h = []
      /\ ((exists n o, h_close h = Some n /\ h_out h = o ++ [closed_response n] /\ r_id <$> o ≡ₚ asked read)
          \/ r_id <$> h_out h ⊆+ asked read)
  end.

Lemma asked_app read m : asks_close m = false -> asked (read ++ [m]) = asked read ++ [message_id m].
Proof.
  intros Hm. unfold asked. rewrite List.filter_app, fmap_app. cbn [List.filter]. by rewrite Hm.
Qed.

Lemma asked_close read m : asks_close m = true -> asked (read ++ [m]) = asked read.
Proof.
  intros Hm. unfold asked. rewrite List.filter_app, fmap_app. cbn [List.filter]. rewrite Hm. cbn. by rewrite app_nil_r.
Qed.

Lemma close_read_app read m : close_read None read -> asks_close m = false -> close_read None (read ++ [m]).
Proof. intros H Hm. apply Forall_app. split; [done|]. by constructor. Qed.

Lemma cut_accounted (out : list Z) (running : list Z) read : out ++ running ≡ₚ asked read -> out ⊆+ asked read.
Proof. intros <-. by apply submseteq_inserts_r. Qed.

Lemma perm_answer (out f1 f2 all : list Z) x : out ++ f1 ++ x :: f2 ≡ₚ all -> (out ++ [x]) ++ f1 ++ f2 ≡ₚ all.
Proof. intros <-. solve_Permutation. Qed.
Lemma perm_request (out f all : list Z) x : out ++ f ≡ₚ all -> out ++ f ++ [x] ≡ₚ all ++ [x].
Proof. intros <-. by rewrite app_assoc. Qed.
Lemma perm_invalid (out f all : list Z) x : out ++ f ≡ₚ all -> (out ++ [x]) ++ f ≡ₚ all ++ [x].
Proof. intros <-. solve_Permutation. Qed.

Lemma event_accounted cfg server ephemeral prune_days input h h' :
  helper_step cfg server ephemeral prune_days h h' -> accounted input h -> accounted input h'.
Proof.
  intros Hstep (read & Hin & Hcl & H). destruct Hstep as [Hstep|Hstep]; destruct Hstep; cbn in *.
  - exists (read ++ [MInvalid m]). rewrite <- app_assoc. split; [done|]. split; [by apply close_read_app|].
    rewrite asked_app by done. cbn. rewrite fmap_app. by apply perm_invalid.
  - exists (read ++ [MRequest request body]). rewrite <- app_assoc. split; [done|]. split; [by apply close_read_app|].
    rewrite asked_app by done. cbn. rewrite fmap_app. by apply perm_request.
  - exists (read ++ [MRequest request body]). rewrite <- app_assoc. split; [done|]. split.
    + exists read, request, body. auto.
    + by rewrite asked_close.
  - exists read. split; [done|]. split; [done|]. split; [done|]. right. by eapply cut_accounted.
  - exists read. split; [done|]. split; [done|]. split; [done|]. right. by eapply cut_accounted.
  - exists read. split; [done|]. split; [done|]. apply execute_id in H0. cbn [h_phase h_out h_in_flight]. rewrite !fmap_app, fmap_cons in *.
    change (r_id <$> [r]) with [r_id r]. rewrite H0. by apply perm_answer.
  - exists read. split; [done|]. split; [done|]. cbn [h_phase h_out h_in_flight]. rewrite !fmap_app in *. done.
  - exists read. split; [done|]. split; [done|]. eapply answered_id in H1; [|apply get_resume_answers].
    cbn [h_phase h_out h_in_flight]. rewrite !fmap_app, fmap_cons in *. change (r_id <$> [r]) with [r_id r]. rewrite H1. by apply perm_answer.
  - exists read. done.
  - exists read. split; [done|]. split; [done|]. split; [done|]. left. exists n, o. rewrite app_nil_r in H. done.
  - exists read. done.
  - exists read. split; [done|]. split; [done|]. split; [done|]. right. by eapply cut_accounted.
  - exists read. split; [done|]. split; [done|]. split; [done|]. right. by eapply cut_accounted.
Qed.

(** C19: In every state a run can reach, each request read has been answered exactly once under its
    own identifier or is still running, and nothing is read after a close; when the loop ends
    otherwise than by a close, what was written answers some of the requests read, none twice; and
    the reply to a close is written after the answers to all the requests before it. *)
Theorem requests_answered_once cfg server ephemeral prune_days c input how h :
  rtc (helper_step cfg server ephemeral prune_days) (helper_start c input how) h ->
  exists read, input = read ++ h_input h /\ close_read (h_close h) read /\
  match h_phase h with
  | Looping => (r_id <$> h_out h) ++ (flight_id <$> h_in_flight h) ≡ₚ asked read
  | _ => h_in_flight h = []
      /\ ((exists n o, h_close h = Some n /\ h_out h = o ++ [closed_response n] /\ r_id <$> o ≡ₚ asked read)
          \/ r_id <$> h_out h ⊆+ asked read)
  end.
Proof.
  intros Hrun. refine (rtc_keeps _ (accounted input) (helper_start c input how) h _ _ Hrun).
  - intros h1 h2 H. by eapply event_accounted.
  - exists []. split; [done|]. split; [by constructor|]. cbn. done.
Qed.

(** *** Runs end *)

Definition task_rank (t : PrefetchTask) : nat * nat :=
  match t with
  | PStart => (3, 0)
  | PPlanning todo _ => (2, length todo)
  | PDownloading todo => (1, length todo)
  | PEnded => (0, 0)
  end%nat.

Definition flight_weight (f : Flight) : nat := match f_wait f with None => 2 | Some _ => 1 end.

Definition run_weight h : nat :=
  3 * length (h_input h) + sum_list_with flight_weight (h_in_flight h)
  + match h_phase h with Looping => 2 | Leaving => 1 | Stopped => 0 end.

Definition rank_lt : relation (nat * (nat * nat)) := slexprod nat (nat * nat) lt (slexprod nat nat lt lt).

Lemma rank_lt_wf : well_founded rank_lt.
Proof. apply wf_slexprod; [apply lt_wf|]. apply wf_slexprod; apply lt_wf. Qed.

Definition rank h : nat * (nat * nat) := (run_weight h, task_rank (h_task h)).

Lemma prefetch_rank cfg server t c t' c' :
  prefetch_step cfg server t c t' c' -> slexprod nat nat lt lt (task_rank t') (task_rank t).
Proof.
  intros H. destruct H; cbn; try (apply left_slex; lia); apply right_slex; rewrite ?length_app; cbn; lia.
Qed.

Lemma event_rank cfg server ephemeral prune_days h h' :
  helper_event cfg server ephemeral prune_days h h' -> rank_lt (rank h') (rank h).
Proof.
  intros H. unfold rank, rank_lt. destruct H; try (apply left_slex; unfold run_weight; cbn; rewrite ?sum_list_with_app; cbn; lia).
  apply right_slex. by eapply prefetch_rank.
Qed.

(** *** Waiting *)

(** The manifest installed and the downloads marked in flight. *)
Definition session_view (c : Client) : option Manifest * gset bytes := (manifest (c_session c), inflight (c_session c)).
Definition marked (X : option Manifest * gset bytes) (c : Client) : Prop := session_view c = X.

Lemma on_disk_marked {A} X (m : M FS io_error A) : preserves (marked X) (on_disk m).
Proof. intros c Hc. unfold on_disk, raising, zoom. by destruct (m (c_fs c)) as [[] fs]. Qed.
Lemma unix_now_marked X : preserves (marked X) unix_now.
Proof. by intros c Hc. Qed.
Lemma on_modified_marked X f : preserves (marked X) (modify (on_modified f) : M Client ClientError unit).
Proof. by apply preserves_modify. Qed.
Lemma record_used_marked X a o n : preserves (marked X) (record_used a o n).
Proof. by apply preserves_modify. Qed.
Lemma send_call_marked X server call : preserves (marked X) (send_call server call).
Proof. intros c Hc. unfold send_call. by destruct (server (c_log c) call). Qed.

(** Follows the structure of an operation, applying what is known of its parts. *)
Ltac follow_using known :=
  repeat first
    [ known | apply on_disk_marked | apply unix_now_marked | apply on_modified_marked | apply record_used_marked | apply send_call_marked
    | apply preserves_ret | apply preserves_throw | apply preserves_get | apply preserves_lift | apply preserves_ok_or
    | apply preserves_try | apply preserves_bind; [|intros ?]
    | progress (cbv beta zeta)
    | match goal with |- preserves _ (match ?x with _ => _ end) => destruct x end ].
Ltac follow := follow_using fail.

Lemma write_disk_file_marked X name dir object content : preserves (marked X) (write_disk_file name dir object content).
Proof.
  unfold write_disk_file, file_has_size, touch_file, canonical_path, write_atomic, publish_temporary, create_stamped, write_unsettled,
    discard_file, stamp_now. follow.
Qed.

Lemma put_marked X cfg server name request body : preserves (marked X) (put cfg server name request body).
Proof. unfold put, send_put. follow_using ltac:(first [apply write_disk_file_marked]). Qed.

Lemma get_remote_marked X cfg server name request : preserves (marked X) (get_remote cfg server name request).
Proof. unfold get_remote, send_get, get_with, response_bytes. follow_using ltac:(first [apply write_disk_file_marked]). Qed.

Lemma get_local_marked X cfg request entry : preserves (marked X) (get_local cfg request entry).
Proof. unfold get_local, touch_file, canonical_path, stamp_now. follow. Qed.

Lemma get_begin_marked X cfg server name request : preserves (marked X) (get_begin cfg server name request).
Proof. unfold get_begin, file_has_size. follow_using ltac:(first [apply get_remote_marked|apply get_local_marked]). Qed.

Lemma get_resume_marked X cfg server name request entry : preserves (marked X) (get_resume cfg server name request entry).
Proof. unfold get_resume, file_has_size. follow_using ltac:(first [apply get_remote_marked|apply get_local_marked]). Qed.

Lemma stored_manifest_marked X cfg server : preserves (marked X) (stored_manifest cfg server).
Proof. unfold stored_manifest, send_get, get_with, response_bytes. follow. Qed.

Lemma plan_entry_marked X cfg name x plan : preserves (marked X) (plan_entry cfg name x plan).
Proof. unfold plan_entry, file_has_size, touch_file, stamp_now. follow_using ltac:(first [apply write_disk_file_marked]). Qed.

Lemma spool_chunks_marked X temporary stream hashed : preserves (marked X) (spool_chunks temporary stream hashed).
Proof.
  revert hashed. induction stream as [|[chunk|e] stream IH]; intros hashed; cbn [spool_chunks]; unfold write_stamped, stamp_now;
    follow_using ltac:(first [apply IH]).
Qed.

Lemma download_marked X cfg server name x : preserves (marked X) (download_object cfg server name x).
Proof.
  unfold download_object, file_has_size, get_with, spool_verified, publish_temporary, create_stamped, discard_file, stamp_now.
  follow_using ltac:(first [apply spool_chunks_marked]).
Qed.

Lemma execute_marked X cfg server name request body c : marked X c -> marked X (execute_request cfg server name request body c).2.
Proof.
  intros Hc. unfold execute_request, answered_by. case_bool.
  - pose proof (preserves_run _ _ _ (put_marked X cfg server name request body) Hc) as H. by destruct (put _ _ _ _ _ c) as [[] c'].
  - case_bool; [|done]. pose proof (preserves_run _ _ _ (get_begin_marked X cfg server name request) Hc) as H.
    by destruct (get_begin _ _ _ _ c) as [[] c'].
Qed.

Definition outputs_of (todo : list (bytes * ManifestEntry)) : gset bytes := list_to_set ((fun x => entry_output x.2) <$> todo).

(** While the helper loops, only downloads the prefetch task still has to make are marked, so that
    whatever a get waits for is to come; and the input ends or fails. *)
Definition live h : Prop :=
  (h_end h = EndOfInput \/ exists message, h_end h = Failed message)
  /\ match h_phase h with
     | Looping => inflight (c_session (h_client h)) ⊆ match h_task h with PDownloading todo => outputs_of todo | _ => ∅ end
     | _ => h_in_flight h = []
     end.

Lemma begin_downloads_inflight todo s :
  inflight (fold_left (fun s x => begin_download (entry_output x.2) s) todo s) = outputs_of todo ∪ inflight s.
Proof.
  unfold outputs_of. revert s. induction todo as [|x todo IH]; intros s; cbn [fold_left]; [set_solver|].
  rewrite IH. cbn. set_solver.
Qed.

Lemma prefetch_live cfg server t c t' c' :
  prefetch_step cfg server t c t' c' ->
  inflight (c_session c) ⊆ match t with PDownloading todo => outputs_of todo | _ => ∅ end ->
  inflight (c_session c') ⊆ match t' with PDownloading todo => outputs_of todo | _ => ∅ end.
Proof.
  intros H Hc. destruct H.
  - pose proof (stored_manifest_marked (session_view c) cfg server c eq_refl) as Hm. rewrite H in Hm. injection Hm as _ Hm. by rewrite Hm.
  - pose proof (stored_manifest_marked (session_view c) cfg server c eq_refl) as Hm. rewrite H in Hm. injection Hm as _ Hm.
    subst m. cbn. by rewrite Hm.
  - pose proof (plan_entry_marked (session_view c) cfg name x plan c eq_refl) as Hm. rewrite H in Hm. injection Hm as _ Hm. by rewrite Hm.
  - done.
  - cbn. rewrite begin_downloads_inflight. set_solver.
  - pose proof (download_marked (session_view c) cfg server name x c eq_refl) as Hm. rewrite H in Hm.
    assert (inflight (c_session c') = inflight (c_session c)) as E by (by destruct r; injection Hm).
    cbn. rewrite E. unfold outputs_of in *. rewrite fmap_app in *. cbn in Hc. set_solver.
  - set_solver.
Qed.

Lemma event_live cfg server ephemeral prune_days h h' : helper_step cfg server ephemeral prune_days h h' -> live h -> live h'.
Proof.
  intros [H|H] [He Hl]; destruct H; (split; [exact He|]); cbn in *; try done.
  - pose proof (execute_marked (session_view c) cfg server name request body c eq_refl) as Hm. rewrite H in Hm. injection Hm as _ Hm. by rewrite Hm.
  - pose proof (execute_marked (session_view c) cfg server name request body c eq_refl) as Hm. rewrite H in Hm. injection Hm as _ Hm. by rewrite Hm.
  - pose proof (get_resume_marked (session_view c) cfg server name request entry c eq_refl) as Hm.
    unfold answered_by in H0. assert (c' = (get_resume cfg server name request entry c).2) as ->
      by (by destruct (get_resume _ _ _ _ _ c) as [[] c1]; injection H0 as _ <-).
    assert (inflight (c_session (get_resume cfg server name request entry c).2) = inflight (c_session c)) as ->; [|done].
    destruct (get_resume _ _ _ _ _ c) as [[] c1]; by injection Hm.
  - by eapply prefetch_live.
Qed.

(** A helper that has not stopped can go on: a request that runs can be run, and one that waits
    does so only for a download that is still to be made. *)
Lemma live_goes_on cfg server ephemeral prune_days h :
  live h -> h_phase h ≠ Stopped -> exists h', helper_event cfg server ephemeral prune_days h h'.
Proof.
  intros [He Hl] Hp. destruct h as [c i e f cl o t ph]. cbn in *. destruct ph; [|subst f; eexists; apply step_finishes|done].
  destruct f as [|[request body [entry|]] f].
  - destruct cl as [n|]; [eexists; apply step_closes|]. destruct i as [|[request body|m] i].
    + destruct He as [->|[message ->]]; eexists; [apply step_end_of_input|apply step_input_error].
    + destruct (is_close request) eqn:E; eexists; [by apply step_close_asked|by apply step_request].
    + eexists. apply step_invalid.
  - destruct (decide (entry_output entry ∈ inflight (c_session c))) as [Hin|Hout].
    + destruct t as [| |todo|]; try set_solver. destruct todo as [|x todo]; [unfold outputs_of in Hl; set_solver|].
      destruct (download_object cfg server [] x c) as [r c'] eqn:E. eexists. apply step_prefetch.
      by apply (prefetch_downloads _ _ [] [] x todo c r c').
    + destruct (answered_by (id request) (get_resume cfg server [] request entry) c) as [r c'] eqn:E.
      eexists. by eapply (step_resumes _ _ _ _ [] c i e [] request body entry f).
  - destruct (execute_request cfg server [] request body c) as [[r|entry] c'] eqn:E; eexists.
    + by eapply (step_answers _ _ _ _ [] c i e [] request body f).
    + by eapply (step_waits _ _ _ _ [] c i e [] request body f).
Qed.

(** C20: The helper always comes to an end: no run of its events is infinite, and in every state it can
    reach before it has stopped an event is possible, a get never waiting for a download that
    nobody makes. *)
Theorem helper_comes_to_an_end cfg server ephemeral prune_days c input how h :
  how = EndOfInput \/ (exists message, how = Failed message) -> inflight (c_session c) = ∅ ->
  rtc (helper_step cfg server ephemeral prune_days) (helper_start c input how) h ->
  Acc (fun h2 h1 => helper_event cfg server ephemeral prune_days h1 h2) h
  /\ (h_phase h = Stopped \/ exists h', helper_event cfg server ephemeral prune_days h h').
Proof.
  intros He Hi Hrun. split.
  - remember (rank h) as k eqn:Ek. clear Hrun. revert h Ek. induction (rank_lt_wf k) as [k _ IH]. intros h ->. constructor.
    intros h' H. by eapply IH; [eapply event_rank|].
  - assert (live h) as Hl.
    { refine (rtc_keeps _ live (helper_start c input how) h _ _ Hrun); [intros h1 h2 H; by eapply event_live|].
      split; [done|]. cbn. by rewrite Hi. }
    destruct (h_phase h) eqn:E; [right|right|by left]; apply live_goes_on; congruence.
Qed.

(** *** Known actions *)

Lemma on_disk_calm {A} (act : tree -> result io_error A * tree) torn c r :
  script (c_fs c) = [] -> act (nodes (c_fs c)) = (Ok r, nodes (c_fs c)) -> on_disk (syscall act torn) c = (Ok r, c).
Proof.
  intros Hs Ha. unfold on_disk, raising, zoom, syscall. rewrite Hs, Ha. destruct c as [[t sc] m s l k n]. cbn in *. by subst sc.
Qed.

(** A get of a file that is there, when no disk call fails. *)
Lemma get_local_calm cfg request entry output content c :
  let p := path_join (directory cfg) (entry_output entry) in
  script (c_fs c) = [] -> nodes (c_fs c) !! p = Some (File content) -> Z.of_nat (length content) = entry_size entry ->
  hex_decode (entry_output entry) = Some output ->
  file_has_size p (entry_size entry) c = (Ok true, c)
  /\ exists c', get_local cfg request entry c = (Ok (hit_response (id request) output (entry_size entry) (path_string p)), c')
     /\ c_log c' = c_log c /\ c_fs c' = c_fs c.
Proof.
  intros p Hs Hl Hn Ho. split.
  - unfold file_has_size, mbind, M_bind, try, metadata. rewrite (on_disk_calm _ _ _ (Some (entry_size entry))); [|done|by rewrite Hl, Hn].
    by rewrite Z.eqb_refl.
  - unfold get_local. fold p. set (c1 := on_modified <[p := c_clock c (c_ticks c)]> (tick c)).
    assert (touch_file p c = (Ok tt, c1)) as Ht.
    { unfold touch_file, mbind, M_bind, try, open_write. rewrite (on_disk_calm _ _ _ tt); [|done|by rewrite Hl].
      unfold touch. by rewrite (on_disk_calm _ _ _ tt). }
    set (c2 := (record_used (hex_encode (action_id request)) (entry_output entry) (entry_size entry) c1).2). exists c2.
    split; [|done]. apply bind_ok. exists tt, c1. split; [done|]. apply bind_ok. exists tt, c2. split; [done|].
    apply bind_ok. exists output, c2. split; [by rewrite Ho|]. apply bind_ok. exists (path_string p), c2. split; [|done].
    apply bind_ok. exists p, c2. split; [|done]. apply on_disk_calm; [done|].
    assert (nodes (c_fs c2) !! p = Some (File content)) as -> by exact Hl.
    by rewrite bool_decide_true, orb_true_r by eauto.
Qed.

(** An action the manifest knows, with its file in the directory, is answered from the manifest and
    without a request, whatever was put before: a put, also a successful one with another output,
    leaves the manifest as it was. *)
Theorem get_prefers_manifest cfg server n1 n2 stored body request c r c1 entry output content :
  command stored = lit "put" -> execute_request cfg server n1 stored body c = (Answered r, c1) ->
  command request = lit "get" -> action_id request = action_id stored ->
  manifest_entry (hex_encode (action_id stored)) (c_session c) = Some entry ->
  hex_decode (entry_output entry) = Some output ->
  let p := path_join (directory cfg) (entry_output entry) in
  script (c_fs c1) = [] -> nodes (c_fs c1) !! p = Some (File content) -> Z.of_nat (length content) = entry_size entry ->
  exists c2, execute_request cfg server n2 request [] c1 = (Answered (hit_response (id request) output (entry_size entry) (path_string p)), c2)
    /\ c_log c2 = c_log c1.
Proof.
  intros Hp Hput Hg Ha Hm Ho p Hs Hl Hn.
  pose proof (execute_marked (session_view c) cfg server n1 stored body c eq_refl) as Hk. rewrite Hput in Hk. injection Hk as Hman _.
  destruct (get_local_calm cfg request entry output content c1 Hs Hl Hn Ho) as (Hsize & c2 & Hget & Hlog & _).
  exists c2. split; [|done]. unfold execute_request. rewrite Hg. rewrite bool_decide_false by done. rewrite bool_decide_true by done.
  unfold get_begin, mbind at 1, M_bind at 1, get_state. rewrite Ha. unfold manifest_entry in *. rewrite Hman, Hm.
  unfold mbind at 1, M_bind at 1. rewrite Hsize. unfold mbind, M_bind. by rewrite Hget.
Qed.

(** *** Cleaning up *)

(** How old a file may get: an hour if its name is a temporary one, else what the operator set. *)
Definition allowed_age (object_age : option Z) (name : bytes) (limit : Z) : Prop :=
  (is_temporary name = true /\ limit = 3600) \/ (is_temporary name = false /\ object_age = Some limit).

Lemma max_age_spec (object_age : option Z) name limit : max_age object_age name = Some limit <-> allowed_age object_age name limit.
Proof. unfold max_age, allowed_age, TEMPORARY_MAX_AGE. destruct (is_temporary name); naive_solver. Qed.


(** The file may be pruned: it is too old for its kind, by its modification time. *)
Definition prunable cfg (now : Z) (object_age : option Z) (c : Client) (name : bytes) : Prop :=
  (exists content, nodes (c_fs c) !! (directory cfg ++ [name]) = Some (File content))
  /\ exists limit m, allowed_age object_age name limit /\ c_modified c !! (directory cfg ++ [name]) = Some m /\ m <= now /\ limit < now - m.

(** What is left of [c]: everything but files that may be pruned. *)
Definition spared cfg (now : Z) (object_age : option Z) (c : Client) (t : tree) : Prop :=
  forall q, t !! q = nodes (c_fs c) !! q
    \/ (t !! q = None /\ exists name, q = directory cfg ++ [name] /\ prunable cfg now object_age c name).

Definition pruned_from cfg (now : Z) (object_age : option Z) (c c' : Client) : Prop :=
  c_modified c' = c_modified c /\ spared cfg now object_age c (nodes (c_fs c')).

Lemma on_disk_pruned {A} cfg (now : Z) (age : option Z) c0 (m : M FS io_error A) :
  preserves (fun fs => spared cfg now age c0 (nodes fs)) m -> preserves (pruned_from cfg now age c0) (on_disk m).
Proof.
  intros Hm c [H1 H2]. unfold on_disk, raising, zoom. specialize (Hm (c_fs c) H2). by destruct (m (c_fs c)) as [[] fs].
Qed.

Lemma metadata_pruned cfg (now : Z) (age : option Z) c0 p : preserves (pruned_from cfg now age c0) (on_disk (metadata p)).
Proof. apply on_disk_pruned, syscall_preserves; [|done]. intros t Ht. by repeat case_match. Qed.

Lemma is_stale_true now age modified :
  is_stale now age modified = true <-> exists m, modified = Some m /\ m <= now /\ age < now - m.
Proof.
  destruct modified as [m|]; cbn; [|naive_solver]. rewrite andb_true_iff, Z.leb_le, Z.ltb_lt. naive_solver.
Qed.

Lemma discard_pruned cfg (now : Z) (age : option Z) c0 name : prunable cfg now age c0 name ->
  preserves (pruned_from cfg now age c0) (discard_file (directory cfg ++ [name])).
Proof.
  intros Hpr. apply preserves_bind; [|intros r; apply preserves_ret]. apply preserves_try, on_disk_pruned, remove_file_preserves.
  intros t Ht q. destruct (decide (q = directory cfg ++ [name])) as [->|Hne].
  - right. rewrite lookup_delete_eq. eauto.
  - rewrite lookup_delete_ne by done. apply Ht.
Qed.

Lemma prune_entry_pruned cfg (now : Z) (age : option Z) c0 name : preserves (pruned_from cfg now age c0) (prune_entry cfg now age name).
Proof.
  unfold prune_entry. destruct (max_age age name) as [limit|] eqn:Elim; [|apply preserves_ret].
  intros c Hc. unfold mbind at 1, M_bind at 1, try. pose proof (metadata_pruned cfg now age c0 (directory cfg ++ [name]) c Hc) as H1.
  destruct (on_disk (metadata _) c) as [[[len|]|e] c1] eqn:E; [|exact H1..]. unfold mbind, M_bind, get_state.
  destruct (is_stale _ _ _) eqn:Es; [|exact H1]. apply discard_pruned; [|exact H1].
  destruct H1 as [Hm1 Hs1]. apply on_disk_ok in E. rewrite Hm1 in Es. apply is_stale_true in Es as (m & Hmod & Hle & Hlt).
  split; [|by exists limit, m; rewrite <- max_age_spec].
  destruct (nodes (c_fs c) !! (directory cfg ++ [name])) as [[|content]|] eqn:Ep; [done| |by case_match].
  exists content. destruct Hc as [_ Hs]. destruct (Hs (directory cfg ++ [name])) as [<-|[Hn _]]; [done|congruence].
Qed.

Lemma prune_entries_pruned cfg (now : Z) (age : option Z) c0 names : preserves (pruned_from cfg now age c0) (prune_entries cfg now age names).
Proof.
  induction names as [|name names IH]; [apply preserves_ret|]. cbn [prune_entries].
  apply preserves_bind; [by apply preserves_try, on_disk_pruned, touch_preserves|]. intros [u|e]; [|apply preserves_ret].
  apply preserves_bind; [apply prune_entry_pruned|]. intros v. exact IH.
Qed.

(** Without failures every prunable entry visited is gone. *)
Lemma discard_calm p content c : script (c_fs c) = [] -> nodes (c_fs c) !! p = Some (File content) ->
  discard_file p c = (Ok tt, set_c_fs {| nodes := delete p (nodes (c_fs c)); script := [] |} c).
Proof.
  intros Hs Hl. unfold discard_file, mbind, M_bind, try, on_disk, raising, zoom, remove_file, syscall. by rewrite Hs, Hl.
Qed.

Lemma prune_entry_calm cfg (now : Z) (age : option Z) name c : script (c_fs c) = [] -> exists c', prune_entry cfg now age name c = (Ok tt, c')
  /\ script (c_fs c') = [] /\ c_modified c' = c_modified c
  /\ (forall q, q ≠ directory cfg ++ [name] -> nodes (c_fs c') !! q = nodes (c_fs c) !! q)
  /\ (prunable cfg now age c name -> nodes (c_fs c') !! (directory cfg ++ [name]) = None)
  /\ nodes (c_fs c') ⊆ nodes (c_fs c).
Proof.
  intros Hs. unfold prune_entry. destruct (max_age age name) as [limit|] eqn:Elim.
  2: { exists c. repeat split; try done. intros [_ (? & ? & H%max_age_spec & _)]. congruence. }
  set (p := directory cfg ++ [name]).
  assert (exists found, on_disk (metadata p) c = (found, c) /\
    (forall content, nodes (c_fs c) !! p = Some (File content) -> exists len, found = Ok (Some len))
    /\ (forall len, found = Ok (Some len) -> exists content, nodes (c_fs c) !! p = Some (File content))) as (found & Hf & Hyes & Hno).
  { destruct (nodes (c_fs c) !! p) as [[|content]|] eqn:Ep.
    - exists (Ok None). unfold metadata. rewrite (on_disk_calm _ _ _ None); [|done|by rewrite Ep]. split; [done|]. naive_solver.
    - eexists (Ok (Some _)). unfold metadata. erewrite on_disk_calm; [|done|by rewrite Ep]. split; [done|]. naive_solver.
    - destruct (is_dir (nodes (c_fs c)) p) eqn:Ed.
      + exists (Ok None). unfold metadata. rewrite (on_disk_calm _ _ _ None); [|done|by rewrite Ep, Ed]. split; [done|]. naive_solver.
      + exists (Err (CIo IoNotFound)). split; [|naive_solver]. unfold on_disk, raising, zoom, metadata, syscall. rewrite Hs, Ep, Ed.
        cbn. f_equal. destruct c as [[t sc] m s l k n]. cbn in *. by subst sc. }
  unfold mbind at 1, M_bind at 1, try. rewrite Hf. unfold mbind, M_bind, get_state.
  destruct found as [[len|]|e].
  - destruct (Hno len eq_refl) as [content Hl]. destruct (is_stale now limit (c_modified c !! p)) eqn:Es.
    + rewrite (discard_calm p content c) by done. eexists. split; [done|]. cbn. repeat split; try done.
      * intros q Hq. by apply lookup_delete_ne.
      * intros _. apply lookup_delete_eq.
      * apply delete_subseteq.
    + exists c. repeat split; try done. intros (_ & l & m & Hl'%max_age_spec & Hm & Hle & Hlt). rewrite Elim in Hl'. injection Hl' as <-.
      assert (is_stale now limit (c_modified c !! p) = true) as E by (apply is_stale_true; eauto). congruence.
  - exists c. repeat split; try done. intros [[content Hl] _]. destruct (Hyes content Hl) as [? ?]. done.
  - exists c. repeat split; try done. intros [[content Hl] _]. destruct (Hyes content Hl) as [? ?]. done.
Qed.

Lemma prune_entries_calm cfg (now : Z) (age : option Z) names c : script (c_fs c) = [] ->
  exists c', prune_entries cfg now age names c = (Ok tt, c') /\ nodes (c_fs c') ⊆ nodes (c_fs c)
    /\ forall name, name ∈ names -> prunable cfg now age c name -> nodes (c_fs c') !! (directory cfg ++ [name]) = None.
Proof.
  revert c. induction names as [|x names IH]; intros c Hs.
  { exists c. split; [done|]. split; [done|]. intros name Hn. by apply not_elem_of_nil in Hn. }
  destruct (prune_entry_calm cfg now age x c Hs) as (c1 & H1 & Hs1 & Hm1 & Hq1 & Hx & Hsub1).
  destruct (IH c1 Hs1) as (c2 & H2 & Hsub2 & Hnames). exists c2. split; [|split].
  - cbn [prune_entries]. unfold mbind, M_bind, try, touch. rewrite (on_disk_calm _ _ _ tt) by done. rewrite H1. exact H2.
  - by etrans.
  - intros name Hn Hp. destruct (decide (name = x)) as [->|Hne].
    + destruct (nodes (c_fs c2) !! (directory cfg ++ [x])) as [n|] eqn:E; [|done].
      rewrite (lookup_weaken _ _ _ _ E Hsub2) in Hx. by specialize (Hx Hp).
    + apply elem_of_cons in Hn as [?|Hn]; [done|]. apply Hnames; [done|]. destruct Hp as [Hf Hage]. unfold prunable.
      rewrite Hq1, Hm1 by (intros E%app_inv_head; congruence). done.
Qed.

Lemma children_names (dir : path) (t : tree) (name : bytes) (n : node) : t !! (dir ++ [name]) = Some n -> name ∈ (children dir t).*1.
Proof.
  intros H. apply list_elem_of_fmap. exists (name, n). split; [done|]. unfold children. apply list_elem_of_omap.
  exists (dir ++ [name], n). split; [by apply elem_of_map_to_list|]. cbn. unfold entry_of. rewrite parent_app, decide_True by done.
  by rewrite last_snoc.
Qed.

(** Cleaning up removes nothing but files of the object directory that are too old for their kind
    by their modification time (temporary files an hour, objects what the operator set, nothing
    when no limit is set), whatever fails; and when nothing fails it removes all of them. *)
Theorem pruning_spares_live cfg (now : Z) (age : option Z) c :
  let c' := (prune_stale_files cfg now age c).2 in
  spared cfg now age c (nodes (c_fs c'))
  /\ (script (c_fs c) = [] -> is_dir (nodes (c_fs c)) (directory cfg) = true ->
      forall name, prunable cfg now age c name -> nodes (c_fs c') !! (directory cfg ++ [name]) = None).
Proof.
  split.
  - apply (preserves_run (pruned_from cfg now age c)).
    + unfold prune_stale_files. apply preserves_bind; [by apply preserves_try, on_disk_pruned, read_dir_preserves|].
      intros [l|e]; [apply prune_entries_pruned|apply preserves_ret].
    + split; [done|]. intros q. by left.
  - intros Hs Hd name Hp. unfold prune_stale_files, mbind, M_bind, try, read_dir.
    rewrite (on_disk_calm _ _ _ (children (directory cfg) (nodes (c_fs c)))) by (done || by rewrite Hd).
    destruct (prune_entries_calm cfg now age (children (directory cfg) (nodes (c_fs c))).*1 c Hs) as (c' & -> & _ & H).
    apply H; [|done]. destruct Hp as [[content Hl] _]. by eapply children_names.
Qed.
End Claims.

Section Witnesses.

(** As [toy_sha256], with the digest of the empty body the source names. *)
Definition helper_sha256 : Sha256Lib := {|
  sha256 := fun b => match b with
                     | [] => default (@sha256 toy_sha256 []) (x ← real_hex_decode EMPTY_OUTPUT; to_bytes32 x)
                     | _ :: _ => @sha256 toy_sha256 b
                     end |}.

(** One letter per command. *)
Definition toy_protocol : ProtocolJson := {|
  raw_request_from_slice := fun l =>
    let request i name size_ := {| raw_id := i; raw_command := lit name; raw_action_id := Some (lit "aa"); raw_output_id := None; raw_body_size := size_ |} in
    match l with
    | "g"%char :: _ => Ok (request 1 "get" None)
    | "p"%char :: _ => Ok (request 2 "put" (Some 2))
    | "c"%char :: _ => Ok (request 3 "close" None)
    | _ => Err (lit "unknown")
    end;
  string_from_slice := fun l => Some (List.filter (fun x => negb (bool_decide (x = newline))) l) |}.

Definition known_output : bytes := @digest_name real_hex helper_sha256 (lit "old").

Definition known_manifest : Manifest :=
  {| version := 1; entries := {[ lit "aa" := {| entry_output := known_output; entry_size := 3; last_seen := 0 |} ]} |}.

Definition toy_manifests : ManifestJson := {| manifest_from_slice := fun _ => Some known_manifest; manifest_to_vec := fun _ => Some [] |}.

#[local] Existing Instances real_hex real_hex_laws helper_sha256 toy_base64 toy_url toy_protocol toy_manifests.

Definition sample_url : Url := mkToyUrl (lit "http://h/") eq_refl.

Definition sample_client_config : ClientConfig :=
  {| base := sample_url; token := None; directory := [lit "objects"]; session_key := lit "k"; prefetch_concurrency := 2 |}.

(** A cache that holds one body under every key. *)
Definition sample_server : CacheServer := fun _ call =>
  Ok {| up_status := 200; up_headers := []; up_stream := match cc_body call with Some _ => [] | None => [Ok (lit "new")] end |}.

Definition sample_client (files : tree) (m : option Manifest) : Client :=
  {| c_fs := {| nodes := <[ [lit "objects"] := Directory ]> files; script := [] |}; c_modified := ∅;
     c_session := {| manifest := m; used := used SessionState_new; inflight := inflight SessionState_new |}; c_log := []; c_clock := fun n => 1000 + Z.of_nat n; c_ticks := 0 |}.

Definition sample_get : Request := {| id := 1; command := lit "get"; action_id := [ "170"%char ]; output_id := []; body_size := 0 |}.
Definition sample_put : Request :=
  {| id := 2; command := lit "put"; action_id := [ "170"%char ]; output_id := b32 (sha256 (lit "new")); body_size := 3 |}.




(** The last write of a put is lost: the put is acknowledged all the same, and the directory holds an
    object that does not have the digest it is named by. *)
Definition lossy_client : Client :=
  let lost := {| fault_message := "input/output error"; fault_progress := 1; fault_removed := []; fault_lost := true |} in
  {| c_fs := {| nodes := {[ [lit "objects"] := Directory ]}; script := [None; None; Some lost] |}; c_modified := ∅;
     c_session := SessionState_new; c_log := []; c_clock := fun n => 1000 + Z.of_nat n; c_ticks := 0 |}.

Lemma lost_write_is_published :
  let object := [lit "objects"; digest_name (lit "new")] in
  let '(o, c) := execute_request sample_client_config sample_server (lit "t") sample_put (lit "6e6577") lossy_client in
  o = Answered (stored_response 2 (path_string object)) /\ nodes (c_fs c) !! object = Some (File (lit "n")) /\ sha256 (lit "n") ≠ sha256 (lit "new").
Proof. vm_compute. split; [reflexivity|]. split; [reflexivity|discriminate]. Qed.

(** The state after the sample get was read and answered. *)
Definition answered_get : get_outcome * Client := execute_request sample_client_config sample_server (lit "t") sample_get [] (sample_client ∅ None).

Lemma answered_get_shape : (match answered_get.1 with Answered r => bool_decide (r_size r = 3) | Waits _ => false end) = true.
Proof. vm_compute. reflexivity. Qed.

Definition sample_input : list ProtocolMessage := [MRequest sample_get []].

Lemma sample_run : exists r,
  rtc (helper_step sample_client_config sample_server false 0) (helper_start (sample_client ∅ None) sample_input EndOfInput)
    (Hp answered_get.2 [] EndOfInput [] None [capabilities; r] PStart Looping).
Proof.
  pose proof answered_get_shape as Hs. unfold answered_get in *.
  destruct (execute_request sample_client_config sample_server (lit "t") sample_get [] (sample_client ∅ None)) as [[r|e] c] eqn:E; [|done].
  exists r. eapply rtc_l; [left; by apply step_request|]. eapply rtc_l; [|apply rtc_refl]. left.
  exact (step_answers _ _ _ _ (lit "t") _ _ _ [] sample_get [] [] None [capabilities] PStart r c E).
Qed.


Lemma requests_answered_once_witness :
  exists (r : ProgResponse) read, sample_input = read ++ [] /\ [0; r_id r] ++ [] ≡ₚ asked read.
Proof.
  destruct sample_run as [r Hr]. exists r.
  destruct (requests_answered_once sample_client_config sample_server false 0 _ _ _ _ Hr) as (read & H1 & _ & H2).
  exists read. split; [exact H1|exact H2].
Defined.

Lemma helper_comes_to_an_end_witness :
  Acc (fun h2 h1 => helper_event sample_client_config sample_server false 0 h1 h2)
    (helper_start (sample_client ∅ None) sample_input EndOfInput).
Proof.
  exact (proj1 (helper_comes_to_an_end sample_client_config sample_server false 0 (sample_client ∅ None) sample_input EndOfInput _
    (or_introl eq_refl) eq_refl (rtc_refl _ _))).
Defined.

(** A directory that holds the output of the previous build, and a put of another one. *)
Definition known_files : tree := {[ [lit "objects"; known_output] := File (lit "old") ]}.

Definition after_put : get_outcome * Client :=
  execute_request sample_client_config sample_server (lit "t") sample_put (lit "6e6577") (sample_client known_files (Some known_manifest)).

Lemma after_put_shape :
  (match after_put.1 with Answered r => bool_decide (disk_path r ≠ []) | Waits _ => false end) = true
  /\ bool_decide (script (c_fs after_put.2) = []) = true
  /\ bool_decide (nodes (c_fs after_put.2) !! [lit "objects"; known_output] = Some (File (lit "old"))) = true.
Proof. vm_compute. done. Qed.

Lemma get_prefers_manifest_witness :
  b32 (sha256 (lit "old")) ≠ output_id sample_put
  /\ exists c2, execute_request sample_client_config sample_server (lit "u") sample_get [] after_put.2
    = (Answered (hit_response 1 (b32 (sha256 (lit "old"))) 3 (path_string [lit "objects"; known_output])), c2).
Proof.
  split; [by vm_compute|]. destruct after_put_shape as (Ha & Hs & Hl). apply bool_decide_eq_true in Hs, Hl.
  unfold after_put in *.
  destruct (execute_request sample_client_config sample_server (lit "t") sample_put (lit "6e6577") (sample_client known_files (Some known_manifest)))
    as [[r|e] c1] eqn:E; [|done].
  destruct (get_prefers_manifest sample_client_config sample_server (lit "t") (lit "u") sample_put (lit "6e6577") sample_get
    (sample_client known_files (Some known_manifest)) r c1 {| entry_output := known_output; entry_size := 3; last_seen := 0 |}
    (b32 (sha256 (lit "old"))) (lit "old")) as (c2 & H & _).
  - reflexivity.
  - exact E.
  - reflexivity.
  - reflexivity.
  - vm_compute. reflexivity.
  - vm_compute. reflexivity.
  - exact Hs.
  - exact Hl.
  - reflexivity.
  - exists c2. exact H.
Defined.

Lemma reader_ignores_chunking_witness :
  (read_messages 100 (ProtocolReader_new (Ok <$> [lit "g"; lit "et" ++ [newline; newline; "p"%char]; lit "ut" ++ [newline]; lit "6e"]))).1
  = (messages (concat [lit "g"; lit "et" ++ [newline; newline; "p"%char]; lit "ut" ++ [newline]; lit "6e"])).1
  /\ length (messages (concat [lit "g"; lit "et" ++ [newline; newline; "p"%char]; lit "ut" ++ [newline]; lit "6e"])).1 = 2%nat.
Proof.
  split; [|vm_compute; reflexivity].
  rewrite (reader_ignores_chunking [lit "g"; lit "et" ++ [newline; newline; "p"%char]; lit "ut" ++ [newline]; lit "6e"] 100); [reflexivity|].
  vm_compute. lia.
Defined.

(** An abandoned temporary file, two hours old. *)
Definition stale_client : Client :=
  on_modified <[ [lit "objects"; lit ".a.1.tmp"] := 1000 ]> (sample_client (<[ [lit "objects"; lit ".a.1.tmp"] := File (lit "torn") ]> known_files) None).

Lemma stale_prunable : prunable sample_client_config 8200 None stale_client (lit ".a.1.tmp").
Proof.
  split; [exists (lit "torn"); vm_compute; reflexivity|]. exists 3600, 1000. split; [by left|]. repeat split; vm_compute; done.
Qed.

Lemma pruning_spares_live_witness :
  let c' := (prune_stale_files sample_client_config 8200 None stale_client).2 in
  spared sample_client_config 8200 None stale_client (nodes (c_fs c'))
  /\ nodes (c_fs c') !! [lit "objects"; lit ".a.1.tmp"] = None.
Proof.
  destruct (pruning_spares_live sample_client_config 8200 None stale_client) as [H1 H2].
  split; [exact H1|]. apply (H2 eq_refl); [vm_compute; reflexivity|exact stale_prunable].
Defined.
End Witnesses.
