(* ===== verification/Wire.v ===== *)
(** * What the build-cache helper writes ([cacheprog/mod.rs])

    A response is a line of JSON on the helper's standard output, its empty fields left out.  The
    output may fail at any write, having taken part of the bytes. *)

From S2P Require Import Prelude Externals Concrete Text Filesystem Web Protocol Cacheprog.

(** ** [serde_json] and [base64]

    A JSON object is the list of its fields, in the order they are written; which fields a response
    has, under which names, and the byte string made text are the program's. *)

Inductive Json := JInt (n : Z) | JString (b : bytes) | JStrings (l : list bytes) | JBool (b : bool).

Abbreviation Fields := (list (list ascii * Json)).

Class ResponseJson := {
  object_to_vec : Fields -> bytes;
  object_from_slice : bytes -> option Fields;
  base64_std_encode : bytes -> bytes
}.

(** Compact JSON escapes control characters in strings and has none outside of them. *)
Class ResponseJsonLaws {BS : Base64Lib} {RJ : ResponseJson} : Prop := {
  object_read o : NoDup o.*1 -> object_from_slice (object_to_vec o) = Some o;
  object_line o : newline ∉ object_to_vec o;
  base64_std_decode_encode b : base64_std_decode (base64_std_encode b) = Some b
}.

(** ** The output *)

(** What was written, and for each write to come how many bytes it takes before it fails. *)
Record Output := { written : bytes; script : list (option nat) }.

Definition write_all (b : bytes) (w : Output) : result ClientError unit * Output :=
  match script w with
  | Some n :: rest => (Err (CIo (IoOther "broken pipe")), {| written := written w ++ take n b; script := rest |})
  | None :: rest => (Ok tt, {| written := written w ++ b; script := rest |})
  | [] => (Ok tt, {| written := written w ++ b; script := [] |})
  end.

(** [flush], which may fail and writes nothing *)
Definition flush : M Output ClientError unit := write_all [].

Section Wire.
Context {BS : Base64Lib} {RJ : ResponseJson}.
(** [to_string] of an error *)
Variable error_text : ClientError -> bytes.

(** [skip_serializing_if = "is_zero"] *)
Definition is_zero (value : Z) : bool := value =? 0.

Definition serialize_bytes (b : bytes) : bytes := base64_std_encode b.

Definition is_empty {A} (l : list A) : bool := match l with [] => true | _ :: _ => false end.

(** A field, unless [skip_serializing_if] holds of it. *)
Definition field (name : bytes) (skip : bool) (value : Json) : Fields := if skip then [] else [(name, value)].

(** [Serialize] for [Response]: [PascalCase] names, with [ID] and [OutputID] spelt as Go does *)
Definition raw_response (r : ProgResponse) : Fields :=
  let err := match r_err r with Some e => error_text e | None => [] end in
  concat [
    field (lit "ID") false (JInt (r_id r));
    field (lit "Err") (is_empty err) (JString err);
    field (lit "KnownCommands") (is_empty (known_commands r)) (JStrings (known_commands r));
    field (lit "Miss") (negb (miss r)) (JBool (miss r));
    field (lit "OutputID") (is_empty (r_output_id r)) (JString (serialize_bytes (r_output_id r)));
    field (lit "Size") (is_zero (r_size r)) (JInt (r_size r));
    field (lit "DiskPath") (is_empty (disk_path r)) (JString (disk_path r))].

Definition write_response (r : ProgResponse) : M Output ClientError unit :=
  _ ← write_all (object_to_vec (raw_response r));
  _ ← write_all [newline];
  flush.

(** The responses of a run, up to the first that cannot be written. *)
Fixpoint write_responses (rs : list ProgResponse) : M Output ClientError unit :=
  match rs with
  | [] => mret tt
  | r :: rs => _ ← write_response r; write_responses rs
  end.

(** ** The other side

    Go reads lines, looks fields up by the names of its [cacheprog.Response], gives one that is left
    out its zero value and refuses one of another type. *)

Definition lookup_field (name : bytes) (fields : Fields) : option Json :=
  snd <$> find (fun f => bool_decide (f.1 = name)) fields.

Definition text_field (name : bytes) (fields : Fields) : option bytes :=
  match lookup_field name fields with None => Some [] | Some (JString b) => Some b | Some _ => None end.
Definition int_field (name : bytes) (fields : Fields) : option Z :=
  match lookup_field name fields with None => Some 0 | Some (JInt n) => Some n | Some _ => None end.
Definition bool_field (name : bytes) (fields : Fields) : option bool :=
  match lookup_field name fields with None => Some false | Some (JBool b) => Some b | Some _ => None end.
Definition texts_field (name : bytes) (fields : Fields) : option (list bytes) :=
  match lookup_field name fields with None => Some [] | Some (JStrings l) => Some l | Some _ => None end.

(** A [[]byte] is base64 text. *)
Definition data_field (name : bytes) (fields : Fields) : option bytes :=
  match lookup_field name fields with None => Some [] | Some (JString text) => base64_std_decode text | Some _ => None end.

Record Reply := { y_id : Z; y_err : bytes; y_known : list bytes; y_miss : bool; y_output : bytes; y_size : Z; y_path : bytes }.

Definition reply_of (r : ProgResponse) : Reply := {|
  y_id := r_id r; y_err := match r_err r with Some e => error_text e | None => [] end; y_known := known_commands r; y_miss := miss r;
  y_output := r_output_id r; y_size := r_size r; y_path := disk_path r |}.

Definition reply_fields (fields : Fields) : option Reply :=
  i ← int_field (lit "ID") fields;
  err ← text_field (lit "Err") fields;
  known ← texts_field (lit "KnownCommands") fields;
  missed ← bool_field (lit "Miss") fields;
  output ← data_field (lit "OutputID") fields;
  size_ ← int_field (lit "Size") fields;
  stored ← text_field (lit "DiskPath") fields;
  Some {| y_id := i; y_err := err; y_known := known; y_miss := missed; y_output := output; y_size := size_; y_path := stored |}.

Definition read_reply (line : bytes) : option Reply := object_from_slice line ≫= reply_fields.

(** The complete lines of what has arrived. *)
Definition complete_lines (b : bytes) : list bytes := removelast (split_on newline b).

Definition read_replies (b : bytes) : option (list Reply) := mapM read_reply (complete_lines b).
End Wire.

Section Claims.
Context {BS : Base64Lib} {RJ : ResponseJson} {RJL : ResponseJsonLaws}.
Variable error_text : ClientError -> bytes.

Notation vec r := (object_to_vec (raw_response error_text r)).
Notation reply_of := (reply_of error_text).

#[local] Arguments raw_response : simpl never.

Lemma lookup_app name skip value rest : lookup_field name (field name skip value ++ rest) = if skip then lookup_field name rest else Some value.
Proof. destruct skip; [done|]. unfold lookup_field. cbn [field app List.find find fst]. rewrite bool_decide_eq_true_2; done. Qed.

Lemma lookup_other name other skip value rest : name ≠ other -> lookup_field name (field other skip value ++ rest) = lookup_field name rest.
Proof. intros Hne. destruct skip; [done|]. unfold lookup_field. cbn. rewrite bool_decide_false; [done|congruence]. Qed.

(** Looks a field of a response up, past the ones of other names. *)
Ltac find_field :=
  unfold raw_response; cbn [concat]; repeat (rewrite lookup_other by discriminate); rewrite lookup_app;
  repeat (rewrite lookup_other by discriminate).

Lemma response_names r : NoDup (raw_response error_text r).*1.
Proof.
  assert (NoDup [lit "ID"; lit "Err"; lit "KnownCommands"; lit "Miss"; lit "OutputID"; lit "Size"; lit "DiskPath"]) as H by (apply (bool_decide_eq_true_1 _); vm_compute; reflexivity).
  eapply sublist_NoDup; [exact H|]. unfold raw_response.
  assert (forall name skip value names rest, rest.*1 `sublist_of` names -> (field name skip value ++ rest).*1 `sublist_of` name :: names) as Hf.
  { intros name [] value names rest Hs; cbn; by constructor. }
  cbn [concat]. repeat apply Hf. done.
Qed.

Lemma read_written r : read_reply (vec r) = Some (reply_of r).
Proof.
  unfold read_reply. rewrite object_read by apply response_names. cbn [mbind option_bind]. unfold reply_fields.
  assert (int_field (lit "ID") (raw_response error_text r) = Some (r_id r)) as -> by (unfold int_field; by find_field).
  assert (int_field (lit "Size") (raw_response error_text r) = Some (r_size r)) as ->.
  { unfold int_field. find_field. unfold is_zero. by destruct (Z.eqb_spec (r_size r) 0) as [->|]. }
  assert (bool_field (lit "Miss") (raw_response error_text r) = Some (miss r)) as -> by (unfold bool_field; find_field; by destruct (miss r)).
  assert (texts_field (lit "KnownCommands") (raw_response error_text r) = Some (known_commands r)) as ->.
  { unfold texts_field. find_field. by destruct (known_commands r). }
  assert (text_field (lit "DiskPath") (raw_response error_text r) = Some (disk_path r)) as -> by (unfold text_field; find_field; by destruct (disk_path r)).
  assert (text_field (lit "Err") (raw_response error_text r) = Some (match r_err r with Some e => error_text e | None => [] end)) as ->.
  { unfold text_field. find_field. by destruct (match r_err r with Some e => error_text e | None => [] end). }
  assert (data_field (lit "OutputID") (raw_response error_text r) = Some (r_output_id r)) as ->; [|done].
  unfold data_field. find_field. unfold serialize_bytes. destruct (r_output_id r); [done|]. apply base64_std_decode_encode.
Qed.

Lemma read_vecs rs : mapM read_reply (map (fun r => vec r) rs) = Some (map reply_of rs).
Proof. induction rs as [|r rs IH]; [done|]. cbn [map mapM]. rewrite read_written. cbn [mbind option_bind]. by rewrite IH. Qed.

Definition text_of (rs : list ProgResponse) : bytes := concat (map (fun r => vec r ++ [newline]) rs).

Lemma text_of_snoc rs r : text_of (rs ++ [r]) = text_of rs ++ vec r ++ [newline].
Proof. unfold text_of. by rewrite map_app, concat_app; cbn; rewrite app_nil_r. Qed.

Lemma complete_text rs part : newline ∉ part -> complete_lines (text_of rs ++ part) = map (fun r => vec r) rs.
Proof.
  intros Hp. unfold complete_lines. induction rs as [|r rs IH]; cbn.
  - by rewrite split_on_none.
  - rewrite <- !app_assoc. cbn. rewrite split_on_app, split_on_none by apply object_line. cbn [app]. fold (text_of rs).
    pose proof (split_on_ne newline (text_of rs ++ part)) as Hne. destruct (split_on newline (text_of rs ++ part)); [done|]. by rewrite <- IH.
Qed.

(** What one response adds: its line, and nothing or a part of it when a write failed. *)
Lemma write_response_spec r w : let '(res, w') := write_response error_text r w in
  exists line part, written w' = written w ++ line ++ part /\ newline ∉ part
    /\ ((line = vec r ++ [newline] /\ part = []) \/ (line = [] /\ exists e, res = Err e)).
Proof.
  assert (forall n, newline ∉ take n (vec r)) as Htake.
  { intros n Hin. apply (object_line (raw_response error_text r)). rewrite <- (take_drop n). apply elem_of_app. by left. }
  unfold write_response, mbind, M_bind, flush, write_all. destruct (script w) as [|[n|] [|[m|] [|[k|] rest]]]; cbn.
  all: try (exists (vec r ++ [newline]), []; split; [by rewrite ?take_nil, ?app_nil_r, <- ?app_assoc|split; [apply not_elem_of_nil|by left]]).
  all: try (exists [], (take n (vec r)); split; [done|split; [done|right; split; [done|by eexists]]]).
  all: destruct m as [|m]; [|cbn; rewrite take_nil; exists (vec r ++ [newline]), []; split; [by rewrite ?app_nil_r, <- ?app_assoc|split; [apply not_elem_of_nil|by left]]].
  all: exists [], (vec r); cbn; (split; [by rewrite app_nil_r|split; [apply object_line|right; split; [done|by eexists]]]).
Qed.

(** C22: What the helper says is what Go hears.  Whatever responses are written, and at whatever byte
    the output breaks, the complete lines that arrived decode to the first responses, in order, with
    their identifiers, outputs, sizes and paths, fields left out because they were empty included; and all of them arrived if
    no write failed. *)
Theorem responses_survive_the_wire rs faults :
  let '(res, w) := write_responses error_text rs {| written := []; script := faults |} in
  exists k, read_replies (written w) = Some (map reply_of (take k rs)) /\ (res = Ok tt -> take k rs = rs).
Proof.
  assert (forall done_ w, written w = text_of done_ -> let '(res, w') := write_responses error_text rs w in
    exists k part, written w' = text_of (done_ ++ take k rs) ++ part /\ newline ∉ part /\ (res = Ok tt -> take k rs = rs)) as H.
  { induction rs as [|r rs IH]; intros done_ w Hw; cbn.
    { exists 0%nat, []. rewrite !app_nil_r. split; [done|]. split; [apply not_elem_of_nil|done]. }
    unfold mbind, M_bind. pose proof (write_response_spec r w) as Hr. destruct (write_response error_text r w) as [res w1].
    destruct Hr as (line & part & Hw1 & Hp & Hline). destruct res as [[]|e].
    - destruct Hline as [[-> ->]|[_ [e He]]]; [|done]. specialize (IH (done_ ++ [r]) w1).
      destruct (write_responses error_text rs w1) as [res w2]. destruct IH as (k & part & Hw2 & Hp2 & Hres).
      { rewrite Hw1, Hw, text_of_snoc. by rewrite app_nil_r. }
      exists (Datatypes.S k), part. cbn. rewrite Hw2, <- app_assoc. split; [done|]. split; [done|]. intros E. by rewrite Hres.
    - destruct Hline as [[-> ->]|[-> _]].
      + exists 1%nat, []. rewrite Hw1, Hw. cbn. rewrite take_0, text_of_snoc, !app_nil_r. split; [done|]. split; [apply not_elem_of_nil|done].
      + exists 0%nat, part. rewrite Hw1, Hw. cbn. by rewrite app_nil_r. }
  specialize (H [] {| written := []; script := faults |} eq_refl). destruct (write_responses _ _ _) as [res w].
  destruct H as (k & part & Hw & Hp & Hres). exists k. split; [|done]. unfold read_replies. rewrite Hw, complete_text by done. cbn [app].
  apply read_vecs.
Qed.
End Claims.

(** ** A reader and a writer *)

#[export] Instance Json_eq_dec : EqDecision Json.
Proof. solve_decision. Defined.
#[export] Instance Json_countable : Countable Json.
Proof.
  refine (inj_countable' (fun v => match v with JInt n => inl n | JString b => inr (inl b) | JStrings l => inr (inr (inl l)) | JBool b => inr (inr (inr b)) end)
    (fun v => match v with inl n => JInt n | inr (inl b) => JString b | inr (inr (inl l)) => JStrings l | inr (inr (inr b)) => JBool b end) _).
  by intros [].
Defined.

Definition toy_responses : ResponseJson := {|
  object_to_vec := fun o => positive_bytes (encode o);
  object_from_slice := fun b => bytes_positive b ≫= decode;
  base64_std_encode := real_hex_encode
|}.

Lemma positive_bytes_line p : newline ∉ positive_bytes p.
Proof. induction p as [p IH|p IH|]; cbn; rewrite ?elem_of_cons; try (intros [?|?]; [done|auto]). apply not_elem_of_nil. Qed.

Lemma toy_responses_laws : @ResponseJsonLaws toy_base64 toy_responses.
Proof.
  split.
  - intros o _. cbn. rewrite bytes_positive_bytes. cbn. apply decode_encode.
  - intros r. apply positive_bytes_line.
  - apply real_hex_decode_encode.
Qed.

Section Witness.
#[local] Existing Instances toy_base64 toy_responses toy_responses_laws.

(** The announcement gets out, the answer to a get breaks off. *)
Lemma responses_survive_the_wire_witness :
  let '(res, w) := write_responses (fun _ => lit "failed") [capabilities; hit_response 1 (lit "output") 7 (lit "/cache/output")]
    {| written := []; script := [None; None; None; Some 5%nat] |} in
  exists k, read_replies (written w) = Some (map (reply_of (fun _ => lit "failed")) (take k [capabilities; hit_response 1 (lit "output") 7 (lit "/cache/output")])).
Proof.
  pose proof (responses_survive_the_wire (fun _ => lit "failed") [capabilities; hit_response 1 (lit "output") 7 (lit "/cache/output")]
    [None; None; None; Some 5%nat]) as H.
  destruct (write_responses _ _ _) as [res w]. destruct H as (k & H & _). exists k. exact H.
Defined.
End Witness.
