(* ===== verification/Threads.v ===== *)
(** * Concurrent operations

    An operation as a scheduler sees it: atomic accesses to the shared state, waits for the locks of
    the source (the per-channel reader-writer gates and the striped mutexes), and an outcome.  A pool
    of operations takes one step at a time, in any order.  This file holds the semantics, the lock
    discipline that rules out deadlock, and a rely-guarantee logic for invariants of a pool; it
    serves every operation of the cache and channel services. *)

From S2P Require Import Prelude Externals Domain World.

Section Threads.
Context {UL : UlidLib} {S O : Type}.

(** A guard that is held until it is released or its operation ends.  A gate is known by the number
    of its [Arc]; a ticket stands for a freshly generated channel identifier, which nobody else
    has. *)
Inductive guard := GRead (g : nat) | GWrite (g : nat) | GStripe (s : nat) | GTicket (id : ChannelId).

#[export] Instance guard_eq_dec : EqDecision guard.
Proof. solve_decision. Defined.

(** [Step] is atomic; its error is a value its continuation deals with. *)
Inductive prog :=
| Done (o : O)
| Step {E B : Type} (m : M (World S) E B) (k : result E B -> prog)
| TakeGate (id : ChannelId) (k : nat -> prog)
| DropGate (id : ChannelId) (k : prog)
| ReadGate (g : nat) (k : prog)
| WriteGate (g : nat) (k : prog)
| LockStripe (s : nat) (k : prog)
| Release (g : guard) (k : prog).

(** What the operations share: the world, the registry of gates and the channel of every gate ever
    created. *)
Record Shared := { sh_world : World S; sh_gates : gmap ChannelId nat; sh_objects : list ChannelId }.

Definition set_world (w : World S) (sh : Shared) : Shared :=
  {| sh_world := w; sh_gates := sh_gates sh; sh_objects := sh_objects sh |}.

(** [ChannelGates::gate] and [ChannelGates::forget] *)
Definition take_gate (id : ChannelId) (sh : Shared) : nat * Shared :=
  let w := set_gates ({[id]} ∪ w_gates (sh_world sh)) (sh_world sh) in
  match sh_gates sh !! id with
  | Some g => (g, set_world w sh)
  | None =>
      let g := length (sh_objects sh) in
      (g, {| sh_world := w; sh_gates := <[id := g]> (sh_gates sh); sh_objects := sh_objects sh ++ [id] |})
  end.

Definition drop_gate (id : ChannelId) (sh : Shared) : Shared :=
  {| sh_world := set_gates (w_gates (sh_world sh) ∖ {[id]}) (sh_world sh); sh_gates := delete id (sh_gates sh);
     sh_objects := sh_objects sh |}.

(** An operation and the guards it holds; one that is over holds none. *)
Record Thread := T { t_prog : prog; t_held : list guard }.

Definition kept (p : prog) (held : list guard) : list guard := match p with Done _ => [] | _ => held end.
Definition resume (p : prog) (held : list guard) : Thread := T p (kept p held).

Definition start (p : prog) : Thread := resume p [].

Fixpoint drop_guard (x : guard) (held : list guard) : list guard :=
  match held with
  | [] => []
  | y :: held => if decide (x = y) then held else y :: drop_guard x held
  end.

(** A guard that cannot be held beside another one. *)
Definition conflict (x y : guard) : bool :=
  match x, y with
  | GRead g, GWrite g' | GWrite g, GRead g' | GWrite g, GWrite g' => bool_decide (g = g')
  | GStripe s, GStripe s' => bool_decide (s = s')
  | GTicket id, GTicket id' => bool_decide (id = id')
  | _, _ => false
  end.

Definition free (x : guard) (taken : list guard) : bool := forallb (fun y => negb (conflict x y)) taken.

#[local] Arguments free : simpl never.

(** One step of an operation while the others hold [taken]; nothing when it has to wait or is over. *)
Definition advance (taken : list guard) (t : Thread) (sh : Shared) : option (Thread * Shared) :=
  let held := t_held t in
  let acquire x k := if free x (held ++ taken) then Some (resume k (x :: held), sh) else None in
  match t_prog t with
  | Done _ => None
  | Step m k => let '(r, w) := m (sh_world sh) in Some (resume (k r) held, set_world w sh)
  | TakeGate id k => let '(g, sh) := take_gate id sh in Some (resume (k g) held, sh)
  | DropGate id k => Some (resume k held, drop_gate id sh)
  | ReadGate g k => acquire (GRead g) k
  | WriteGate g k => acquire (GWrite g) k
  | LockStripe s k => acquire (GStripe s) k
  | Release x k => Some (resume k (drop_guard x held), sh)
  end.

(** What the others hold. *)
Definition taken_beside (i : nat) (ts : list Thread) : list guard := mjoin (t_held <$> (take i ts ++ drop (Datatypes.S i) ts)).

(** The operation at [i] takes a step. *)
Definition step_at (i : nat) (x : list Thread * Shared) : option (list Thread * Shared) :=
  t ← x.1 !! i;
  '(t, sh) ← advance (taken_beside i x.1) t x.2;
  Some (<[i := t]> x.1, sh).

Definition pool_step (x y : list Thread * Shared) : Prop := exists i, step_at i x = Some y.

(** A schedule that names the operation of each step. *)
Fixpoint schedule (is_ : list nat) (x : list Thread * Shared) : option (list Thread * Shared) :=
  match is_ with
  | [] => Some x
  | i :: is_ => y ← step_at i x; schedule is_ y
  end.

(** An operation that runs alone never waits. *)
Fixpoint alone (p : prog) (sh : Shared) : O * Shared :=
  match p with
  | Done o => (o, sh)
  | Step m k => let '(r, w) := m (sh_world sh) in alone (k r) (set_world w sh)
  | TakeGate id k => let '(g, sh) := take_gate id sh in alone (k g) sh
  | DropGate id k => alone k (drop_gate id sh)
  | ReadGate _ k | WriteGate _ k | LockStripe _ k | Release _ k => alone k sh
  end.

(** ** Guards *)

Lemma conflict_sym x y : conflict x y = conflict y x.
Proof. destruct x, y; cbn; try done; apply bool_decide_ext; split; congruence. Qed.

Definition compatible (held held' : list guard) : Prop := forall x y, x ∈ held -> y ∈ held' -> conflict x y = false.

Lemma compatible_sym held held' : compatible held held' -> compatible held' held.
Proof. intros H x y Hx Hy. rewrite conflict_sym. by apply H. Qed.

Lemma free_spec x taken : free x taken = true <-> forall y, y ∈ taken -> conflict x y = false.
Proof.
  unfold free. rewrite forallb_forall. split; intros H y Hy; apply negb_true_iff, H; by apply list_elem_of_In.
Qed.

Lemma drop_guard_subset x held : drop_guard x held ⊆ held.
Proof.
  induction held as [|y held IH]; cbn; [done|]. case_decide.
  - intros z Hz. by right.
  - intros z Hz. apply elem_of_cons in Hz as [->|Hz]; [by left|]. right. by apply IH.
Qed.

Lemma kept_subset p held : kept p held ⊆ held.
Proof. destruct p; cbn; done || intros ? []%elem_of_nil. Qed.

Lemma taken_spec i (ts : list Thread) x : x ∈ taken_beside i ts <-> exists j t, j ≠ i /\ ts !! j = Some t /\ x ∈ t_held t.
Proof.
  unfold taken_beside. rewrite list_elem_of_join. split.
  - intros (held & Hx & (t & -> & Ht)%list_elem_of_fmap). apply elem_of_app in Ht as [Ht|Ht];
      apply list_elem_of_lookup in Ht as [j Hj].
    + apply lookup_take_Some in Hj as [Hj Hlt]. exists j, t. split; [lia|done].
    + rewrite lookup_drop in Hj. exists (Datatypes.S i + j)%nat, t. split; [lia|done].
  - intros (j & t & Hne & Hj & Hx). exists (t_held t). split; [done|]. apply list_elem_of_fmap. exists t. split; [done|].
    apply elem_of_app. destruct (decide (j < i)%nat).
    + left. apply list_elem_of_lookup. exists j. by apply lookup_take_Some.
    + right. apply list_elem_of_lookup. exists (j - Datatypes.S i)%nat. rewrite lookup_drop. rewrite <- Hj. f_equal. lia.
Qed.

Lemma elem_of_insert (ts : list Thread) i t j u : <[i := t]> ts !! j = Some u -> (j = i /\ u = t) \/ (j ≠ i /\ ts !! j = Some u).
Proof.
  destruct (decide (j = i)) as [->|Hne]; [|rewrite list_lookup_insert_ne by done; auto].
  intros H. left. split; [done|]. assert (i < length ts)%nat.
  { rewrite <- (length_insert ts i t). by eapply lookup_lt_Some. }
  rewrite list_lookup_insert_eq in H by done. congruence.
Qed.

(** No two operations hold guards that exclude each other. *)
Definition excluded (ts : list Thread) : Prop :=
  forall i j t u, i ≠ j -> ts !! i = Some t -> ts !! j = Some u -> compatible (t_held t) (t_held u).

Lemma advance_held taken t sh t' sh' : advance taken t sh = Some (t', sh') ->
  forall x, x ∈ t_held t' -> x ∈ t_held t \/ free x taken = true.
Proof.
  intros H x Hx.
  assert (forall p held, x ∈ t_held (resume p held) -> x ∈ held) as Hr by (intros p held; apply kept_subset).
  unfold advance in H. destruct (t_prog t) as [o|E B m k|id k|id k|g k|g k|s k|g k]; [done|..].
  - destruct (m (sh_world sh)). injection H as <- _. left. by apply Hr in Hx.
  - destruct (take_gate id sh). injection H as <- _. left. by apply Hr in Hx.
  - injection H as <- _. left. by apply Hr in Hx.
  - destruct (free _ _) eqn:Ef; [|done]. injection H as <- _. apply Hr, elem_of_cons in Hx as [->|Hx]; [right|by left].
    rewrite free_spec in *. intros y Hy. apply Ef, elem_of_app. by right.
  - destruct (free _ _) eqn:Ef; [|done]. injection H as <- _. apply Hr, elem_of_cons in Hx as [->|Hx]; [right|by left].
    rewrite free_spec in *. intros y Hy. apply Ef, elem_of_app. by right.
  - destruct (free _ _) eqn:Ef; [|done]. injection H as <- _. apply Hr, elem_of_cons in Hx as [->|Hx]; [right|by left].
    rewrite free_spec in *. intros y Hy. apply Ef, elem_of_app. by right.
  - injection H as <- _. left. by apply Hr, drop_guard_subset in Hx.
Qed.

Lemma step_at_inv i x y : step_at i x = Some y ->
  exists t t', x.1 !! i = Some t /\ advance (taken_beside i x.1) t x.2 = Some (t', y.2) /\ y.1 = <[i := t']> x.1.
Proof.
  unfold step_at. intros H. apply bind_Some in H as (t & Ht & H). apply bind_Some in H as ([t' sh] & Ha & H).
  injection H as <-. eauto.
Qed.

Lemma step_excluded x y : pool_step x y -> excluded x.1 -> excluded y.1.
Proof.
  intros (i & (t & t' & Ht & Ha & ->)%step_at_inv) Hx.
  assert (forall j u, j ≠ i -> x.1 !! j = Some u -> compatible (t_held t') (t_held u)) as Hi.
  { intros j u Hne Hu a b Hin Hb. destruct (advance_held _ _ _ _ _ Ha a Hin) as [Hold|Hfree].
    - by eapply (Hx i j).
    - rewrite free_spec in Hfree. apply Hfree, taken_spec. eauto. }
  intros j1 j2 u1 u2 Hne H1 H2. apply elem_of_insert in H1 as [[-> ->]|[N1 H1]], H2 as [[-> ->]|[N2 H2]]; [done|..].
  - eauto.
  - apply compatible_sym. eauto.
  - by eapply (Hx j1 j2).
Qed.

(** ** Deadlock freedom

    The discipline: a gate is taken while nothing is held, a stripe while no stripe is held. *)

Definition is_ticket (x : guard) : bool := match x with GTicket _ => true | _ => false end.
Definition is_stripe (x : guard) : bool := match x with GStripe _ => true | _ => false end.

Fixpoint orderly (held : list guard) (p : prog) : Prop :=
  match p with
  | Done _ => True
  | Step _ k => forall r, orderly held (k r)
  | TakeGate _ k => forall g, orderly held (k g)
  | DropGate _ k => orderly held k
  | ReadGate g k => Forall (fun x => is_ticket x = true) held /\ orderly (GRead g :: held) k
  | WriteGate g k => Forall (fun x => is_ticket x = true) held /\ orderly (GWrite g :: held) k
  | LockStripe s k => Forall (fun x => is_stripe x = false) held /\ orderly (GStripe s :: held) k
  | Release x k => orderly (drop_guard x held) k
  end.

Definition finished (t : Thread) : bool := match t_prog t with Done _ => true | _ => false end.

(** An operation that is over holds nothing, the others keep to the discipline. *)
Definition disciplined (t : Thread) : Prop := if finished t then t_held t = [] else orderly (t_held t) (t_prog t).

Lemma resume_disciplined p held : orderly held p -> disciplined (resume p held).
Proof. unfold disciplined, finished, resume. cbn. by destruct p. Qed.

Lemma advance_disciplined taken t sh t' sh' : advance taken t sh = Some (t', sh') -> disciplined t -> disciplined t'.
Proof.
  destruct t as [p held]. unfold advance, disciplined, finished. cbn.
  destruct p as [o|E B m k|id k|id k|g k|g k|s k|g k]; cbn; [done|..].
  - destruct (m (sh_world sh)). intros [= <- _] H. by apply resume_disciplined.
  - destruct (take_gate id sh). intros [= <- _] H. by apply resume_disciplined.
  - intros [= <- _] H. by apply resume_disciplined.
  - case_bool; [|done]. intros [= <- _] [_ H]. by apply resume_disciplined.
  - case_bool; [|done]. intros [= <- _] [_ H]. by apply resume_disciplined.
  - case_bool; [|done]. intros [= <- _] [_ H]. by apply resume_disciplined.
  - intros [= <- _] H. by apply resume_disciplined.
Qed.

Lemma step_disciplined x y : pool_step x y -> Forall disciplined x.1 -> Forall disciplined y.1.
Proof.
  intros (i & (t & t' & Ht & Ha & ->)%step_at_inv) Hx. apply Forall_insert; [done|].
  eapply advance_disciplined; [done|]. by eapply Forall_lookup_1.
Qed.

(** What blocks an operation is a guard it asks for. *)
Lemma blocked_on taken t sh : advance taken t sh = None -> finished t = false ->
  exists x, free x (t_held t ++ taken) = false /\ is_ticket x = false
    /\ (disciplined t -> if is_stripe x then Forall (fun y => is_stripe y = false) (t_held t) else Forall (fun y => is_ticket y = true) (t_held t)).
Proof.
  destruct t as [p held]. unfold advance, disciplined, finished. cbn.
  destruct p as [o|E B m k|id k|id k|g k|g k|s k|g k]; cbn; try done.
  - by destruct (m (sh_world sh)).
  - by destruct (take_gate id sh).
  - case_bool; [done|]. exists (GRead g). split; [done|]. split; [done|by intros []].
  - case_bool; [done|]. exists (GWrite g). split; [done|]. split; [done|by intros []].
  - case_bool; [done|]. exists (GStripe s). split; [done|]. split; [done|by intros []].
Qed.

Lemma not_free x taken : free x taken = false -> exists y, y ∈ taken /\ conflict x y = true.
Proof.
  unfold free. induction taken as [|y taken IH]; cbn; [done|]. destruct (conflict x y) eqn:E; cbn.
  - intros _. exists y. split; [by left|done].
  - intros (z & Hz & Hc)%IH. exists z. split; [by right|done].
Qed.

Lemma conflict_kind x y : conflict x y = true -> is_stripe y = is_stripe x /\ (is_ticket y = is_ticket x).
Proof. destruct x, y; done. Qed.

(** The guard in the way is held by another operation, one that is not over. *)
Lemma blocker i ts t sh : Forall disciplined ts -> ts !! i = Some t -> advance (taken_beside i ts) t sh = None -> finished t = false ->
  exists (stripe : bool) j u y, ts !! j = Some u /\ finished u = false /\ y ∈ t_held u /\ is_stripe y = stripe /\ is_ticket y = false
    /\ (if stripe then Forall (fun y => is_stripe y = false) (t_held t) else Forall (fun y => is_ticket y = true) (t_held t)).
Proof.
  intros Hd Ht Hb Hf. destruct (blocked_on _ _ _ Hb Hf) as (x & Hx & Hnt & Hheld). specialize (Hheld (proj1 (Forall_lookup _ _) Hd _ _ Ht)).
  destruct (not_free _ _ Hx) as (y & Hy & Hc). destruct (conflict_kind _ _ Hc) as [Hs Htk].
  exists (is_stripe x). apply elem_of_app in Hy as [Hy|Hy].
  - exfalso. destruct (is_stripe x); rewrite Forall_forall in Hheld; specialize (Hheld y Hy); cbn in Hheld; congruence.
  - apply taken_spec in Hy as (j & u & Hne & Hu & Hy). exists j, u, y. repeat split; try congruence.
    pose proof (proj1 (Forall_lookup _ _) Hd _ _ Hu) as Hdu. unfold disciplined in Hdu. destruct (finished u); [|done].
    rewrite Hdu in Hy. by apply elem_of_nil in Hy.
Qed.

(** Unless all operations are over, one of them can go on. *)
Lemma no_deadlock ts sh : Forall disciplined ts -> Forall (fun t => finished t = true) ts \/ exists y, pool_step (ts, sh) y.
Proof.
  intros Hd. destruct (decide (Exists (fun i => is_Some (step_at i (ts, sh))) (seq 0 (length ts)))) as [H|Hno].
  { apply Exists_exists in H as (i & _ & y & Hy). right. exists y. by exists i. }
  assert (forall i t, ts !! i = Some t -> finished t = false -> advance (taken_beside i ts) t sh = None) as Hb.
  { intros i t Ht _. destruct (advance _ t sh) as [[t' sh']|] eqn:Ea; [|done]. destruct Hno. apply Exists_exists. exists i.
    split; [apply elem_of_seq; apply lookup_lt_Some in Ht; lia|]. unfold step_at. cbn. rewrite Ht. cbn. rewrite Ea. by eexists. }
  left. apply Forall_lookup. intros i t Ht. destruct (finished t) eqn:Ef; [done|]. exfalso.
  destruct (blocker i ts t sh Hd Ht (Hb _ _ Ht Ef) Ef) as (stripe & j & u & y & Hu & Hfu & Hy & Hs & Hnt & _).
  destruct (blocker j ts u sh Hd Hu (Hb _ _ Hu Hfu) Hfu) as (stripe' & j' & u' & y' & Hu' & Hfu' & Hy' & Hs' & Hnt' & Hheld).
  destruct stripe'; rewrite Forall_forall in Hheld; specialize (Hheld y Hy); cbn in Hheld; [|congruence].
  destruct (blocker j' ts u' sh Hd Hu' (Hb _ _ Hu' Hfu') Hfu') as ([] & j2 & u2 & y2 & _ & _ & _ & _ & _ & Hheld');
    rewrite Forall_forall in Hheld'; specialize (Hheld' y' Hy'); cbn in Hheld'; congruence.
Qed.

(** ** Termination *)

(** What an operation can have become after a step. *)
Inductive after : prog -> prog -> Prop :=
| after_step {E B} (m : M (World S) E B) k r : after (k r) (Step m k)
| after_take id k g : after (k g) (TakeGate id k)
| after_drop id k : after k (DropGate id k)
| after_read g k : after k (ReadGate g k)
| after_write g k : after k (WriteGate g k)
| after_stripe s k : after k (LockStripe s k)
| after_release x k : after k (Release x k).

Lemma after_inv p q : after q p ->
  match p with
  | Done _ => False
  | Step _ k => exists r, q = k r
  | TakeGate _ k => exists g, q = k g
  | DropGate _ k | ReadGate _ k | WriteGate _ k | LockStripe _ k | Release _ k => q = k
  end.
Proof. destruct 1; eauto. Qed.

Lemma after_wf : well_founded after.
Proof.
  intros p. induction p as [o|E B m k IH|id k IH|id k IH|g k IH|g k IH|s k IH|x k IH]; constructor; intros q Hq;
    apply after_inv in Hq; [done|destruct Hq as [r ->]; apply IH|destruct Hq as [g ->]; apply IH|by subst..].
Qed.

Lemma advance_after taken t sh t' sh' : advance taken t sh = Some (t', sh') -> after (t_prog t') (t_prog t).
Proof.
  destruct t as [p held]. unfold advance. cbn. destruct p as [o|E B m k|id k|id k|g k|g k|s k|g k]; [done|..].
  - destruct (m (sh_world sh)). intros [= <- _]. cbn. constructor.
  - destruct (take_gate id sh). intros [= <- _]. cbn. constructor.
  - intros [= <- _]. cbn. constructor.
  - case_bool; [|done]. intros [= <- _]. cbn. constructor.
  - case_bool; [|done]. intros [= <- _]. cbn. constructor.
  - case_bool; [|done]. intros [= <- _]. cbn. constructor.
  - intros [= <- _]. cbn. constructor.
Qed.

(** One element of a list is replaced by a smaller one. *)
Definition replaced {A} (R : A -> A -> Prop) (l' l : list A) : Prop :=
  exists i x x', l !! i = Some x /\ R x' x /\ l' = <[i := x']> l.

Lemma replaced_acc {A} (R : A -> A -> Prop) l : Forall (Acc R) l -> Acc (replaced R) l.
Proof.
  induction 1 as [|x l Hx _ IH]; [constructor; by intros l' (i & x & x' & H & _)|].
  revert l IH. induction Hx as [x _ IHx]. intros l Hl. induction Hl as [l Hl IHl]. constructor.
  intros l' ([|i] & y & y' & Hy & Hr & ->); cbn in *.
  - injection Hy as <-. apply IHx; [done|]. by constructor.
  - apply IHl. exists i, y, y'. done.
Qed.

(** No pool runs for ever. *)
Lemma pool_ends x : Acc (fun y x => pool_step x y) x.
Proof.
  assert (Acc (replaced after) (t_prog <$> x.1)) as H by (apply replaced_acc, Forall_forall; intros p _; apply after_wf).
  remember (t_prog <$> x.1) as ps eqn:E. revert x E. induction H as [ps _ IH]. intros x ->. constructor.
  intros y (i & (t & t' & Ht & Ha & Hy)%step_at_inv). eapply IH; [|reflexivity].
  exists i, (t_prog t), (t_prog t'). split; [by rewrite list_lookup_fmap, Ht|]. split; [by eapply advance_after|].
  by rewrite Hy, list_fmap_insert.
Qed.

(** So every pool comes to a state where all operations are over. *)
Lemma pool_completes ts sh : Forall disciplined ts ->
  exists ts' sh', rtc pool_step (ts, sh) (ts', sh') /\ Forall (fun t => finished t = true) ts'.
Proof.
  intros Hd. remember (ts, sh) as x eqn:E. revert ts sh Hd E. induction (pool_ends x) as [x _ IH]. intros ts sh Hd ->.
  destruct (no_deadlock ts sh Hd) as [Hf|[[ts1 sh1] Hs]]; [exists ts, sh; split; [apply rtc_refl|done]|].
  destruct (IH _ Hs ts1 sh1) as (ts' & sh' & Hrun & Hf); [by apply step_disciplined in Hs|done|].
  exists ts', sh'. split; [by eapply rtc_l|done].
Qed.

(** ** Running alone *)

Lemma alone_runs p held sh : orderly held p ->
  rtc pool_step ([resume p held], sh) ([T (Done (alone p sh).1) []], (alone p sh).2).
Proof.
  assert (forall q q' h h' (s s' : Shared), advance [] (T q h) s = Some (resume q' h', s') -> pool_step ([T q h], s) ([resume q' h'], s')) as Hstep.
  { intros q q' h h' s s' H. exists 0%nat. unfold step_at. cbn [fst snd lookup list_lookup mbind option_bind].
    change (taken_beside 0 [T q h]) with (@nil guard). by rewrite H. }
  assert (forall x h, (forall y, y ∈ h -> conflict x y = false) -> free x (h ++ []) = true) as Hfree.
  { intros x h H. rewrite app_nil_r. by apply free_spec. }
  revert held sh. induction p as [o|E B m k IH|id k IH|id k IH|g k IH|g k IH|s k IH|x k IH]; intros held sh Ho; cbn in Ho; cbn [alone].
  - apply rtc_refl.
  - destruct (m (sh_world sh)) as [r w] eqn:Em. eapply rtc_l; [|by apply IH]. apply Hstep. cbn. by rewrite Em.
  - destruct (take_gate id sh) as [g sh1] eqn:Eg. eapply rtc_l; [|by apply IH]. apply Hstep. cbn. by rewrite Eg.
  - eapply rtc_l; [|by apply IH]. by apply Hstep.
  - destruct Ho as [Hh Ho]. eapply rtc_l; [|by apply IH]. apply Hstep. cbn. rewrite Hfree; [done|].
    intros y Hy. rewrite Forall_forall in Hh. specialize (Hh y Hy). by destruct y.
  - destruct Ho as [Hh Ho]. eapply rtc_l; [|by apply IH]. apply Hstep. cbn. rewrite Hfree; [done|].
    intros y Hy. rewrite Forall_forall in Hh. specialize (Hh y Hy). by destruct y.
  - destruct Ho as [Hh Ho]. eapply rtc_l; [|by apply IH]. apply Hstep. cbn. rewrite Hfree; [done|].
    intros y Hy. rewrite Forall_forall in Hh. specialize (Hh y Hy). by destruct y.
  - eapply rtc_l; [|by apply IH]. by apply Hstep.
Qed.

(** ** Rely and guarantee

    [rely i held] is what the operation at [i] may see happen while it holds [held], [ok] what is true
    at every step, [here] what is true where an operation stands, at its end for instance.  The state
    is the shared one with a ghost part. *)

Section RelyGuarantee.
Context {G : Type}.
Variables (ok : G -> Shared -> Prop) (rely : nat -> list guard -> G * Shared -> G * Shared -> Prop)
  (here : nat -> prog -> list guard -> G * Shared -> Prop).
Hypothesis rely_refl : forall i held s, rely i held s s.
Hypothesis rely_trans : forall i held s1 s2 s3, rely i held s1 s2 -> rely i held s2 s3 -> rely i held s1 s3.

(** What an operation must see to in a step: whoever holds compatible guards may see it. *)
Definition guarantee (i : nat) (held : list guard) (s s' : G * Shared) : Prop :=
  ok s'.1 s'.2 /\ forall j held', j ≠ i -> compatible held held' -> rely j held' s s'.

Fixpoint safe (i : nat) (p : prog) (held : list guard) (s : G * Shared) : Prop :=
  forall s', rely i held s s' -> ok s'.1 s'.2 -> here i p held s' /\
  match p with
  | Done _ => True
  | Step m k =>
      let '(r, w) := m (sh_world s'.2) in
      exists g, guarantee i held s' (g, set_world w s'.2) /\ safe i (k r) (kept (k r) held) (g, set_world w s'.2)
  | TakeGate id k =>
      let '(n, sh) := take_gate id s'.2 in
      exists g, guarantee i held s' (g, sh) /\ safe i (k n) (kept (k n) held) (g, sh)
  | DropGate id k =>
      exists g, guarantee i held s' (g, drop_gate id s'.2) /\ safe i k (kept k held) (g, drop_gate id s'.2)
  | ReadGate g k => safe i k (kept k (GRead g :: held)) s'
  | WriteGate g k => safe i k (kept k (GWrite g :: held)) s'
  | LockStripe n k => safe i k (kept k (GStripe n :: held)) s'
  | Release x k => safe i k (kept k (drop_guard x held)) s'
  end.

Lemma safe_rely i p held s s' : safe i p held s -> rely i held s s' -> safe i p held s'.
Proof. intros H Hs. destruct p; cbn; intros s2 H2; apply H; by eapply rely_trans. Qed.

Definition safe_pool (ts : list Thread) (sh : Shared) : Prop :=
  excluded ts /\ exists g, ok g sh /\ forall i t, ts !! i = Some t -> safe i (t_prog t) (t_held t) (g, sh).

(** What a step of one operation does to the others. *)
Lemma advance_safe taken i t sh t' sh' g : advance taken t sh = Some (t', sh') -> ok g sh ->
  safe i (t_prog t) (t_held t) (g, sh) ->
  exists g', ok g' sh' /\ safe i (t_prog t') (t_held t') (g', sh')
    /\ forall j held', j ≠ i -> compatible (t_held t) held' -> rely j held' (g, sh) (g', sh').
Proof.
  intros H Hok Hs. destruct t as [p held]. unfold advance in H. cbn in *.
  destruct p as [o|E B m k|id k|id k|n k|n k|n k|x k]; cbn in Hs; [done|specialize (Hs _ (rely_refl _ _ _) Hok) as [_ Hs]; cbn [fst snd] in Hs..].
  - destruct (m (sh_world sh)) as [r w]. injection H as <- <-. destruct Hs as (g' & [Hok' Hr] & Hs'). eauto.
  - destruct (take_gate id sh) as [n sh1]. injection H as <- <-. destruct Hs as (g' & [Hok' Hr] & Hs'). eauto.
  - injection H as <- <-. destruct Hs as (g' & [Hok' Hr] & Hs'). eauto.
  - destruct (free _ _); [|done]. injection H as <- <-. eauto.
  - destruct (free _ _); [|done]. injection H as <- <-. eauto.
  - destruct (free _ _); [|done]. injection H as <- <-. eauto.
  - injection H as <- <-. eauto.
Qed.

Lemma step_safe x y : pool_step x y -> safe_pool x.1 x.2 -> safe_pool y.1 y.2.
Proof.
  intros Hstep [Hx (g & Hok & Hsafe)]. split; [by eapply step_excluded|].
  destruct Hstep as (i & (t & t' & Ht & Ha & Hy)%step_at_inv).
  destruct (advance_safe _ i _ _ _ _ g Ha Hok (Hsafe _ _ Ht)) as (g' & Hok' & Hs' & Hothers).
  exists g'. split; [done|]. rewrite Hy. intros j u Hu. apply elem_of_insert in Hu as [[-> ->]|[Hne Hu]]; [done|].
  eapply safe_rely; [by apply Hsafe|]. apply Hothers; [done|]. by apply (Hx i j).
Qed.

Lemma run_safe x y : rtc pool_step x y -> safe_pool x.1 x.2 -> safe_pool y.1 y.2.
Proof. induction 1; eauto using step_safe. Qed.

(** What holds of a pool at any time. *)
Lemma safe_here ts sh : safe_pool ts sh ->
  exists g, ok g sh /\ forall i t, ts !! i = Some t -> here i (t_prog t) (t_held t) (g, sh).
Proof.
  intros [_ (g & Hok & Hs)]. exists g. split; [done|]. intros i t Ht. specialize (Hs i t Ht).
  destruct (t_prog t); cbn in Hs; by apply (Hs _ (rely_refl _ _ _) Hok).
Qed.

(** ** Dropped operations

    A client that goes away drops its operation where it stands: the guards are released, and what
    was under way, a call in a thread of its own or a spawned clean-up, runs on without them.  [calm]
    bounds what that may do. *)

Section Dropped.
Variables (calm : World S -> World S -> Prop) (gone : O) (may : nat -> Prop).

Fixpoint left_running (p : prog) : Prop :=
  match p with
  | Done o => o = gone
  | Step m k => (forall w, calm w (m w).2) /\ forall r, left_running (k r)
  | _ => False
  end.

Definition drops (x y : list Thread * Shared) : Prop :=
  exists i t rest, may i /\ x.1 !! i = Some t /\ finished t = false /\ left_running rest /\ y = (<[i := T rest []]> x.1, x.2).

(** A step of the scheduler, or a client that goes away. *)
Definition pool_move (x y : list Thread * Shared) : Prop := pool_step x y \/ drops x y.

Lemma left_orderly rest : left_running rest -> orderly [] rest.
Proof. induction rest; cbn; try done. intros [_ H0] r. auto. Qed.

Lemma drop_excluded x y : drops x y -> excluded x.1 -> excluded y.1.
Proof.
  intros (i & t & rest & _ & Ht & _ & _ & ->) Hx j1 j2 u1 u2 Hne H1 H2. cbn in *.
  apply elem_of_insert in H1 as [[-> ->]|[N1 H1]]; [by intros a b []%elem_of_nil|].
  apply elem_of_insert in H2 as [[-> ->]|[N2 H2]]; [by intros a b _ []%elem_of_nil|]. by eapply (Hx j1 j2).
Qed.

Lemma drop_disciplined x y : drops x y -> Forall disciplined x.1 -> Forall disciplined y.1.
Proof.
  intros (i & t & rest & _ & Ht & _ & Hl & ->) Hx. apply Forall_insert; [done|]. unfold disciplined. cbn.
  destruct (finished _); [done|]. by apply left_orderly.
Qed.

Lemma move_disciplined x y : rtc pool_move x y -> Forall disciplined x.1 -> Forall disciplined y.1.
Proof. induction 1 as [|x y z [H|H] _ IH]; eauto using step_disciplined, drop_disciplined. Qed.

Lemma move_length x y : rtc pool_move x y -> length y.1 = length x.1.
Proof.
  induction 1 as [|x y z [(i & (t & t' & _ & _ & Hy)%step_at_inv)|(i & t & rest & _ & _ & _ & _ & ->)] _ IH]; [done|..].
  - by rewrite IH, Hy, length_insert.
  - rewrite IH. cbn. apply length_insert.
Qed.

(** What is left running has to keep the invariant on its own. *)
Hypothesis left_safe : forall i rest g sh, may i -> left_running rest -> ok g sh -> safe i rest [] (g, sh).

Lemma move_safe x y : pool_move x y -> safe_pool x.1 x.2 -> safe_pool y.1 y.2.
Proof.
  intros [H|H] Hs; [by eapply step_safe|]. pose proof Hs as [Hx _]. split; [by eapply drop_excluded|].
  destruct H as (i & t & rest & Hm & Ht & _ & Hl & ->). destruct Hs as [_ (g & Hok & Hsafe)]. exists g. split; [done|].
  intros j u Hu. apply elem_of_insert in Hu as [[-> ->]|[Hne Hu]]; [by eapply left_safe|by apply Hsafe].
Qed.

Lemma moves_safe x y : rtc pool_move x y -> safe_pool x.1 x.2 -> safe_pool y.1 y.2.
Proof. induction 1; eauto using move_safe. Qed.
End Dropped.
End RelyGuarantee.
End Threads.
