(* ===== verification/Concurrent.v ===== *)
(** * The operations of a shard, concurrently ([cache/service.rs], [channel/service.rs], [cache/stripes.rs])

    Each operation as a program of [Threads]: one step per call to the store, the disk or another
    shared component, with the gates and stripes taken and released where the source does.  Staging
    a body touches a file and reservations of its own and is one step.  Run alone, a program is the
    operation of [Cache] or [Channels] ([ConcurrentLemmas]). *)

From S2P Require Import Prelude Externals Domain Metadata MetadataView MetadataStore Space RecentUse Filesystem ArtifactFiles World Channels ChannelLemmas Cache CacheLemmas CacheConsistency CacheMaintenance Shard Threads.

(** How an operation ends. *)
Inductive outcome `{UlidLib} :=
| OPublished (r : result CacheError Admission)
| OLocated (r : result CacheError (option LocatedArtifact))
| OReference (r : result CacheError unit)
| OReconciled (r : result CacheError unit)
| OMaintained (r : result CacheError nat)
| ORegistered (r : result ChannelError IssuedChannel)
| OPatched (r : result ChannelError ChannelRecord)
| ODeleted (r : result ChannelError unit)
| OResumed (r : result ChannelError unit)
(** its client went away *)
| ODropped.

Section Programs.
Context {UL : UlidLib} {HX : HexLib} {SH : Sha256Lib} {BS : Base64Lib} {ZS : ZstdLib} {DH : DefaultHasherLib}.
Context {S : Type} {MS : MetadataStore S}.

Notation program := (@prog UL S outcome).

(** ** Stripes *)

Definition STRIPES : Z := 512.

(** [Stripes::artifact], the index of the mutex *)
Definition stripe_of (channel : ChannelId) (artifact : ArtifactId) : nat :=
  Z.to_nat (default_hash (channel_ulid channel) (digest_array (digest artifact)) mod STRIPES).

(** [?]: an error ends the operation. *)
Definition attempt {E B} (m : M (World S) E B) (fail : E -> program) (k : B -> program) : program :=
  Step m (fun r => match r with Ok x => k x | Err e => fail e end).

(** ** The cache service *)

(** [channel_fence]: the guard is dropped when it refuses. *)
Definition p_fence (channel : ChannelId) (refused : CacheError -> program) (k : Z -> program) : program :=
  TakeGate channel (fun g =>
  ReadGate g (
  let refuse e := Release (GRead g) (refused e) in
  attempt (c_meta (ms_channel channel)) refuse (fun found =>
  match found with
  | Some record => if bool_decide (state record = Active) then k (expiry_seconds record) else refuse ChannelDeleting
  | None => refuse MissingChannel
  end))).

Definition p_commit_published (channel : ChannelId) (artifact : ArtifactId) (staged : StagedArtifact) (commit_ : Commit)
    (expiry : Z) (reservation : Reservation) (committed_len : Z) (k : result CacheError Publication -> program) : program :=
  attempt (now : M (World S) CacheError Z) (fun e => k (Err e)) (fun t =>
  Step (c_meta (ms_commit_publication channel artifact
    {| content_len := staged_len staged; content_type := commit_content_type commit_; created_at := t;
       eligible_at := saturating_add t expiry; stored_len := staged_stored_len staged;
       encoding := staged_encoding staged |}
    (commit_reference commit_) (commit_durability commit_))) (fun created =>
  match created with
  | Err e => Step (settle (discard reservation)) (fun _ => k (Err e))
  | Ok created =>
      Step (settle (fun l => {| l_fs := l_fs l; l_space := Reservation_commit committed_len reservation (l_space l) |})) (fun _ =>
      k (Ok {| pub_artifact := artifact; pub_outcome := if created then PublicationCreated else PublicationExisting |}))
  end)).

Definition p_commit_staged (cfg : CacheConfig) (channel : ChannelId) (artifact : ArtifactId) (staged : StagedArtifact)
    (commit_ : Commit) (k : result CacheError Publication -> program) : program :=
  p_fence channel (fun e => Step (settle (discard (staged_reservation staged))) (fun _ => k (Err e))) (fun expiry =>
  LockStripe (stripe_of channel artifact) (
  attempt (c_local (publish (cache_files cfg) channel artifact staged (commit_durability commit_))) (fun e => k (Err e)) (fun publication =>
  match publication with
  | Created reservation => p_commit_published channel artifact staged commit_ expiry reservation (staged_stored_len staged) k
  | Existing reservation => p_commit_published channel artifact staged commit_ expiry reservation 0 k
  end))).

Definition p_publish (cfg : CacheConfig) (name : bytes) (request : PublishRequest) : program :=
  let finish r := Done (OPublished r) in
  attempt (c_local (stage (cache_files cfg) (req_channel request) name (req_stream request)
    (max_upload_bytes cfg) (req_content_length request) (req_durability request) (req_encoding request))) (fun e => finish (Err e)) (fun outcome =>
  match outcome with
  | Rejected stream => finish (Ok (AdmissionRejected stream))
  | Ready staged =>
      attempt (on_metrics (metric_written (staged_len staged)) : M (World S) CacheError unit) (fun e => finish (Err e)) (fun _ =>
      let commit artifact reference :=
        p_commit_staged cfg (req_channel request) artifact staged
          {| commit_content_type := req_content_type request; commit_reference := reference; commit_durability := req_durability request |}
          (fun r => finish (match r with Ok publication => Ok (AdmissionPublished publication) | Err e => Err e end)) in
      match req_target request with
      | ById artifact => commit artifact None
      | ContentAddressed None => commit (from_digest (staged_digest staged)) None
      | ContentAddressed (Some reference) =>
          let artifact := from_digest (staged_digest staged) in
          attempt (now : M (World S) CacheError Z) (fun e => finish (Err e)) (fun t =>
          commit artifact (Some (reference, {| ref_artifact := artifact; updated_at := t; etag := None; last_modified := None |})))
      end)
  end).

Definition p_locate_local (cfg : CacheConfig) (channel : ChannelId) (artifact : ArtifactId)
    (k : result CacheError (option LocatedArtifact) -> program) : program :=
  attempt (c_meta (ms_artifact channel artifact)) (fun e => k (Err e)) (fun found =>
  match found with
  | None => k (Ok None)
  | Some metadata =>
      Step (c_local (l_fs_op (open_read (artifact_path (cache_files cfg) channel artifact)))) (fun opened =>
      match (opened : result CacheError bytes) with
      | Ok file => k (Ok (Some {| located_file := file; located_metadata := metadata |}))
      | Err (CacheLocal (Io IoNotFound)) =>
          let s := stripe_of channel artifact in
          LockStripe s (Step (c_meta (ms_remove_artifact channel artifact)) (fun removed =>
          Release (GStripe s) (k (match removed with Ok _ => Ok None | Err e => Err e end))))
      | Err e => k (Err e)
      end)
  end).

Definition p_locate (cfg : CacheConfig) (channel : ChannelId) (artifact : ArtifactId) : program :=
  p_locate_local cfg channel artifact (fun found =>
  match found with
  | Err e => Done (OLocated (Err e))
  | Ok (Some located) =>
      Step (modify (fun w => set_recent (mark channel artifact (w_recent w)) w) : M (World S) CacheError unit) (fun _ =>
      Step (on_metrics (metric_hit (content_len (located_metadata located))) : M (World S) CacheError unit) (fun _ =>
      Done (OLocated (Ok (Some located)))))
  | Ok None => Step (on_metrics metric_miss : M (World S) CacheError unit) (fun _ => Done (OLocated (Ok None)))
  end).

Definition p_bind_reference (channel : ChannelId) (reference : bytes) (artifact : ArtifactId)
    (etag_ last_modified_ : option bytes) (durability : Durability) : program :=
  p_fence channel (fun e => Done (OReference (Err e))) (fun _ =>
  attempt (now : M (World S) CacheError Z) (fun e => Done (OReference (Err e))) (fun t =>
  Step (c_meta (ms_bind_reference channel reference
    {| ref_artifact := artifact; updated_at := t; etag := etag_; last_modified := last_modified_ |} durability)) (fun r =>
  Done (OReference r)))).

Definition p_delete_reference (channel : ChannelId) (reference : bytes) : program :=
  p_fence channel (fun e => Done (OReference (Err e))) (fun _ =>
  Step (c_meta (ms_delete_reference channel reference)) (fun r => Done (OReference r))).

(** *** Recovery *)

Fixpoint p_orphans (cfg : CacheConfig) (orphans : list (ChannelId * ArtifactId)) (fail : CacheError -> program) (k : program) : program :=
  match orphans with
  | [] => k
  | (channel, artifact) :: orphans =>
      let next := p_orphans cfg orphans fail k in
      attempt (c_meta (ms_artifact channel artifact)) fail (fun found =>
      match found with
      | Some _ => next
      | None =>
          let s := stripe_of channel artifact in
          LockStripe s (
          attempt (c_meta (ms_artifact channel artifact)) fail (fun again =>
          match again with
          | Some _ => Release (GStripe s) next
          | None => attempt (c_local (remove (cache_files cfg) channel artifact)) fail (fun _ => Release (GStripe s) next)
          end))
      end)
  end.

Definition p_reconcile (cfg : CacheConfig) : program :=
  let fail e := Done (OReconciled (Err e)) in
  attempt (c_local (remove_temporary_files (cache_files cfg))) fail (fun _ =>
  attempt (c_local (orphan_scan (cache_files cfg) (orphan_scan_limit cfg))) fail (fun orphans =>
  p_orphans cfg orphans fail (Done (OReconciled (Ok tt))))).

(** *** Maintenance *)

(** The body and the row of one candidate, under its stripe. *)
Definition p_reclaim_one (cfg : CacheConfig) (channel : ChannelId) (candidate : Candidate) (b : Budget)
    (fail : CacheError -> program) (k : Budget -> program) : program :=
  let artifact := cand_artifact candidate in
  let evict :=
    attempt (c_meta (ms_evict channel artifact (cand_eligible_at candidate))) fail (fun evicted =>
    k (match evicted with Removed stored => spend_bytes stored b | Stale => b end)) in
  attempt (c_meta (ms_artifact channel artifact)) fail (fun found =>
  match found with
  | Some metadata =>
      if eligible_at metadata =? cand_eligible_at candidate
      then attempt (c_local (remove (cache_files cfg) channel artifact)) fail (fun _ => evict) else evict
  | None => evict
  end).

Fixpoint p_candidates (cfg : CacheConfig) (mode_ : Mode) (t expiry : Z) (channel : ChannelId) (candidates : list Candidate)
    (b : Budget) (fail : CacheError -> program) (k : Budget -> bool -> program) : program :=
  match candidates with
  | [] => k b true
  | candidate :: candidates =>
      if exhausted b then k b false
      else if bool_decide (mode_ = Normal) && negb (cand_eligible_at candidate <=? t) then k b true
      else
        let b := spend_candidate b in
        let s := stripe_of channel (cand_artifact candidate) in
        LockStripe s (
        attempt (fun w => (Ok (seen channel (cand_artifact candidate) (w_recent w)), w)) fail (fun recent : bool =>
        if bool_decide (mode_ = Normal) && recent then
          attempt (c_meta (ms_requeue channel (cand_artifact candidate) (cand_eligible_at candidate) (saturating_add t expiry))) fail (fun _ =>
          Step (on_metrics metric_requeued : M (World S) CacheError unit) (fun _ =>
          Release (GStripe s) (p_candidates cfg mode_ t expiry channel candidates b fail k)))
        else
          p_reclaim_one cfg channel candidate b fail (fun b =>
          Release (GStripe s) (p_candidates cfg mode_ t expiry channel candidates b fail k))))
  end.

Fixpoint p_channels (cfg : CacheConfig) (mode_ : Mode) (t : Z) (channels : list ChannelId) (b : Budget)
    (fail : CacheError -> program) (k : Budget -> program) : program :=
  match channels with
  | [] => k b
  | channel :: channels =>
      if exhausted b then k b
      else
        attempt (channel_expiry channel) fail (fun expiry =>
        attempt (c_meta (ms_reclaim_candidates channel (remaining_candidates b))) fail (fun candidates =>
        p_candidates cfg mode_ t expiry channel candidates b fail (fun b (go_on : bool) =>
        if go_on then p_channels cfg mode_ t channels b fail k else k b)))
  end.

(** A pass of [Flywheel::run_maintenance_once]; the space controller's sections and the cursor's
    [fetch_add] are one step each. *)
Definition p_maintenance (cfg : CacheConfig) (observation : option Z) (limit : nat) : program :=
  let fail e := Done (OMaintained (Err e)) in
  Step (modify (fun w => set_space (refresh observation (w_space w)) w) : M (World S) CacheError unit) (fun _ =>
  Step (modify (fun w => set_metrics (record_space (snapshot (w_space w)) (w_metrics w)) w) : M (World S) CacheError unit) (fun _ =>
  attempt (fun w => let '(mode_, space) := mode (w_space w) in (Ok mode_, set_space space w)) fail (fun mode_ =>
  attempt (now : M (World S) CacheError Z) fail (fun t =>
  attempt active_channels fail (fun channels =>
  attempt (match channels with
           | [] => mret []
           | _ :: _ => fun w => (Ok (rotated (w_cursor w) channels), set_cursor (wrapping_add (w_cursor w) 1) w)
           end) fail (fun channels =>
  p_channels cfg mode_ t channels {| remaining_candidates := limit; remaining_bytes := reclaim_byte_limit cfg; reclaimed := 0 |} fail (fun b =>
  Step (on_metrics (metric_reclaimed (Z.of_nat (reclaimed b))) : M (World S) CacheError unit) (fun _ =>
  Step (modify (fun w => set_recent (rotate (w_recent w)) w) : M (World S) CacheError unit) (fun _ =>
  Done (OMaintained (Ok (reclaimed b)))))))))))).

(** ** The channel service *)

(** [id] is fresh: an operation that registers it starts with its ticket. *)
Definition p_register (id : ChannelId) (secret : bytes32) (protected : bool) (expiry : Z) : program :=
  let fail e := Done (ORegistered (Err e)) in
  let token := if protected then Some (ChannelToken_generate secret) else None in
  attempt now fail (fun created =>
  let record := {| channel_id := id; access := match token with Some t => Token (ChannelToken_digest t) | None => Open end;
                   expiry_seconds := expiry; state := Active; channel_created_at := created |} in
  attempt (ch_store (ms_create_channel record)) fail (fun _ =>
  TakeGate id (fun _ => Done (ORegistered (Ok {| issued_record := record; issued_token := token |}))))).

Definition p_lease (id : ChannelId) (credential : option bytes) (refused : ChannelError -> program) (k : nat -> ChannelRecord -> program)
    : program :=
  attempt (authorize id credential) refused (fun _ =>
  TakeGate id (fun g =>
  ReadGate g (attempt (authorize id credential) (fun e => Release (GRead g) (refused e)) (fun record => k g record)))).

Definition p_patch (id : ChannelId) (credential : option bytes) (expiry : Z) : program :=
  p_lease id credential (fun e => Done (OPatched (Err e))) (fun _ lease =>
  let record := set_expiry lease expiry in
  attempt (ch_store (ms_store_channel record)) (fun e => Done (OPatched (Err e))) (fun _ => Done (OPatched (Ok record)))).

Definition p_finish_deletion (files : ArtifactFiles) (id : ChannelId) (fail : ChannelError -> program) (k : program) : program :=
  attempt (ch_store (ms_delete_channel_data id)) fail (fun _ =>
  attempt (ch_local (remove_channel files id)) fail (fun _ =>
  attempt (ch_store (ms_finish_channel_deletion id)) fail (fun _ =>
  DropGate id k))).

Definition p_delete (files : ArtifactFiles) (id : ChannelId) (credential : option bytes) : program :=
  let finish r := Done (ODeleted r) in
  if decide (id = DEFAULT) then finish (Err DefaultChannel)
  else
    p_lease id credential (fun e => finish (Err e)) (fun g lease =>
    attempt (ch_store (ms_store_channel (set_state lease Deleting))) (fun e => finish (Err e)) (fun _ =>
    Release (GRead g) (
    TakeGate id (fun g =>
    WriteGate g (p_finish_deletion files id (fun e => finish (Err e)) (finish (Ok tt))))))).

Fixpoint p_resume_each (files : ArtifactFiles) (records : list ChannelRecord) : program :=
  match records with
  | [] => Done (OResumed (Ok tt))
  | record :: records =>
      TakeGate (channel_id record) (fun g =>
      WriteGate g (
      p_finish_deletion files (channel_id record) (fun e => Done (OResumed (Err e)))
        (Release (GWrite g) (p_resume_each files records))))
  end.

Definition p_resume (files : ArtifactFiles) : program :=
  attempt (ch_store ms_channels) (fun e => Done (OResumed (Err e))) (fun records =>
  p_resume_each files (List.filter is_deleting records)).

(** ** A pool of calls *)

Definition program_of (cfg : CacheConfig) (call : shard_call) : program :=
  match call with
  | Publish name request => p_publish cfg name request
  | Locate c a => p_locate cfg c a
  | Bind c n a e l d => p_bind_reference c n a e l d
  | Unbind c n => p_delete_reference c n
  | Reconcile => p_reconcile cfg
  | Maintain observation limit => p_maintenance cfg observation limit
  | Register id secret protected expiry => p_register id secret protected expiry
  | Patch id credential expiry => p_patch id credential expiry
  | Delete id credential => p_delete (cache_files cfg) id credential
  | Resume => p_resume (cache_files cfg)
  end.

Definition tickets (call : shard_call) : list guard := match call with Register id _ _ _ => [GTicket id] | _ => [] end.

Definition pool_of (cfg : CacheConfig) (calls : list shard_call) : list Thread :=
  map (fun call => resume (program_of cfg call) (tickets call)) calls.

(** The same calls one at a time. *)
Definition sequential (cfg : CacheConfig) (call : shard_call) (w : World S) : outcome * World S :=
  let answer {E A} (f : result E A -> outcome) (m : M (World S) E A) := let '(r, w) := m w in (f r, w) in
  match call with
  | Publish name request => answer OPublished (publish_or_reject cfg name request)
  | Locate c a => answer OLocated (locate cfg c a)
  | Bind c n a e l d => answer OReference (bind_reference_with_validators c n a e l d)
  | Unbind c n => answer OReference (cache_delete_reference c n)
  | Reconcile => answer OReconciled (reconcile cfg)
  | Maintain observation limit => answer OMaintained (flywheel_maintenance cfg observation limit)
  | Register id secret protected expiry => answer ORegistered (register id secret protected expiry)
  | Patch id credential expiry => answer OPatched (lease ← authorize_with_lease id credential; update_expiry lease expiry)
  | Delete id credential => answer ODeleted (delete_channel (cache_files cfg) id credential)
  | Resume => answer OResumed (resume_deletions (cache_files cfg))
  end.
End Programs.
