(* ===== verification/ConcurrentLemmas.v ===== *)
(** * The concurrent programs are the operations

    Run alone, each program of [Concurrent] answers and acts as the operation it stands for; and each
    keeps to the lock discipline, so that no pool of them deadlocks. *)

From S2P Require Import Prelude Externals Domain Metadata MetadataView MetadataStore Space RecentUse Filesystem ArtifactFiles World Channels ChannelLemmas Cache CacheLemmas CacheConsistency CacheMaintenance Shard Threads Concurrent.

Section Alone.
Context {UL : UlidLib} {HX : HexLib} {SH : Sha256Lib} {BS : Base64Lib} {ZS : ZstdLib} {DH : DefaultHasherLib}.
Context {S : Type} {MS : MetadataStore S}.

Notation program := (@prog UL S outcome).

(** Alone, [p] does what [m] does and goes on with its result. *)
Definition leads {E A} (p : program) (m : M (World S) E A) (K : result E A -> program) : Prop :=
  forall sh, exists sh', sh_world sh' = (m (sh_world sh)).2 /\ alone p sh = alone (K (m (sh_world sh)).1) sh'.

Lemma leads_ret {E A} (x : A) (K : result E A -> program) : leads (K (Ok x)) (mret x) K.
Proof. intros sh. by exists sh. Qed.

Lemma leads_throw {E A} (e : E) (K : result E A -> program) : leads (K (Err e)) (throw e) K.
Proof. intros sh. by exists sh. Qed.

Lemma leads_step {E A} (m : M (World S) E A) (K : result E A -> program) : leads (Step m K) m K.
Proof. intros sh. cbn. destruct (m (sh_world sh)) as [r w]. by exists (set_world w sh). Qed.

Lemma leads_bind {E A B} (m : M (World S) E A) (f : A -> M (World S) E B) k (K : result E B -> program) :
  (forall x, leads (k x) (f x) K) -> leads (attempt m (fun e => K (Err e)) k) (m ≫= f) K.
Proof.
  intros H sh. unfold mbind, M_bind. cbn. destruct (m (sh_world sh)) as [[x|e] w]; [|by exists (set_world w sh)].
  destruct (H x (set_world w sh)) as (sh' & Hw & Ha). eauto.
Qed.

Lemma leads_try {E F A B} (m : M (World S) E A) (f : result E A -> M (World S) F B) k (K : result F B -> program) :
  (forall r, leads (k r) (f r) K) -> leads (Step m k) (try m ≫= f) K.
Proof.
  intros H sh. unfold mbind, M_bind, try. cbn. destruct (m (sh_world sh)) as [r w]. apply (H r (set_world w sh)).
Qed.

(** A step that cannot fail. *)
Lemma leads_always {E F A B} (m : World S -> A * World S) (f : A -> M (World S) F B) k (K : result F B -> program) :
  (forall x, leads (k (Ok x)) (f x) K) ->
  leads (Step (fun w => let '(x, w) := m w in (Ok x : result E A, w)) k) ((fun w => let '(x, w) := m w in (Ok x, w)) ≫= f) K.
Proof.
  intros H sh. unfold mbind, M_bind. cbn. destruct (m (sh_world sh)) as [x w]. apply (H x (set_world w sh)).
Qed.

Lemma leads_modify {E F B} (f : World S -> World S) (n : M (World S) F B) k (K : result F B -> program) :
  leads (k (Ok tt)) n K -> leads (Step (modify f : M (World S) E unit) k) (_ ← modify f; n) K.
Proof. intros H. apply (leads_always (fun w => (tt, f w))). by intros []. Qed.

Lemma leads_gate {E A} id k (m : M (World S) E A) K : (forall g, leads (k g) m K) -> leads (TakeGate id k) (_ ← gate id; m) K.
Proof.
  intros H sh. cbn. unfold take_gate. destruct (sh_gates sh !! id) as [g|]; [apply (H g (set_world _ sh))|].
  apply (H _ {| sh_world := _; sh_gates := _; sh_objects := _ |}).
Qed.

Lemma leads_forget {E A} id k (m : M (World S) E A) K : leads k m K -> leads (DropGate id k) (_ ← forget id; m) K.
Proof. intros H sh. apply (H (drop_gate id sh)). Qed.

Lemma leads_lock {E A} p (m : M (World S) E A) K : leads p m K ->
  (forall s, leads (LockStripe s p) m K) /\ (forall g, leads (ReadGate g p) m K) /\ (forall g, leads (WriteGate g p) m K)
  /\ (forall x, leads (Release x p) m K).
Proof. intros H. repeat split; intros ? sh; apply H. Qed.

(** The same up to what runs next. *)
Lemma leads_eq {E A} p (m m' : M (World S) E A) K : (forall w, m w = m' w) -> leads p m K -> leads p m' K.
Proof. intros H Hp sh. rewrite <- H. apply Hp. Qed.

Lemma bind_ret {E A} (m : M (World S) E A) w : (m ≫= mret) w = m w.
Proof. unfold mbind, M_bind. by destruct (m w) as [[] ?]. Qed.

Ltac lock := lazymatch goal with
  | |- leads (LockStripe _ _) _ _ => apply leads_lock
  | |- leads (ReadGate _ _) _ _ => apply leads_lock
  | |- leads (WriteGate _ _) _ _ => apply leads_lock
  | |- leads (Release _ _) _ _ => apply leads_lock
  end.

(** *** The cache service *)

Lemma fence_leads {E A} channel refused k (f : Z -> M (World S) E A) (h : CacheError -> M (World S) E A) K :
  (forall e, leads (refused e) (h e) K) -> (forall x, leads (k x) (f x) K) ->
  leads (p_fence channel refused k) (r ← try (channel_fence channel); match (r : result CacheError Z) with Ok x => f x | Err e => h e end) K.
Proof.
  intros Hr Hk sh. unfold p_fence. cbn [alone].
  assert (exists g sh1, take_gate channel sh = (g, sh1) /\ sh_world sh1 = set_gates ({[channel]} ∪ w_gates (sh_world sh)) (sh_world sh))
    as (g & sh1 & -> & Hw1).
  { unfold take_gate. destruct (sh_gates sh !! channel); by eexists _, _. }
  unfold channel_fence, mbind, M_bind, try, gate, modify, attempt. cbn. rewrite Hw1.
  destruct (c_meta (ms_channel channel) _) as [[[record|]|e] w]; [|apply (Hr _ (set_world w sh1))..].
  case_bool_decide; [apply (Hk _ (set_world w sh1))|apply (Hr _ (set_world w sh1))].
Qed.

Lemma commit_published_leads channel artifact staged commit_ expiry r n K :
  leads (p_commit_published channel artifact staged commit_ expiry r n K) (commit_published channel artifact staged commit_ expiry r n) K.
Proof.
  unfold p_commit_published, commit_published. apply leads_bind. intros t. apply leads_try. intros [created|e].
  - apply leads_modify, leads_ret.
  - apply leads_modify, leads_throw.
Qed.

Lemma commit_staged_leads cfg channel artifact staged commit_ K :
  leads (p_commit_staged cfg channel artifact staged commit_ K) (commit_staged cfg channel artifact staged commit_) K.
Proof.
  unfold p_commit_staged, commit_staged. apply fence_leads.
  - intros e. apply leads_modify, leads_throw.
  - intros expiry. lock. apply leads_bind. intros [r|r]; apply commit_published_leads.
Qed.

(** A result that is only converted. *)
Lemma leads_map {E A B} p (m : M (World S) E A) (g : A -> B) (K : result E B -> program) :
  leads p m (fun r => K (match r with Ok x => Ok (g x) | Err e => Err e end)) -> leads p (x ← m; mret (g x)) K.
Proof.
  intros H sh. destruct (H sh) as (sh' & Hw & Ha). exists sh'. unfold mbind, M_bind. destruct (m (sh_world sh)) as [[x|e] w]; done.
Qed.

Lemma publish_leads cfg name request :
  leads (p_publish cfg name request) (publish_or_reject cfg name request) (fun r => Done (OPublished r)).
Proof.
  unfold p_publish, publish_or_reject. apply (leads_bind _ _ _ (fun r => Done (OPublished r))). intros [staged|stream]; [|apply (leads_ret _ (fun r => Done (OPublished r)))].
  apply (leads_bind _ _ _ (fun r => Done (OPublished r))). intros [].
  set (commit artifact reference := commit_staged cfg (req_channel request) artifact staged
    {| commit_content_type := req_content_type request; commit_reference := reference; commit_durability := req_durability request |}).
  assert (forall artifact reference, leads (p_commit_staged cfg (req_channel request) artifact staged
      {| commit_content_type := req_content_type request; commit_reference := reference; commit_durability := req_durability request |}
      (fun r => Done (OPublished (match r with Ok publication => Ok (AdmissionPublished publication) | Err e => Err e end))))
    (x ← commit artifact reference; mret (AdmissionPublished x)) (fun r => Done (OPublished r))) as Hc.
  { intros artifact reference. apply (leads_map _ _ AdmissionPublished (fun r => Done (OPublished r))), commit_staged_leads. }
  destruct (req_target request) as [artifact|[reference|]]; [apply Hc| |apply Hc].
  set (a := from_digest (staged_digest staged)).
  apply (leads_eq _ (t ← now; x ← commit a (Some (reference, {| ref_artifact := a; updated_at := t; etag := None; last_modified := None |}));
    mret (AdmissionPublished x))); [done|].
  apply (leads_bind now _ _ (fun r => Done (OPublished r))). intros t. apply Hc.
Qed.

Lemma locate_local_leads cfg channel artifact K :
  leads (p_locate_local cfg channel artifact K) (locate_local cfg channel artifact) K.
Proof.
  unfold p_locate_local, locate_local. apply leads_bind. intros [metadata|]; [|apply leads_ret]. apply leads_try.
  assert (leads (LockStripe (stripe_of channel artifact) (Step (c_meta (ms_remove_artifact channel artifact)) (fun removed =>
    Release (GStripe (stripe_of channel artifact)) (K (match removed with Ok _ => Ok None | Err e => Err e end)))))
    (_ ← c_meta (ms_remove_artifact channel artifact); mret None) K) as Hgone.
  { lock. apply (leads_map _ _ (fun _ => None)). intros sh. cbn. destruct (c_meta _ _) as [r w]. by exists (set_world w sh). }
  intros [file|[[[]| | | | | |]| | | |]]; try apply leads_throw; [apply leads_ret|exact Hgone].
Qed.

(** A program followed by more of it. *)
Lemma leads_then {E A B} p (m : M (World S) E A) (f : A -> M (World S) E B) (k : result E A -> program) (K : result E B -> program) :
  leads p m k -> (forall x, leads (k (Ok x)) (f x) K) -> (forall e, k (Err e) = K (Err e)) -> leads p (m ≫= f) K.
Proof.
  intros Hp Hk He sh. destruct (Hp sh) as (sh' & Hw & Ha). unfold mbind, M_bind. rewrite Ha.
  destruct (m (sh_world sh)) as [[x|e] w]; cbn in *.
  - subst w. apply Hk.
  - exists sh'. by rewrite He.
Qed.

Lemma locate_leads cfg channel artifact : leads (p_locate cfg channel artifact) (locate cfg channel artifact) (fun r => Done (OLocated r)).
Proof.
  unfold p_locate, locate. eapply leads_then; [apply locate_local_leads| |done]. intros [located|].
  - apply leads_modify, leads_modify, (leads_ret _ (fun r => Done (OLocated r))).
  - apply leads_modify, (leads_ret _ (fun r => Done (OLocated r))).
Qed.

Lemma fence_leads_bind {A} channel k (f : Z -> M (World S) CacheError A) K :
  (forall x, leads (k x) (f x) K) -> leads (p_fence channel (fun e => K (Err e)) k) (x ← channel_fence channel; f x) K.
Proof.
  intros H. eapply leads_eq; [|apply (fence_leads _ _ _ f throw); [intros e; apply (leads_throw e K)|exact H]].
  intros w. unfold try, mbind, M_bind. by destruct (channel_fence channel w) as [[] ?].
Qed.

Lemma bind_reference_leads channel reference artifact e l d :
  leads (p_bind_reference channel reference artifact e l d) (bind_reference_with_validators channel reference artifact e l d) (fun r => Done (OReference r)).
Proof.
  apply (fence_leads_bind _ _ _ (fun r => Done (OReference r))). intros _.
  apply (leads_bind now _ _ (fun r => Done (OReference r))). intros t. apply leads_step.
Qed.

Lemma delete_reference_leads channel reference :
  leads (p_delete_reference channel reference) (cache_delete_reference channel reference) (fun r => Done (OReference r)).
Proof. apply (fence_leads_bind _ _ _ (fun r => Done (OReference r))). intros _. apply leads_step. Qed.

(** *** Maintenance *)

Lemma reclaim_one_leads cfg channel candidate b K :
  leads (p_reclaim_one cfg channel candidate b (fun e => K (Err e)) (fun b => K (Ok b))) (reclaim_one cfg channel candidate b) K.
Proof.
  unfold p_reclaim_one, reclaim_one. apply leads_bind. intros found.
  assert (leads (attempt (c_meta (ms_evict channel (cand_artifact candidate) (cand_eligible_at candidate))) (fun e => K (Err e)) (fun evicted =>
      K (Ok (match evicted with Removed stored => spend_bytes stored b | Stale => b end))))
    (evicted ← c_meta (ms_evict channel (cand_artifact candidate) (cand_eligible_at candidate));
     mret (match evicted with Removed stored => spend_bytes stored b | Stale => b end)) K) as Hevict.
  { apply leads_bind. intros evicted. apply leads_ret. }
  destruct found as [metadata|]; [|exact Hevict]. case_bool; [|exact Hevict]. apply leads_bind. intros _. exact Hevict.
Qed.

Lemma candidates_leads cfg mode_ t expiry channel candidates b K :
  leads (p_candidates cfg mode_ t expiry channel candidates b (fun e => K (Err e)) (fun b go_on => K (Ok (b, go_on))))
    (candidates_loop cfg mode_ t expiry channel candidates b) K.
Proof.
  revert b. induction candidates as [|x candidates IH]; intros b; cbn [p_candidates candidates_loop]; [apply leads_ret|].
  unfold process_candidate. destruct (exhausted b); [apply leads_ret|]. destruct (bool_decide _ && negb _); [apply leads_ret|]. lock.
  set (b' := spend_candidate b).
  eapply (leads_eq _ (recent ← (fun w => (Ok (seen channel (cand_artifact x) (w_recent w)), w));
    if bool_decide (mode_ = Normal) && recent then
      _ ← c_meta (ms_requeue channel (cand_artifact x) (cand_eligible_at x) (saturating_add t expiry));
      _ ← on_metrics metric_requeued; candidates_loop cfg mode_ t expiry channel candidates b'
    else b ← reclaim_one cfg channel x b'; candidates_loop cfg mode_ t expiry channel candidates b)).
  { intros w. unfold mbind, M_bind, get_state. destruct (bool_decide _ && seen _ _ _).
    - destruct (c_meta _ w) as [[] ?]; done.
    - by destruct (reclaim_one _ _ _ _ w) as [[] ?]. }
  apply leads_bind. intros recent. destruct (bool_decide _ && recent).
  - apply leads_bind. intros _. apply leads_modify. lock. apply IH.
  - eapply leads_then with (k := fun r => match r with
      | Ok b => Release (GStripe (stripe_of channel (cand_artifact x))) (p_candidates cfg mode_ t expiry channel candidates b (fun e => K (Err e)) (fun b go_on => K (Ok (b, go_on))))
      | Err e => K (Err e) end); [|intros b2; lock; apply IH|done].
    apply (reclaim_one_leads cfg channel x b' (fun r => match r with Ok b => _ | Err e => K (Err e) end)).
Qed.

Lemma channels_leads cfg mode_ t channels b K :
  leads (p_channels cfg mode_ t channels b (fun e => K (Err e)) (fun b => K (Ok b))) (channels_loop cfg mode_ t channels b) K.
Proof.
  revert b. induction channels as [|channel channels IH]; intros b; cbn [p_channels channels_loop]; [apply leads_ret|].
  destruct (exhausted b); [apply leads_ret|]. apply leads_bind. intros expiry. apply leads_bind. intros candidates.
  eapply leads_then with (k := fun r => match r with
    | Ok (b, go_on) => if (go_on : bool) then p_channels cfg mode_ t channels b (fun e => K (Err e)) (fun b => K (Ok b)) else K (Ok b)
    | Err e => K (Err e) end); [|intros [b2 []]; [apply IH|apply leads_ret]|done].
  apply (candidates_leads cfg mode_ t expiry channel candidates b (fun r => match r with Ok (b, go_on) => _ | Err e => K (Err e) end)).
Qed.

Lemma maintenance_leads cfg observation limit :
  leads (p_maintenance cfg observation limit) (flywheel_maintenance cfg observation limit) (fun r => Done (OMaintained r)).
Proof.
  set (K := fun r : result CacheError nat => Done (OMaintained r)).
  apply (leads_eq _ (
    _ ← modify (fun w => set_space (refresh observation (w_space w)) w);
    _ ← modify (fun w => set_metrics (record_space (snapshot (w_space w)) (w_metrics w)) w);
    mode_ ← (fun w => let '(mode_, space) := mode (w_space w) in (Ok mode_, set_space space w));
    t ← now;
    channels ← active_channels;
    channels ← match channels with
               | [] => mret []
               | _ :: _ => fun w => (Ok (rotated (w_cursor w) channels), set_cursor (wrapping_add (w_cursor w) 1) w)
               end;
    b ← channels_loop cfg mode_ t channels {| remaining_candidates := limit; remaining_bytes := reclaim_byte_limit cfg; reclaimed := 0 |};
    _ ← on_metrics (metric_reclaimed (Z.of_nat (reclaimed b)));
    _ ← modify (fun w => set_recent (rotate (w_recent w)) w);
    mret (reclaimed b))).
  { intros w. unfold flywheel_maintenance, run_maintenance_once, mbind, M_bind, modify, get_state, on_metrics, modify, mret, M_ret. cbn.
    destruct (mode _) as [mode_ space]. unfold now. cbn. destruct (active_channels _) as [[channels|e] w1]; [|done].
    destruct channels as [|c channels]; destruct (channels_loop _ _ _ _ _ _) as [[]]; done. }
  unfold p_maintenance. do 2 apply leads_modify.
  apply (leads_bind _ _ _ K). intros mode_. apply (leads_bind _ _ _ K). intros t. apply (leads_bind _ _ _ K). intros channels.
  apply (leads_bind _ _ _ K). intros channels'.
  eapply leads_then with (k := fun r => match r with
    | Ok b => Step (on_metrics (metric_reclaimed (Z.of_nat (reclaimed b))) : M (World S) CacheError unit) (fun _ =>
              Step (modify (fun w => set_recent (rotate (w_recent w)) w) : M (World S) CacheError unit) (fun _ => K (Ok (reclaimed b))))
    | Err e => K (Err e) end); [|intros b; do 2 apply leads_modify; apply leads_ret|done].
  apply (channels_leads cfg mode_ t channels' _ (fun r => match r with Ok b => _ | Err e => K (Err e) end)).
Qed.

(** *** Recovery *)

Lemma orphans_leads cfg orphans (K : result CacheError unit -> program) :
  leads (p_orphans cfg orphans (fun e => K (Err e)) (K (Ok tt))) (for_each (reconcile_one cfg) orphans) K.
Proof.
  induction orphans as [|[channel artifact] orphans IH]; cbn [p_orphans for_each]; [apply leads_ret|].
  apply (leads_eq _ (found ← c_meta (ms_artifact channel artifact);
    match found with
    | Some _ => for_each (reconcile_one cfg) orphans
    | None =>
        again ← c_meta (ms_artifact channel artifact);
        match again with
        | Some _ => for_each (reconcile_one cfg) orphans
        | None => _ ← c_local (remove (cache_files cfg) channel artifact); for_each (reconcile_one cfg) orphans
        end
    end)).
  { intros w. unfold reconcile_one, mbind, M_bind. destruct (c_meta _ w) as [[[]|] w1]; [done| |done].
    destruct (c_meta _ w1) as [[[]|] w2]; done. }
  apply leads_bind. intros [m|]; [exact IH|]. lock. apply leads_bind. intros [m|]; [lock; exact IH|].
  apply leads_bind. intros _. lock. exact IH.
Qed.

Lemma reconcile_leads cfg : leads (p_reconcile cfg) (reconcile cfg) (fun r => Done (OReconciled r)).
Proof.
  unfold p_reconcile, reconcile. apply (leads_bind _ _ _ (fun r => Done (OReconciled r))). intros _.
  apply (leads_bind _ _ _ (fun r => Done (OReconciled r))). intros orphans.
  apply (orphans_leads cfg orphans (fun r => Done (OReconciled r))).
Qed.

(** *** The channel service *)

Lemma register_leads id secret protected expiry :
  leads (p_register id secret protected expiry) (register id secret protected expiry) (fun r => Done (ORegistered r)).
Proof.
  unfold p_register, register. apply (leads_bind _ _ _ (fun r => Done (ORegistered r))). intros t.
  apply (leads_bind _ _ _ (fun r => Done (ORegistered r))). intros _. apply leads_gate. intros _.
  apply (leads_ret _ (fun r => Done (ORegistered r))).
Qed.

Lemma lease_leads {A} id credential k (f : ChannelRecord -> M (World S) ChannelError A) K :
  (forall g record, leads (k g record) (f record) K) ->
  leads (p_lease id credential (fun e => K (Err e)) k) (record ← authorize_with_lease id credential; f record) K.
Proof.
  intros H. apply (leads_eq _ (_ ← authorize id credential; _ ← gate id; record ← authorize id credential; f record)).
  { intros w. unfold authorize_with_lease, mbind, M_bind. by destruct (authorize id credential w) as [[] ?]. }
  unfold p_lease. apply leads_bind. intros _. apply leads_gate. intros g. lock.
  intros sh. unfold attempt, mbind, M_bind. cbn. destruct (authorize id credential (sh_world sh)) as [[record|e] w];
    [apply (H g record (set_world w sh))|by exists (set_world w sh)].
Qed.

Lemma patch_leads id credential expiry :
  leads (p_patch id credential expiry) (lease ← authorize_with_lease id credential; update_expiry lease expiry) (fun r => Done (OPatched r)).
Proof.
  apply (lease_leads _ _ _ _ (fun r => Done (OPatched r))). intros _ record.
  apply (leads_bind _ _ _ (fun r => Done (OPatched r))). intros _. apply (leads_ret _ (fun r => Done (OPatched r))).
Qed.

Lemma finish_deletion_leads {A} files id k (m : M (World S) ChannelError A) K :
  leads k m K -> leads (p_finish_deletion files id (fun e => K (Err e)) k) (_ ← finish_deletion files id; m) K.
Proof.
  intros H. apply (leads_eq _ (_ ← ch_store (ms_delete_channel_data id); _ ← ch_local (remove_channel files id);
    _ ← ch_store (ms_finish_channel_deletion id); _ ← forget id; m)).
  { intros w. unfold finish_deletion, mbind, M_bind. destruct (ch_store _ w) as [[] w1]; [|done].
    destruct (ch_local _ w1) as [[] w2]; [|done]. by destruct (ch_store _ w2) as [[] w3]. }
  unfold p_finish_deletion. apply leads_bind. intros _. apply leads_bind. intros _. apply leads_bind. intros _. by apply leads_forget.
Qed.

Lemma delete_leads files id credential :
  leads (p_delete files id credential) (delete_channel files id credential) (fun r => Done (ODeleted r)).
Proof.
  unfold p_delete, delete_channel. destruct (decide (id = DEFAULT)); [apply (leads_throw _ (fun r => Done (ODeleted r)))|].
  apply (lease_leads _ _ _ _ (fun r => Done (ODeleted r))). intros g record.
  apply (leads_bind _ _ _ (fun r => Done (ODeleted r))). intros _. lock. apply leads_gate. intros g'. lock.
  eapply leads_eq; [|apply (finish_deletion_leads _ _ _ (mret tt) (fun r => Done (ODeleted r))), (leads_ret _ (fun r => Done (ODeleted r)))].
  intros w. unfold mbind, M_bind, mret, M_ret. by destruct (finish_deletion files id w) as [[[]|] ?].
Qed.

Lemma resume_each_leads files records :
  leads (p_resume_each files records)
    (for_each (fun record => _ ← gate (channel_id record); finish_deletion files (channel_id record)) records) (fun r => Done (OResumed r)).
Proof.
  induction records as [|record records IH]; cbn [p_resume_each for_each]; [apply (leads_ret _ (fun r => Done (OResumed r)))|].
  apply (leads_eq _ (_ ← gate (channel_id record); _ ← finish_deletion files (channel_id record);
    for_each (fun record => _ ← gate (channel_id record); finish_deletion files (channel_id record)) records)); [done|].
  apply leads_gate. intros g. lock. apply (finish_deletion_leads _ _ _ _ (fun r => Done (OResumed r))). lock. exact IH.
Qed.

Lemma resume_leads files : leads (p_resume files) (resume_deletions files) (fun r => Done (OResumed r)).
Proof. apply (leads_bind _ _ _ (fun r => Done (OResumed r))). intros records. apply resume_each_leads. Qed.

(** Alone, a program answers and acts as its operation. *)
Lemma alone_sequential cfg call sh :
  ((alone (program_of cfg call) sh).1, sh_world (alone (program_of cfg call) sh).2) = sequential cfg call (sh_world sh).
Proof.
  assert (forall E A p (m : M (World S) E A) f, leads p m (fun r => Done (f r)) ->
    ((alone p sh).1, sh_world (alone p sh).2) = let '(r, w) := m (sh_world sh) in (f r, w)) as H.
  { intros E A p m f Hp. destruct (Hp sh) as (sh' & Hw & ->). cbn. rewrite Hw. by destruct (m (sh_world sh)). }
  destruct call; cbn [program_of sequential]; apply H;
    auto using publish_leads, locate_leads, bind_reference_leads, delete_reference_leads, reconcile_leads, maintenance_leads,
      register_leads, patch_leads, delete_leads, resume_leads.
Qed.
End Alone.

(** ** The lock discipline *)

Section Discipline.
Context {UL : UlidLib} {HX : HexLib} {SH : Sha256Lib} {BS : Base64Lib} {ZS : ZstdLib} {DH : DefaultHasherLib}.
Context {S : Type} {MS : MetadataStore S}.

Notation program := (@prog UL S outcome).

Lemma drop_guard_head x held : drop_guard x (x :: held) = held.
Proof. cbn. by rewrite decide_True. Qed.

Lemma attempt_orderly {E B} (m : M (World S) E B) fail k held :
  (forall e, orderly held (fail e)) -> (forall x, orderly held (k x)) -> orderly held (attempt m fail k : program).
Proof. intros Hf Hk [x|e]; auto. Qed.

Lemma release_orderly x (p : program) held : orderly held p -> orderly (x :: held) (Release x p).
Proof. cbn. by rewrite decide_True. Qed.

Lemma fence_orderly channel refused (k : Z -> program) :
  (forall e, orderly [] (refused e)) -> (forall g x, orderly [GRead g] (k x)) -> orderly [] (p_fence channel refused k).
Proof.
  intros Hr Hk g. split; [done|]. apply attempt_orderly; [intros e; by apply release_orderly|].
  intros [record|]; [|by apply release_orderly]. case_bool; [apply Hk|by apply release_orderly].
Qed.

Lemma commit_published_orderly channel artifact staged commit_ expiry r n k held :
  (forall x, orderly held (k x)) -> orderly held (p_commit_published channel artifact staged commit_ expiry r n k : program).
Proof. intros Hk. apply attempt_orderly; [auto|]. intros t. by intros [created|e] ?. Qed.

Lemma commit_staged_orderly cfg channel artifact staged commit_ k :
  (forall held x, orderly held (k x)) -> orderly [] (p_commit_staged cfg channel artifact staged commit_ k : program).
Proof.
  intros Hk. apply fence_orderly; [by intros e r|]. intros g x. split; [by repeat constructor|].
  apply attempt_orderly; [auto|]. intros [r|r]; apply commit_published_orderly; auto.
Qed.

Lemma publish_orderly cfg name request : orderly [] (p_publish cfg name request : program).
Proof.
  apply attempt_orderly; [done|]. intros [staged|stream]; [|done]. apply attempt_orderly; [done|]. intros _.
  destruct (req_target request) as [a|[n|]]; [by apply commit_staged_orderly| |by apply commit_staged_orderly].
  apply attempt_orderly; [done|]. intros t. by apply commit_staged_orderly.
Qed.

Lemma locate_orderly cfg channel artifact : orderly [] (p_locate cfg channel artifact : program).
Proof.
  apply attempt_orderly; [done|]. intros [m|]; [|by intros ?]. intros [file|[[[]| | | | | |]| | | |]]; try done.
  split; [done|]. intros [u|e]; apply release_orderly; done.
Qed.

Lemma orphans_orderly cfg orphans fail (k : program) :
  (forall held e, orderly held (fail e)) -> orderly [] k -> orderly [] (p_orphans cfg orphans fail k).
Proof.
  intros Hf Hk. induction orphans as [|[channel artifact] orphans IH]; [done|]. cbn [p_orphans].
  apply attempt_orderly; [auto|]. intros [m|]; [done|]. split; [done|]. apply attempt_orderly; [auto|].
  intros [m|]; [by apply release_orderly|]. apply attempt_orderly; [auto|]. intros _. by apply release_orderly.
Qed.

Lemma candidates_orderly cfg mode_ t expiry channel candidates b fail k :
  (forall held e, orderly held (fail e)) -> (forall b go_on, orderly [] (k b go_on)) ->
  orderly [] (p_candidates cfg mode_ t expiry channel candidates b fail k : program).
Proof.
  intros Hf Hk. revert b. induction candidates as [|x candidates IH]; intros b; cbn [p_candidates]; [auto|].
  destruct (exhausted b); [auto|]. destruct (bool_decide _ && negb _); [auto|]. split; [done|].
  apply attempt_orderly; [auto|]. intros recent. destruct (bool_decide _ && recent).
  - apply attempt_orderly; [auto|]. intros _ _. by apply release_orderly.
  - unfold p_reclaim_one. apply attempt_orderly; [auto|].
    assert (forall b', orderly [GStripe (stripe_of channel (cand_artifact x))]
      (attempt (c_meta (ms_evict channel (cand_artifact x) (cand_eligible_at x))) fail (fun evicted =>
        Release (GStripe (stripe_of channel (cand_artifact x)))
          (p_candidates cfg mode_ t expiry channel candidates (match evicted with Removed stored => spend_bytes stored b' | Stale => b' end) fail k)))) as He.
    { intros b'. apply attempt_orderly; [auto|]. intros evicted. by apply release_orderly. }
    intros [m|]; [|apply He]. case_bool; [|apply He]. apply attempt_orderly; [auto|]. intros _. apply He.
Qed.

Lemma channels_orderly cfg mode_ t channels b fail k :
  (forall held e, orderly held (fail e)) -> (forall b, orderly [] (k b)) -> orderly [] (p_channels cfg mode_ t channels b fail k : program).
Proof.
  intros Hf Hk. revert b. induction channels as [|channel channels IH]; intros b; cbn [p_channels]; [auto|].
  destruct (exhausted b); [auto|]. apply attempt_orderly; [auto|]. intros expiry. apply attempt_orderly; [auto|]. intros candidates.
  apply candidates_orderly; [auto|]. intros b' []; auto.
Qed.

Lemma lease_orderly id credential refused k :
  (forall e, orderly [] (refused e)) -> (forall g record, orderly [GRead g] (k g record)) ->
  orderly [] (p_lease id credential refused k : program).
Proof.
  intros Hr Hk. apply attempt_orderly; [auto|]. intros _ g. split; [done|].
  apply attempt_orderly; [intros e; by apply release_orderly|auto].
Qed.

Lemma finish_deletion_orderly files id fail k held :
  (forall e, orderly held (fail e)) -> orderly held k -> orderly held (p_finish_deletion files id fail k : program).
Proof. intros Hf Hk. do 3 (apply attempt_orderly; [auto|]; intros _). done. Qed.

Lemma resume_each_orderly files records : orderly [] (p_resume_each files records : program).
Proof.
  induction records as [|record records IH]; [done|]. cbn [p_resume_each]. intros g. split; [done|].
  apply finish_deletion_orderly; [done|]. by apply release_orderly.
Qed.

(** Every call keeps to the discipline. *)
Lemma program_orderly cfg call : orderly (tickets call) (program_of cfg call : program).
Proof.
  destruct call; cbn [tickets program_of].
  - apply publish_orderly.
  - apply locate_orderly.
  - apply fence_orderly; [done|]. intros g x. apply attempt_orderly; [done|]. by intros t r.
  - apply fence_orderly; [done|]. by intros g x r.
  - apply attempt_orderly; [done|]. intros _. apply attempt_orderly; [done|]. intros orphans. by apply orphans_orderly.
  - intros _ _. repeat (apply attempt_orderly; [done|]; intros ?). apply channels_orderly; [done|]. by intros b' r r'.
  - apply attempt_orderly; [done|]. intros t. apply attempt_orderly; [done|]. by intros _ g.
  - apply lease_orderly; [done|]. intros g record. by apply attempt_orderly.
  - unfold p_delete. destruct (decide _); [done|]. apply lease_orderly; [done|]. intros g record. apply attempt_orderly; [done|].
    intros _. apply release_orderly. intros g'. split; [done|]. by apply finish_deletion_orderly.
  - apply attempt_orderly; [done|]. intros records. apply resume_each_orderly.
Qed.

Lemma pool_disciplined cfg calls : Forall disciplined (pool_of cfg calls : list (@Thread UL S outcome)).
Proof.
  unfold pool_of. apply Forall_forall. intros t Ht. apply list_elem_of_fmap in Ht as (call & -> & _).
  apply resume_disciplined, program_orderly.
Qed.

(** Nobody but its ticket's owner has a fresh identifier. *)
Definition fresh_ids (calls : list shard_call) : list ChannelId :=
  omap (fun call => match call with Register id _ _ _ => Some id | _ => None end) calls.

Lemma pool_excluded cfg calls : NoDup (fresh_ids calls) -> excluded (pool_of cfg calls : list (@Thread UL S outcome)).
Proof.
  intros Hnd i j t u Hne Ht Hu x y Hx Hy. unfold pool_of in *. rewrite list_lookup_fmap in Ht, Hu.
  destruct (calls !! i) as [c1|] eqn:E1; [|done]. destruct (calls !! j) as [c2|] eqn:E2; [|done].
  injection Ht as <-. injection Hu as <-. apply kept_subset in Hx, Hy.
  destruct c1 as [| | | | | |id1 s1 p1 e1| | |]; cbn in Hx; try by apply elem_of_nil in Hx.
  destruct c2 as [| | | | | |id2 s2 p2 e2| | |]; cbn in Hy; try by apply elem_of_nil in Hy.
  apply list_elem_of_singleton in Hx, Hy. subst x y. cbn. apply bool_decide_eq_false. intros <-.
  clear -Hnd Hne E1 E2. revert i j Hne E1 E2. induction calls as [|c calls IH]; intros i j Hne E1 E2; [done|].
  assert (forall k s p e, calls !! k = Some (Register id1 s p e) -> id1 ∈ fresh_ids calls) as Hin.
  { intros k s p e Hk. apply list_elem_of_omap. exists (Register id1 s p e). split; [by eapply list_elem_of_lookup_2|done]. }
  destruct i as [|i], j as [|j]; cbn in E1, E2; [done|..].
  - injection E1 as ->. cbn in Hnd. apply NoDup_cons in Hnd as [Hn _]. by eapply Hn, Hin.
  - injection E2 as ->. cbn in Hnd. apply NoDup_cons in Hnd as [Hn _]. by eapply Hn, Hin.
  - eapply (IH _ i j); [lia|done|done]. Unshelve. unfold fresh_ids in *. cbn in Hnd. destruct c; try done. by apply NoDup_cons in Hnd as [_ ?].
Qed.
End Discipline.
