(* ===== verification/Fences.v ===== *)
(** * Deletion and the gates

    While channels are deleted, published into, patched and registered at the same time, in any
    interleaving and with any store or system call failing, a channel that has no record has no
    rows, and a deletion that succeeded is final.  The gates make it so: a writer rechecks the
    record under the shared side and a deletion wipes under the exclusive side, and although a gate
    is forgotten after the deletion and made anew for a later caller, two gates of one channel are
    never in use while it has a record. *)

From S2P Require Import Prelude Externals Domain Metadata MetadataView MetadataStore Space RecentUse Filesystem ArtifactFiles FilesLemmas World Channels ChannelLemmas Cache CacheLemmas CacheConsistency CacheMaintenance Shard Threads Concurrent ConcurrentLemmas.

Section Fences.
Context {UL : UlidLib} {ULL : UlidLaws} {HX : HexLib} {HXL : HexLaws} {SH : Sha256Lib} {BS : Base64Lib}.
Context {ZS : ZstdLib} {ZSL : ZstdLaws} {DH : DefaultHasherLib}.
Context {S : Type} {MS : MetadataStore S} {ML : MetadataLaws S}.
Implicit Types (v : MetaView) (w : World S) (sh : @Shared UL S).

Notation program := (@prog UL S outcome).

(** The view, and the channels that have ever had a record. *)
Record Ghost := Gh { g_view : MetaView; g_born : gset ChannelId }.

Definition registered v (id : ChannelId) : Prop := is_Some (mv_channels v !! id).

Record fence_ok (g : Ghost) sh : Prop := {
  fo_view : viewed (g_view g) (sh_world sh);
  fo_clock n : 0 <= w_clock (sh_world sh) n;
  fo_expiries : expiries_ok (g_view g);
  fo_vacant id : mv_channels (g_view g) !! id = None -> vacant (g_view g) id;
  (** as long as a channel is registered, or not yet, it has one gate *)
  fo_gate id k : registered (g_view g) id \/ id ∉ g_born g -> sh_objects sh !! k = Some id -> sh_gates sh !! id = Some k;
  fo_born id : registered (g_view g) id -> id ∈ g_born g;
  fo_objects id k : sh_gates sh !! id = Some k -> sh_objects sh !! k = Some id
}.

Record fence_rely (i : nat) (held : list guard) (s s' : Ghost * @Shared UL S) : Prop := {
  fr_objects k id : sh_objects s.2 !! k = Some id -> sh_objects s'.2 !! k = Some id;
  fr_born : g_born s.1 ⊆ g_born s'.1;
  fr_read k id : GRead k ∈ held -> sh_objects s.2 !! k = Some id -> registered (g_view s.1) id -> registered (g_view s'.1) id;
  fr_write k id : GWrite k ∈ held -> sh_objects s.2 !! k = Some id -> vacant (g_view s.1) id -> vacant (g_view s'.1) id;
  fr_ticket id : GTicket id ∈ held -> id ∉ g_born s.1 -> id ∉ g_born s'.1;
  fr_retired id : id ∈ g_born s.1 -> mv_channels (g_view s.1) !! id = None -> mv_channels (g_view s'.1) !! id = None
}.

Lemma fence_rely_refl i held s : fence_rely i held s s.
Proof. by split. Qed.

Lemma fence_rely_trans i held s1 s2 s3 : fence_rely i held s1 s2 -> fence_rely i held s2 s3 -> fence_rely i held s1 s3.
Proof.
  intros [A1 A2 A3 A4 A5 A6] [B1 B2 B3 B4 B5 B6]. split.
  - auto.
  - by etrans.
  - intros k id Hk Ho Hr. eapply B3; eauto.
  - intros k id Hk Ho Hr. eapply B4; eauto.
  - auto.
  - intros id Hb Hn. apply B6; [by apply A2|auto].
Qed.

(** What an operation may do to the view under its guards. *)
Record moves (held : list guard) (g : Ghost) sh (g' : Ghost) : Prop := {
  mo_expiries : expiries_ok (g_view g');
  mo_born : g_born g ⊆ g_born g';
  mo_ticket id : id ∈ g_born g' -> id ∈ g_born g \/ GTicket id ∈ held;
  mo_new id : registered (g_view g') id -> registered (g_view g) id \/ (id ∉ g_born g /\ id ∈ g_born g');
  mo_gone id : registered (g_view g) id ->
    registered (g_view g') id \/ (vacant (g_view g') id /\ exists k, GWrite k ∈ held /\ sh_objects sh !! k = Some id);
  mo_rows id : vacant (g_view g) id ->
    vacant (g_view g') id \/ (registered (g_view g) id /\ registered (g_view g') id /\ exists k, GRead k ∈ held /\ sh_objects sh !! k = Some id)
}.

Lemma moves_refl held g sh : fence_ok g sh -> moves held g sh g.
Proof. intros H. split; auto. apply H. Qed.

Lemma moves_ok held g sh g' w : fence_ok g sh -> moves held g sh g' -> viewed (g_view g') w ->
  w_clock w = w_clock (sh_world sh) -> fence_ok g' (set_world w sh).
Proof.
  intros [V C E I1 I2 I3 I4] [M1 M2 M3 M4 M5 M6] Hv Hc. split; cbn; auto.
  - intros n. by rewrite Hc.
  - intros id Hn. destruct (mv_channels (g_view g) !! id) eqn:Ec.
    + destruct (M5 id) as [[x Hx]|[Hvac _]]; [by eexists|congruence|done].
    + destruct (M6 id (I1 id Ec)) as [Hvac|(_ & [x Hx] & _)]; [done|congruence].
  - intros id k [Hr|Hb] Ho; apply I2; auto.
    + destruct (M4 id Hr) as [?|[? _]]; auto.
  - intros id Hr. destruct (M4 id Hr) as [?|[_ ?]]; auto.
Qed.

Lemma moves_guarantee i held g sh g' w : fence_ok g sh -> moves held g sh g' -> viewed (g_view g') w ->
  w_clock w = w_clock (sh_world sh) -> guarantee fence_ok fence_rely i held (g, sh) (g', set_world w sh).
Proof.
  intros Hok Hm Hv Hc. split; [by eapply moves_ok|]. intros j held' Hne Hcomp. destruct Hok as [V C E I1 I2 I3 I4]. destruct Hm as [M1 M2 M3 M4 M5 M6].
  split; cbn; auto.
  - intros k id Hk Ho Hr. destruct (M5 id Hr) as [?|(_ & k' & Hk' & Ho')]; [done|]. exfalso.
    pose proof (I2 id k (or_introl Hr) Ho) as E1. pose proof (I2 id k' (or_introl Hr) Ho') as E2.
    assert (k' = k) as -> by congruence. specialize (Hcomp _ _ Hk' Hk). cbn in Hcomp. by rewrite bool_decide_eq_true_2 in Hcomp.
  - intros k id Hk Ho Hr. destruct (M6 id Hr) as [?|(Hreg & _ & k' & Hk' & Ho')]; [done|]. exfalso.
    pose proof (I2 id k (or_introl Hreg) Ho) as E1. pose proof (I2 id k' (or_introl Hreg) Ho') as E2.
    assert (k' = k) as -> by congruence. specialize (Hcomp _ _ Hk' Hk). cbn in Hcomp. by rewrite bool_decide_eq_true_2 in Hcomp.
  - intros id Ht Hb Hb'. destruct (M3 id Hb') as [?|Ht']; [done|]. specialize (Hcomp _ _ Ht' Ht). cbn in Hcomp.
    by rewrite bool_decide_eq_true_2 in Hcomp.
  - intros id Hb Hn. destruct (mv_channels (g_view g') !! id) eqn:E'; [|done]. destruct (M4 id) as [[x Hx]|[? _]]; [by eexists|congruence|done].
Qed.

(** ** What each transition of the store moves *)

Lemma moves_rows held g sh v : fence_ok g sh -> mv_channels v = mv_channels (g_view g) ->
  (forall id, vacant (g_view g) id -> vacant v id
    \/ (registered (g_view g) id /\ exists k, GRead k ∈ held /\ sh_objects sh !! k = Some id)) ->
  moves held g sh (Gh v (g_born g)).
Proof.
  intros Hok Hc Hrows. assert (forall id, registered v id <-> registered (g_view g) id) as Hreg by (intros id; unfold registered; by rewrite Hc).
  split; cbn; auto.
  - intros c r Hr. rewrite Hc in Hr. by eapply (fo_expiries _ _ Hok).
  - intros id. rewrite Hreg. auto.
  - intros id. rewrite Hreg. auto.
  - intros id Hv. rewrite Hreg. destruct (Hrows id Hv) as [?|[? ?]]; auto.
Qed.

(** Rows of a channel appear under the shared side of its gate. *)
Lemma moves_write held g sh v c k : fence_ok g sh -> GRead k ∈ held -> sh_objects sh !! k = Some c -> registered (g_view g) c ->
  mv_channels v = mv_channels (g_view g) -> (forall id, id ≠ c -> vacant (g_view g) id -> vacant v id) -> moves held g sh (Gh v (g_born g)).
Proof.
  intros Hok Hk Ho Hr Hc Hv. apply moves_rows; [done|done|]. intros id Hid. destruct (decide (id = c)) as [->|]; [right|left; auto].
  split; [done|]. by exists k.
Qed.

(** The record of a registered channel may change. *)
Lemma moves_store held g sh x : fence_ok g sh -> registered (g_view g) (channel_id x) -> 0 <= expiry_seconds x ->
  moves held g sh (Gh (v_store_channel x (g_view g)).2 (g_born g)).
Proof.
  intros Hok Hr Hx. assert (forall id, registered (v_store_channel x (g_view g)).2 id <-> registered (g_view g) id) as Heq.
  { intros id. unfold registered. cbn. destruct (decide (id = channel_id x)) as [->|]; [rewrite lookup_insert_eq|by rewrite lookup_insert_ne].
    split; [done|by eexists]. }
  split; auto.
  - intros c r. cbn. intros [[_ <-]|[_ H]]%lookup_insert_Some; [done|by eapply (fo_expiries _ _ Hok)].
  - intros id Hid%Heq. auto.
  - intros id Hid. left. by apply Heq.
Qed.

(** A record appears for an identifier nobody else has. *)
Lemma moves_create held g sh x : fence_ok g sh -> GTicket (channel_id x) ∈ held -> channel_id x ∉ g_born g -> 0 <= expiry_seconds x ->
  moves held g sh (Gh (v_create_channel x (g_view g)).2 ({[channel_id x]} ∪ g_born g)).
Proof.
  intros Hok Ht Hb Hx. assert (mv_channels (g_view g) !! channel_id x = None) as Hn.
  { destruct (mv_channels (g_view g) !! channel_id x) eqn:E; [|done]. exfalso. apply Hb, (fo_born _ _ Hok). by eexists. }
  unfold v_create_channel. rewrite Hn. split; cbn; auto.
  - intros c r. cbn. intros [[_ <-]|[_ H]]%lookup_insert_Some; [done|by eapply (fo_expiries _ _ Hok)].
  - set_solver.
  - intros id [->%elem_of_singleton|Hin]%elem_of_union; auto.
  - intros id [r Hr]. cbn in Hr. apply lookup_insert_Some in Hr as [[<- _]|[_ Hr]]; [right|left; by eexists].
    split; [done|set_solver].
  - intros id [r Hr]. left. unfold registered. cbn. rewrite lookup_insert_ne; [by eexists|]. intros <-. congruence.
Qed.

Lemma moves_tried held g sh id : fence_ok g sh -> GTicket id ∈ held -> moves held g sh (Gh (g_view g) ({[id]} ∪ g_born g)).
Proof.
  intros Hok Ht. split; cbn; auto; [apply Hok|set_solver|]. intros id' [->%elem_of_singleton|Hin]%elem_of_union; auto.
Qed.

(** The record of an emptied channel goes under the exclusive side. *)
Lemma moves_finish held g sh k id : fence_ok g sh -> GWrite k ∈ held -> sh_objects sh !! k = Some id -> vacant (g_view g) id ->
  moves held g sh (Gh (v_finish_channel_deletion id (g_view g)).2 (g_born g)).
Proof.
  intros Hok Hk Ho Hv. split; cbn; auto.
  - intros c r. cbn. intros [_ H]%lookup_delete_Some. by eapply (fo_expiries _ _ Hok).
  - intros id' [r Hr]. cbn in Hr. apply lookup_delete_Some in Hr as [_ Hr]. left. by eexists.
  - intros id' [r Hr]. destruct (decide (id' = id)) as [->|Hne].
    + right. split; [done|]. by exists k.
    + left. unfold registered. cbn. rewrite lookup_delete_ne by done. by eexists.
Qed.

(** ** Rules *)

Section Rules.
Variables (post : nat -> outcome -> Ghost * @Shared UL S -> Prop) (i : nat).
Hypothesis post_stable : forall o s s', fence_rely i [] s s' -> post i o s -> post i o s'.

(** The rest of an operation, with the guards it keeps. *)
Definition ready (p : program) (held : list guard) (s : Ghost * Shared) : Prop :=
  safe fence_ok fence_rely (fun i p _ s => match p with Done o => post i o s | _ => True end) i p (kept p held) s.

(** The state when an operation gets its next turn. *)
Definition turn (held : list guard) (s s' : Ghost * @Shared UL S) : Prop := fence_rely i held s s' /\ fence_ok s'.1 s'.2.

Lemma ready_done o held s : post i o s -> ready (Done o) held s.
Proof. intros H s' Hr _. split; [by eapply post_stable|done]. Qed.

Lemma same_shape held g sh w : fence_rely i held (g, sh) (g, set_world w sh).
Proof. by split. Qed.

(** A step that leaves the store and the clock alone. *)
Definition quiet {E B} (m : M (World S) E B) : Prop := forall w, w_db (m w).2 = w_db w /\ w_clock (m w).2 = w_clock w.

Lemma ready_quiet {E B} (m : M (World S) E B) k held s : quiet m ->
  (forall s' r, turn held s s' -> ready (k r) held s') -> ready (Step m k) held s.
Proof.
  intros Hq Hk [g sh] Hr Hok. split; [done|]. destruct (Hq (sh_world sh)) as [Hdb Hcl]. cbn [fst snd] in *.
  destruct (m (sh_world sh)) as [r w]. cbn in Hdb, Hcl. exists g.
  assert (guarantee fence_ok fence_rely i held (g, sh) (g, set_world w sh)) as Hg.
  { apply moves_guarantee; auto using moves_refl. unfold viewed. rewrite Hdb. apply Hok. }
  split; [done|]. apply Hk. split; [|apply Hg]. eapply fence_rely_trans; [exact Hr|apply same_shape].
Qed.

(** A step on the store moves the view, or fails and may or may not have moved it.  [up] records
    the identifiers it gives a record. *)
Lemma ready_store {E A} (f : MetadataError -> E) (op : M S MetadataError A) spec (up : gset ChannelId -> gset ChannelId) k held s :
  implements stands_for op spec ->
  (forall s', turn held s s' -> let g := s'.1 in
    moves held g s'.2 (Gh (g_view g) (up (g_born g))) /\ moves held g s'.2 (Gh (spec (g_view g)).2 (up (g_born g)))) ->
  (forall s' s'' x, turn held s s' -> fence_ok s''.1 s''.2 -> (spec (g_view s'.1)).1 = Ok x ->
    s''.1 = Gh (spec (g_view s'.1)).2 (up (g_born s'.1)) -> sh_objects s''.2 = sh_objects s'.2 -> ready (k (Ok x)) held s'') ->
  (forall s'' e, ready (k (Err e)) held s'') ->
  ready (Step (raising f (in_db op)) k) held s.
Proof.
  intros Hop Hm Hk He [g sh] Hr Hok. split; [done|]. specialize (Hm (g, sh) (conj Hr Hok)). destruct Hm as [Hm0 Hm1]. cbn [fst snd] in *.
  pose proof (in_db_spec op spec (g_view g) (sh_world sh) Hop (fo_view _ _ Hok)) as Hs. unfold raising.
  destruct (in_db op (sh_world sh)) as [[x|e] w].
  - destruct Hs as (Hx & Hv & Hw). exists (Gh (spec (g_view g)).2 (up (g_born g))).
    assert (w_clock w = w_clock (sh_world sh)) as Hc by (by rewrite Hw).
    pose proof (moves_guarantee i _ _ _ _ w Hok Hm1 Hv Hc) as Hg. split; [done|].
    by apply (Hk (g, sh) _ _ (conj Hr Hok)); [apply Hg|..].
  - destruct Hs as (Hw & Hs). assert (w_clock w = w_clock (sh_world sh)) as Hc by (by rewrite Hw).
    assert (exists g', moves held g sh g' /\ viewed (g_view g') w) as (g' & Hm & Hv).
    { destruct Hs as [[_ Hv]|[_ [Hv|Hv]]]; eauto. }
    exists g'. split; [by apply moves_guarantee|apply He].
Qed.

(** A read of the store. *)
Lemma ready_read_store {E A} (f : MetadataError -> E) (op : M S MetadataError A) (answer : MetaView -> A) k held s :
  implements stands_for op (fun v => (Ok (answer v), v)) ->
  (forall s', turn held s s' -> ready (k (Ok (answer (g_view s'.1)))) held s') ->
  (forall s'' e, ready (k (Err e)) held s'') ->
  ready (Step (raising f (in_db op)) k) held s.
Proof.
  intros Hop Hk He. apply (ready_store _ _ _ id _ _ _ Hop); [|clear He|done].
  - intros [g sh] [_ Hok]. cbn. destruct g. split; by apply moves_refl.
  - intros [g sh] [g' sh'] x [Hr Hok] Hok' [= <-] Hg Ho. destruct g as [v born]. cbn in *. subst g'. apply (Hk (Gh v born, sh')). split; [|done]. eapply fence_rely_trans; [exact Hr|]. by split; cbn; rewrite ?Ho.
Qed.

Lemma ready_take id k held s : (forall s' n, turn held s s' -> sh_objects s'.2 !! n = Some id -> ready (k n) held s') ->
  ready (TakeGate id k) held s.
Proof.
  intros Hk [g sh] Hr Hok. split; [done|]. cbn [fst snd] in *. pose proof Hok as [V C E I1 I2 I3 I4].
  assert (forall n sh', take_gate id sh = (n, sh') -> fence_ok g sh' /\ sh_objects sh' !! n = Some id
    /\ forall j held', fence_rely j held' (g, sh) (g, sh')) as Hg.
  { intros n sh'. unfold take_gate. destruct (sh_gates sh !! id) as [m|] eqn:Eg; intros [= <- <-].
    - split; [by split|]. split; [by apply I4|by split].
    - split; [split; cbn; auto|].
      + intros id' k' Hid Hk'. apply lookup_snoc_Some in Hk' as [[Hlt Hk']|[-> ->]]; [|by rewrite lookup_insert_eq].
        rewrite lookup_insert_ne; [by apply I2|]. intros <-. apply I2 in Hk'; [congruence|done].
      + intros id' k' [[<- <-]|[_ Hk']]%lookup_insert_Some; [apply lookup_snoc_Some; auto|].
        apply lookup_snoc_Some. left. apply I4 in Hk'. split; [by eapply lookup_lt_Some|done].
      + split; [apply lookup_snoc_Some; auto|]. intros j held'. split; cbn; auto. intros k' id' Ho.
        apply lookup_snoc_Some. left. split; [by eapply lookup_lt_Some|done]. }
  destruct (take_gate id sh) as [n sh']. destruct (Hg n sh' eq_refl) as (Hok' & Hn & Hj). exists g. split; [by split|].
  apply Hk; [|done]. split; [|done]. eapply fence_rely_trans; [exact Hr|apply Hj].
Qed.

(** A gate is forgotten once its channel has no record any more. *)
Lemma ready_drop id k held s : id ∈ g_born s.1 -> mv_channels (g_view s.1) !! id = None ->
  (forall s', turn held s s' -> ready k held s') -> ready (DropGate id k) held s.
Proof.
  intros Hb Hn Hk [g sh] Hr Hok. split; [done|]. cbn [fst snd] in *. pose proof (fr_born _ _ _ _ Hr _ Hb) as Hb'. pose proof (fr_retired _ _ _ _ Hr _ Hb Hn) as Hn'.
  cbn in Hb', Hn'. pose proof Hok as [V C E I1 I2 I3 I4]. assert (fence_ok g (drop_gate id sh)) as Hok'.
  { split; cbn; auto.
    - intros id' k' Hid Ho. rewrite lookup_delete_ne; [by apply I2|]. intros <-. destruct Hid as [[r Hr']|]; [congruence|done].
    - intros id' k' [_ Ho]%lookup_delete_Some. by apply I4. }
  exists g. split; [split; [done|by split]|]. apply Hk. split; [|done]. eapply fence_rely_trans; [exact Hr|by split].
Qed.

Lemma ready_read_gate n k held s : (forall s', turn held s s' -> ready k (GRead n :: held) s') -> ready (ReadGate n k) held s.
Proof. intros Hk s' Hr Hok. split; [done|]. by apply Hk. Qed.
Lemma ready_write_gate n k held s : (forall s', turn held s s' -> ready k (GWrite n :: held) s') -> ready (WriteGate n k) held s.
Proof. intros Hk s' Hr Hok. split; [done|]. by apply Hk. Qed.
Lemma ready_lock n k held s : (forall s', turn held s s' -> ready k (GStripe n :: held) s') -> ready (LockStripe n k) held s.
Proof. intros Hk s' Hr Hok. split; [done|]. by apply Hk. Qed.
Lemma ready_release x k held s : (forall s', turn (x :: held) s s' -> ready k held s') -> ready (Release x k) (x :: held) s.
Proof. intros Hk s' Hr Hok. split; [done|]. cbn. rewrite decide_True by done. by apply Hk. Qed.
End Rules.
End Fences.
