(* ===== verification/FencedCalls.v ===== *)
(** * Every operation keeps the fences

    Each program of [Concurrent] but maintenance is ready, from any state the invariant allows, to
    take its steps under the rely and guarantee of [Fences]. *)

From S2P Require Import Prelude Externals Domain Metadata MetadataView MetadataStore Space RecentUse Filesystem ArtifactFiles FilesLemmas World Channels ChannelLemmas Cache CacheLemmas CacheConsistency CacheMaintenance Shard Threads Concurrent ConcurrentLemmas Fences.

Section Calls.
Context {UL : UlidLib} {ULL : UlidLaws} {HX : HexLib} {HXL : HexLaws} {SH : Sha256Lib} {BS : Base64Lib}.
Context {ZS : ZstdLib} {ZSL : ZstdLaws} {DH : DefaultHasherLib}.
Context {S : Type} {MS : MetadataStore S} {ML : MetadataLaws S}.
Variables (post : nat -> outcome -> Ghost * @Shared UL S -> Prop) (i : nat).
Hypothesis post_stable : forall o s s', fence_rely i [] s s' -> post i o s -> post i o s'.
Implicit Types (v : MetaView) (w : World S) (s : Ghost * @Shared UL S).

Notation program := (@prog UL S outcome).
Notation ready := (ready post i).
Notation turn := (turn i).

(** ** Steps that leave the store alone *)

Lemma quiet_local {A} (m : M (Local SpaceLedger) LocalError A) : quiet (c_local m : M (World S) CacheError A).
Proof. intros w. unfold c_local, raising, in_local, zoom. by destruct (m (get_local w)) as [[] l]. Qed.
Lemma quiet_ch_local {A} (m : M (Local SpaceLedger) LocalError A) : quiet (ch_local m : M (World S) ChannelError A).
Proof. intros w. unfold ch_local, raising, in_local, zoom. by destruct (m (get_local w)) as [[] l]. Qed.
Lemma quiet_settle f : quiet (settle f : M (World S) CacheError unit).
Proof. done. Qed.
Lemma quiet_metrics {E} f : quiet (on_metrics f : M (World S) E unit).
Proof. done. Qed.
Lemma quiet_now {E} : quiet (now : M (World S) E Z).
Proof. done. Qed.

(** ** What a turn leaves in place *)

(** The gate at [n] is the channel's, which has a record. *)
Definition admitted (n : nat) (id : ChannelId) s : Prop := sh_objects s.2 !! n = Some id /\ registered (g_view s.1) id.

Lemma admitted_turn n id held s s' : GRead n ∈ held -> turn held s s' -> admitted n id s -> admitted n id s'.
Proof. intros Hin [Hr _] [Ho Hreg]. split; [by eapply fr_objects|by eapply fr_read]. Qed.

Lemma born_turn id held s s' : turn held s s' -> id ∈ g_born s.1 -> id ∈ g_born s'.1.
Proof. intros [Hr _]. apply (fr_born _ _ _ _ Hr). Qed.

Lemma objects_turn n id held s s' : turn held s s' -> sh_objects s.2 !! n = Some id -> sh_objects s'.2 !! n = Some id.
Proof. intros [Hr _]. by eapply fr_objects. Qed.

Lemma ready_now {E} fail (k : Z -> program) held s :
  (forall s' t, turn held s s' -> 0 <= t -> ready (k t) held s') -> ready (attempt (now : M (World S) E Z) fail k) held s.
Proof.
  intros Hk [g sh] Hr Hok. split; [done|]. cbn. exists g. assert (fence_ok g (set_world (set_ticks (Datatypes.S (w_ticks (sh_world sh))) (sh_world sh)) sh)) as Hok'.
  { destruct Hok. by split. }
  split; [split; [done|by split]|]. apply Hk; [|apply (fo_clock _ _ Hok)]. split; [|done]. eapply fence_rely_trans; [exact Hr|by split].
Qed.

(** ** The fence and the lease *)

Lemma fence_ready channel refused k s :
  (forall e s', ready (refused e) [] s') ->
  (forall n expiry s', admitted n channel s' -> 0 <= expiry -> ready (k expiry) [GRead n] s') ->
  ready (p_fence channel refused k) [] s.
Proof.
  intros Hr Hk. apply ready_take. intros s1 n _ Ho. apply ready_read_gate. intros s2 H2.
  assert (forall e s', ready (Release (GRead n) (refused e)) [GRead n] s') as He by (intros e s'; apply ready_release; auto).
  apply (ready_read_store _ _ _ _ (fun v => mv_channels v !! channel)); [apply channel_law| |auto].
  intros s3 H3. destruct (mv_channels (g_view s3.1) !! channel) as [record|] eqn:Ec; [|auto]. case_bool_decide; [|auto].
  apply Hk; [|by eapply (fo_expiries _ _ (proj2 H3))]. split; [|by eexists].
  eapply objects_turn; [exact H3|]. by eapply objects_turn.
Qed.

(** Authorization reads the record. *)
Lemma ready_authorize id credential fail k held s :
  (forall e s', ready (fail e) held s') ->
  (forall s' record, turn held s s' -> mv_channels (g_view s'.1) !! id = Some record -> channel_id record = id ->
    state record = Active -> ready (k record) held s') ->
  ready (attempt (authorize id credential) fail k) held s.
Proof.
  intros He Hk [g sh] Hr Hok. split; [done|]. cbn [fst snd] in *. destruct (authorize id credential (sh_world sh)) as [[record|e] w] eqn:E.
  - apply (authorize_ok (g_view g)) in E as (Hv & Hw & Hl & Hid & Hst & _); [|apply Hok]. exists g.
    assert (guarantee fence_ok fence_rely i held (g, sh) (g, set_world w sh)) as Hg.
    { apply moves_guarantee; [done|by apply moves_refl|done|by rewrite Hw]. }
    split; [done|]. apply Hk; [|done..]. split; [|apply Hg]. eapply fence_rely_trans; [exact Hr|by split].
  - apply (authorize_err (g_view g)) in E as (Hv & Hw); [|apply Hok]. exists g.
    split; [|apply He]. apply moves_guarantee; [done|by apply moves_refl|done|by rewrite Hw].
Qed.

Lemma lease_ready id credential refused k s :
  (forall e s', ready (refused e) [] s') ->
  (forall n record s', fence_ok s'.1 s'.2 -> admitted n id s' -> mv_channels (g_view s'.1) !! id = Some record -> channel_id record = id ->
    ready (k n record) [GRead n] s') ->
  ready (p_lease id credential refused k) [] s.
Proof.
  intros Hr Hk. apply ready_authorize; [done|]. intros s1 r1 _ _ _ _. apply ready_take. intros s2 n _ Ho.
  apply ready_read_gate. intros s3 H3. apply ready_authorize; [intros e s'; apply ready_release; auto|].
  intros s4 record H4 Hl Hid _. apply Hk; [apply H4| |done|done]. split; [|by eexists].
  eapply objects_turn; [exact H4|]. by eapply objects_turn.
Qed.

(** ** The cache service *)

Lemma commit_published_ready n channel artifact staged commit_ expiry r len k held s :
  GRead n ∈ held -> admitted n channel s -> 0 <= expiry -> (forall x s', ready (k x) held s') ->
  ready (p_commit_published channel artifact staged commit_ expiry r len k) held s.
Proof.
  intros Hin Ha He Hk. apply ready_now. intros s1 t H1 Ht. apply (admitted_turn _ _ _ _ _ Hin H1) in Ha.
  eapply (ready_store _ _ _ _ (v_commit_publication channel artifact _ _) id); [by apply commit_publication_law, deadline_u64|..].
  - intros s2 H2. apply (admitted_turn _ _ _ _ _ Hin H2) in Ha as [Ho Hreg]. destruct s2 as [[v born] sh2]. split; [by apply moves_refl, H2|].
    eapply moves_write; [apply H2|done..|apply commit_channels|]. intros id. apply commit_vacant.
  - intros s2 s3 created _ _ _ _ _. apply ready_quiet; [apply quiet_settle|]. auto.
  - intros s3 e. apply ready_quiet; [apply quiet_settle|]. auto.
Qed.

Lemma commit_staged_ready cfg channel artifact staged commit_ k s :
  (forall x held s', ready (k x) held s') -> ready (p_commit_staged cfg channel artifact staged commit_ k) [] s.
Proof.
  intros Hk. apply fence_ready; [intros e s'; apply ready_quiet; [apply quiet_settle|]; auto|].
  intros n expiry s1 Ha He. apply ready_lock. intros s2 H2. apply ready_quiet; [apply quiet_local|].
  assert (GRead n ∈ [GRead n]) as Hin by (by left). assert (GRead n ∈ [GStripe (stripe_of channel artifact); GRead n]) as Hin' by (by right; left).
  intros s3 r H3. apply (admitted_turn _ _ _ _ _ Hin H2), (admitted_turn _ _ _ _ _ Hin' H3) in Ha.
  destruct r as [[r|r]|e]; [by eapply commit_published_ready..|auto].
Qed.

Lemma publish_ready cfg name request s : (forall r s', post i (OPublished r) s') -> ready (p_publish cfg name request) [] s.
Proof.
  intros Hp. assert (forall r held s', ready (Done (OPublished r)) held s') as Hd by (intros; by apply ready_done).
  apply ready_quiet; [apply quiet_local|]. intros s1 [[staged|stream]|e] _; auto.
  apply ready_quiet; [apply quiet_metrics|]. intros s2 [_|e] _; auto. destruct (req_target request) as [a|[reference|]].
  - by apply commit_staged_ready.
  - apply ready_now. intros s3 t _ _. by apply commit_staged_ready.
  - by apply commit_staged_ready.
Qed.

Lemma remove_artifact_ready channel artifact k held s : (forall x s', ready (k x) held s') ->
  ready (Step (c_meta (ms_remove_artifact channel artifact)) k) held s.
Proof.
  intros Hk. eapply (ready_store _ _ _ _ _ id _ _ _ (remove_artifact_law channel artifact)); [|auto..].
  intros [[v born] sh] [_ Hok]. split; [by apply moves_refl|]. apply moves_rows; [done|apply remove_artifact_channels|].
  intros id Hv. left. by apply remove_artifact_vacant.
Qed.

Lemma locate_ready cfg channel artifact s : (forall r s', post i (OLocated r) s') -> ready (p_locate cfg channel artifact) [] s.
Proof.
  intros Hp. assert (forall r held s', ready (Done (OLocated r)) held s') as Hd by (intros; by apply ready_done).
  assert (forall s', ready (Step (on_metrics metric_miss : M (World S) CacheError unit) (fun _ => Done (OLocated (Ok None)))) [] s') as Hmiss.
  { intros s'. apply ready_quiet; [apply quiet_metrics|]. auto. }
  apply (ready_read_store _ _ _ _ (fun v => mv_artifacts v !! (channel, artifact))); [apply artifact_law| |auto].
  intros s1 _. destruct (mv_artifacts (g_view s1.1) !! (channel, artifact)) as [m|]; [|apply Hmiss].
  apply ready_quiet; [apply quiet_local|]. intros s2 [file|[[[]| | | | | |]| | | |]] _; auto.
  - apply ready_quiet; [done|]. intros s3 _ _. apply ready_quiet; [apply quiet_metrics|]. auto.
  - apply ready_lock. intros s3 _. apply remove_artifact_ready. intros [u|e] s4; apply ready_release; intros s5 _; auto.
Qed.

Lemma bind_ready channel reference artifact e l d s : (forall r s', post i (OReference r) s') ->
  ready (p_bind_reference channel reference artifact e l d) [] s.
Proof.
  intros Hp. assert (forall r held s', ready (Done (OReference r)) held s') as Hd by (intros; by apply ready_done).
  apply fence_ready; [auto|]. intros n expiry s1 Ha _. apply ready_now. intros s2 t H2 _.
  assert (GRead n ∈ [GRead n]) as Hin by (by left). apply (admitted_turn _ _ _ _ _ Hin H2) in Ha.
  eapply (ready_store _ _ _ _ _ id _ _ _ (bind_reference_law channel reference _ d)); [|auto..].
  intros s3 H3. apply (admitted_turn _ _ _ _ _ Hin H3) in Ha as [Ho Hreg]. destruct s3 as [[v born] sh3]. split; [by apply moves_refl, H3|].
  eapply moves_write; [apply H3|done..|]. intros id Hne. by apply (bind_vacant channel (Some (reference, _)) v).
Qed.

Lemma unbind_ready channel reference s : (forall r s', post i (OReference r) s') -> ready (p_delete_reference channel reference) [] s.
Proof.
  intros Hp. assert (forall r held s', ready (Done (OReference r)) held s') as Hd by (intros; by apply ready_done).
  apply fence_ready; [auto|]. intros n expiry s1 Ha _.
  eapply (ready_store _ _ _ _ _ id _ _ _ (delete_reference_law channel reference)); [|auto..].
  intros [[v born] sh] [_ Hok]. split; [by apply moves_refl|]. apply moves_rows; [done|done|]. intros id Hv. left. by apply delete_reference_vacant.
Qed.

Lemma orphans_ready cfg orphans fail k s : (forall e held s', ready (fail e) held s') -> (forall s', ready k [] s') ->
  ready (p_orphans cfg orphans fail k) [] s.
Proof.
  intros Hf Hk. revert s. induction orphans as [|[channel artifact] orphans IH]; intros s; [auto|]. cbn [p_orphans].
  apply (ready_read_store _ _ _ _ (fun v => mv_artifacts v !! (channel, artifact))); [apply artifact_law| |auto].
  intros s1 _. destruct (mv_artifacts (g_view s1.1) !! (channel, artifact)); [done|]. apply ready_lock. intros s2 _.
  apply (ready_read_store _ _ _ _ (fun v => mv_artifacts v !! (channel, artifact))); [apply artifact_law| |auto].
  intros s3 _. destruct (mv_artifacts (g_view s3.1) !! (channel, artifact)); [apply ready_release; auto|].
  apply ready_quiet; [apply quiet_local|]. intros s4 [u|e] _; [apply ready_release|]; auto.
Qed.

Lemma reconcile_ready cfg s : (forall r s', post i (OReconciled r) s') -> ready (p_reconcile cfg) [] s.
Proof.
  intros Hp. assert (forall r held s', ready (Done (OReconciled r)) held s') as Hd by (intros; by apply ready_done).
  apply ready_quiet; [apply quiet_local|]. intros s1 [_|e] _; [|auto]. apply ready_quiet; [apply quiet_local|].
  intros s2 [orphans|e] _; [|auto]. by apply orphans_ready.
Qed.

(** ** The channel service *)

Lemma register_ready id secret protected expiry s : (forall r s', post i (ORegistered r) s') -> 0 <= expiry -> id ∉ g_born s.1 ->
  ready (p_register id secret protected expiry) [GTicket id] s.
Proof.
  intros Hp He Hb. assert (forall r held s', ready (Done (ORegistered r)) held s') as Hd by (intros; by apply ready_done).
  assert (GTicket id ∈ [GTicket id]) as Hin by (by left).
  apply ready_now. intros s1 t H1 _. apply (fr_ticket _ _ _ _ (proj1 H1) _ Hin) in Hb.
  eapply (ready_store _ _ _ _ _ (fun born => {[id]} ∪ born) _ _ _ (create_channel_law _)); [| |auto].
  - intros s2 H2. apply (fr_ticket _ _ _ _ (proj1 H2) _ Hin) in Hb. split; [apply moves_tried; [apply H2|done]|].
    by apply (moves_create [GTicket id] s2.1 s2.2 {| channel_id := id |}); [apply H2|..].
  - intros s2 s3 u _ _ _ _ _. apply ready_take. auto.
Qed.

(** The record a lease read may be stored again. *)
Lemma store_ready n id record k s : channel_id record = id -> 0 <= expiry_seconds record -> admitted n id s ->
  (forall s', admitted n id s' -> ready (k (Ok tt)) [GRead n] s') -> (forall e s', ready (k (Err e)) [GRead n] s') ->
  ready (Step (ch_store (ms_store_channel record)) k) [GRead n] s.
Proof.
  intros Hid He Ha Hk Hf. assert (GRead n ∈ [GRead n]) as Hin by (by left).
  eapply (ready_store _ _ _ _ _ Datatypes.id _ _ _ (store_channel_law record)); [| |auto]; cbn [Datatypes.id].
  - intros s1 H1. apply (admitted_turn _ _ _ _ _ Hin H1) in Ha as [Ho Hreg]. destruct s1 as [[v born] sh1]. split; [by apply moves_refl, H1|].
    apply (moves_store [GRead n] (Gh v born) sh1); [apply H1|by rewrite Hid|done].
  - intros s1 s2 [] H1 _ _ Hg Ho. apply (admitted_turn _ _ _ _ _ Hin H1) in Ha as [Ho1 Hreg]. apply Hk. split; [by rewrite Ho|].
    rewrite Hg. unfold registered. cbn. rewrite Hid, lookup_insert_eq. by eexists.
Qed.

Lemma patch_ready id credential expiry s : (forall r s', post i (OPatched r) s') -> 0 <= expiry -> ready (p_patch id credential expiry) [] s.
Proof.
  intros Hp He. assert (forall r held s', ready (Done (OPatched r)) held s') as Hd by (intros; by apply ready_done).
  apply lease_ready; [auto|]. intros n record s1 Hok Ha Hl Hid.
  apply (store_ready n id); [done|done|done|auto..].
Qed.

(** Under the exclusive side, a channel is emptied before its record goes. *)
Lemma finish_deletion_ready n files id fail k s :
  sh_objects s.2 !! n = Some id -> id ∈ g_born s.1 -> (forall e s', ready (fail e) [GWrite n] s') ->
  (forall s', g_born s.1 ⊆ g_born s'.1 -> mv_channels (g_view s'.1) !! id = None -> ready k [GWrite n] s') ->
  ready (p_finish_deletion files id fail k) [GWrite n] s.
Proof.
  intros Ho Hb Hf Hk. assert (GWrite n ∈ [GWrite n]) as Hin by (by left).
  eapply (ready_store _ _ _ _ _ Datatypes.id _ _ _ (delete_channel_data_law id)); [| |auto].
  { intros [[v born] sh] [_ Hok]. split; [by apply moves_refl|]. apply moves_rows; [done|done|]. intros c Hv. left. by apply wipe_vacant. }
  intros s0 s1 [] H0 _ _ Hg Hobj. pose proof (objects_turn _ _ _ _ _ H0 Ho) as Ho1. pose proof (fr_born _ _ _ _ (proj1 H0)) as Hb1.
  assert (vacant (g_view s1.1) id) as Hv1 by (rewrite Hg; apply wiped_vacant).
  rewrite <- Hobj in Ho1. assert (g_born s.1 ⊆ g_born s1.1) as Hb1' by (by rewrite Hg). clear Hg Hobj Hb1 H0.
  apply ready_quiet; [apply quiet_ch_local|]. intros s2 [_|e] H2; [|auto].
  pose proof (fr_write _ _ _ _ (proj1 H2) _ _ Hin Ho1 Hv1) as Hv2.
  pose proof (objects_turn _ _ _ _ _ H2 Ho1) as Ho2. pose proof (fr_born _ _ _ _ (proj1 H2)) as Hb2.
  eapply (ready_store _ _ _ _ _ Datatypes.id _ _ _ (finish_channel_deletion_law id)); [| |auto].
  - intros s3 H3. pose proof (fr_write _ _ _ _ (proj1 H3) _ _ Hin Ho2 Hv2) as Hv3. pose proof (objects_turn _ _ _ _ _ H3 Ho2) as Ho3.
    destruct s3 as [[v born] sh]. split; [by apply moves_refl, H3|]. by apply (moves_finish _ (Gh v born) sh n); [apply H3|..].
  - intros s3 s4 [] H3 _ _ Hg _. pose proof (fr_born _ _ _ _ (proj1 H3)) as Hb3.
    assert (g_born s.1 ⊆ g_born s4.1 /\ mv_channels (g_view s4.1) !! id = None) as [Hb4 Hn4].
    { rewrite Hg. cbn. rewrite lookup_delete_eq. split; [set_solver|done]. }
    apply ready_drop; [set_solver|done|]. intros s5 H5. pose proof (fr_born _ _ _ _ (proj1 H5)) as Hb5.
    apply Hk; [set_solver|]. eapply fr_retired; [apply H5|set_solver|done].
Qed.

Lemma delete_ready files id credential s :
  (forall e s', post i (ODeleted (Err e)) s') ->
  (forall s', id ∈ g_born s'.1 -> mv_channels (g_view s'.1) !! id = None -> post i (ODeleted (Ok tt)) s') ->
  ready (p_delete files id credential) [] s.
Proof.
  intros Hp Hd. assert (forall e held s', ready (Done (ODeleted (Err e))) held s') as He by (intros; by apply ready_done).
  unfold p_delete. destruct (decide _); [auto|]. apply lease_ready; [auto|]. intros n1 record s1 Hok1 Ha Hl Hid.
  apply (store_ready n1 id); [done|exact (fo_expiries _ _ Hok1 _ _ Hl)|done| |auto].
  intros s2 Ha2. apply ready_release. intros s3 H3. assert (GRead n1 ∈ [GRead n1]) as Hin by (by left).
  destruct (admitted_turn _ _ _ _ _ Hin H3 Ha2) as [Ho3 Hr3].
  pose proof (fo_born _ _ (proj2 H3) _ Hr3) as Hb3. apply ready_take. intros s4 n4 H4 Ho4. apply ready_write_gate. intros s5 H5.
  assert (id ∈ g_born s5.1) as Hb5 by (eapply born_turn; [exact H5|]; by eapply born_turn).
  apply finish_deletion_ready; [by eapply objects_turn|done|auto|].
  intros s6 Hb6 Hn6. apply ready_done; auto.
Qed.

Lemma resume_each_ready files records s : (forall r s', post i (OResumed r) s') -> Forall (fun r => channel_id r ∈ g_born s.1) records ->
  ready (p_resume_each files records) [] s.
Proof.
  intros Hp. assert (forall r held s', ready (Done (OResumed r)) held s') as He by (intros; by apply ready_done).
  revert s. induction records as [|record records IH]; intros s Hb; cbn [p_resume_each]; [auto|]. apply ready_take. intros s1 n1 H1 Ho1.
  apply ready_write_gate. intros s2 H2. assert (g_born s.1 ⊆ g_born s2.1) as Hsub.
  { intros id Hid. eapply born_turn; [exact H2|]. by eapply born_turn. }
  apply Forall_cons in Hb as [Hb0 Hb]. apply finish_deletion_ready; [by eapply objects_turn|auto|auto|].
  intros s3 Hb3 _. apply ready_release. intros s4 H4. apply IH. eapply Forall_impl; [exact Hb|]. intros r Hr.
  eapply born_turn; [exact H4|]. auto.
Qed.

Lemma resume_ready files s : (forall r s', post i (OResumed r) s') -> ready (p_resume files) [] s.
Proof.
  intros Hp. apply (ready_read_store _ _ _ _ registry); [apply channels_law| |intros; by apply ready_done].
  intros s1 [_ Hok]. apply resume_each_ready; [done|]. apply Forall_forall. intros r Hr. apply list_elem_of_In, filter_In in Hr as [Hr _].
  apply (fo_born _ _ Hok). apply list_elem_of_In in Hr. unfold registry in Hr. rewrite merge_sort_Permutation in Hr.
  apply list_elem_of_fmap in Hr as ([c r'] & -> & Hr). apply elem_of_map_to_list in Hr. cbn.
  unfold registered. by rewrite (view_channel_id _ _ _ _ (fo_view _ _ Hok) Hr).
Qed.
End Calls.
