(* ===== verification/Stripes.v ===== *)
(** * Rows, bodies and the stripes

    While artifacts are published, located, evicted and recovered at the same time, an artifact row
    never loses its body, the window of an eviction apart: both are changed under the stripe of the
    artifact only.  This file holds the invariant, what an operation may rely on under a stripe and
    what each kind of step has to see to. *)

From S2P Require Import Prelude Externals Domain Metadata MetadataView MetadataStore Space RecentUse Filesystem ArtifactFiles FilesLemmas World Channels ChannelLemmas Cache CacheLemmas CacheConsistency CacheMaintenance Shard Threads Concurrent ConcurrentLemmas.

(** ** What the file operations do to the digest paths, in every outcome *)

Section Files.
Context {UL : UlidLib} {ULL : UlidLaws} {HX : HexLib} {HXL : HexLaws} {SH : Sha256Lib} {ZS : ZstdLib} {ZSL : ZstdLaws}.
Context {R : Type} {RS : Reserver R} {RL : ReserverLaws R}.
Implicit Types (files : ArtifactFiles).

(** A reservation guards a temporary file at most. *)
Definition tidy files (r : Reservation) : Prop :=
  match reservation_state r with Temporary p => exists c n, p = temporary_path files c n | _ => True end.

Lemma delete_temporary files (c : ChannelId) (n : bytes) (t0 t : tree) :
  same_artifacts files t0 t -> same_artifacts files t0 (delete (temporary_path files c n) t).
Proof. intros H c' a'. rewrite lookup_delete_ne; [apply H|apply not_eq_sym, artifact_not_temporary]. Qed.

Lemma discard_tidy files r (w : Local R) : tidy files r -> same_artifacts files (nodes (l_fs w)) (nodes (l_fs (discard r w))).
Proof.
  intros Ht. apply (discard_tree (same_artifacts files (nodes (l_fs w)))); [|done]. unfold tidy in Ht. intros p t Hp.
  rewrite Hp in Ht. destruct Ht as (c & n & ->). apply delete_temporary.
Qed.

Lemma stage_reserved_path files (c : ChannelId) (n : bytes) stream max_bytes d e (s : Staging R) p dg len stored s' :
  stage_reserved files c n stream max_bytes d e s = (Ok (p, dg, len, stored), s') -> p = temporary_path files c n.
Proof.
  unfold stage_reserved. do 3 (intros (? & ? & _ & H)%bind_ok; revert H). intros ([[wr hashed] l] & ? & _ & H)%bind_ok.
  revert H. do 5 (intros (? & ? & _ & H)%bind_ok; revert H). by intros [= <- _ _ _ _].
Qed.

Lemma stage_tidy files (c : ChannelId) (n : bytes) stream max_bytes cl d e (w : Local R) :
  let '(r, w') := stage files c n stream max_bytes cl d e w in
  same_artifacts files (nodes (l_fs w)) (nodes (l_fs w'))
  /\ forall staged, r = Ok (Ready staged) -> staged_path staged = temporary_path files c n /\ tidy files (staged_reservation staged).
Proof.
  unfold stage. set (initial := match cl with Some _ => _ | None => _ end).
  pose proof (reserve_fs initial (hold Reservation_new w)) as Hfs.
  assert (reservation_state (s_res (reserve initial (hold Reservation_new w)).2) = Vacant) as Hvac.
  { unfold reserve. case_bool; [done|]. by destruct (try_reserve _ _) as [[] ?]. }
  destruct (reserve initial (hold Reservation_new w)) as [[[]|] s]; cbn in Hfs, Hvac; [|cbn; by rewrite Hfs..].
  pose proof (stage_reserved_tree _ files c n stream max_bytes d e (same_artifacts_closed files c n (nodes (l_fs w))) s) as H.
  cbn in H. rewrite Hfs in H. specialize (H ltac:(done)).
  assert (guards (temporary_path files c n) s) as Hg by (intros x Hx; congruence).
  apply (stage_reserved_guards files c n stream max_bytes d e) in Hg.
  assert (forall s' : Staging R, guards (temporary_path files c n) s' -> tidy files (s_res s')) as Htidy.
  { intros s' Hs'. unfold tidy. destruct (reservation_state (s_res s')) as [|p|] eqn:Ep; try done. exists c, n. by apply Hs'. }
  destruct (stage_reserved _ _ _ _ _ _ _ s) as [[[[[q dg] len] stored]|er] s'] eqn:E.
  - split; [done|]. intros staged [= <-]. cbn. apply stage_reserved_path in E. auto.
  - split; [|done]. intros c' a'. rewrite (discard_tidy files (s_res s') (let_go s')) by auto. apply H.
Qed.

(** A publication that succeeds leaves a body, unless a directory was there. *)
Lemma publish_reserved_staged files (c : ChannelId) (a : ArtifactId) (p : path) dg d (s : Staging R) created s' :
  publish_reserved files c a p dg d s = (Ok created, s') -> exists content, nodes (s_fs s) !! p = Some (File content).
Proof.
  unfold publish_reserved. case_decide as Hdg; [|done]. set (q := artifact_path files c a).
  intros (u1 & s1 & H1 & H)%bind_ok. apply bind_ok in H as (present & s2 & H2 & H).
  apply fs_op_ok in H1 as (H1 & _), H2 as (H2 & _).
  assert (forall content, nodes (s_fs s2) !! p = Some (File content) -> nodes (s_fs s) !! p = Some (File content)) as Hback.
  { intros content. cbn in H1, H2. injection H2 as _ <-. destruct (existsb _ _); [done|]. injection H1 as _ <-. by apply make_dirs_files. }
  destruct present.
  - apply bind_ok in H as (u3 & s3 & H3 & _). apply fs_op_ok in H3 as (H3 & _).
    destruct (nodes (s_fs s2) !! p) as [[|content]|] eqn:Ep; [done|eauto|done].
  - apply bind_ok in H as (renamed & s3 & H3 & H). unfold try in H3.
    destruct (fs_op (rename p q) s2) as [r s3'] eqn:H4. injection H3 as <- <-.
    destruct r as [[]|[[]| | | | | |]]; try done; [|by apply rename_not_exists in H4].
    apply fs_op_ok in H4 as (H4 & _). destruct (nodes (s_fs s2) !! p) as [[|content]|] eqn:Ep; [done|eauto|done].
Qed.

Lemma publish_reserved_tidy files (c : ChannelId) (a : ArtifactId) (p : path) dg d :
  preserves (fun s : Staging R => tidy files (s_res s)) (publish_reserved files c a p dg d).
Proof.
  assert (forall A (m : M FS io_error A), preserves (fun s : Staging R => tidy files (s_res s)) (fs_op m)) as Hfs by (intros A m; by apply fs_op_preserves).
  unfold publish_reserved. case_decide; [|apply preserves_throw]. apply preserves_bind; [apply Hfs|]. intros _.
  apply preserves_bind; [apply Hfs|]. intros [|].
  - apply preserves_bind; [apply Hfs|]. intros _. apply preserves_bind; [by apply on_res_preserves|]. intros _. apply preserves_ret.
  - apply preserves_bind; [apply preserves_try, Hfs|]. intros [[]|[[]| | | | | |]]; auto with flywheel; repeat (apply preserves_bind; [|intros _]);
      destruct d; auto using preserves_ret; by apply on_res_preserves.
Qed.

Lemma publish_tidy files (c : ChannelId) (a : ArtifactId) staged d (w : Local R) c0 (n0 : bytes) :
  staged_path staged = temporary_path files c0 n0 -> tidy files (staged_reservation staged) ->
  nodes (l_fs w) !! artifact_path files c a ≠ Some Directory ->
  let '(r, w') := publish files c a staged d w in
  published_at files c a (nodes (l_fs w)) (nodes (l_fs w'))
  /\ match r with
     | Ok (Created r) | Ok (Existing r) => tidy files r /\ exists content, nodes (l_fs w') !! artifact_path files c a = Some (File content)
     | Err _ => True
     end.
Proof.
  intros Hp Ht Hd. unfold publish. rewrite Hp. set (p := temporary_path files c0 n0).
  pose proof (publish_reserved_tree _ files c a _ (staged_digest staged) d (published_at_closed files c a c0 n0 (nodes (l_fs w)))
    (hold (staged_reservation staged) w) ltac:(split; [done|by left])) as HP. fold p in HP.
  destruct (publish_reserved _ _ _ _ _ _ _) as [[created|e] s] eqn:E.
  - split; [done|]. pose proof E as [content Hc]%publish_reserved_staged.
    eapply publish_reserved_ok in E as (_ & _ & _ & _ & H); [|exact Hc|apply not_eq_sym, artifact_not_temporary]. unfold tidy. destruct created.
    + destruct H as (Hf & -> & _). eauto.
    + destruct H as ([x Hx] & -> & Hsame). split; [done|]. cbn. rewrite Hx. destruct x; [|eauto]. exfalso. apply Hd. cbn in Hsame. by rewrite <- Hsame.
  - split; [|done]. cbn in HP. destruct HP as [Ho Ht'].
    pose proof (publish_reserved_tidy files c a p (staged_digest staged) d (hold (staged_reservation staged) w) Ht) as Htr. rewrite E in Htr.
    pose proof (discard_tidy files (s_res s) (let_go s) Htr) as Hsame. cbn in Hsame. split.
    + intros c' a' Hne. rewrite Hsame. by apply Ho.
    + by rewrite Hsame.
Qed.
End Files.

(** ** The invariant *)

Section Stripes.
Context {UL : UlidLib} {ULL : UlidLaws} {HX : HexLib} {HXL : HexLaws} {SH : Sha256Lib} {BS : Base64Lib}.
Context {ZS : ZstdLib} {ZSL : ZstdLaws} {DH : DefaultHasherLib}.
Context {S : Type} {MS : MetadataStore S} {ML : MetadataLaws S}.
(** [owner] says which operations may take bodies away: the maintenance passes. *)
Variables (files : ArtifactFiles) (owner : nat -> Prop).
Implicit Types (v : MetaView) (w : World S) (sh : @Shared UL S) (c : ChannelId) (a : ArtifactId).

Notation program := (@prog UL S outcome).

(** The view, and the artifacts whose body an operation has taken away before their row. *)
Record Holes := Hl { h_view : MetaView; h_holes : gset (ChannelId * ArtifactId * nat) }.

Definition row_of (g : Holes) c a : option ArtifactMetadata := mv_artifacts (h_view g) !! (c, a).
Definition body_of sh c a : option node := nodes (w_fs (sh_world sh)) !! artifact_path files c a.
Definition has_body sh c a : Prop := exists content, body_of sh c a = Some (File content).

Record stripe_ok (g : Holes) sh : Prop := {
  so_view : viewed (h_view g) (sh_world sh);
  so_clock n : 0 <= w_clock (sh_world sh) n;
  so_expiries : expiries_ok (h_view g);
  so_file c a : body_of sh c a ≠ Some Directory;
  so_body c a : is_Some (row_of g c a) -> has_body sh c a \/ exists i, (c, a, i) ∈ h_holes g;
  so_owner c a i : (c, a, i) ∈ h_holes g -> owner i
}.

(** Under its stripe, nobody else changes an artifact's row or body. *)
Record stripe_rely (i : nat) (held : list guard) (s s' : Holes * @Shared UL S) : Prop := {
  sr_row c a : GStripe (stripe_of c a) ∈ held -> row_of s'.1 c a = row_of s.1 c a;
  sr_body c a : GStripe (stripe_of c a) ∈ held -> body_of s'.2 c a = body_of s.2 c a;
  sr_holes c a : (c, a, i) ∈ h_holes s'.1 <-> (c, a, i) ∈ h_holes s.1
}.

Lemma stripe_rely_refl i held s : stripe_rely i held s s.
Proof. by split. Qed.

Lemma stripe_rely_trans i held s1 s2 s3 : stripe_rely i held s1 s2 -> stripe_rely i held s2 s3 -> stripe_rely i held s1 s3.
Proof.
  intros [A1 A2 A3] [B1 B2 B3]. split.
  - intros c a H. by rewrite B1, A1.
  - intros c a H. by rewrite B2, A2.
  - intros c a. by rewrite B3, A3.
Qed.

(** The operation is about to remove the row of the artifact. *)
Inductive evicts c a : program -> Prop :=
| evicts_row t k : evicts c a (Step (c_meta (ms_evict c a t)) k).

(** An operation takes the body of one artifact away at a time. *)
Definition lone (i : nat) (s : Holes * @Shared UL S) : Prop :=
  forall c a c' a', (c, a, i) ∈ h_holes s.1 -> (c', a', i) ∈ h_holes s.1 -> (c, a) = (c', a').

(** A body is missing between its removal and that of its row, under the stripe, or where a pass
    that failed stopped. *)
Definition stripe_here (i : nat) (p : program) (held : list guard) (s : Holes * @Shared UL S) : Prop :=
  lone i s /\ forall c a, (c, a, i) ∈ h_holes s.1 ->
    (GStripe (stripe_of c a) ∈ held /\ evicts c a p) \/ exists e, p = Done (OMaintained (Err e)).

(** What a step may change. *)
Record touches (i : nat) (held : list guard) (s s' : Holes * @Shared UL S) : Prop := {
  to_row c a : row_of s'.1 c a = row_of s.1 c a \/ GStripe (stripe_of c a) ∈ held;
  to_body c a : body_of s'.2 c a = body_of s.2 c a \/ GStripe (stripe_of c a) ∈ held;
  to_holes c a j : j ≠ i -> (c, a, j) ∈ h_holes s'.1 <-> (c, a, j) ∈ h_holes s.1
}.

Lemma touches_guarantee i held s s' : stripe_ok s'.1 s'.2 -> touches i held s s' -> guarantee stripe_ok stripe_rely i held s s'.
Proof.
  intros Hok [T1 T2 T3]. split; [done|]. intros j held' Hne Hcomp.
  assert (forall n, GStripe n ∈ held -> GStripe n ∈ held' -> False) as Hx.
  { intros n H1 H2. specialize (Hcomp _ _ H1 H2). cbn in Hcomp. by rewrite bool_decide_eq_true_2 in Hcomp. }
  split.
  - intros c a H. destruct (T1 c a); [done|]. by exfalso; eapply Hx.
  - intros c a H. destruct (T2 c a); [done|]. by exfalso; eapply Hx.
  - intros c a. by apply T3.
Qed.

(** ** Rules *)

Section Rules.
Variable i : nat.

Definition ready_s (p : program) (held : list guard) (s : Holes * Shared) : Prop :=
  safe stripe_ok stripe_rely stripe_here i p (kept p held) s.

Definition turn_s (held : list guard) (s s' : Holes * @Shared UL S) : Prop := stripe_rely i held s s' /\ stripe_ok s'.1 s'.2.

(** The operation has taken no body away. *)
Definition idle (s : Holes * @Shared UL S) : Prop := forall c a, (c, a, i) ∉ h_holes s.1.

Lemma idle_turn held s s' : turn_s held s s' -> idle s -> idle s'.
Proof. intros [Hr _] H c a. rewrite (sr_holes _ _ _ _ Hr). apply H. Qed.

Lemma idle_lone s : idle s -> lone i s.
Proof. intros H c a c' a' Hin. by apply H in Hin. Qed.

Lemma lone_turn held s s' : turn_s held s s' -> lone i s -> lone i s'.
Proof. intros [Hr _] H c a c' a' H1 H2. apply H; by apply (sr_holes _ _ _ _ Hr). Qed.

Lemma idle_here p held s : idle s -> stripe_here i p held s.
Proof. intros H. split; [by apply idle_lone|]. intros c a Hin. by apply H in Hin. Qed.

Lemma ready_s_done o held s : idle s -> ready_s (Done o) held s.
Proof. intros H s' Hr Hok. split; [|done]. apply idle_here. by eapply idle_turn. Qed.

(** A pass that failed may leave the row of one artifact behind. *)
Lemma ready_s_failed e held s : lone i s -> ready_s (Done (OMaintained (Err e))) held s.
Proof. intros H s' Hr Hok. split; [|done]. split; [by eapply lone_turn|]. eauto. Qed.

Definition quiet_s {E B} (m : M (World S) E B) : Prop :=
  forall w, w_db (m w).2 = w_db w /\ w_clock (m w).2 = w_clock w /\ same_artifacts files (nodes (w_fs w)) (nodes (w_fs (m w).2)).

Lemma quiet_ok g sh w : stripe_ok g sh -> w_db w = w_db (sh_world sh) -> w_clock w = w_clock (sh_world sh) ->
  same_artifacts files (nodes (w_fs (sh_world sh))) (nodes (w_fs w)) -> stripe_ok g (set_world w sh).
Proof.
  intros [V C E F B W] Hdb Hcl Hs. assert (forall c a, body_of (set_world w sh) c a = body_of sh c a) as Hb by (intros c a; apply Hs).
  split; cbn; auto.
  - unfold viewed. by rewrite Hdb.
  - intros n. by rewrite Hcl.
  - intros c a. rewrite Hb. apply F.
  - intros c a Hr. unfold has_body. rewrite Hb. by apply B.
Qed.

Lemma quiet_touches held g sh w : same_artifacts files (nodes (w_fs (sh_world sh))) (nodes (w_fs w)) ->
  touches i held (g, sh) (g, set_world w sh) /\ stripe_rely i held (g, sh) (g, set_world w sh).
Proof. intros Hs. split; split; cbn; auto; [intros c a; left; apply Hs|intros c a _; apply Hs]. Qed.

Lemma ready_s_quiet {E B} (m : M (World S) E B) k held s : quiet_s m -> idle s ->
  (forall s' r, turn_s held s s' -> idle s' -> (exists w, (m w).1 = r) -> ready_s (k r) held s') -> ready_s (Step m k) held s.
Proof.
  intros Hq Hi Hk [g sh] Hr Hok. pose proof (idle_turn _ _ _ (conj Hr Hok) Hi) as Hi'. split; [by apply idle_here|].
  destruct (Hq (sh_world sh)) as (Hdb & Hcl & Hs). cbn [fst snd] in *. destruct (m (sh_world sh)) as [r w] eqn:Em. cbn in Hdb, Hcl, Hs.
  exists g. destruct (quiet_touches held g sh w Hs) as [Ht Hr2]. pose proof (quiet_ok g sh w Hok Hdb Hcl Hs) as Hok2.
  split; [by apply touches_guarantee|]. apply Hk; [|done|exists (sh_world sh); by rewrite Em]. split; [by eapply stripe_rely_trans|done].
Qed.

(** A step on the store, the stripe of every row it changes held; a new row has its body. *)
Definition covered (held : list guard) (s : Holes * @Shared UL S) v : Prop :=
  expiries_ok v /\ forall c a, mv_artifacts v !! (c, a) = row_of s.1 c a
    \/ (GStripe (stripe_of c a) ∈ held /\ (is_Some (mv_artifacts v !! (c, a)) -> is_Some (row_of s.1 c a) \/ has_body s.2 c a)).

Lemma covered_ok held g sh v w holes : stripe_ok g sh -> covered held (g, sh) v -> viewed v w -> w = set_db (w_db w) (sh_world sh) ->
  (forall c a j, (c, a, j) ∈ h_holes g -> (c, a, j) ∈ holes \/ mv_artifacts v !! (c, a) = None) -> holes ⊆ h_holes g ->
  stripe_ok (Hl v holes) (set_world w sh).
Proof.
  intros [V C E F B W] [He Hc] Hv Hw Hholes Hsub. assert (forall c a, body_of (set_world w sh) c a = body_of sh c a) as Hb.
  { intros c a. unfold body_of. cbn. by rewrite Hw. }
  split; cbn; auto.
  - intros n. rewrite Hw. apply C.
  - intros c a. rewrite Hb. apply F.
  - intros c a [m Hm]. unfold row_of in Hm. cbn in Hm. unfold has_body. rewrite Hb.
    assert (is_Some (row_of g c a) \/ has_body sh c a) as [Hr|?]; [|destruct (B c a Hr) as [?|[j Hj]]; [by left|]|by left].
    + destruct (Hc c a) as [Hrow|[_ Hnew]]; [rewrite Hrow in Hm; left; by eexists|apply Hnew; by eexists].
    + right. exists j. destruct (Hholes c a j Hj); [done|congruence].
  - intros c a j Hj. by eapply W, Hsub.
Qed.

Lemma covered_touches held g sh v w holes : covered held (g, sh) v -> w = set_db (w_db w) (sh_world sh) ->
  (forall c a j, j ≠ i -> (c, a, j) ∈ holes <-> (c, a, j) ∈ h_holes g) -> touches i held (g, sh) (Hl v holes, set_world w sh).
Proof.
  intros [He Hc] Hw Hh. split; cbn; auto.
  - intros c a. destruct (Hc c a) as [?|[? _]]; auto.
  - intros c a. left. unfold body_of. cbn. by rewrite Hw.
Qed.

Lemma covered_refl held g sh : stripe_ok g sh -> covered held (g, sh) (h_view g).
Proof. intros H. split; [apply H|]. by left. Qed.

Lemma ready_s_store {E A} (f : MetadataError -> E) (op : M S MetadataError A) spec k held s :
  implements stands_for op spec -> idle s ->
  (forall s', turn_s held s s' -> covered held s' (spec (h_view s'.1)).2) ->
  (forall s' s'' x, turn_s held s s' -> idle s'' -> stripe_ok s''.1 s''.2 -> (spec (h_view s'.1)).1 = Ok x ->
    h_view s''.1 = (spec (h_view s'.1)).2 -> (forall c a, body_of s''.2 c a = body_of s'.2 c a) -> ready_s (k (Ok x)) held s'') ->
  (forall s'' e, idle s'' -> ready_s (k (Err e)) held s'') ->
  ready_s (Step (raising f (in_db op)) k) held s.
Proof.
  intros Hop Hi Hm Hk He [g sh] Hr Hok. pose proof (idle_turn _ _ _ (conj Hr Hok) Hi) as Hi'. split; [by apply idle_here|].
  specialize (Hm (g, sh) (conj Hr Hok)). cbn [fst snd] in *.
  pose proof (in_db_spec op spec (h_view g) (sh_world sh) Hop (so_view _ _ Hok)) as Hs. unfold raising.
  assert (forall v w, covered held (g, sh) v -> viewed v w -> w = set_db (w_db w) (sh_world sh) ->
    guarantee stripe_ok stripe_rely i held (g, sh) (Hl v (h_holes g), set_world w sh)) as Hg.
  { intros v w Hc Hv Hw. apply touches_guarantee; [|by apply covered_touches]. apply (covered_ok held g sh v w (h_holes g)); auto. }
  destruct (in_db op (sh_world sh)) as [[x|e] w].
  - destruct Hs as (Hx & Hv & Hw). exists (Hl (spec (h_view g)).2 (h_holes g)). split; [by apply Hg|].
    apply (Hk (g, sh)); [done|done|apply (Hg _ _ Hm Hv Hw)|done|done|]. intros c a. unfold body_of. cbn. by rewrite Hw.
  - destruct Hs as (Hw & Hs). assert (exists v, covered held (g, sh) v /\ viewed v w) as (v & Hc & Hv).
    { destruct Hs as [[_ Hv]|[_ [Hv|Hv]]]; eauto using covered_refl. }
    exists (Hl v (h_holes g)). split; [by apply Hg|by apply He].
Qed.

(** A step that only reads the store, with what its answer says of the view. *)
Definition consults {E B} (m : M (World S) E B) (Q : MetaView -> result E B -> Prop) : Prop :=
  forall v w, viewed v w -> let '(r, w') := m w in viewed v w' /\ w' = set_db (w_db w') w /\ Q v r.

Lemma ready_s_consult {E B} (m : M (World S) E B) Q k held s : consults m Q -> idle s ->
  (forall s' r, turn_s held s s' -> idle s' -> Q (h_view s'.1) r -> ready_s (k r) held s') -> ready_s (Step m k) held s.
Proof.
  intros Hm Hi Hk [[v holes] sh] Hr Hok. pose proof (idle_turn _ _ _ (conj Hr Hok) Hi) as Hi'. split; [by apply idle_here|]. cbn [fst snd] in *.
  pose proof (Hm v (sh_world sh) (so_view _ _ Hok)) as Hs. destruct (m (sh_world sh)) as [r w]. destruct Hs as (Hv & Hw & HQ).
  assert (same_artifacts files (nodes (w_fs (sh_world sh))) (nodes (w_fs w))) as Hsame by (by rewrite Hw).
  destruct (quiet_touches held (Hl v holes) sh w Hsame) as [Ht Hr2]. assert (stripe_ok (Hl v holes) (set_world w sh)) as Hok2.
  { apply (covered_ok held (Hl v holes)); auto. by apply (covered_refl held (Hl v holes)). }
  exists (Hl v holes). split; [by apply touches_guarantee|].
  apply (Hk (Hl v holes, set_world w sh)); [split; [by eapply stripe_rely_trans|done]|done|done].
Qed.

Lemma consults_read {E A} (f : MetadataError -> E) (op : M S MetadataError A) (answer : MetaView -> A) :
  implements stands_for op (fun v => (Ok (answer v), v)) ->
  consults (raising f (in_db op)) (fun v r => match r with Ok x => x = answer v | Err _ => True end).
Proof.
  intros Hop v w Hv. pose proof (in_db_spec op _ v w Hop Hv) as Hs. unfold raising. destruct (in_db op w) as [[x|e] w'].
  - by destruct Hs as ([= <-] & ? & ?).
  - destruct Hs as (Hw & Hs). cbn in Hs. destruct Hs as [[? _]|[_ [?|?]]]; done.
Qed.

(** *** Locks *)

Lemma ready_s_take id k held s : idle s -> (forall s' n, idle s' -> ready_s (k n) held s') -> ready_s (TakeGate id k) held s.
Proof.
  intros Hi Hk [g sh] Hr Hok. pose proof (idle_turn _ _ _ (conj Hr Hok) Hi) as Hi'. split; [by apply idle_here|]. cbn [fst snd] in *.
  assert (exists n sh', take_gate id sh = (n, sh') /\ stripe_ok g sh' /\ touches i held (g, sh) (g, sh')) as (n & sh' & -> & Hok' & Ht).
  { unfold take_gate. destruct Hok as [V C E F B W]. destruct (sh_gates sh !! id); eexists _, _; (split; [done|]); split; split; cbn; auto. }
  exists g. split; [by apply touches_guarantee|by apply Hk].
Qed.

Lemma ready_s_read_gate n k held s : idle s -> (forall s', turn_s held s s' -> idle s' -> ready_s k (GRead n :: held) s') -> ready_s (ReadGate n k) held s.
Proof. intros Hi Hk s' Hr Hok. pose proof (idle_turn _ _ _ (conj Hr Hok) Hi) as Hi'. split; [by apply idle_here|by apply Hk]. Qed.

Lemma ready_s_lock n k held s : idle s -> (forall s', turn_s held s s' -> idle s' -> ready_s k (GStripe n :: held) s') -> ready_s (LockStripe n k) held s.
Proof. intros Hi Hk s' Hr Hok. pose proof (idle_turn _ _ _ (conj Hr Hok) Hi) as Hi'. split; [by apply idle_here|by apply Hk]. Qed.

Lemma ready_s_release x k held s : idle s -> (forall s', turn_s (x :: held) s s' -> idle s' -> ready_s k held s') -> ready_s (Release x k) (x :: held) s.
Proof.
  intros Hi Hk s' Hr Hok. pose proof (idle_turn _ _ _ (conj Hr Hok) Hi) as Hi'. split; [by apply idle_here|].
  cbn. rewrite decide_True by done. by apply Hk.
Qed.

(** *** Bodies *)

(** What a step on one artifact's file leaves: the other files, and the store, as they were. *)
Definition one_file c a w w' : Prop :=
  w_db w' = w_db w /\ w_clock w' = w_clock w /\ others_same files c a (nodes (w_fs w)) (nodes (w_fs w')).

Lemma one_file_body c a sh w c' a' : one_file c a (sh_world sh) w -> (c', a') ≠ (c, a) -> body_of (set_world w sh) c' a' = body_of sh c' a'.
Proof. intros (_ & _ & H) Hne. by apply H. Qed.

Lemma one_file_touches held c a g sh w holes : GStripe (stripe_of c a) ∈ held -> one_file c a (sh_world sh) w ->
  (forall c' a' j, j ≠ i -> (c', a', j) ∈ holes <-> (c', a', j) ∈ h_holes g) ->
  touches i held (g, sh) (Hl (h_view g) holes, set_world w sh).
Proof.
  intros Hin Hw Hh. split; cbn; auto. intros c' a'. destruct (decide ((c', a') = (c, a))) as [[= -> ->]|Hne]; [by right|].
  left. by eapply one_file_body.
Qed.

(** The invariant after such a step: the artifact has a body, or is a hole, or has no row. *)
Lemma one_file_ok c a g sh w holes : stripe_ok g sh -> one_file c a (sh_world sh) w -> h_holes g ⊆ holes ->
  body_of (set_world w sh) c a ≠ Some Directory ->
  (is_Some (row_of g c a) -> has_body (set_world w sh) c a \/ exists j, (c, a, j) ∈ holes) ->
  (forall c' a' j, (c', a', j) ∈ holes -> (c', a', j) ∈ h_holes g \/ owner j) ->
  stripe_ok (Hl (h_view g) holes) (set_world w sh).
Proof.
  intros [V C E F B W] Hw Hsub Hd Hb Hown. pose proof Hw as (Hdb & Hcl & _). split; cbn; auto.
  - unfold viewed. by rewrite Hdb.
  - intros n. by rewrite Hcl.
  - intros c' a'. destruct (decide ((c', a') = (c, a))) as [[= -> ->]|Hne]; [done|]. rewrite (one_file_body c a sh w); auto.
  - intros c' a' Hr. destruct (decide ((c', a') = (c, a))) as [[= -> ->]|Hne]; [by apply Hb|]. unfold has_body.
    rewrite (one_file_body c a sh w) by done. destruct (B c' a' Hr) as [?|[j Hj]]; [by left|right; exists j; by apply Hsub].
  - intros c' a' j Hj. destruct (Hown _ _ _ Hj); [by eapply W|done].
Qed.

Lemma publish_world c a staged d w c0 (n0 : bytes) :
  staged_path staged = temporary_path files c0 n0 -> tidy files (staged_reservation staged) ->
  nodes (w_fs w) !! artifact_path files c a ≠ Some Directory ->
  let '(r, w') := c_local (publish files c a staged d) w in
  one_file c a w w' /\ published_at files c a (nodes (w_fs w)) (nodes (w_fs w'))
  /\ match r with
     | Ok (Created r) | Ok (Existing r) => tidy files r /\ exists content, nodes (w_fs w') !! artifact_path files c a = Some (File content)
     | Err _ => True
     end.
Proof.
  intros Hp Ht Hd. unfold c_local, raising, in_local, zoom. pose proof (publish_tidy files c a staged d (get_local w) c0 n0 Hp Ht Hd) as H.
  destruct (publish files c a staged d (get_local w)) as [[[r|r]|e] l]; cbn in *; destruct H as [[Ho Hat] H]; repeat split; by try apply H.
Qed.

Lemma ready_s_publish c a staged d k held s c0 (n0 : bytes) :
  staged_path staged = temporary_path files c0 n0 -> tidy files (staged_reservation staged) ->
  GStripe (stripe_of c a) ∈ held -> idle s ->
  (forall s' r x, idle s' -> tidy files r -> has_body s'.2 c a -> x = Created r \/ x = Existing r -> ready_s (k (Ok x)) held s') ->
  (forall s' e, idle s' -> ready_s (k (Err e)) held s') ->
  ready_s (Step (c_local (publish files c a staged d)) k) held s.
Proof.
  intros Hp Ht Hin Hi Hk He [[v holes] sh] Hr Hok. pose proof (idle_turn _ _ _ (conj Hr Hok) Hi) as Hi'. split; [by apply idle_here|]. cbn [fst snd] in *.
  pose proof (publish_world c a staged d (sh_world sh) c0 n0 Hp Ht (so_file _ _ Hok c a)) as H.
  destruct (c_local (publish files c a staged d) (sh_world sh)) as [r w]. destruct H as (H1 & [_ Hat] & H2). exists (Hl v holes).
  assert (guarantee stripe_ok stripe_rely i held (Hl v holes, sh) (Hl v holes, set_world w sh)) as Hg.
  { apply touches_guarantee; [|by apply (one_file_touches held c a (Hl v holes))]. apply (one_file_ok c a (Hl v holes)); auto.
    - unfold body_of. cbn. destruct Hat as [->|[x ->]]; [apply (so_file _ _ Hok)|done].
    - intros Hrow. unfold has_body, body_of. cbn. destruct Hat as [->|Hx]; [by apply (so_body _ _ Hok)|by left]. }
  split; [done|]. destruct r as [[r|r]|e]; [destruct H2 as [Htr Hb]; by eapply Hk; [..|eauto]..|by apply He].
Qed.

Lemma remove_world c a w : let '(r, w') := c_local (remove files c a) w in
  one_file c a w w' /\ (nodes (w_fs w') !! artifact_path files c a = nodes (w_fs w) !! artifact_path files c a
    \/ nodes (w_fs w') !! artifact_path files c a = None).
Proof.
  unfold c_local, raising, in_local, zoom, remove, mbind, M_bind, try, l_fs_op, raising, zoom.
  assert (forall r fs, remove_file (artifact_path files c a) (w_fs w) = (r, fs) -> others_same files c a (nodes (w_fs w)) (nodes fs)
    /\ (nodes fs !! artifact_path files c a = nodes (w_fs w) !! artifact_path files c a \/ nodes fs !! artifact_path files c a = None)) as H.
  { intros r fs Hrm. pose proof (remove_file_preserves (fun t => others_same files c a (nodes (w_fs w)) t
      /\ (t !! artifact_path files c a = nodes (w_fs w) !! artifact_path files c a \/ t !! artifact_path files c a = None)) (artifact_path files c a)) as HP.
    specialize (fun H => HP H (w_fs w)). rewrite Hrm in HP. destruct r; (apply HP; [|by split; [|left]]); intros t [Ho Hat];
      (split; [|right; apply lookup_delete_eq]); intros c' a' Hne; (rewrite lookup_delete_ne; [by apply Ho|]);
      intros E; apply artifact_path_inj in E as [-> ->]; done. }
  destruct (remove_file _ _) as [[[]|e] fs]; [|destruct e]; cbn; destruct (H _ _ eq_refl) as [Ho Hat]; repeat split; auto.
Qed.

(** The body of an artifact without a row may go. *)
Lemma ready_s_remove c a k held s : GStripe (stripe_of c a) ∈ held -> idle s -> row_of s.1 c a = None ->
  (forall s' r, idle s' -> ready_s (k r) held s') -> ready_s (Step (c_local (remove files c a)) k) held s.
Proof.
  intros Hin Hi Hrow Hk [[v holes] sh] Hr Hok. pose proof (idle_turn _ _ _ (conj Hr Hok) Hi) as Hi'. split; [by apply idle_here|].
  rewrite <- (sr_row _ _ _ _ Hr _ _ Hin) in Hrow. cbn [fst snd] in *.
  pose proof (remove_world c a (sh_world sh)) as H. destruct (c_local (remove files c a) (sh_world sh)) as [r w]. destruct H as (H1 & Hat).
  exists (Hl v holes). assert (guarantee stripe_ok stripe_rely i held (Hl v holes, sh) (Hl v holes, set_world w sh)) as Hg.
  { apply touches_guarantee; [|by apply (one_file_touches held c a (Hl v holes))]. apply (one_file_ok c a (Hl v holes)); auto.
    - unfold body_of. cbn. destruct Hat as [-> | ->]; [apply (so_file _ _ Hok)|done].
    - intros [m Hm]. congruence. }
  split; [done|by apply Hk].
Qed.
End Rules.
End Stripes.
