(* ===== verification/StripedCalls.v ===== *)
(** * Every operation keeps to the stripes

    Each program of [Concurrent] but deletion is ready, from any state the invariant of [Stripes]
    allows, to take its steps. *)

From S2P Require Import Prelude Externals Domain Metadata MetadataView MetadataStore Space RecentUse Filesystem ArtifactFiles FilesLemmas World Channels ChannelLemmas Cache CacheLemmas CacheConsistency CacheMaintenance Shard Threads Concurrent ConcurrentLemmas Stripes.

Section Calls.
Context {UL : UlidLib} {ULL : UlidLaws} {HX : HexLib} {HXL : HexLaws} {SH : Sha256Lib} {BS : Base64Lib}.
Context {ZS : ZstdLib} {ZSL : ZstdLaws} {DH : DefaultHasherLib}.
Context {S : Type} {MS : MetadataStore S} {ML : MetadataLaws S}.
Variables (cfg : CacheConfig) (owner : nat -> Prop) (i : nat).
Implicit Types (v : MetaView) (w : World S) (s : Holes * @Shared UL S) (c : ChannelId) (a : ArtifactId).

Notation program := (@prog UL S outcome).
Notation files := (cache_files cfg).
Notation ready := (ready_s files owner i).
Notation turn := (turn_s files owner i).
Notation idle := (idle i).
Notation quiet := (quiet_s files).

#[local] Hint Resolve idle_lone : core.

(** ** Steps that change no row and no body *)

Lemma quiet_modify {E} f : (forall w, w_db (f w) = w_db w /\ w_clock (f w) = w_clock w /\ w_fs (f w) = w_fs w) ->
  quiet (modify f : M (World S) E unit).
Proof. intros H w. destruct (H w) as (H1 & H2 & H3). cbn. by rewrite H1, H2, H3. Qed.

Lemma quiet_s_local {A} (m : M (Local SpaceLedger) LocalError A) :
  (forall l, same_artifacts files (nodes (l_fs l)) (nodes (l_fs (m l).2))) -> quiet (c_local m : M (World S) CacheError A).
Proof. intros H w. unfold c_local, raising, in_local, zoom. specialize (H (get_local w)). by destruct (m (get_local w)) as [[] l]. Qed.

Lemma quiet_reads {A} (m : M (Local SpaceLedger) LocalError A) :
  (forall t, preserves (fun l => nodes (l_fs l) = t) m) -> quiet (c_local m : M (World S) CacheError A).
Proof.
  intros H. apply quiet_s_local. intros l. specialize (H (nodes (l_fs l)) l eq_refl). destruct (m l) as [[] l']; cbn in *; by rewrite H.
Qed.

Lemma quiet_discard r : tidy files r -> quiet (settle (discard r) : M (World S) CacheError unit).
Proof. intros H w. cbn. repeat split. by apply discard_tidy. Qed.

Lemma ready_s_now {E} fail (k : Z -> program) held s : idle s ->
  (forall s' t, turn held s s' -> idle s' -> 0 <= t -> ready (k t) held s') -> ready (attempt (now : M (World S) E Z) fail k) held s.
Proof.
  intros Hi Hk s1 Hr Hok. pose proof (idle_turn _ _ _ _ _ _ (conj Hr Hok) Hi) as Hi1. split; [by apply idle_here|]. destruct s1 as [g sh]. cbn.
  exists g. destruct (quiet_touches files i held g sh (set_ticks (Datatypes.S (w_ticks (sh_world sh))) (sh_world sh))) as [Ht Hr2]; [done|].
  assert (stripe_ok files owner g (set_world (set_ticks (Datatypes.S (w_ticks (sh_world sh))) (sh_world sh)) sh)) as Hok2 by (by apply quiet_ok).
  split; [by apply touches_guarantee|]. apply Hk; [|done|apply (so_clock _ _ _ _ Hok)]. split; [by eapply stripe_rely_trans|done].
Qed.

Lemma has_body_turn c a held s s' : GStripe (stripe_of c a) ∈ held -> turn held s s' -> has_body files s.2 c a -> has_body files s'.2 c a.
Proof. intros Hin [Hr _]. unfold has_body. by rewrite (sr_body _ _ _ _ _ Hr c a Hin). Qed.

Lemma row_turn c a held s s' : GStripe (stripe_of c a) ∈ held -> turn held s s' -> row_of s'.1 c a = row_of s.1 c a.
Proof. intros Hin [Hr _]. by apply (sr_row _ _ _ _ _ Hr). Qed.

(** A transition that changes no row. *)
Lemma covered_same held s v : stripe_ok files owner s.1 s.2 -> expiries_ok v -> mv_artifacts v = mv_artifacts (h_view s.1) -> covered files held s v.
Proof. intros Hok He Hv. split; [done|]. intros c a. left. by rewrite Hv. Qed.

(** One that changes rows of one artifact. *)
Lemma covered_one held s v c a : stripe_ok files owner s.1 s.2 -> expiries_ok v -> GStripe (stripe_of c a) ∈ held ->
  (forall k, k ≠ (c, a) -> mv_artifacts v !! k = mv_artifacts (h_view s.1) !! k) ->
  (is_Some (mv_artifacts v !! (c, a)) -> is_Some (row_of s.1 c a) \/ has_body files s.2 c a) -> covered files held s v.
Proof.
  intros Hok He Hin Hv Hn. split; [done|]. intros c' a'. destruct (decide ((c', a') = (c, a))) as [[= -> ->]|Hne]; [by right|].
  left. by apply Hv.
Qed.

(** ** The cache service *)

Lemma fence_ready_s channel refused k s : idle s -> (forall e s', idle s' -> ready (refused e) [] s') ->
  (forall n expiry s', idle s' -> 0 <= expiry -> ready (k expiry) [GRead n] s') -> ready (p_fence channel refused k) [] s.
Proof.
  intros Hi Hr Hk. apply ready_s_take; [done|]. intros s1 n H1. apply ready_s_read_gate; [done|]. intros s2 _ H2.
  assert (forall e s', idle s' -> ready (Release (GRead n) (refused e)) [GRead n] s') as He by (intros e s' H; apply ready_s_release; auto).
  eapply ready_s_consult; [apply (consults_read _ _ (fun v => mv_channels v !! channel)), channel_law|done|].
  intros s3 [found|e] H3 Hi3 HQ; [|auto]. subst found. destruct (mv_channels (h_view s3.1) !! channel) as [record|] eqn:Ec; [|auto].
  case_bool_decide; [|auto]. apply Hk; [done|]. by eapply (so_expiries _ _ _ _ (proj2 H3)).
Qed.

Lemma expiries_commit c a m reference v : expiries_ok v -> expiries_ok (v_commit_publication c a m reference v).2.
Proof. intros H. unfold v_commit_publication. destruct (mv_artifacts v !! (c, a)), reference as [[]|]; apply H. Qed.

Lemma commit_published_ready_s c a staged commit_ expiry r len k held s :
  GStripe (stripe_of c a) ∈ held -> idle s -> has_body files s.2 c a -> tidy files r -> 0 <= expiry ->
  (forall x s', idle s' -> ready (k x) held s') -> ready (p_commit_published c a staged commit_ expiry r len k) held s.
Proof.
  intros Hin Hi Hb Ht He Hk. apply ready_s_now; [done|]. intros s1 t H1 Hi1 Hge. apply (has_body_turn _ _ _ _ _ Hin H1) in Hb.
  eapply (ready_s_store _ _ _ _ _ (v_commit_publication c a _ _)); [by apply commit_publication_law, deadline_u64|done|..].
  - intros s2 H2. apply (has_body_turn _ _ _ _ _ Hin H2) in Hb. apply (covered_one _ _ _ c a); [apply H2|apply expiries_commit, H2|done| |auto].
    intros key Hne. unfold v_commit_publication. destruct (mv_artifacts (h_view s2.1) !! (c, a)), (commit_reference commit_) as [[]|];
      cbn; rewrite ?lookup_insert_ne by done; done.
  - intros s2 s3 created _ Hi3 _ _ _ _. apply ready_s_quiet; [by apply quiet_modify|done|auto].
  - intros s3 e Hi3. apply ready_s_quiet; [by apply quiet_discard|done|auto].
Qed.

Lemma commit_staged_ready_s c a staged commit_ k s c0 (n0 : bytes) :
  staged_path staged = temporary_path files c0 n0 -> tidy files (staged_reservation staged) -> idle s ->
  (forall x held s', idle s' -> ready (k x) held s') -> ready (p_commit_staged cfg c a staged commit_ k) [] s.
Proof.
  intros Hp Ht Hi Hk. apply fence_ready_s; [done| |].
  - intros e s' Hs'. apply ready_s_quiet; [by apply quiet_discard|done|auto].
  - intros n expiry s1 H1 He. apply ready_s_lock; [done|]. intros s2 _ H2. assert (GStripe (stripe_of c a) ∈ [GStripe (stripe_of c a); GRead n]) as Hin by (by left).
    eapply ready_s_publish; [done..| |auto].
    intros s3 r x H3 Htr Hb [-> | ->]; apply commit_published_ready_s; auto.
Qed.

Lemma stage_world c (n : bytes) stream max_bytes cl d e : quiet (c_local (stage files c n stream max_bytes cl d e) : M (World S) CacheError _).
Proof.
  apply quiet_s_local. intros l. pose proof (stage_tidy files c n stream max_bytes cl d e l) as H.
  destruct (stage _ _ _ _ _ _ _ _ l) as [r l']. apply H.
Qed.

Lemma stage_answer c (n : bytes) stream max_bytes cl d e w staged :
  (c_local (stage files c n stream max_bytes cl d e) w : result CacheError _ * World S).1 = Ok (Ready staged) ->
  staged_path staged = temporary_path files c n /\ tidy files (staged_reservation staged).
Proof.
  unfold c_local, raising, in_local, zoom. pose proof (stage_tidy files c n stream max_bytes cl d e (get_local w)) as H.
  destruct (stage _ _ _ _ _ _ _ _ (get_local w)) as [[r|er] l']; cbn; [|done]. intros [= ->]. by apply H.
Qed.

Lemma publish_ready_s name request s : idle s -> ready (p_publish cfg name request) [] s.
Proof.
  intros Hi. assert (forall r held s', idle s' -> ready (Done (OPublished r)) held s') as Hd by (intros; by apply ready_s_done).
  apply ready_s_quiet; [apply stage_world|done|]. intros s1 [[staged|stream]|e] _ Hi1 [w Hw]; auto. apply stage_answer in Hw as [Hp Ht].
  apply ready_s_quiet; [by apply quiet_modify|done|]. intros s2 [_|e] _ Hi2 _; auto. destruct (req_target request) as [a|[reference|]].
  - by eapply commit_staged_ready_s; auto.
  - apply ready_s_now; [done|]. intros s3 t _ Hi3 _. by eapply commit_staged_ready_s; auto.
  - by eapply commit_staged_ready_s; auto.
Qed.

(** *** Removing rows *)

Lemma remove_artifact_rows c a v k : mv_artifacts (v_remove_artifact c a v).2 !! k = mv_artifacts v !! k \/ (k = (c, a) /\ mv_artifacts (v_remove_artifact c a v).2 !! k = None).
Proof.
  unfold v_remove_artifact. destruct (mv_artifacts v !! (c, a)); [|by left]. cbn. destruct (decide (k = (c, a))) as [->|Hne]; [right|left].
  - by rewrite lookup_delete_eq.
  - by rewrite lookup_delete_ne.
Qed.

Lemma remove_artifact_expiries c a v : expiries_ok v -> expiries_ok (v_remove_artifact c a v).2.
Proof. intros H. unfold v_remove_artifact. by destruct (mv_artifacts v !! (c, a)). Qed.

Lemma locate_ready_s c a s : idle s -> ready (p_locate cfg c a) [] s.
Proof.
  intros Hi. assert (forall r held s', idle s' -> ready (Done (OLocated r)) held s') as Hd by (intros; by apply ready_s_done).
  assert (forall s', idle s' -> ready (Step (on_metrics metric_miss : M (World S) CacheError unit) (fun _ => Done (OLocated (Ok None)))) [] s') as Hmiss.
  { intros s' Hs'. apply ready_s_quiet; [by apply quiet_modify|done|auto]. }
  eapply ready_s_consult; [apply (consults_read _ _ (fun v => mv_artifacts v !! (c, a))), artifact_law|done|].
  intros s1 [[m|]|e] _ Hi1 _; [|by apply Hmiss|auto].
  apply ready_s_quiet; [|done|].
  { apply quiet_reads. intros t. apply (l_fs_op_tree (fun t' => t' = t)). apply (syscall_preserves (fun t' => t' = t)); [|done]. intros t' Ht'. by repeat case_match. }
  intros s2 [file|[[[]| | | | | |]| | | |]] _ Hi2 _; auto.
  - apply ready_s_quiet; [by apply quiet_modify|done|]. intros s3 _ _ Hi3 _. apply ready_s_quiet; [by apply quiet_modify|done|auto].
  - apply ready_s_lock; [done|]. intros s3 _ Hi3. assert (GStripe (stripe_of c a) ∈ [GStripe (stripe_of c a)]) as Hin by (by left).
    eapply (ready_s_store _ _ _ _ _ _ _ _ _ (remove_artifact_law c a)); [done| |..].
    + intros s4 H4. apply (covered_one _ _ _ c a); [apply H4|apply remove_artifact_expiries, H4|done| |].
      * intros k Hne. destruct (remove_artifact_rows c a (h_view s4.1) k) as [?|[? _]]; done.
      * intros [x Hx]. destruct (remove_artifact_rows c a (h_view s4.1) (c, a)) as [E|[_ E]]; [|congruence]. left. rewrite E in Hx. by eexists.
    + intros s4 s5 [] _ Hi5 _ _ _ _. apply ready_s_release; auto.
    + intros s5 e Hi5. apply ready_s_release; auto.
Qed.

Lemma bind_ready_s c reference a e l d s : idle s -> ready (p_bind_reference c reference a e l d) [] s.
Proof.
  intros Hi. assert (forall r held s', idle s' -> ready (Done (OReference r)) held s') as Hd by (intros; by apply ready_s_done).
  apply fence_ready_s; [done|auto|]. intros n expiry s1 Hi1 _. apply ready_s_now; [done|]. intros s2 t _ Hi2 _.
  eapply (ready_s_store _ _ _ _ _ _ _ _ _ (bind_reference_law c reference _ d)); [done|..]; auto.
  intros s3 H3. apply covered_same; [apply H3|apply H3|done].
Qed.

Lemma unbind_ready_s c reference s : idle s -> ready (p_delete_reference c reference) [] s.
Proof.
  intros Hi. assert (forall r held s', idle s' -> ready (Done (OReference r)) held s') as Hd by (intros; by apply ready_s_done).
  apply fence_ready_s; [done|auto|]. intros n expiry s1 Hi1 _.
  eapply (ready_s_store _ _ _ _ _ _ _ _ _ (delete_reference_law c reference)); [done|..]; auto.
  intros s3 H3. apply covered_same; [apply H3|apply H3|done].
Qed.

Lemma orphans_ready_s orphans fail k s : idle s -> (forall e held s', idle s' -> ready (fail e) held s') -> (forall s', idle s' -> ready k [] s') ->
  ready (p_orphans cfg orphans fail k) [] s.
Proof.
  intros Hi Hf Hk. revert s Hi. induction orphans as [|[c a] orphans IH]; intros s Hi; [auto|]. cbn [p_orphans].
  eapply ready_s_consult; [apply (consults_read _ _ (fun v => mv_artifacts v !! (c, a))), artifact_law|done|].
  intros s1 [[m|]|e] _ Hi1 _; [auto| |auto]. apply ready_s_lock; [done|]. intros s2 _ Hi2.
  assert (GStripe (stripe_of c a) ∈ [GStripe (stripe_of c a)]) as Hin by (by left).
  eapply ready_s_consult; [apply (consults_read _ _ (fun v => mv_artifacts v !! (c, a))), artifact_law|done|].
  intros s3 [[m|]|e] _ Hi3 HQ; [apply ready_s_release; auto| |auto].
  eapply ready_s_remove; [done|done|by symmetry|]. intros s4 [u|e] Hi4; [apply ready_s_release|]; auto.
Qed.

Lemma reconcile_ready_s s : idle s -> ready (p_reconcile cfg) [] s.
Proof.
  intros Hi. assert (forall r held s', idle s' -> ready (Done (OReconciled r)) held s') as Hd by (intros; by apply ready_s_done).
  apply ready_s_quiet; [|done|].
  { apply quiet_s_local. intros l. pose proof (temporary_same files (nodes (l_fs l)) l ltac:(done)) as H.
    by destruct (remove_temporary_files files l) as [[] l']. }
  intros s1 [_|e] _ Hi1 _; [|auto]. apply ready_s_quiet; [|done|].
  { apply quiet_reads. intros t. apply orphan_scan_ok. intros l fs H E. cbn. by rewrite E. }
  intros s2 [orphans|e] _ Hi2 _; [|auto]. apply orphans_ready_s; auto.
Qed.

(** *** Maintenance *)

Lemma evict_rows c a t v k : mv_artifacts (v_evict c a t v).2 !! k = mv_artifacts v !! k \/ (k = (c, a) /\ mv_artifacts (v_evict c a t v).2 !! k = None).
Proof.
  unfold v_evict. destruct (mv_artifacts v !! (c, a)) as [m|] eqn:E; [|by left]. destruct (eligible_at m =? t); [|by left]. cbn.
  destruct (decide (k = (c, a))) as [->|Hne]; [right|left].
  - by rewrite lookup_delete_eq.
  - by rewrite lookup_delete_ne.
Qed.

Lemma evict_expiries c a t v : expiries_ok v -> expiries_ok (v_evict c a t v).2.
Proof. intros H. unfold v_evict. destruct (mv_artifacts v !! (c, a)) as [m|]; [|done]. by destruct (eligible_at m =? t). Qed.

Lemma evict_covered c a t held s : stripe_ok files owner s.1 s.2 -> GStripe (stripe_of c a) ∈ held -> covered files held s (v_evict c a t (h_view s.1)).2.
Proof.
  intros Hok Hin. apply (covered_one _ _ _ c a); [done|apply evict_expiries, Hok|done| |].
  - intros k Hne. destruct (evict_rows c a t (h_view s.1) k) as [?|[? _]]; done.
  - intros [x Hx]. destruct (evict_rows c a t (h_view s.1) (c, a)) as [E|[_ E]]; [|congruence]. left. rewrite E in Hx. by eexists.
Qed.

(** The row of an artifact whose body has just been taken away goes next. *)
Lemma evict_hole_ready c a t m held k s : is_u64 t -> GStripe (stripe_of c a) ∈ held ->
  (forall c' a', (c', a', i) ∈ h_holes s.1 -> (c', a') = (c, a)) -> row_of s.1 c a = Some m -> eligible_at m = t ->
  (forall x s', idle s' -> ready (k (Ok x)) held s') -> (forall e s', lone i s' -> ready (k (Err e)) held s') ->
  ready (Step (c_meta (ms_evict c a t)) k) held s.
Proof.
  intros Ht Hin Hholes Hrow Hm Hk He [[v holes] sh] Hr Hok. rewrite <- (sr_row _ _ _ _ _ Hr _ _ Hin) in Hrow.
  assert (forall c' a', (c', a', i) ∈ holes -> (c', a') = (c, a)) as Hh by (intros c' a' H; by apply Hholes, (sr_holes _ _ _ _ _ Hr)).
  split.
  { split; [intros c1 a1 c2 a2 H1%Hh H2%Hh; congruence|]. intros c' a' [= -> ->]%Hh. left. by split. }
  cbn [fst snd] in *. unfold row_of in Hrow. cbn in Hrow.
  pose proof (in_db_spec _ _ v (sh_world sh) (evict_law c a t Ht) (so_view _ _ _ _ Hok)) as Hs. unfold c_meta, raising.
  pose proof (evict_covered c a t held (Hl v holes, sh) Hok Hin) as Hc. cbn in Hc.
  assert (mv_artifacts (v_evict c a t v).2 !! (c, a) = None) as Hgone.
  { unfold v_evict. rewrite Hrow, Hm, Z.eqb_refl. cbn. apply lookup_delete_eq. }
  destruct (in_db (ms_evict c a t) (sh_world sh)) as [[x|e] w].
  - destruct Hs as (Hx & Hv & Hw). exists (Hl (v_evict c a t v).2 (holes ∖ {[(c, a, i)]})). split.
    + apply touches_guarantee.
      * apply (covered_ok _ _ held (Hl v holes)); auto; [|cbn; set_solver]. intros c' a' j Hj. cbn in Hj. destruct (decide ((c', a', j) = (c, a, i))) as [[= -> -> ->]|Hne]; [by right|left].
        cbn. set_solver.
      * apply covered_touches; auto. intros c' a' j Hne. cbn. set_solver.
    + apply Hk. intros c' a'. cbn. intros [H1 H2]%elem_of_difference. apply Hh in H1 as [= -> ->]. set_solver.
  - destruct Hs as (Hw & Hs). assert (exists v', covered files held (Hl v holes, sh) v' /\ viewed v' w) as (v' & Hc' & Hv').
    { destruct Hs as [[_ Hv]|[_ [Hv|Hv]]]; [by eauto..|exists v|by eauto]. split; [by apply (covered_refl _ owner held (Hl v holes))|done]. }
    exists (Hl v' holes). split; [|apply He; intros c1 a1 c2 a2 H1%Hh H2%Hh; congruence]. apply touches_guarantee; [|by apply covered_touches].
    apply (covered_ok _ _ held (Hl v holes)); auto.
Qed.

(** From the body of an artifact to its row, under its stripe. *)
Lemma evict_body_ready c a t m fail k held s : owner i -> is_u64 t -> GStripe (stripe_of c a) ∈ held -> idle s ->
  row_of s.1 c a = Some m -> eligible_at m = t ->
  (forall x s', idle s' -> ready (k x) held s') -> (forall e held s', lone i s' -> ready (fail e) held s') ->
  ready (attempt (c_local (remove files c a)) fail (fun _ => attempt (c_meta (ms_evict c a t)) fail k)) held s.
Proof.
  intros Hown Ht Hin Hi Hrow Hm Hk He [[v holes] sh] Hr Hok. pose proof (idle_turn _ _ _ _ _ _ (conj Hr Hok) Hi) as Hi'. split; [by apply idle_here|].
  rewrite <- (sr_row _ _ _ _ _ Hr _ _ Hin) in Hrow. cbn [fst snd] in *.
  pose proof (remove_world files c a (sh_world sh)) as H. destruct (c_local (remove files c a) (sh_world sh)) as [r w]. destruct H as (H1 & Hat).
  exists (Hl v ({[(c, a, i)]} ∪ holes)). split.
  - apply touches_guarantee.
    + apply (one_file_ok files owner c a (Hl v holes)); auto; [cbn; set_solver| | |].
      * unfold body_of. cbn. destruct Hat as [-> | ->]; [apply (so_file _ _ _ _ Hok)|done].
      * intros _. right. exists i. set_solver.
      * cbn. intros c' a' j [[= _ _ ->]%elem_of_singleton|Hj]%elem_of_union; auto.
    + apply (one_file_touches files i held c a (Hl v holes)); auto. intros c' a' j Hne. cbn. set_solver.
  - assert (forall c' a', (c', a', i) ∈ {[(c, a, i)]} ∪ holes -> (c', a') = (c, a)) as Hone.
    { intros c' a' [[= -> ->]%elem_of_singleton|Hin']%elem_of_union; [done|]. by apply Hi' in Hin'. }
    destruct r as [u|e]; [|apply He; intros c1 a1 c2 a2 H2%Hone H3%Hone; congruence]. eapply evict_hole_ready; [done|done| |exact Hrow|done|auto|auto].
    exact Hone.
Qed.

Lemma reclaim_ready_s c x b fail k held s : owner i -> is_u64 (cand_eligible_at x) -> GStripe (stripe_of c (cand_artifact x)) ∈ held -> idle s ->
  (forall e held s', lone i s' -> ready (fail e) held s') -> (forall b s', idle s' -> ready (k b) held s') ->
  ready (p_reclaim_one cfg c x b fail k) held s.
Proof.
  intros Hown Hx Hin Hi Hf Hk. unfold p_reclaim_one. set (a := cand_artifact x) in *.
  assert (forall s', idle s' -> ready (attempt (c_meta (ms_evict c a (cand_eligible_at x))) fail (fun evicted =>
    k (match evicted with Removed stored => spend_bytes stored b | Stale => b end))) held s') as Hev.
  { intros s' Hs'. eapply (ready_s_store _ _ _ _ _ _ _ _ _ (evict_law c a _ Hx)); [done| |auto|auto].
    intros s1 H1. apply evict_covered; [apply H1|done]. }
  eapply ready_s_consult; [apply (consults_read _ _ (fun v => mv_artifacts v !! (c, a))), artifact_law|done|].
  intros s1 [[m|]|e] _ Hi1 HQ; [|auto..]. destruct (Z.eqb_spec (eligible_at m) (cand_eligible_at x)) as [E|]; [|auto].
  eapply evict_body_ready; [done|done|done|done|by symmetry|done|auto|auto].
Qed.

Lemma requeue_covered c a old new held s : stripe_ok files owner s.1 s.2 -> GStripe (stripe_of c a) ∈ held ->
  covered files held s (v_requeue c a old new (h_view s.1)).2.
Proof.
  intros Hok Hin. unfold v_requeue. destruct (mv_artifacts (h_view s.1) !! (c, a)) as [m|] eqn:E; [|apply covered_same; [done|apply Hok|done]].
  case_bool; [|apply covered_same; [done|apply Hok|done]]. apply (covered_one _ _ _ c a); [done|apply Hok|done| |].
  - intros k Hne. cbn. by rewrite lookup_insert_ne.
  - intros _. left. by eexists.
Qed.

Lemma candidates_ready_s mode_ t expiry c l b fail k s : owner i -> 0 <= t -> 0 <= expiry -> candidates_u64 l -> idle s ->
  (forall e held s', lone i s' -> ready (fail e) held s') -> (forall b go_on s', idle s' -> ready (k b go_on) [] s') ->
  ready (p_candidates cfg mode_ t expiry c l b fail k) [] s.
Proof.
  intros Hown Ht He Hl Hi Hf Hk. revert b s Hi. induction Hl as [|x l Hx _ IH]; intros b s Hi; cbn [p_candidates]; [auto|].
  destruct (exhausted b); [auto|]. destruct (bool_decide (mode_ = Normal) && negb _); [auto|].
  set (a := cand_artifact x). apply ready_s_lock; [done|]. intros s1 _ Hi1. assert (GStripe (stripe_of c a) ∈ [GStripe (stripe_of c a)]) as Hin by (by left).
  apply ready_s_quiet; [done|done|]. intros s2 [recent|e] _ Hi2 _; [|auto]. destruct (bool_decide (mode_ = Normal) && recent).
  - eapply (ready_s_store _ _ _ _ _ _ _ _ _ (requeue_law c a _ _ Hx (deadline_u64 _ _ Ht He))); [done| | |auto].
    + intros s3 H3. apply requeue_covered; [apply H3|done].
    + intros s3 s4 u _ Hi4 _ _ _ _. apply ready_s_quiet; [by apply quiet_modify|done|]. intros s5 r _ Hi5 _. apply ready_s_release; auto.
  - apply reclaim_ready_s; [done|done|done|done|auto|]. intros b' s3 Hi3. apply ready_s_release; auto.
Qed.

Lemma consults_expiry c : consults (channel_expiry c : M (World S) CacheError Z)
  (fun v r => match r with Ok e => exists record, mv_channels v !! c = Some record /\ e = expiry_seconds record | Err _ => True end).
Proof.
  intros v w Hv. unfold channel_expiry, mbind, M_bind.
  pose proof (consults_read CacheMetadata _ (fun v => mv_channels v !! c) (channel_law c) v w Hv) as H. unfold c_meta.
  destruct (raising CacheMetadata (in_db (ms_channel c)) w) as [[found|e] w']; [|done]. destruct H as (Hv' & Hw & ->).
  destruct (mv_channels v !! c) as [record|] eqn:E; [|done]. case_bool_decide; cbn; eauto.
Qed.

Lemma candidates_of_view v w c limit : viewed v w -> candidates_u64 (take limit (oldest c v)).
Proof.
  intros Hv. apply Forall_forall. intros x Hx. apply list_elem_of_lookup in Hx as [n Hx]. apply lookup_take_Some in Hx as [Hx _].
  apply list_elem_of_lookup_2 in Hx. unfold oldest in Hx. rewrite merge_sort_Permutation in Hx. unfold queue_of in Hx.
  apply list_elem_of_omap in Hx as ([[c' t'] a'] & Hin & Hx). cbn in Hx. case_decide; [|done]. injection Hx as <-. subst c'.
  apply elem_of_elements in Hin. by eapply view_queue_u64.
Qed.

Lemma channels_ready_s mode_ t channels b fail k s : owner i -> 0 <= t -> idle s ->
  (forall e held s', lone i s' -> ready (fail e) held s') -> (forall b s', idle s' -> ready (k b) [] s') ->
  ready (p_channels cfg mode_ t channels b fail k) [] s.
Proof.
  intros Hown Ht Hi Hf Hk. revert b s Hi. induction channels as [|c channels IH]; intros b s Hi; cbn [p_channels]; [auto|].
  destruct (exhausted b); [auto|]. eapply ready_s_consult; [apply consults_expiry|done|]. intros s1 [expiry|e] [_ Hok1] Hi1 HQ; [|auto].
  assert (0 <= expiry) as He by (destruct HQ as (record & Hr & ->); by eapply (so_expiries _ _ _ _ Hok1)).
  eapply ready_s_consult; [apply (consults_read _ _ (fun v => take (remaining_candidates b) (oldest c v))), reclaim_candidates_law|done|].
  intros s2 [l|e] [_ Hok2] Hi2 HQ2; [|auto]. subst l. apply candidates_ready_s; auto.
  - eapply candidates_of_view, Hok2.
  - intros b' [] s3 Hi3; auto.
Qed.

Lemma consults_channels : consults (active_channels : M (World S) CacheError (list ChannelId)) (fun _ _ => True).
Proof.
  intros v w Hv. unfold active_channels, mbind, M_bind.
  pose proof (consults_read CacheMetadata _ registry channels_law v w Hv) as H. unfold c_meta.
  destruct (raising CacheMetadata (in_db ms_channels) w) as [[found|e] w']; by destruct H as (? & ? & _).
Qed.

Lemma maintenance_ready_s observation limit s : owner i -> idle s -> ready (p_maintenance cfg observation limit) [] s.
Proof.
  intros Hown Hi. assert (forall e held s', lone i s' -> ready (Done (OMaintained (Err e))) held s') as Hf by (intros; by apply ready_s_failed).
  apply ready_s_quiet; [by apply quiet_modify|done|]. intros s1 _ _ Hi1 _. apply ready_s_quiet; [by apply quiet_modify|done|]. intros s2 _ _ Hi2 _.
  apply ready_s_quiet; [|done|].
  { intros w. by destruct (mode (w_space w)). }
  intros s3 [mode_|e] _ Hi3 _; [|auto]. apply ready_s_now; [done|]. intros s4 t _ Hi4 Ht.
  eapply ready_s_consult; [apply consults_channels|done|]. intros s5 [channels|e] _ Hi5 _; [|auto].
  apply ready_s_quiet; [by destruct channels|done|]. intros s6 [channels'|e] _ Hi6 _; [|auto]. apply channels_ready_s; auto.
  intros b s7 Hi7. apply ready_s_quiet; [by apply quiet_modify|done|]. intros s8 _ _ Hi8 _.
  apply ready_s_quiet; [by apply quiet_modify|done|]. intros s9 _ _ Hi9 _. by apply ready_s_done.
Qed.

(** ** The channel service *)

Lemma expiries_insert record v : 0 <= expiry_seconds record -> expiries_ok v -> expiries_ok (with_channels <[channel_id record := record]> v).
Proof. intros He H c r. cbn. intros [[_ <-]|[_ Hr]]%lookup_insert_Some; [done|by eapply H]. Qed.

Lemma register_ready_s id secret protected expiry s : idle s -> 0 <= expiry -> ready (p_register id secret protected expiry) [GTicket id] s.
Proof.
  intros Hi He. assert (forall r held s', idle s' -> ready (Done (ORegistered r)) held s') as Hd by (intros; by apply ready_s_done).
  apply ready_s_now; [done|]. intros s1 t _ Hi1 _.
  eapply (ready_s_store _ _ _ _ _ _ _ _ _ (create_channel_law _)); [done| | |auto].
  - intros s2 H2. unfold v_create_channel. cbn [channel_id]. destruct (mv_channels (h_view s2.1) !! id).
    + apply covered_same; [apply H2|apply H2|done].
    + apply covered_same; [apply H2| |done]. cbn [snd]. apply (expiries_insert {| channel_id := id |}); [done|apply H2].
  - intros s2 s3 u _ Hi3 _ _ _ _. apply ready_s_take; auto.
Qed.

Lemma consults_authorize id credential : consults (authorize id credential : M (World S) ChannelError ChannelRecord) (fun _ _ => True).
Proof.
  intros v w Hv. destruct (authorize id credential w) as [[record|e] w'] eqn:E.
  - by apply (authorize_ok v) in E as (? & ? & _).
  - by apply (authorize_err v) in E as (? & ?).
Qed.

Lemma patch_ready_s id credential expiry s : idle s -> 0 <= expiry -> ready (p_patch id credential expiry) [] s.
Proof.
  intros Hi He. assert (forall r held s', idle s' -> ready (Done (OPatched r)) held s') as Hd by (intros; by apply ready_s_done).
  eapply ready_s_consult; [apply consults_authorize|done|]. intros s1 [r1|e] _ Hi1 _; [|auto]. apply ready_s_take; [done|]. intros s2 n Hi2.
  apply ready_s_read_gate; [done|]. intros s3 _ Hi3. eapply ready_s_consult; [apply consults_authorize|done|].
  intros s4 [record|e] _ Hi4 _; [|apply ready_s_release; auto].
  eapply (ready_s_store _ _ _ _ _ _ _ _ _ (store_channel_law _)); [done| |auto|auto].
  intros s5 H5. apply covered_same; [apply H5| |done]. apply (expiries_insert (set_expiry record expiry)); [done|apply H5].
Qed.
End Calls.
