(* ===== verification/Drops.v ===== *)
(** * Clients that go away

    A request is dropped where it stands when its client disconnects: its guards are released, its
    reservation is dropped ([Drop for Reservation], which spawns the removal of its temporary file),
    and a call that was under way in a thread of its own runs on.  As long as that call only reads
    the store and leaves the published files alone, the invariants of [Fences] and [Stripes] survive. *)

From S2P Require Import Prelude Externals Domain Metadata MetadataView MetadataStore Space RecentUse Filesystem ArtifactFiles FilesLemmas World Channels ChannelLemmas Cache CacheLemmas CacheConsistency CacheMaintenance Shard Threads Concurrent ConcurrentLemmas Fences FencedCalls Stripes StripedCalls.

Section Drops.
Context {UL : UlidLib} {ULL : UlidLaws} {HX : HexLib} {HXL : HexLaws} {SH : Sha256Lib} {BS : Base64Lib}.
Context {ZS : ZstdLib} {ZSL : ZstdLaws} {DH : DefaultHasherLib}.
Context {S : Type} {MS : MetadataStore S} {ML : MetadataLaws S}.
Implicit Types (v : MetaView) (w : World S) (files : ArtifactFiles).

Notation program := (@prog UL S outcome).

(** ** What a dropped request may leave running *)

(** The store shows what it showed. *)
Definition unseen w w' : Prop := (forall v, viewed v w -> viewed v w') /\ w_clock w' = w_clock w.

(** And so do the published files. *)
Definition untouched files w w' : Prop := unseen w w' /\ same_artifacts files (nodes (w_fs w)) (nodes (w_fs w')).

(** What is dropped along with a request: a reservation, by a process that has a [runtime] to spawn
    the clean-up on, which [finishes] or is cut off. *)
Definition cleanup (runtime finishes : bool) (r : Reservation) (k : program) : program :=
  Step (settle (drop_reservation runtime finishes r) : M (World S) CacheError unit) (fun _ => k).

(** A request dropped while it waits for a gate or a stripe; one dropped during a call. *)
Definition dropped_waiting (runtime finishes : bool) (r : Reservation) : program := cleanup runtime finishes r (Done ODropped).
Definition dropped_calling {E B} (m : M (World S) E B) (runtime finishes : bool) (r : Reservation) : program :=
  cleanup runtime finishes r (Step m (fun _ => Done ODropped)).

Lemma drop_reservation_tidy files runtime finishes r (l : Local SpaceLedger) : tidy files r ->
  same_artifacts files (nodes (l_fs l)) (nodes (l_fs (drop_reservation runtime finishes r l))).
Proof.
  intros Ht. unfold drop_reservation, tidy in *. destruct (reservation_state r) as [|p|] eqn:Ep; [by case_bool| |by case_bool].
  destruct runtime; [|done]. destruct finishes; [|done]. cbn [schedule_removal]. pose proof (discard_tidy files r l) as H. unfold discard, tidy in H. rewrite Ep in H. by apply H.
Qed.

Lemma cleanup_untouched files runtime finishes r w : tidy files r ->
  untouched files w ((settle (drop_reservation runtime finishes r) : M (World S) CacheError unit) w).2.
Proof. intros Ht. split; [by split|]. by apply (drop_reservation_tidy files runtime finishes r (get_local w)). Qed.

Lemma waiting_left files runtime finishes r : tidy files r -> left_running (untouched files) ODropped (dropped_waiting runtime finishes r).
Proof. intros Ht. split; [|done]. intros w. by apply cleanup_untouched. Qed.

Lemma calling_left {E B} files (m : M (World S) E B) runtime finishes r : tidy files r -> (forall w, untouched files w (m w).2) ->
  left_running (untouched files) ODropped (dropped_calling m runtime finishes r).
Proof. intros Ht Hm. split; [intros w; by apply cleanup_untouched|]. by split. Qed.

(** Reads of the store and the staging of a body are such calls. *)
Lemma read_untouched {E A} files (f : MetadataError -> E) (op : M S MetadataError A) (answer : MetaView -> A) w :
  implements stands_for op (fun v => (Ok (answer v), v)) -> untouched files w (raising f (in_db op) w).2.
Proof.
  intros Hop. assert (w_clock (raising f (in_db op) w).2 = w_clock w /\ w_fs (raising f (in_db op) w).2 = w_fs w) as [Hc Hf].
  { unfold raising, in_db, zoom. by destruct (op (w_db w)) as [[] db]. }
  split; [|by rewrite Hf]. split; [|done]. intros v Hv. pose proof (in_db_spec op _ v w Hop Hv) as Hs. unfold raising.
  destruct (in_db op w) as [[x|e] w']; [by destruct Hs as (_ & ? & _)|]. destruct Hs as (_ & Hs). cbn in Hs. by destruct Hs as [[_ ?]|[_ [?|?]]].
Qed.

Lemma stage_untouched files (c : ChannelId) (n : bytes) stream max_bytes cl d e w :
  untouched files w ((c_local (stage files c n stream max_bytes cl d e) : M (World S) CacheError _) w).2.
Proof.
  pose proof (stage_tidy files c n stream max_bytes cl d e (get_local w)) as H. unfold c_local, raising, in_local, zoom.
  destruct (stage files c n stream max_bytes cl d e (get_local w)) as [[x|er] l]; cbn in *; (split; [by split|apply H]).
Qed.

Lemma untouched_unseen files (p : program) : left_running (untouched files) ODropped p -> left_running unseen ODropped p.
Proof. induction p; cbn; try done. intros [H1 H2]. split; [intros w; by apply H1|auto]. Qed.

(** ** The invariants survive *)

Lemma left_fenced (post : nat -> outcome -> Ghost * @Shared UL S -> Prop) i rest g (sh : @Shared UL S) :
  (forall s, post i ODropped s) -> left_running unseen ODropped rest ->
  safe fence_ok fence_rely (fun i p _ s => match p with Done o => post i o s | _ => True end) i rest [] (g, sh).
Proof.
  intros Hp. revert g sh. induction rest as [o|E B m k IH|id k IH|id k IH|n k IH|n k IH|n k IH|x k IH]; intros g sh Hl; try done.
  - cbn in Hl. subst o. by intros s' _ _.
  - destruct Hl as [Hm Hk]. intros [g' sh'] _ Hok. split; [done|]. cbn [fst snd] in *. destruct (Hm (sh_world sh')) as [Hv Hc].
    destruct (m (sh_world sh')) as [r w]. cbn in Hv, Hc. exists g'. split.
    + apply moves_guarantee; [done|by apply moves_refl|by apply Hv, Hok|done].
    + replace (kept (k r) []) with (@nil guard) by (by destruct (k r)). by apply IH.
Qed.

Lemma left_striped files (owner : nat -> Prop) i rest g (sh : @Shared UL S) : ~ owner i -> left_running (untouched files) ODropped rest ->
  safe (stripe_ok files owner) (stripe_rely files) stripe_here i rest [] (g, sh).
Proof.
  intros Ho. revert g sh. induction rest as [o|E B m k IH|id k IH|id k IH|n k IH|n k IH|n k IH|x k IH]; intros g sh Hl; try done.
  - intros s' _ Hok. split; [|done]. apply idle_here. intros c a Hin. by apply Ho, (so_owner _ _ _ _ Hok c a).
  - destruct Hl as [Hm Hk]. intros [g' sh'] _ Hok. split; [apply idle_here; intros c a Hin; by apply Ho, (so_owner _ _ _ _ Hok c a)|].
    cbn [fst snd] in *. destruct (Hm (sh_world sh')) as [[Hv Hc] Hs].
    destruct (m (sh_world sh')) as [r w]. cbn in Hv, Hc, Hs. exists g'. split.
    + apply touches_guarantee; [|by apply quiet_touches]. destruct Hok as [V C E' F B' W].
      assert (forall c a, body_of files (set_world w sh') c a = body_of files sh' c a) as Hb by (intros c a; apply Hs).
      split; cbn; auto; [intros n; by rewrite Hc|intros c a; rewrite Hb; apply F|].
      intros c a Hr. unfold has_body. rewrite Hb. by apply B'.
    + replace (kept (k r) []) with (@nil guard) by (by destruct (k r)). by apply IH.
Qed.
End Drops.
