(* ===== verification/ConcurrentClaims.v ===== *)
(** * Concurrent calls

    What every interleaving of the shard's operations keeps: a channel without a record is empty and
    a successful deletion final; an artifact row has its body; every pool of calls comes to its end,
    clients that go away included; a call that runs alone is the sequential operation. *)

From S2P Require Import Prelude Externals Domain Records Concrete Metadata MetadataView MetadataRefinement MetadataStore Space RecentUse Filesystem ArtifactFiles FilesLemmas FilesClaims World Channels ChannelLemmas Cache CacheLemmas CacheConsistency CacheMaintenance Shard Samples CacheClaims Threads Concurrent ConcurrentLemmas Fences FencedCalls Stripes StripedCalls Drops.

Lemma schedule_run {UL : UlidLib} {S O} (is_ : list nat) (x y : list (@Thread UL S O) * Shared) : schedule is_ x = Some y -> rtc pool_step x y.
Proof.
  revert x. induction is_ as [|j is_ IH]; intros x H; cbn in H; [injection H as <-; apply rtc_refl|].
  apply bind_Some in H as (z & Hz & H). eapply rtc_l; [by exists j|by apply IH].
Qed.

(** The client of the call at [i] goes away and leaves [rest] running. *)
Definition drop_call {UL : UlidLib} {S O} (i : nat) (rest : prog) (x : list (@Thread UL S O) * @Shared UL S) : option (list Thread * Shared) :=
  t ← x.1 !! i; if finished t then None else Some (<[i := T rest []]> x.1, x.2).

Lemma schedule_moves {UL : UlidLib} {S O} calm (gone : O) may (is_ : list nat) (x y : list (@Thread UL S O) * Shared) :
  schedule is_ x = Some y -> rtc (pool_move calm gone may) x y.
Proof. intros H%schedule_run. eapply rtc_subrel; [|exact H]. by left. Qed.

Lemma drop_call_moves {UL : UlidLib} {S O} calm (gone : O) (may : nat -> Prop) i rest (x y : list (@Thread UL S O) * Shared) :
  drop_call i rest x = Some y -> may i -> left_running calm gone rest -> rtc (pool_move calm gone may) x y.
Proof.
  intros H Hm Hl. unfold drop_call in H. apply bind_Some in H as (t & Ht & H). destruct (finished t) eqn:Ef; [done|]. injection H as <-.
  apply rtc_once. right. by exists i, t, rest.
Qed.

(** The calls the handlers of requests make, which end with their client. *)
Definition requested {UL : UlidLib} {SH : Sha256Lib} (calls : list shard_call) (i : nat) : Prop :=
  exists call, calls !! i = Some call /\ match call with Reconcile | Maintain _ _ | Resume => False | _ => True end.

Section Pools.
Context {UL : UlidLib} {HX : HexLib} {SH : Sha256Lib} {BS : Base64Lib} {ZS : ZstdLib} {DH : DefaultHasherLib}.
Context {S : Type} {MS : MetadataStore S}.

(** C12: whatever calls run at the same time, in whatever order the scheduler picks them, and whichever
    clients go away meanwhile, leaving whatever calls running, the gates and the stripes never leave
    the others waiting: in every state a run can reach either all calls are over or one of them can go
    on, and none goes on for ever. *)
Theorem every_call_completes cfg calls (sh : @Shared UL S) x :
  rtc (pool_move (fun _ _ => True) ODropped (requested calls)) (pool_of cfg calls, sh) x ->
  Acc (fun z y => pool_step y z) x /\ (Forall (fun t => finished t = true) x.1 \/ exists y, pool_step x y).
Proof.
  intros Hrun. split; [apply pool_ends|]. destruct x as [ts sh']. apply no_deadlock.
  apply (move_disciplined _ _ _ _ _ Hrun), pool_disciplined.
Qed.

(** a call that is alone takes its locks without waiting, and ends with the answer and the state
    of the operation that knows of no locks. *)
Theorem lone_call_sequential cfg call (sh : @Shared UL S) : exists sh',
  rtc pool_step (pool_of cfg [call], sh) ([T (Done (sequential cfg call (sh_world sh)).1) []], sh')
  /\ sh_world sh' = (sequential cfg call (sh_world sh)).2.
Proof.
  pose proof (alone_sequential cfg call sh) as H. pose proof (alone_runs _ _ sh (program_orderly cfg call)) as Hrun.
  exists (alone (program_of cfg call) sh).2. rewrite <- H. by split.
Qed.
End Pools.

Section Deletion.
Context {UL : UlidLib} {ULL : UlidLaws} {HX : HexLib} {HXL : HexLaws} {SH : Sha256Lib} {BS : Base64Lib}.
Context {ZS : ZstdLib} {ZSL : ZstdLaws} {DH : DefaultHasherLib}.
Context {S : Type} {MS : MetadataStore S} {ML : MetadataLaws S}.
Implicit Types (v : MetaView) (w : World S).

(** A process that has just started: no gates yet. *)
Definition fresh_process w : @Shared UL S := {| sh_world := w; sh_gates := ∅; sh_objects := [] |}.

(** Maintenance reads a row and writes it back in two steps when it requeues it; the other calls. *)
Definition fenced (call : shard_call) : bool := match call with Maintain _ _ => false | _ => true end.

(** What the end of a call promises from then on. *)
Definition promise (call : shard_call) (o : outcome) (s : Ghost * @Shared UL S) : Prop :=
  match call, o with
  | Delete id _, ODeleted (Ok _) => id ∈ g_born s.1 /\ mv_channels (g_view s.1) !! id = None
  | _, _ => True
  end.

Definition promises (calls : list shard_call) (i : nat) (o : outcome) (s : Ghost * @Shared UL S) : Prop :=
  match calls !! i with Some call => promise call o s | None => True end.

Lemma promises_stable calls i o (s s' : Ghost * @Shared UL S) : fence_rely i [] s s' -> promises calls i o s -> promises calls i o s'.
Proof.
  intros Hr. unfold promises, promise. destruct (calls !! i) as [[]|]; try done. destruct o as [| | | | | | |[]| |]; try done.
  intros [Hb Hn]. split; [by apply (fr_born _ _ _ _ Hr)|by apply (fr_retired _ _ _ _ Hr)].
Qed.

Lemma calls_ready cfg calls i call (s : Ghost * @Shared UL S) : calls !! i = Some call -> call_wf cfg call -> fenced call = true ->
  (forall id, id ∈ fresh_ids [call] -> id ∉ g_born s.1) -> ready (promises calls) i (program_of cfg call) (tickets call) s.
Proof.
  intros Hi Hwf Hf Hid. pose proof (promises_stable calls i) as Hst.
  assert (forall o s', match call, o with Delete _ _, ODeleted (Ok _) => False | _, _ => True end -> promises calls i o s') as Hp.
  { intros o s' Ho. unfold promises, promise. rewrite Hi. destruct call; try done. destruct o as [| | | | | | |[]| |]; done. }
  destruct call as [| | | | | |id sec prot expiry|id cred expiry|id cred|]; cbn [program_of tickets call_wf fresh_ids] in *.
  - apply publish_ready; auto.
  - apply locate_ready; auto.
  - apply bind_ready; auto.
  - apply unbind_ready; auto.
  - apply reconcile_ready; auto.
  - done.
  - apply register_ready; auto. apply Hid. by left.
  - apply patch_ready; auto.
  - apply delete_ready; [done|auto|]. intros s' Hb Hn. unfold promises. by rewrite Hi.
  - apply resume_ready; auto.
Qed.

Lemma dropped_promises calls i (s : Ghost * @Shared UL S) : promises calls i ODropped s.
Proof. unfold promises, promise. by destruct (calls !! i) as [[]|]. Qed.

(** C4: publications, locates, bindings, registrations, patches, deletions, startup recoveries and
    resumptions run at the same time, in any interleaving of their calls to the store and to the file
    layer (each of which is one step and may fail, torn or after it took effect), and clients go away
    at any time except during a write to the store.  At every moment a channel that has no record has
    no artifact, reference or queue row either; and once a deletion has answered that it succeeded,
    its channel has no record for good. *)
Theorem deleted_channels_stay_empty cfg calls v w ts sh :
  viewed v w -> (forall n, 0 <= w_clock w n) -> expiries_ok v -> (forall id, mv_channels v !! id = None -> vacant v id) ->
  NoDup (fresh_ids calls) -> Forall (fun id => mv_channels v !! id = None) (fresh_ids calls) ->
  Forall (fun call => call_wf cfg call /\ fenced call = true) calls ->
  rtc (pool_move unseen ODropped (requested calls)) (pool_of cfg calls, fresh_process w) (ts, sh) ->
  exists v', viewed v' (sh_world sh) /\ (forall id, mv_channels v' !! id = None -> vacant v' id)
    /\ forall i id credential, calls !! i = Some (Delete id credential) -> ts !! i = Some (T (Done (ODeleted (Ok tt))) []) ->
       mv_channels v' !! id = None.
Proof.
  intros Hv Hc He Hvac Hnd Hfresh Hcalls Hrun. set (g0 := Gh v (dom (mv_channels v))).
  assert (fence_ok g0 (fresh_process w)) as Hok.
  { split; cbn; try done. intros id. by rewrite elem_of_dom. }
  apply moves_safe with (ok := fence_ok) (rely := fence_rely) (here := fun i p _ s => match p with Done o => promises calls i o s | _ => True end) in Hrun;
    [|apply fence_rely_refl|apply fence_rely_trans|intros i rest g sh' _ Hl _; by apply left_fenced; [apply dropped_promises|]|].
  - destruct (safe_here _ _ _ fence_rely_refl _ _ Hrun) as (g & Hg & Hhere). exists (g_view g). split; [apply Hg|].
    split; [apply (fo_vacant _ _ Hg)|]. intros i id credential Hi Ht. specialize (Hhere i _ Ht). cbn in Hhere. unfold promises in Hhere.
    rewrite Hi in Hhere. apply Hhere.
  - split; [by apply pool_excluded|]. exists g0. split; [done|]. intros i t Ht. unfold pool_of in Ht. cbn [fst] in Ht.
    rewrite list_lookup_fmap in Ht. destruct (calls !! i) as [call|] eqn:Hi; [|done]. injection Ht as <-.
    rewrite Forall_lookup in Hcalls. destruct (Hcalls _ _ Hi) as [Hwf Hf]. apply (calls_ready cfg calls i call (g0, fresh_process w)); [done..|].
    intros id Hin. cbn. rewrite not_elem_of_dom. rewrite Forall_forall in Hfresh. apply Hfresh.
    apply list_elem_of_omap in Hin as (x & ->%list_elem_of_singleton & Hx). apply list_elem_of_omap. exists call.
    split; [by eapply list_elem_of_lookup_2|done].
Qed.
End Deletion.

Section DeletionWitness.
#[local] Existing Instances toy_ulid toy_ulid_laws real_hex real_hex_laws toy_sha256 toy_zstd toy_zstd_laws.
#[local] Existing Instances toy_base64 toy_hasher toy_store toy_store_laws.

Notation pool := (list (@Thread _ MemDB outcome) * @Shared _ MemDB)%type.

(** Two publications are under way when their channel is deleted.  The deletion waits for both; the
    client of the second goes away while it waits for the stripe, and its temporary file goes. *)
Definition racing_calls : list shard_call :=
  [Register channel_a sample_secret false 60; Publish (lit "t") (sample_publish Zstd); Delete channel_a None; Publish (lit "u") (sample_publish Zstd)].

Definition abandoned : Reservation := {| outstanding := 16; reservation_state := Temporary (temporary_path sample_files channel_a (lit "u")) |}.

Definition racing_dropped : option pool :=
  x ← schedule ([0; 0; 0] ++ repeat 1 6 ++ repeat 3 5 ++ [2; 2; 2; 2; 2; 2; 2])%nat
    (pool_of sample_cfg racing_calls, fresh_process (sample_world [None] []));
  drop_call 3 (dropped_waiting true true abandoned) x.

Definition racing_run : option pool := x ← racing_dropped; schedule (repeat 1 4 ++ [3] ++ repeat 2 5)%nat x.

Definition deletion_answered (i : nat) (x : option pool) : bool :=
  match x with
  | Some (ts, _) => match ts !! i with Some (T (Done (ODeleted (Ok tt))) []) => true | _ => false end
  | None => false
  end.

Lemma racing_answered : deletion_answered 2 racing_run = true.
Proof. vm_compute. reflexivity. Qed.

Lemma deletion_answered_inv i x : deletion_answered i x = true ->
  exists ts sh, x = Some (ts, sh) /\ ts !! i = Some (T (Done (ODeleted (Ok tt))) []).
Proof.
  destruct x as [[ts sh]|]; [|done]. cbn. intros H. exists ts, sh. split; [done|].
  destruct (ts !! i) as [[[[| | | | | | |[[]|]| |]| | | | | | |] []]|]; done.
Qed.

Lemma racing_moves x : racing_run = Some x ->
  rtc (pool_move unseen ODropped (requested racing_calls)) (pool_of sample_cfg racing_calls, fresh_process (sample_world [None] [])) x.
Proof.
  unfold racing_run, racing_dropped. intros (y & (z & Hz & Hy)%bind_Some & H)%bind_Some. apply (schedule_moves unseen ODropped (requested racing_calls)) in Hz, H.
  etrans; [exact Hz|]. etrans; [|exact H]. eapply drop_call_moves; [exact Hy|by eexists|].
  eapply untouched_unseen, (waiting_left sample_files). by eexists _, _.
Qed.

Lemma deleted_channels_stay_empty_witness : exists ts (sh : @Shared toy_ulid MemDB) v',
  rtc (pool_move unseen ODropped (requested racing_calls)) (pool_of sample_cfg racing_calls, fresh_process (sample_world [None] [])) (ts, sh)
  /\ viewed v' (sh_world sh) /\ mv_channels v' !! channel_a = None /\ vacant v' channel_a.
Proof.
  destruct (deletion_answered_inv _ _ racing_answered) as (ts & sh & Hs & Ht). apply racing_moves in Hs.
  destruct (deleted_channels_stay_empty sample_cfg racing_calls empty_view (sample_world [None] []) ts sh
    (sample_world_viewed _ _) (proj1 (proj2 (proj2 (sample_steady _ _)))) (proj2 (proj1 (proj2 (sample_steady [None] []))))) as (v' & Hv & Hvac & Hdel).
  - intros id _. split; [intros a; apply lookup_empty|]. split; [intros n; apply lookup_empty|]. intros t a. apply not_elem_of_empty.
  - cbn. repeat constructor. apply not_elem_of_nil.
  - repeat constructor.
  - constructor; [split; [cbn; lia|done]|]. constructor; [split; [exact (sample_publish_wf Zstd)|done]|].
    constructor; [exact (conj I eq_refl)|]. constructor; [split; [exact (sample_publish_wf Zstd)|done]|]. by constructor.
  - exact Hs.
  - exists ts, sh, v'. pose proof (Hdel 2%nat channel_a None eq_refl Ht) as Hn. auto.
Defined.

(** Who still runs after the drop: the publication whose client is gone holds no gate any more. *)
Lemma racing_unfinished : match racing_dropped with Some (ts, _) => forallb finished ts | None => true end = false.
Proof. vm_compute. reflexivity. Qed.

Lemma racing_dropped_moves x : racing_dropped = Some x ->
  rtc (pool_move (fun _ _ => True) ODropped (requested racing_calls)) (pool_of sample_cfg racing_calls, fresh_process (sample_world [None] [])) x.
Proof.
  unfold racing_dropped. intros (z & Hz & Hy)%bind_Some. apply (schedule_moves (fun _ _ => True) ODropped (requested racing_calls)) in Hz.
  etrans; [exact Hz|]. eapply drop_call_moves; [exact Hy|by eexists|]. split; [auto|]. intros r. reflexivity.
Qed.

Lemma every_call_completes_witness : exists x, racing_dropped = Some x /\ exists y, pool_step x y.
Proof.
  pose proof racing_unfinished as Hno. pose proof racing_dropped_moves as Hm. destruct racing_dropped as [x|]; [|discriminate Hno].
  exists x. split; [reflexivity|]. destruct (every_call_completes sample_cfg racing_calls _ x (Hm x eq_refl)) as [_ [Hf|Hs]]; [|exact Hs].
  exfalso. destruct x as [ts sh]. cbn [fst] in Hf. apply not_true_iff_false in Hno. apply Hno, forallb_forall.
  intros t Ht. rewrite Forall_forall in Hf. by apply Hf, list_elem_of_In.
Defined.
End DeletionWitness.

(** ** Rows and bodies *)

Section Bodies.
Context {UL : UlidLib} {ULL : UlidLaws} {HX : HexLib} {HXL : HexLaws} {SH : Sha256Lib} {BS : Base64Lib}.
Context {ZS : ZstdLib} {ZSL : ZstdLaws} {DH : DefaultHasherLib}.
Context {S : Type} {MS : MetadataStore S} {ML : MetadataLaws S}.
Implicit Types (v : MetaView) (w : World S).

(** The calls other than deletions. *)
Definition striped (call : shard_call) : bool := match call with Delete _ _ | Resume => false | _ => true end.

Definition maintains (calls : list shard_call) (i : nat) : Prop := exists observation limit, calls !! i = Some (Maintain observation limit).

Lemma striped_ready cfg calls i call (s : Holes * @Shared UL S) : calls !! i = Some call -> call_wf cfg call -> striped call = true ->
  idle i s -> ready_s (cache_files cfg) (maintains calls) i (program_of cfg call) (tickets call) s.
Proof.
  intros Hi Hwf Hf Hid. destruct call as [| | | | | |id sec prot expiry|id cred expiry|id cred|]; cbn [program_of tickets call_wf] in *; try done.
  - by apply publish_ready_s.
  - by apply locate_ready_s.
  - by apply bind_ready_s.
  - by apply unbind_ready_s.
  - by apply reconcile_ready_s.
  - apply maintenance_ready_s; [by eexists _, _|done].
  - by apply register_ready_s.
  - by apply patch_ready_s.
Qed.

(** The [i]th call is a maintenance pass that has taken the artifact's body and, its stripe held, is
    about to remove the row; or one that failed. *)
Definition evicting (calls : list shard_call) (ts : list (@Thread UL S outcome)) (i : nat) (c : ChannelId) (a : ArtifactId) : Prop :=
  maintains calls i /\ exists t, ts !! i = Some t
    /\ ((GStripe (stripe_of c a) ∈ t_held t /\ evicts c a (t_prog t)) \/ exists e, t_prog t = Done (OMaintained (Err e))).

(** The artifact the [i]th call has taken the body of. *)
Definition taken_by (holes : gset (ChannelId * ArtifactId * nat)) (i : nat) : option (ChannelId * ArtifactId) :=
  head (omap (fun x => if decide (x.2 = i) then Some x.1 else None) (elements holes)).

Lemma taken_by_member holes i c a : taken_by holes i = Some (c, a) -> (c, a, i) ∈ holes.
Proof.
  unfold taken_by. intros H. apply head_Some_elem_of, list_elem_of_omap in H as ([x j] & Hin%elem_of_elements & H).
  cbn in H. case_decide as Hj; [|done]. injection H as ->. by subst j.
Qed.

Lemma taken_by_lone (g : Holes) (sh : @Shared UL S) i c a : lone i (g, sh) -> (c, a, i) ∈ h_holes g -> taken_by (h_holes g) i = Some (c, a).
Proof.
  intros Hl Hin. destruct (taken_by (h_holes g) i) as [[c' a']|] eqn:E.
  - apply taken_by_member in E. f_equal. by apply Hl.
  - exfalso. unfold taken_by in E. apply head_None in E.
    assert ((c, a) ∈ omap (fun x : ChannelId * ArtifactId * nat => if decide (x.2 = i) then Some x.1 else None) (elements (h_holes g))) as Hx.
    { apply list_elem_of_omap. exists (c, a, i). split; [by apply elem_of_elements|]. cbn. by rewrite decide_True. }
    rewrite E in Hx. by apply elem_of_nil in Hx.
Qed.

(** C6: publications, locates, bindings, registrations, patches, recoveries and maintenance passes
    run at the same time, in any interleaving of their calls to the store and to the file layer,
    any of which may fail, and clients go away at any time except during a write to the store or the
    publication of a file.  At every moment every artifact row has its body on disk, but for at
    most one artifact of each maintenance pass: the one whose body the pass has taken and whose row
    it is about to remove, the artifact's stripe held; or, if the pass has failed, the one it failed
    on. *)
Theorem rows_keep_their_bodies cfg calls v w ts sh :
  steady (cache_files cfg) v w -> NoDup (fresh_ids calls) ->
  Forall (fun call => call_wf cfg call /\ striped call = true) calls ->
  rtc (pool_move (untouched (cache_files cfg)) ODropped (requested calls)) (pool_of cfg calls, fresh_process w) (ts, sh) ->
  exists v' (taken : nat -> option (ChannelId * ArtifactId)), viewed v' (sh_world sh)
    /\ (forall c a, is_Some (mv_artifacts v' !! (c, a)) -> has_body (cache_files cfg) sh c a \/ exists i, taken i = Some (c, a))
    /\ forall i c a, taken i = Some (c, a) -> evicting calls ts i c a.
Proof.
  intros (Hv & [_ He] & Hc & Hcons) Hnd Hcalls Hrun. pose proof (move_length _ _ _ _ _ Hrun) as Hlen. unfold pool_of in Hlen. cbn [fst] in Hlen. rewrite length_fmap in Hlen.
  set (ok := stripe_ok (cache_files cfg) (maintains calls)). set (g0 := Hl v ∅).
  assert (ok g0 (fresh_process w)) as Hok.
  { split; cbn; try done.
    - intros c a. specialize (Hcons c a). unfold body_of. cbn. by destruct (mv_artifacts v !! (c, a)), (nodes (w_fs w) !! _) as [[]|].
    - intros c a [m Hm]. specialize (Hcons c a). unfold row_of in Hm. cbn in Hm. rewrite Hm in Hcons. left. unfold has_body, body_of. cbn.
      destruct (nodes (w_fs w) !! _) as [[|content]|]; [done|eauto|done]. }
  apply moves_safe with (ok := ok) (rely := stripe_rely (cache_files cfg)) (here := stripe_here) in Hrun;
    [|apply stripe_rely_refl|apply stripe_rely_trans|intros i rest g sh' (call & Hi & Hq) Hl _; apply left_striped; [|done];
      intros (? & ? & Hm); rewrite Hi in Hm; by injection Hm as ->|].
  - destruct (safe_here _ _ _ (stripe_rely_refl _) _ _ Hrun) as (g & Hg & Hhere). exists (h_view g), (taken_by (h_holes g)). split; [apply Hg|].
    assert (forall c a i, (c, a, i) ∈ h_holes g -> maintains calls i /\ exists t, ts !! i = Some t /\ stripe_here i (t_prog t) (t_held t) (g, sh)) as Hpass.
    { intros c a i Hi. destruct (so_owner _ _ _ _ Hg _ _ _ Hi) as (observation & limit & Hcall).
      destruct (lookup_lt_is_Some_2 ts i) as [t Ht]; [rewrite Hlen; by eapply lookup_lt_Some|].
      split; [by eexists _, _|]. exists t. split; [done|by apply Hhere]. }
    split.
    + intros c a Hr. destruct (so_body _ _ _ _ Hg c a Hr) as [?|[i Hi]]; [by left|right]. exists i.
      destruct (Hpass c a i Hi) as (_ & t & _ & Hl & _). by apply (taken_by_lone g sh).
    + intros i c a Hi%taken_by_member. destruct (Hpass c a i Hi) as (Hm & t & Ht & _ & H). split; [done|]. exists t. auto.
  - split; [by apply pool_excluded|]. exists g0. split; [done|]. intros i t Ht. unfold pool_of in Ht. cbn [fst] in Ht.
    rewrite list_lookup_fmap in Ht. destruct (calls !! i) as [call|] eqn:Hi; [|done]. injection Ht as <-.
    rewrite Forall_lookup in Hcalls. destruct (Hcalls _ _ Hi) as [Hwf Hf]. by apply (striped_ready cfg calls i call (g0, fresh_process w)).
Qed.
End Bodies.

Section BodiesWitness.
#[local] Existing Instances toy_ulid toy_ulid_laws real_hex real_hex_laws toy_sha256 toy_zstd toy_zstd_laws.
#[local] Existing Instances toy_base64 toy_hasher toy_store toy_store_laws.

Notation pool := (list (@Thread _ MemDB outcome) * @Shared _ MemDB)%type.

(** A body is published, and evicted under pressure while somebody is about to open it and somebody
    else, whose client goes away during the lookup, was about to. *)
Definition evicting_calls : list shard_call :=
  [Publish (lit "t") (sample_publish Zstd); Locate channel_a (sample_artifact "hello world"); Maintain (Some 0) 5;
   Locate channel_a (sample_artifact "hello world")].

Definition lookup_call : M (World MemDB) CacheError (option ArtifactMetadata) := c_meta (ms_artifact channel_a (sample_artifact "hello world")).

Definition evicting_run : option pool :=
  x ← schedule (repeat 0 10 ++ [1])%nat (pool_of sample_cfg evicting_calls, fresh_process (open_shard [] []));
  x ← drop_call 3 (dropped_calling lookup_call true true Reservation_new) x;
  schedule ([3] ++ repeat 2 12 ++ [3; 1])%nat x.

(** The body is gone, and the pass holds the stripe. *)
Definition mid_eviction (x : option pool) : bool :=
  match x with
  | Some (ts, sh) =>
      bool_decide (body_of sample_files sh channel_a (sample_artifact "hello world") = None)
      && match ts !! 2%nat with Some t => bool_decide (GStripe (stripe_of channel_a (sample_artifact "hello world")) ∈ t_held t) | None => false end
  | None => false
  end.

Lemma evicting_runs : mid_eviction evicting_run = true.
Proof. vm_compute. reflexivity. Qed.

Lemma evicting_moves x : evicting_run = Some x ->
  rtc (pool_move (untouched sample_files) ODropped (requested evicting_calls)) (pool_of sample_cfg evicting_calls, fresh_process (open_shard [] [])) x.
Proof.
  unfold evicting_run. intros (z & Hz & (y & Hy & H)%bind_Some)%bind_Some.
  apply (schedule_moves (untouched sample_files) ODropped (requested evicting_calls)) in Hz, H.
  etrans; [exact Hz|]. etrans; [|exact H]. eapply drop_call_moves; [exact Hy|by eexists|].
  apply calling_left; [done|]. intros w. unfold lookup_call, c_meta. eapply read_untouched, artifact_law.
Qed.

Lemma evicting_wf : Forall (fun call => call_wf sample_cfg call /\ striped call = true) evicting_calls.
Proof.
  constructor; [split; [exact (sample_publish_wf Zstd)|done]|]. constructor; [done|]. constructor; [|by constructor].
  split; [|done]. by intros x [= <-].
Qed.

Lemma rows_keep_their_bodies_witness : exists ts (sh : @Shared toy_ulid MemDB) v',
  rtc (pool_move (untouched sample_files) ODropped (requested evicting_calls)) (pool_of sample_cfg evicting_calls, fresh_process (open_shard [] [])) (ts, sh)
  /\ mid_eviction (Some (ts, sh)) = true /\ viewed v' (sh_world sh)
  /\ forall c a, is_Some (mv_artifacts v' !! (c, a)) -> has_body sample_files sh c a \/ exists i, evicting evicting_calls ts i c a.
Proof.
  destruct open_shard_steady as [v Hst]. pose proof evicting_runs as Hmid. pose proof evicting_moves as Hmoves.
  destruct evicting_run as [[ts sh]|] eqn:Hs; [|discriminate].
  specialize (Hmoves _ eq_refl). destruct (rows_keep_their_bodies sample_cfg evicting_calls v (open_shard [] []) ts sh Hst) as (v' & taken & Hv & Hb & Ht).
  - cbn. constructor.
  - exact evicting_wf.
  - exact Hmoves.
  - exists ts, sh, v'. split; [exact Hmoves|]. split; [exact Hmid|]. split; [exact Hv|].
    intros c a Hr. destruct (Hb c a Hr) as [H|[i Hi]]; [left; exact H|right; exists i; exact (Ht i c a Hi)].
Defined.
End BodiesWitness.

(** ** Where the locks do not suffice *)

Section Races.
#[local] Existing Instances toy_ulid toy_ulid_laws real_hex real_hex_laws toy_sha256 toy_zstd toy_zstd_laws.
#[local] Existing Instances toy_base64 toy_hasher toy_store toy_store_laws.

Notation pool := (list (@Thread _ MemDB outcome) * @Shared _ MemDB)%type.

(** How the call at [i] ended, and the shard it left. *)
Definition ending (x : option pool) (i : nat) : option outcome :=
  '(ts, _) ← x; t ← ts !! i; match t_prog t with Done o => Some o | _ => None end.
Definition left_by (x : option pool) : option (World MemDB) := '(_, sh) ← x; Some (sh_world sh).

Definition record_state (id : ChannelId) (w : World MemDB) : option Lifecycle :=
  match (ms_channel id (w_db w)).1 with Ok (Some record) => Some (state record) | _ => None end.

(** A patch reads the record, a deletion marks it, and the patch writes what it read: the wipe of the
    channel then fails halfway, and the channel is neither marked nor resumed, but open for business. *)
Definition patched_deletion : option pool :=
  schedule [0; 0; 0; 0; 1; 1; 1; 1; 1; 1; 0; 1; 1; 1; 1]%nat
    (pool_of sample_cfg [Patch channel_a None 70; Delete channel_a None], fresh_process (open_shard [] [Some disk_full])).

Lemma patch_undoes_the_mark :
  match ending patched_deletion 1, left_by patched_deletion with
  | Some (ODeleted (Err _)), Some w =>
      record_state channel_a w = Some Active /\ record_state channel_a (resume_deletions sample_files w).2 = Some Active
  | _, _ => False
  end.
Proof. vm_compute. split; reflexivity. Qed.

(** A row has lost its body to an eviction that failed.  A locate finds the body missing; the artifact
    is published again; the locate then removes the row of the new publication. *)
Definition lost_publication : option pool :=
  schedule [0; 0; 1; 1; 1; 1; 1; 1; 1; 1; 1; 1; 0; 0; 0; 0]%nat
    (pool_of sample_cfg [Locate channel_a (sample_artifact "hello world"); Publish (lit "u") (sample_publish Zstd)],
     fresh_process (shard_run sample_cfg [Publish (lit "t") (sample_publish Zstd); Maintain (Some 0) 5; Maintain (Some 100) 0] (open_shard [None; Some false] []))).

Lemma locate_drops_a_publication :
  match ending lost_publication 1, left_by lost_publication with
  | Some (OPublished (Ok (AdmissionPublished _))), Some w => (locate sample_cfg channel_a (sample_artifact "hello world") w).1 = Ok None
  | _, _ => False
  end.
Proof. vm_compute. reflexivity. Qed.

(** A client goes away while the last store call of its operation is under way: the operation is
    dropped with its guards, the call runs on in its own thread. *)
Definition disconnects (i : nat) (x : pool) : option pool := t ← x.1 !! i; Some (<[i := T (t_prog t) []]> x.1, x.2).

(** A reference is being bound when its client goes away; the channel is deleted; the write lands. *)
Definition late_write : option pool :=
  x ← schedule [0; 0; 0; 0]%nat
    (pool_of sample_cfg [Bind channel_a (lit "name") (sample_artifact "hello world") None None Durable; Delete channel_a None],
     fresh_process (open_shard [] []));
  x ← disconnects 0 x;
  schedule [1; 1; 1; 1; 1; 1; 1; 1; 1; 1; 1; 1; 0]%nat x.

Lemma disconnection_outlives_a_deletion :
  match ending late_write 1, left_by late_write with
  | Some (ODeleted (Ok _)), Some w =>
      record_state channel_a w = None /\ is_Some (match (ms_reference channel_a (lit "name") (w_db w)).1 with Ok found => found | Err _ => None end)
  | _, _ => False
  end.
Proof. vm_compute. split; [reflexivity|by eexists]. Qed.
End Races.
