(* ===== verification/Telemetry.v ===== *)
(** * Telemetry ([telemetry.rs] and the metrics of [agent/mod.rs])

    What each process registers with its Prometheus registry, and how a prefetch response body is
    observed from its headers until it is dropped.  The registry is a library's; the counters are
    numbers. *)

From S2P Require Import Prelude Externals Domain ArtifactFiles World.

(** ** Registration *)

Inductive MetricKind := CounterKind | GaugeKind | CounterVecKind (labels : list string)
  | HistogramKind (millis : list Z) | HistogramVecKind (labels : list string).

(** What [Opts] or [HistogramOpts] say of a collector; a bucket bound in milliseconds. *)
Record Collector := { metric_name : string; metric_help : string; metric_kind : MetricKind }.

(** [prometheus::Registry], with the names it has taken. *)
Class PrometheusLib (R : Type) := {
  registry_new : R;
  registry_register : Collector -> R -> result string R;
  registry_names : R -> list string
}.

(** Metric names follow the Prometheus data model. *)
Definition name_start (c : ascii) : bool :=
  let n := nat_of_ascii c in ((65 <=? n) && (n <=? 90) || (97 <=? n) && (n <=? 122))%nat || bool_decide (c = "_"%char) || bool_decide (c = ":"%char).
Definition name_char (c : ascii) : bool := let n := nat_of_ascii c in name_start c || ((48 <=? n) && (n <=? 57))%nat.

Definition valid_name (name : string) : bool :=
  match lit name with [] => false | c :: rest => name_start c && forallb name_char rest end.

(** A collector is refused when its name is malformed or taken, and for nothing else. *)
Class PrometheusLaws (R : Type) {PR : PrometheusLib R} : Prop := {
  registry_empty : registry_names registry_new = [];
  register_fresh c r : valid_name (metric_name c) = true -> metric_name c ∉ registry_names r ->
    exists r', registry_register c r = Ok r' /\ registry_names r' = registry_names r ++ [metric_name c];
  register_taken c r : metric_name c ∈ registry_names r -> exists e, registry_register c r = Err e
}.

Definition int_counter (name help : string) : Collector := {| metric_name := name; metric_help := help; metric_kind := CounterKind |}.
Definition int_counter_vec (name help : string) (labels : list string) : Collector :=
  {| metric_name := name; metric_help := help; metric_kind := CounterVecKind labels |}.
Definition int_gauge (name help : string) : Collector := {| metric_name := name; metric_help := help; metric_kind := GaugeKind |}.
Definition histogram (name help : string) (buckets : list Z) : Collector :=
  {| metric_name := name; metric_help := help; metric_kind := HistogramKind buckets |}.

Definition transfer_buckets : list Z := [10; 50; 100; 250; 500; 1000; 2500; 5000; 10000; 30000; 60000].
Definition request_buckets : list Z := [1; 5; 10; 25; 50; 100; 250; 500; 1000; 2500; 5000].

(** The collectors of [Metrics::new], in the order they are registered. *)
Definition shard_collectors : list Collector := [
  int_counter "flywheel_requests_total" "HTTP requests received by this replica.";
  {| metric_name := "flywheel_http_request_duration_seconds"; metric_help := "Time from request receipt until response headers are ready.";
     metric_kind := HistogramVecKind ["method"; "route"; "status"]%string |};
  int_counter "flywheel_artifact_hits_total" "Successful artifact locations.";
  int_counter "flywheel_artifact_misses_total" "Artifact locations that missed.";
  int_counter "flywheel_bytes_read_total" "Logical artifact bytes attributed to successful locations.";
  int_counter "flywheel_bytes_written_total" "Logical artifact bytes fully staged.";
  int_counter "flywheel_authorization_denials_total" "Protected channel authorization denials.";
  int_counter "flywheel_maintenance_reclaimed_total" "Artifacts reclaimed by maintenance.";
  int_counter "flywheel_maintenance_requeued_total" "Recently used artifacts assigned a new eviction deadline.";
  int_counter "flywheel_build_cache_bypasses_total" "Build-cache writes accepted without storage under disk pressure.";
  int_counter "flywheel_raw_pressure_errors_total" "Raw artifact and CAS writes rejected under disk pressure.";
  int_gauge "flywheel_foreground_concurrency_limit" "Configured shard foreground concurrency limit.";
  int_gauge "flywheel_foreground_in_flight" "Shard foreground operations and response streams currently admitted.";
  int_counter "flywheel_foreground_rejections_total" "Requests rejected because the shard foreground limit was exhausted.";
  int_counter "flywheel_prefetch_requests_total" "Prefetch object requests received by this shard.";
  int_counter_vec "flywheel_prefetch_responses_total" "Prefetch responses classified at response headers." ["outcome"%string];
  int_gauge "flywheel_prefetch_in_flight" "Prefetch response bodies currently streaming from this shard.";
  int_counter_vec "flywheel_prefetch_transfers_total" "Prefetch response bodies by terminal outcome." ["outcome"%string];
  int_counter "flywheel_prefetch_response_bytes_total" "Prefetch response body bytes actually streamed by this shard.";
  histogram "flywheel_prefetch_transfer_duration_seconds"
    "Prefetch response body lifetime, including transfers cancelled by the client." transfer_buckets;
  int_gauge "flywheel_free_observed_bytes" "Last successful filesystem free-space observation.";
  int_gauge "flywheel_reserved_bytes" "Capacity held by in-flight artifact writes.";
  int_gauge "flywheel_committed_since_bytes" "Committed bytes not yet included in the free-space observation."
].

(** The collectors of [AgentMetrics::new]. *)
Definition agent_collectors : list Collector := [
  int_counter "flywheel_agent_requests_total" "Requests received by the routing agent.";
  int_counter "flywheel_agent_forwarded_total" "Requests forwarded to a shard.";
  histogram "flywheel_agent_forward_duration_seconds" "Time from agent request receipt until response headers are ready." request_buckets;
  int_counter "flywheel_agent_forward_failures_total" "Shard connection failures and send timeouts.";
  int_counter "flywheel_agent_synthesized_misses_total" "Build-cache misses synthesized without a shard response.";
  int_counter "flywheel_agent_synthesized_write_bypasses_total" "Build-cache write successes synthesized without storing the body.";
  int_counter "flywheel_agent_unavailable_total" "Non-build-cache requests that could not reach an owner.";
  int_counter "flywheel_agent_ejections_total" "Shard ejections from the routing ring.";
  int_counter "flywheel_agent_prefetch_requests_total" "Prefetch requests received by the routing agent.";
  int_counter "flywheel_agent_prefetch_hits_total" "Prefetch requests answered successfully by a shard.";
  int_counter "flywheel_agent_prefetch_misses_total" "Prefetch requests answered with a cache miss.";
  int_counter "flywheel_agent_prefetch_unavailable_total" "Prefetch requests unavailable because no shard produced a cache response.";
  int_counter "flywheel_agent_prefetch_response_bytes_total" "Prefetch response bytes actually streamed through the agent.";
  int_gauge "flywheel_agent_prefetch_in_flight" "Prefetch response bodies currently streaming through the agent.";
  int_counter "flywheel_agent_prefetch_completed_total" "Prefetch response bodies streamed to completion.";
  int_counter "flywheel_agent_prefetch_cancelled_total" "Prefetch response bodies dropped before completion.";
  histogram "flywheel_agent_prefetch_transfer_duration_seconds" "Prefetch response body lifetime through the agent." transfer_buckets;
  int_gauge "flywheel_agent_ring_members" "Members in the current routing ring.";
  int_gauge "flywheel_agent_ring_ejected" "Members currently ejected from the routing ring."
].

Section Registration.
Context {R : Type} {PR : PrometheusLib R}.

(** [register(..)?], one collector after the other *)
Fixpoint register_all (cs : list Collector) (r : R) : result string R :=
  match cs with
  | [] => Ok r
  | c :: cs => match registry_register c r with Ok r => register_all cs r | Err e => Err e end
  end.

(** The registry and the gauge of the configured limit; every other collector starts at zero. *)
Definition Metrics_new (configured_foreground_limit : Z) : result string (R * Z) :=
  match register_all shard_collectors registry_new with
  | Ok r => Ok (r, saturating_i64 configured_foreground_limit)
  | Err e => Err e
  end.

Definition AgentMetrics_new : result string R := register_all agent_collectors registry_new.
End Registration.

(** [metrics]: the page of either process; [encoded] is what the encoder made of the registry *)
Inductive metrics_page := MetricsText (body : bytes) | MetricsFailed.

Definition metrics_response (encoded : result string bytes) : metrics_page :=
  match encoded with Ok body => MetricsText body | Err _ => MetricsFailed end.

(** ** Prefetch observations *)

(** A duration is a number of nanoseconds. *)
Class PrefetchRecorder (R : Type) := {
  prefetch_started : R -> Z * R;
  prefetch_response : Z -> R -> R;
  prefetch_finished : Z -> Z -> bool -> R -> R
}.

(** *** The shard's recorder *)

Record ShardPrefetch := {
  sp_requests : Z;
  sp_hits : Z; sp_misses : Z; sp_unavailable : Z;
  sp_in_flight : Z;
  sp_completed : Z; sp_cancelled : Z;
  sp_bytes : Z;
  sp_durations : list Z
}.

Definition zero_shard_prefetch : ShardPrefetch := {|
  sp_requests := 0; sp_hits := 0; sp_misses := 0; sp_unavailable := 0; sp_in_flight := 0; sp_completed := 0; sp_cancelled := 0;
  sp_bytes := 0; sp_durations := [] |}.

#[export] Instance shard_recorder : PrefetchRecorder ShardPrefetch := {
  prefetch_started m :=
    (sp_in_flight m + 1,
     {| sp_requests := sp_requests m + 1; sp_hits := sp_hits m; sp_misses := sp_misses m; sp_unavailable := sp_unavailable m;
        sp_in_flight := sp_in_flight m + 1; sp_completed := sp_completed m; sp_cancelled := sp_cancelled m;
        sp_bytes := sp_bytes m; sp_durations := sp_durations m |});
  prefetch_response status m :=
    let hit := (200 <=? status) && (status <? 300) in
    let miss := negb hit && (status =? 404) in
    {| sp_requests := sp_requests m; sp_hits := sp_hits m + (if hit then 1 else 0); sp_misses := sp_misses m + (if miss then 1 else 0);
       sp_unavailable := sp_unavailable m + (if hit || miss then 0 else 1);
       sp_in_flight := sp_in_flight m; sp_completed := sp_completed m; sp_cancelled := sp_cancelled m;
       sp_bytes := sp_bytes m; sp_durations := sp_durations m |};
  prefetch_finished duration bytes completed m :=
    {| sp_requests := sp_requests m; sp_hits := sp_hits m; sp_misses := sp_misses m; sp_unavailable := sp_unavailable m;
       sp_in_flight := sp_in_flight m - 1; sp_completed := sp_completed m + (if completed then 1 else 0);
       sp_cancelled := sp_cancelled m + (if completed then 0 else 1);
       sp_bytes := sp_bytes m + bytes; sp_durations := duration :: sp_durations m |}
}.

(** *** The agent's recorder, which classifies responses elsewhere *)

Record AgentPrefetch := {
  ap_requests : Z;
  ap_in_flight : Z;
  ap_completed : Z; ap_cancelled : Z;
  ap_bytes : Z;
  ap_durations : list Z
}.

Definition zero_agent_prefetch : AgentPrefetch := {|
  ap_requests := 0; ap_in_flight := 0; ap_completed := 0; ap_cancelled := 0; ap_bytes := 0; ap_durations := [] |}.

#[export] Instance agent_recorder : PrefetchRecorder AgentPrefetch := {
  prefetch_started m :=
    (ap_in_flight m + 1,
     {| ap_requests := ap_requests m + 1; ap_in_flight := ap_in_flight m + 1; ap_completed := ap_completed m;
        ap_cancelled := ap_cancelled m; ap_bytes := ap_bytes m; ap_durations := ap_durations m |});
  prefetch_response _ m := m;
  prefetch_finished duration bytes completed m :=
    {| ap_requests := ap_requests m; ap_in_flight := ap_in_flight m - 1;
       ap_completed := ap_completed m + (if completed then 1 else 0); ap_cancelled := ap_cancelled m + (if completed then 0 else 1);
       ap_bytes := ap_bytes m + bytes; ap_durations := duration :: ap_durations m |}
}.

(** *** One body *)

Record PrefetchObservation := {
  ob_started : Z;
  ob_route : option bytes;
  ob_session : option bytes;
  ob_concurrency : option Z;
  ob_status : Z;
  ob_bytes : Z;
  ob_completed : bool
}.

Section Observation.
Context {R : Type} {PR : PrefetchRecorder R}.

(** [PrefetchObservation::start] at [now] *)
Definition observation_start (now : Z) (route session : option bytes) (concurrency : option Z) (r : R) : PrefetchObservation * R :=
  let '(_, r) := prefetch_started r in
  ({| ob_started := now; ob_route := route; ob_session := session; ob_concurrency := concurrency; ob_status := 0; ob_bytes := 0;
      ob_completed := false |}, r).

Definition set_status (status : Z) (o : PrefetchObservation) (r : R) : PrefetchObservation * R :=
  ({| ob_started := ob_started o; ob_route := ob_route o; ob_session := ob_session o; ob_concurrency := ob_concurrency o;
      ob_status := status; ob_bytes := ob_bytes o; ob_completed := ob_completed o |}, prefetch_response status r).

Definition add_bytes (n : Z) (o : PrefetchObservation) : PrefetchObservation :=
  {| ob_started := ob_started o; ob_route := ob_route o; ob_session := ob_session o; ob_concurrency := ob_concurrency o;
     ob_status := ob_status o; ob_bytes := saturating_add (ob_bytes o) n; ob_completed := ob_completed o |}.

Definition complete (o : PrefetchObservation) : PrefetchObservation :=
  {| ob_started := ob_started o; ob_route := ob_route o; ob_session := ob_session o; ob_concurrency := ob_concurrency o;
     ob_status := ob_status o; ob_bytes := ob_bytes o; ob_completed := true |}.

(** [Drop for PrefetchObservation] at [now] *)
Definition observation_drop (now : Z) (o : PrefetchObservation) (r : R) : R :=
  prefetch_finished (now - ob_started o) (ob_bytes o) (ob_completed o) r.

(** [observe_prefetch_body]: what the stream yields next and the state it keeps; at the end the
    observation is completed and dropped. *)
Definition observed_next (stream : body_stream) (o : PrefetchObservation)
    : option (result string bytes * body_stream) * PrefetchObservation :=
  match stream with
  | Ok chunk :: stream => (Some (Ok chunk, stream), add_bytes (Z.of_nat (length chunk)) o)
  | Err e :: stream => (Some (Err e, stream), o)
  | [] => (None, complete o)
  end.

(** *** Many bodies at once *)

(** An observed request: its response body once there is one, and what its client has received. *)
Record Transfer := { tr_observation : PrefetchObservation; tr_whole : option body_stream; tr_rest : body_stream; tr_received : bytes }.

(** A request that is over: what was to come, what was received, and whether the stream ended. *)
Record Ended := { en_whole : option body_stream; en_received : bytes; en_completed : bool }.

Record Transfers := { ts_recorder : R; ts_live : gmap nat Transfer; ts_ended : list Ended }.

Definition end_transfer (now : Z) (i : nat) (t : Transfer) (o : PrefetchObservation) (s : Transfers) : Transfers := {|
  ts_recorder := observation_drop now o (ts_recorder s);
  ts_live := delete i (ts_live s);
  ts_ended := {| en_whole := tr_whole t; en_received := tr_received t; en_completed := ob_completed o |} :: ts_ended s |}.

Inductive transfer_step : Transfers -> Transfers -> Prop :=
| transfer_starts s i now route session concurrency :
    ts_live s !! i = None ->
    transfer_step s
      (let '(o, r) := observation_start now route session concurrency (ts_recorder s) in
       {| ts_recorder := r; ts_live := <[i := {| tr_observation := o; tr_whole := None; tr_rest := []; tr_received := [] |}]> (ts_live s);
          ts_ended := ts_ended s |})
| transfer_responds s i t status stream :
    ts_live s !! i = Some t -> tr_whole t = None ->
    transfer_step s
      (let '(o, r) := set_status status (tr_observation t) (ts_recorder s) in
       {| ts_recorder := r;
          ts_live := <[i := {| tr_observation := o; tr_whole := Some stream; tr_rest := stream; tr_received := tr_received t |}]> (ts_live s);
          ts_ended := ts_ended s |})
| transfer_yields s i t item rest o :
    ts_live s !! i = Some t -> is_Some (tr_whole t) -> observed_next (tr_rest t) (tr_observation t) = (Some (item, rest), o) ->
    transfer_step s
      {| ts_recorder := ts_recorder s;
         ts_live := <[i := {| tr_observation := o; tr_whole := tr_whole t; tr_rest := rest;
                              tr_received := tr_received t ++ match item with Ok chunk => chunk | Err _ => [] end |}]> (ts_live s);
         ts_ended := ts_ended s |}
| transfer_ends s i t now o :
    ts_live s !! i = Some t -> is_Some (tr_whole t) -> observed_next (tr_rest t) (tr_observation t) = (None, o) ->
    transfer_step s (end_transfer now i t o s)
| transfer_dropped s i t now :
    ts_live s !! i = Some t -> transfer_step s (end_transfer now i t (tr_observation t) s).
End Observation.
Arguments Transfers : clear implicits.
