(* ===== verification/TelemetryClaims.v ===== *)
(** * What telemetry shows

    Both processes can register what they count; and whatever clients do to their prefetches, the
    counters add up. *)

From S2P Require Import Prelude Externals Domain ArtifactFiles World Telemetry.

(** ** Registration *)

Section Registration.
Context {R : Type} {PR : PrometheusLib R} {PL : PrometheusLaws R}.

Lemma register_all_fresh cs (r : R) : Forall (fun c => valid_name (metric_name c) = true) cs ->
  NoDup (registry_names r ++ map metric_name cs) ->
  exists r', register_all cs r = Ok r' /\ registry_names r' = registry_names r ++ map metric_name cs.
Proof.
  intros Hv. revert r. induction Hv as [|c cs Hc _ IH]; intros r Hnd; cbn in *; [exists r; by rewrite app_nil_r|].
  destruct (register_fresh c r Hc) as (r1 & -> & Hr1).
  { intros Hin. apply NoDup_app in Hnd as (_ & Hnd & _). apply (Hnd _ Hin). by left. }
  destruct (IH r1) as (r2 & -> & Hr2).
  { rewrite Hr1, <- (assoc_L (++)). exact Hnd. }
  exists r2. by rewrite Hr2, Hr1, <- (assoc_L (++)).
Qed.

(** with a registry that refuses nothing but malformed and taken names, neither the shard nor the
    agent fails to start over its metrics: every collector is registered, under its own name, and the
    limit gauge holds the configured limit as far as it can. *)
Theorem metrics_always_register limit :
  (exists r : R, Metrics_new limit = Ok (r, Z.min limit (2 ^ 63 - 1)) /\ registry_names r = map metric_name shard_collectors)
  /\ (exists r : R, AgentMetrics_new = Ok r /\ registry_names r = map metric_name agent_collectors)
  /\ NoDup (map metric_name (shard_collectors ++ agent_collectors)).
Proof.
  assert (NoDup (map metric_name (shard_collectors ++ agent_collectors))) as Hnd.
  { apply (bool_decide_unpack _). vm_compute. exact I. }
  rewrite map_app in Hnd. pose proof Hnd as (Hs & _ & Ha)%NoDup_app. unfold Metrics_new, AgentMetrics_new. split; [|split].
  - destruct (register_all_fresh shard_collectors registry_new) as (r & -> & Hr).
    + repeat constructor.
    + by rewrite registry_empty.
    + exists r. by rewrite Hr, registry_empty.
  - destruct (register_all_fresh agent_collectors registry_new) as (r & -> & Hr).
    + repeat constructor.
    + by rewrite registry_empty.
    + exists r. by rewrite Hr, registry_empty.
  - by rewrite map_app.
Qed.
End Registration.

(** ** Prefetches *)

(** What both recorders count. *)
Class RecorderLaws (R : Type) {PR : PrefetchRecorder R} := {
  c_requests : R -> Z; c_in_flight : R -> Z; c_completed : R -> Z; c_cancelled : R -> Z; c_bytes : R -> Z;
  counters (r : R) := (c_requests r, c_in_flight r, c_completed r, c_cancelled r, c_bytes r);
  started_law r : (prefetch_started r).1 = c_in_flight r + 1
    /\ counters (prefetch_started r).2 = (c_requests r + 1, c_in_flight r + 1, c_completed r, c_cancelled r, c_bytes r);
  response_law status r : counters (prefetch_response status r) = counters r;
  finished_law d n b r : counters (prefetch_finished d n b r)
    = (c_requests r, c_in_flight r - 1, c_completed r + (if b : bool then 1 else 0), c_cancelled r + (if b : bool then 0 else 1), c_bytes r + n)
}.

#[export] Instance shard_recorder_laws : RecorderLaws ShardPrefetch.
Proof. by refine {| c_requests := sp_requests; c_in_flight := sp_in_flight; c_completed := sp_completed; c_cancelled := sp_cancelled; c_bytes := sp_bytes |}. Defined.

#[export] Instance agent_recorder_laws : RecorderLaws AgentPrefetch.
Proof. by refine {| c_requests := ap_requests; c_in_flight := ap_in_flight; c_completed := ap_completed; c_cancelled := ap_cancelled; c_bytes := ap_bytes |}. Defined.

(** Equations between tuples of numbers. *)
Ltac tuple_lia := repeat match goal with |- (_, _) = (_, _) => apply (f_equal2 pair) end; lia.

Section Prefetches.
Context {R : Type} {PR : PrefetchRecorder R} {RL : RecorderLaws R}.
Implicit Types (s : Transfers R) (t : Transfer).

(** What a stream delivers. *)
Definition delivered (stream : body_stream) : bytes := concat (map (fun item => match item with Ok chunk => chunk | Err _ => [] end) stream).

Definition counted_bytes (received : bytes) : Z := Z.min (Z.of_nat (length received)) u64_max.

Fixpoint total (f : Ended -> Z) (l : list Ended) : Z := match l with [] => 0 | e :: l => f e + total f l end.

Record live_ok t : Prop := {
  lo_open : ob_completed (tr_observation t) = false;
  lo_bytes : ob_bytes (tr_observation t) = counted_bytes (tr_received t);
  lo_stream : match tr_whole t with
    | None => tr_received t = []
    | Some whole => exists taken, whole = taken ++ tr_rest t /\ tr_received t = delivered taken
    end
}.

(** A completed transfer received the whole body, any other a prefix of it. *)
Definition ended_ok (e : Ended) : Prop :=
  match en_whole e with
  | None => en_received e = [] /\ en_completed e = false
  | Some whole => exists taken rest, whole = taken ++ rest /\ en_received e = delivered taken /\ (en_completed e = true -> rest = [])
  end.

Record accounted s : Prop := {
  ac_counters : counters (ts_recorder s) =
    (Z.of_nat (size (ts_live s)) + Z.of_nat (length (ts_ended s)), Z.of_nat (size (ts_live s)),
     total (fun e => if en_completed e then 1 else 0) (ts_ended s), total (fun e => if en_completed e then 0 else 1) (ts_ended s),
     total (fun e => counted_bytes (en_received e)) (ts_ended s));
  ac_live i t : ts_live s !! i = Some t -> live_ok t;
  ac_ended : Forall ended_ok (ts_ended s)
}.

Lemma delivered_snoc taken item : delivered (taken ++ [item]) = delivered taken ++ match item with Ok chunk => chunk | Err _ => [] end.
Proof. unfold delivered. rewrite map_app, concat_app. cbn. by rewrite app_nil_r. Qed.

Lemma counted_app a b : counted_bytes (a ++ b) = saturating_add (counted_bytes a) (Z.of_nat (length b)).
Proof. unfold counted_bytes, saturating_add. rewrite length_app. lia. Qed.

Lemma insert_live s i t t' : ts_live s !! i = Some t -> size (<[i := t']> (ts_live s)) = size (ts_live s).
Proof. intros H. apply map_size_insert_Some. by eexists. Qed.

Lemma live_insert s i t' : (forall i t, ts_live s !! i = Some t -> live_ok t) -> live_ok t' ->
  forall j t, <[i := t']> (ts_live s) !! j = Some t -> live_ok t.
Proof. intros H H' j t [[_ <-]|[_ Ht]]%lookup_insert_Some; eauto. Qed.

(** Dropping a transfer settles its counters. *)
Lemma end_accounted s i t now o : accounted s -> ts_live s !! i = Some t -> ob_bytes o = counted_bytes (tr_received t) ->
  ended_ok {| en_whole := tr_whole t; en_received := tr_received t; en_completed := ob_completed o |} -> accounted (end_transfer now i t o s).
Proof.
  intros [C L E] Ht Hb He. unfold counters in C. injection C as C1 C2 C3 C4 C5. assert (size (ts_live s) = S (size (delete i (ts_live s)))) as Hsz.
  { rewrite map_size_delete, Ht. cbn. assert (size (ts_live s) ≠ 0%nat); [|lia]. intros H0%map_size_empty_inv. rewrite H0 in Ht. done. }
  split; cbn.
  - unfold observation_drop. rewrite finished_law, C1, C2, C3, C4, C5, Hb, Hsz. destruct (ob_completed o); tuple_lia.
  - intros j u [_ Hu]%lookup_delete_Some. eauto.
  - by constructor.
Qed.

Lemma transfer_accounted s s' : transfer_step s s' -> accounted s -> accounted s'.
Proof.
  intros Hstep [C L E]. pose proof C as C'. unfold counters in C'. injection C' as C1 C2 C3 C4 C5. destruct Hstep as
    [s i now route session concurrency Hi|s i t status stream Ht Hw|s i t item rest o Ht Hw Hn|s i t now o Ht Hw Hn|s i t now Ht].
  - unfold observation_start. pose proof (started_law (ts_recorder s)) as [_ Hs]. destruct (prefetch_started (ts_recorder s)) as [n r].
    split; cbn in *; [|apply live_insert; [done|by split]|done]. rewrite Hs, C1, C2, C3, C4, C5, map_size_insert_None by done.
    tuple_lia.
  - destruct (L _ _ Ht) as [L1 L2 L3]. rewrite Hw in L3. split; cbn in *; [|apply live_insert; [done|]|done].
    + rewrite response_law, C. by rewrite (insert_live _ _ _ _ Ht).
    + split; cbn; auto. exists []. by rewrite L3.
  - destruct (L _ _ Ht) as [L1 L2 L3]. destruct Hw as [whole Hw]. rewrite Hw in *. destruct L3 as (taken & -> & L3).
    split; cbn in *; [by rewrite (insert_live _ _ _ _ Ht)| |done]. apply live_insert; [done|].
    destruct (tr_rest t) as [|[chunk|e] rest'] eqn:Er; cbn in Hn; [done|injection Hn as <- <- <-..]; split; cbn; auto.
    + by rewrite L2, counted_app.
    + exists (taken ++ [Ok chunk]). rewrite delivered_snoc, L3, <- (assoc_L (++)). done.
    + by rewrite app_nil_r.
    + exists (taken ++ [Err e]). rewrite delivered_snoc, L3, <- (assoc_L (++)). done.
  - destruct (L _ _ Ht) as [L1 L2 L3]. destruct Hw as [whole Hw]. rewrite Hw in L3. destruct L3 as (taken & Hwhole & L3).
    destruct (tr_rest t) as [|[chunk|e] rest']; cbn in Hn; [injection Hn as <-|done..].
    apply end_accounted; [by split|done|done|]. unfold ended_ok. cbn. rewrite Hw. by exists taken, [].
  - destruct (L _ _ Ht) as [L1 L2 L3]. apply end_accounted; [by split|done|done|]. unfold ended_ok. cbn. rewrite L1.
    destruct (tr_whole t); [|done]. destruct L3 as (taken & -> & L3). by exists taken, (tr_rest t).
Qed.

(** C34: however many prefetches run at the same time, and whenever their clients give up, the shard's
    and the agent's counters account for each of them: the gauge is the number of live ones, every
    request ends once, as completed or as cancelled, completed means that the client got the whole
    body, and the bytes counted are the bytes received. *)
Theorem prefetches_accounted r0 s : counters r0 = (0, 0, 0, 0, 0) ->
  rtc transfer_step {| ts_recorder := r0; ts_live := ∅; ts_ended := [] |} s ->
  c_in_flight (ts_recorder s) = Z.of_nat (size (ts_live s))
  /\ c_requests (ts_recorder s) = Z.of_nat (size (ts_live s)) + c_completed (ts_recorder s) + c_cancelled (ts_recorder s)
  /\ c_bytes (ts_recorder s) = total (fun e => counted_bytes (en_received e)) (ts_ended s)
  /\ c_completed (ts_recorder s) = Z.of_nat (length (List.filter en_completed (ts_ended s)))
  /\ Forall (fun e => match en_whole e with
       | Some whole => exists rest, delivered whole = en_received e ++ rest /\ (en_completed e = true -> rest = [])
       | None => en_received e = [] /\ en_completed e = false
       end) (ts_ended s).
Proof.
  intros H0 Hrun. assert (accounted s) as [C L E].
  { assert (accounted {| ts_recorder := r0; ts_live := ∅; ts_ended := [] |}) as Hinit by (split; [done|by intros i t Ht|constructor]).
    clear H0. induction Hrun; eauto using transfer_accounted. }
  unfold counters in C. injection C as C1 C2 C3 C4 C5. rewrite C1, C2, C3, C4, C5. split; [done|]. split; [|split; [done|split]].
  - clear. assert (Z.of_nat (length (ts_ended s)) = total (fun e => if en_completed e then 1 else 0) (ts_ended s)
      + total (fun e => if en_completed e then 0 else 1) (ts_ended s)); [|lia].
    induction (ts_ended s) as [|e l IH]; cbn -[Z.of_nat Z.add]; [done|]. destruct (en_completed e); lia.
  - clear. induction (ts_ended s) as [|e l IH]; cbn -[Z.of_nat Z.add]; [done|]. destruct (en_completed e); cbn -[Z.of_nat Z.add]; lia.
  - eapply Forall_impl; [exact E|]. intros e He. unfold ended_ok in He. destruct (en_whole e); [|done].
    destruct He as (taken & rest & -> & -> & Hc). exists (delivered rest). split; [unfold delivered; by rewrite map_app, concat_app|].
    intros Hcomp. by rewrite (Hc Hcomp).
Qed.
End Prefetches.

(** ** Evaluations *)

Section Witnesses.

(** A registry that keeps a list of names. *)
Definition list_registry : PrometheusLib (list string) := {|
  registry_new := [];
  registry_register c r :=
    if valid_name (metric_name c) then
      if decide (metric_name c ∈ r) then Err "Duplicate metrics collector registration attempted"%string else Ok (r ++ [metric_name c])
    else Err "Invalid metric name"%string;
  registry_names r := r |}.

#[local] Existing Instance list_registry.

Lemma list_registry_laws : PrometheusLaws (list string).
Proof.
  split; cbn; [done| |].
  - intros c r -> Hn. rewrite decide_False by done. by eexists.
  - intros c r Hin. destruct (valid_name (metric_name c)); [|by eexists]. rewrite decide_True by done. by eexists.
Qed.

Lemma metrics_always_register_witness : exists r : list string, Metrics_new (2 ^ 64 - 1) = Ok (r, 2 ^ 63 - 1).
Proof.
  destruct (@metrics_always_register (list string) list_registry list_registry_laws (2 ^ 64 - 1)) as ((r & H & _) & _).
  exists r. exact H.
Defined.

(** One prefetch is read to its end, a second one is given up after its first chunk. *)
Definition prefetch_run : Transfers ShardPrefetch -> Prop := rtc transfer_step {| ts_recorder := zero_shard_prefetch; ts_live := ∅; ts_ended := [] |}.

Definition two_transfers : Transfers ShardPrefetch :=
  {| ts_recorder := {| sp_requests := 2; sp_hits := 2; sp_misses := 0; sp_unavailable := 0; sp_in_flight := 0; sp_completed := 1; sp_cancelled := 1;
                       sp_bytes := 8; sp_durations := [40; 30] |};
     ts_live := ∅;
     ts_ended := [{| en_whole := Some [Ok (lit "hello"); Ok (lit "world")]; en_received := lit "hello"; en_completed := false |};
                  {| en_whole := Some [Ok (lit "abc")]; en_received := lit "abc"; en_completed := true |}] |}.

Lemma two_transfers_run : prefetch_run two_transfers.
Proof.
  eapply rtc_l; [apply (transfer_starts _ 0 10 None None None); reflexivity|].
  eapply rtc_l; [apply (transfer_starts _ 1 20 None None None); reflexivity|].
  eapply rtc_l; [eapply (transfer_responds _ 0 _ 200 [Ok (lit "abc")]); reflexivity|].
  eapply rtc_l; [eapply (transfer_responds _ 1 _ 200 [Ok (lit "hello"); Ok (lit "world")]); reflexivity|].
  eapply rtc_l; [eapply (transfer_yields _ 1); [reflexivity|by eexists|reflexivity]|].
  eapply rtc_l; [eapply (transfer_yields _ 0); [reflexivity|by eexists|reflexivity]|].
  eapply rtc_l; [eapply (transfer_ends _ 0 _ 40); [reflexivity|by eexists|reflexivity]|].
  eapply rtc_l; [eapply (transfer_dropped _ 1 _ 60); reflexivity|].
  apply rtc_refl.
Qed.

Lemma prefetches_accounted_witness : c_requests (ts_recorder two_transfers) = 0 + 1 + 1 /\ c_bytes (ts_recorder two_transfers) = 8.
Proof.
  assert (counters zero_shard_prefetch = (0, 0, 0, 0, 0)) as H0 by reflexivity.
  destruct (prefetches_accounted zero_shard_prefetch two_transfers H0 two_transfers_run) as (_ & H1 & H2 & _).
  split; [exact H1|]. rewrite H2. reflexivity.
Defined.
End Witnesses.
