(* ===== verification/Routes.v ===== *)
(** * The router ([transport/http/mod.rs])

    The route table of a shard, the handler each method of a route reaches, and the middleware around
    all of them.  Matching a path against the table, percent-decoding the captured segments and
    reading JSON are axum's: the matcher is a parameter that keeps to the documented rules (a static
    segment before a parameter, a parameter before a wildcard). *)

From S2P Require Import Prelude Externals Domain Metadata MetadataView MetadataStore Space RecentUse Filesystem ArtifactFiles World Config Channels Cache Text Ring Agent Http HttpClaims Web Negotiation Proxy Packages Telemetry.

(** ** Patterns *)

Inductive segment := Seg (s : bytes) | Param | Wild.
Definition pattern : Type := list segment.

#[export] Instance segment_eq_dec : EqDecision segment.
Proof. solve_decision. Defined.

(** The segments of a path that starts with a slash. *)
Definition path_segments (path : bytes) : option (list bytes) :=
  match path with c :: rest => if bool_decide (c = slash) then Some (split_slash rest) else None | [] => None end.

(** A segment of a route as axum writes them: [{name}] a parameter, [{*name}] a wildcard. *)
Definition parse_segment (s : bytes) : segment :=
  match s with
  | c :: rest => if bool_decide (c = "{"%char) then (if starts_with (lit "*") rest then Wild else Param) else Seg s
  | [] => Seg s
  end.

Definition parse_pattern (route_ : bytes) : pattern := map parse_segment (default [] (path_segments route_)).

(** What a pattern captures of the segments: a parameter one that is not empty, a wildcard at the end
    all that is left, if that is not empty. *)
Fixpoint captures (p : pattern) (path : list bytes) : option (list bytes) :=
  match p, path with
  | [], [] => Some []
  | Seg s :: p, x :: path => if bool_decide (x = s) then captures p path else None
  | Param :: p, x :: path => match x with [] => None | _ :: _ => cons x <$> captures p path end
  | [Wild], x :: path => let rest := join [slash] (x :: path) in match rest with [] => None | _ :: _ => Some [rest] end
  | _, _ => None
  end.

(** ** The table *)

Inductive resource := RLive | RReady | RMetrics | RChannels | RChannel | RArtifact | RReference | RHttpCache | RBazelAc | RBazelCas
  | RGo | RPythonRoot | RPythonSimple | RPythonFile | RNpm | RCargoConfig | RCargoIndex | RCargoCrate.

#[export] Instance resource_eq_dec : EqDecision resource.
Proof. solve_decision. Defined.

(** A route is scoped when its first parameter is a channel. *)
Record route := { r_text : bytes; r_scoped : bool; r_resource : resource }.

Definition r_pattern (r : route) : pattern := parse_pattern (r_text r).

#[export] Instance route_eq_dec : EqDecision route.
Proof. solve_decision. Defined.

Definition data_router : list (string * resource) := [
  ("/artifacts/{algorithm}/{digest}", RArtifact);
  ("/references/{reference}", RReference);
  ("/build-cache/http/{key}", RHttpCache);
  ("/build-cache/bazel/ac/{hash}", RBazelAc);
  ("/build-cache/bazel/cas/{hash}", RBazelCas);
  ("/proxy/go/{*path}", RGo);
  ("/proxy/python/simple", RPythonRoot);
  ("/proxy/python/simple/", RPythonRoot);
  ("/proxy/python/simple/{*path}", RPythonSimple);
  ("/proxy/python/files/{encoded}", RPythonFile);
  ("/proxy/npm/{*path}", RNpm);
  ("/proxy/cargo/index/config.json", RCargoConfig);
  ("/proxy/cargo/index/{*path}", RCargoIndex);
  ("/proxy/cargo/crates/{crate}/{version}/download", RCargoCrate)
]%string.

Definition control_routes : list (string * resource) := [
  ("/health/live", RLive);
  ("/health/ready", RReady);
  ("/metrics", RMetrics);
  ("/channels", RChannels);
  ("/channels/{channel}", RChannel)
]%string.

Definition unscoped (x : string * resource) : route := {| r_text := lit x.1; r_scoped := false; r_resource := x.2 |}.
Definition nested (x : string * resource) : route := {| r_text := lit "/channels/{channel}" ++ lit x.1; r_scoped := true; r_resource := x.2 |}.

(** [router]: the control routes, the data routes under a channel, and the data routes themselves *)
Definition router : list route := map unscoped control_routes ++ map nested data_router ++ map unscoped data_router.

(** *** Matching *)

(** Static before parameter before wildcard, at the first difference. *)
Fixpoint precedes (p q : pattern) : bool :=
  match p, q with
  | Seg _ :: _, (Param | Wild) :: _ => true
  | Param :: _, Wild :: _ => true
  | Seg s :: p, Seg s' :: q => if decide (s = s') then precedes p q else false
  | Param :: p, Param :: q => precedes p q
  | _, _ => false
  end.

(** What axum makes of the table. *)
Class RouteMatcher := { find_route : list bytes -> option (route * list bytes) }.

Class RouteMatcherLaws {RM : RouteMatcher} : Prop := {
  found_matches path r caps : find_route path = Some (r, caps) ->
    r ∈ router /\ captures (r_pattern r) path = Some caps
    /\ forall r', r' ∈ router -> is_Some (captures (r_pattern r') path) -> r' = r \/ precedes (r_pattern r) (r_pattern r') = true;
  not_found path : find_route path = None -> forall r, r ∈ router -> captures (r_pattern r) path = None
}.

(** ** Identities *)

(** [server_request_identity], for the request's span; [matched] is the pattern axum matched *)
Definition server_request_identity (path : bytes) (matched : option bytes) : bytes * bytes :=
  let raw_segments := split_slash (trim_start_slashes path) in
  let segments := match raw_segments with
                  | a :: _ :: rest => if is_lit "channels" a then rest else raw_segments
                  | _ => raw_segments
                  end in
  let other := (default (lit "unmatched") matched, []) in
  match segments with
  | [a; b] => if is_lit "references" a then (lit "reference", b) else other
  | a :: b :: c :: rest =>
      if is_lit "artifacts" a && bool_decide (rest = []) then (lit "artifact", c)
      else match rest with
      | [d] =>
          if is_lit "build-cache" a && is_lit "bazel" b && is_lit "cas" c then (lit "artifact", d)
          else if is_lit "build-cache" a && is_lit "bazel" b && is_lit "ac" c then (lit "bazel-action", d)
          else if is_lit "proxy" a then (b, join [slash] [c; d]) else other
      | [] =>
          if is_lit "build-cache" a && is_lit "http" b then (lit "http-cache", c)
          else if is_lit "proxy" a then (b, c) else other
      | _ => if is_lit "proxy" a then (b, join [slash] (c :: rest)) else other
      end
  | _ => other
  end.

(** ** Serving *)

Section Serving.
Context {UL : UlidLib} {HX : HexLib} {SH : Sha256Lib} {BS : Base64Lib} {ZS : ZstdLib} {DH : DefaultHasherLib}.
Context {URL : UrlLib} {JS : JsonLib} {HT : HtmlLib} {RM : RouteMatcher}.
Context {S : Type} {MS : MetadataStore S}.

(** The JSON payload of a request, or the status axum rejects it with. *)
Inductive json_input :=
| JsonRegister (access_control : option bool) (expiry : option Z)
| JsonPatch (expiry : option Z)
| JsonArtifact (algorithm digest_ : bytes)
| JsonRejected (status_ : Z).

Record HttpRequest := {
  rq_method : Method; rq_path : bytes; rq_headers : headers; rq_stream : body_stream; rq_json : json_input
}.

Inductive package_call :=
| GoPath (path_ : bytes) | PythonSimplePath (path_ : bytes) | PythonFilePath (encoded : bytes) | NpmPath (path_ : bytes)
| CargoConfigPath | CargoIndexPath (path_ : bytes) | CargoCratePath (crate version : bytes).

(** What a request comes to. *)
Inductive served :=
| ByShard (call : http_call)
| ByPackages (channel : option bytes) (call : package_call)
| LivePage
| MetricsPage
| Refused (status_ : Z).

(** What differs from request to request: how captures decode, and what is freshly generated. *)
Record Fresh := { fr_decode : bytes -> option bytes; fr_channel : ChannelId; fr_secret : bytes32; fr_name : bytes; fr_now : Z; fr_answered : Z }.

Definition PATCH : Method := OtherMethod (lit "PATCH").

Definition is_read (m : Method) : bool := match m with GET | HEAD => true | _ => false end.

(** The method routers: [get] answers HEAD too, a method without a handler is refused. *)
Definition method_call (fr : Fresh) (res : resource) (channel : option bytes) (caps : list bytes) (rq : HttpRequest) : served :=
  let hs := rq_headers rq in
  let m := rq_method rq in
  let read x := if is_read m then x else Refused 405 in
  match res, caps with
  | RLive, [] => read LivePage
  | RReady, [] => read (ByShard Ready)
  | RMetrics, [] => read MetricsPage
  | RChannels, [] =>
      if decide (m = POST) then
        match rq_json rq with
        | JsonRegister access_control expiry => ByShard (RegisterChannel (fr_channel fr) (fr_secret fr) access_control expiry)
        | JsonRejected code => Refused code
        | _ => Refused 422
        end
      else Refused 405
  | RChannel, [c] =>
      if is_read m then ByShard (GetChannel c hs)
      else if decide (m = PATCH) then
        ByShard (PatchChannel c hs (match rq_json rq with JsonPatch expiry => Some expiry | _ => None end))
      else if decide (m = DELETE) then ByShard (DeleteChannel c hs)
      else Refused 405
  | RArtifact, [algorithm; digest_] =>
      if is_read m then ByShard (GetArtifact channel algorithm digest_ m hs)
      else if decide (m = PUT) then ByShard (PutArtifact (fr_name fr) channel algorithm digest_ hs (rq_stream rq)) else Refused 405
  | RReference, [reference] =>
      if is_read m then ByShard (GetReference channel reference hs)
      else if decide (m = PUT) then
        ByShard (PutReference channel reference
          (match rq_json rq with JsonArtifact algorithm digest_ => Ok (algorithm, digest_) | JsonRejected code => Err code | _ => Err 422 end) hs)
      else if decide (m = DELETE) then ByShard (DeleteReference channel reference hs) else Refused 405
  | RHttpCache, [key] =>
      if is_read m then ByShard (GetHttpCache channel key m hs)
      else if decide (m = PUT) then ByShard (PutHttpCache (fr_name fr) channel key hs (rq_stream rq)) else Refused 405
  | RBazelAc, [hash] =>
      if is_read m then ByShard (GetBazelAc channel hash m hs)
      else if decide (m = PUT) then ByShard (PutBazelAc (fr_name fr) channel hash hs (rq_stream rq)) else Refused 405
  | RBazelCas, [hash] =>
      if is_read m then ByShard (GetBazelCas channel hash m hs)
      else if decide (m = PUT) then ByShard (PutBazelCas (fr_name fr) channel hash hs (rq_stream rq)) else Refused 405
  | RGo, [path_] => read (ByPackages channel (GoPath path_))
  | RPythonRoot, [] => read (ByPackages channel (PythonSimplePath []))
  | RPythonSimple, [path_] => read (ByPackages channel (PythonSimplePath path_))
  | RPythonFile, [encoded] => read (ByPackages channel (PythonFilePath encoded))
  | RNpm, [path_] => read (ByPackages channel (NpmPath path_))
  | RCargoConfig, [] => read (ByPackages channel CargoConfigPath)
  | RCargoIndex, [path_] => read (ByPackages channel (CargoIndexPath path_))
  | RCargoCrate, [crate; version] => read (ByPackages channel (CargoCratePath crate version))
  | _, _ => Refused 500
  end.

(** The methods a route has handlers for. *)
Definition handled (res : resource) (m : Method) : bool :=
  match res with
  | RChannels => bool_decide (m = POST)
  | RChannel => is_read m || bool_decide (m = PATCH) || bool_decide (m = DELETE)
  | RReference => is_read m || bool_decide (m = PUT) || bool_decide (m = DELETE)
  | RArtifact | RHttpCache | RBazelAc | RBazelCas => is_read m || bool_decide (m = PUT)
  | _ => is_read m
  end.

(** A request's route, its captures decoded by the handler's extractors, and the call it makes. *)
Definition route_request (fr : Fresh) (rq : HttpRequest) : option route * served :=
  match path_segments (rq_path rq) with
  | None => (None, Refused 404)
  | Some segments =>
      match find_route segments with
      | None => (None, Refused 404)
      | Some (r, caps) =>
          (Some r,
           match mapM (fr_decode fr) caps with
           | None => Refused (if handled (r_resource r) (rq_method rq) then 400 else 405)
           | Some caps =>
               match r_scoped r, caps with
               | true, c :: caps => method_call fr (r_resource r) (Some c) caps rq
               | _, _ => method_call fr (r_resource r) None caps rq
               end
           end)
      end
  end.

(** What the server answers with. *)
Inductive server_response := Answer (r : @PackageResponse) | MetricsAnswer (page : metrics_page).

Definition response_status (r : server_response) : Z :=
  match r with
  | Answer (FromShard r) => status r
  | Answer (Document code _ _ _) | Answer (Relayed code _ _) => code
  | Answer (CargoConfig _ _) => 200
  | MetricsAnswer (MetricsText _) => 200
  | MetricsAnswer MetricsFailed => 500
  end.

Definition package_handler (cfg : HttpConfig) (svc : ProxyService) (net : Network) (name : bytes) (channel : option bytes) (hs : headers)
    (call : package_call) : PackageHandler (S:=S) PackageResponse :=
  match call with
  | GoPath path_ => go cfg svc net name channel hs path_
  | PythonSimplePath path_ => fetch_python_simple cfg svc net name channel hs path_
  | PythonFilePath encoded => python_file cfg svc net name channel hs encoded
  | NpmPath path_ => npm cfg svc net name channel hs path_
  | CargoConfigPath => cargo_config channel hs
  | CargoIndexPath path_ => cargo_index cfg svc net name channel hs path_
  | CargoCratePath crate version => cargo_crate cfg svc net name channel hs crate version
  end.

(** [next.run(request)]; [encoded] is what the encoder makes of the metrics *)
Definition run_served (cfg : HttpConfig) (svc : ProxyService) (net : Network) (encoded : result string bytes) (fr : Fresh)
    (hs : headers) (x : served) (k : PackageState (S:=S)) : server_response * PackageState :=
  match x with
  | ByShard call => let '(r, s) := respond (dispatch cfg call) (pk_app k) in (Answer (FromShard r), set_app s k)
  | ByPackages channel call =>
      match package_handler cfg svc net (fr_name fr) channel hs call k with
      | (Ok r, k) | (Err r, k) => (Answer r, k)
      end
  | LivePage => (Answer (FromShard (plain 200)), k)
  | MetricsPage => (MetricsAnswer (metrics_response encoded), k)
  | Refused code => (Answer (FromShard (plain code)), k)
  end.

(** *** The middleware *)

Record ServerState := {
  sv_packages : PackageState (S:=S);
  sv_prefetch : ShardPrefetch;
  (** the histogram's observations: method, route, status and duration *)
  sv_durations : list (Method * bytes * Z * Z)
}.

Definition REQUEST_SESSION_HEADER : bytes := lit "x-flywheel-session".
Definition REQUEST_PREFETCH_CONCURRENCY_HEADER : bytes := lit "x-flywheel-prefetch-concurrency".

Definition is_prefetch (hs : headers) : bool := bool_decide (header REQUEST_PURPOSE_HEADER hs = Some REQUEST_PURPOSE_PREFETCH).
Definition prefetch_session (hs : headers) : option bytes := value ← header REQUEST_SESSION_HEADER hs; to_str value.
Definition prefetch_concurrency (hs : headers) : option Z :=
  value ← header REQUEST_PREFETCH_CONCURRENCY_HEADER hs; value ← to_str value; parse_u64 value.

Definition metric_request (m : Metrics) : Metrics := {|
  requests := requests m + 1; hits := hits m; misses := misses m; bytes_read := bytes_read m; bytes_written := bytes_written m;
  authorization_denials := authorization_denials m; maintenance_reclaimed := maintenance_reclaimed m;
  maintenance_requeued := maintenance_requeued m; build_cache_bypasses := build_cache_bypasses m;
  raw_pressure_errors := raw_pressure_errors m; foreground_in_flight := foreground_in_flight m;
  foreground_rejections := foreground_rejections m; free_observed_bytes := free_observed_bytes m;
  reserved_bytes := reserved_bytes m; committed_since_bytes := committed_since_bytes m |}.

Definition observe_http_request (method : Method) (r : bytes) (code duration : Z) (s : ServerState) : ServerState :=
  {| sv_packages := sv_packages s; sv_prefetch := sv_prefetch s; sv_durations := (method, r, code, duration) :: sv_durations s |}.

Definition set_packages (k : PackageState) (s : ServerState) : ServerState :=
  {| sv_packages := k; sv_prefetch := sv_prefetch s; sv_durations := sv_durations s |}.
Definition set_prefetch (r : ShardPrefetch) (s : ServerState) : ServerState :=
  {| sv_packages := sv_packages s; sv_prefetch := r; sv_durations := sv_durations s |}.

(** [count_request] around the router; a prefetch leaves with its observation. *)
Definition serve_request (cfg : HttpConfig) (svc : ProxyService) (net : Network) (encoded : result string bytes) (fr : Fresh)
    (rq : HttpRequest) (s : ServerState) : server_response * option PrefetchObservation * ServerState :=
  let hs := rq_headers rq in
  let k := sv_packages s in
  let s := set_packages (set_app (count metric_request (pk_app k)) k) s in
  let '(matched, call) := route_request fr rq in
  let route_ := default (lit "unmatched") (r_text <$> matched) in
  let '(observation, s) :=
    if is_prefetch hs then
      let '(o, r) := observation_start (fr_now fr) (Some route_) (prefetch_session hs) (prefetch_concurrency hs) (sv_prefetch s) in
      (Some o, set_prefetch r s)
    else (None, s) in
  let '(response, k) := run_served cfg svc net encoded fr hs call (sv_packages s) in
  let s := observe_http_request (rq_method rq) route_ (response_status response) (fr_answered fr - fr_now fr) (set_packages k s) in
  match observation with
  | Some o => let '(o, r) := set_status (response_status response) o (sv_prefetch s) in (response, Some o, set_prefetch r s)
  | None => (response, None, s)
  end.
End Serving.
