(* ===== verification/RoutesClaims.v ===== *)
(** * What the router shows

    The route table is unambiguous, the agent's classification of a path is the object the shard's
    route names, and every route under a protected channel is closed to requests without its token. *)

From S2P Require Import Prelude Externals Domain Records Concrete Metadata MetadataView MetadataRefinement MetadataStore MetadataClaims Space RecentUse Filesystem ArtifactFiles World Config Channels ChannelLemmas ChannelClaims Cache Samples CacheClaims Text Ring Agent AgentClaims Http HttpClaims Web Negotiation Proxy Packages WebConcrete ProxyClaims Telemetry Routes.

(** ** Shapes *)

(** The paths a pattern matches. *)
Fixpoint shape (p : pattern) (path caps : list bytes) : Prop :=
  match p with
  | [] => path = [] /\ caps = []
  | Seg s :: p => exists path', path = s :: path' /\ shape p path' caps
  | Param :: p => exists x path' caps', path = x :: path' /\ caps = x :: caps' /\ x ≠ [] /\ shape p path' caps'
  | Wild :: _ => path ≠ [] /\ caps = [join [slash] path]
  end.

Lemma captures_shape p path caps : captures p path = Some caps -> shape p path caps.
Proof.
  revert path caps. induction p as [|[s| |] p IH]; intros path caps H; cbn in *.
  - destruct path; [|done]. by injection H as <-.
  - destruct path as [|x path]; [done|]. case_bool_decide as E; [|done]. subst x. eauto.
  - destruct path as [|[|c x] path]; [done|done|]. apply fmap_Some in H as (caps' & H & ->). exists (c :: x), path, caps'. eauto.
  - destruct p; [|done]. destruct path as [|x path]; [done|]. split; [done|].
    change (match join [slash] (x :: path) with [] => None | _ :: _ => Some [join [slash] (x :: path)] end = Some caps) in H.
    destruct (join [slash] (x :: path)); [done|]. by injection H as <-.
Qed.

(** Whether some path may match both patterns. *)
Fixpoint overlap (p q : pattern) : bool :=
  match p, q with
  | [], [] => true
  | Wild :: _, _ :: _ | _ :: _, Wild :: _ => true
  | Seg s :: p, Seg s' :: q => bool_decide (s = s') && overlap p q
  | Seg s :: p, Param :: q | Param :: p, Seg s :: q => negb (bool_decide (s = [])) && overlap p q
  | Param :: p, Param :: q => overlap p q
  | _, _ => false
  end.

Lemma overlap_sound p q path c1 c2 : shape p path c1 -> shape q path c2 -> overlap p q = true.
Proof.
  revert q path c1 c2. induction p as [|x p IH]; intros [|y q] path c1 c2 H1 H2; cbn in *.
  - done.
  - destruct H1 as [-> _]. destruct y; cbn in H2; naive_solver.
  - destruct H2 as [-> _]. destruct x; cbn in H1; naive_solver.
  - destruct x as [s| |], y as [s'| |]; cbn in *; try done.
    + destruct H1 as (path' & -> & H1), H2 as (? & [= <- <-] & H2). rewrite bool_decide_true by done. cbn. eauto.
    + destruct H1 as (path' & -> & H1), H2 as (x & ? & c' & [= <- <-] & -> & Hx & H2). rewrite bool_decide_false by done. cbn. eauto.
    + destruct H2 as (path' & -> & H2), H1 as (x & ? & c' & [= <- <-] & -> & Hx & H1). rewrite bool_decide_false by done. cbn. eauto.
    + destruct H1 as (x & path' & c' & -> & -> & Hx & H1), H2 as (? & ? & c'' & [= <- <-] & -> & _ & H2). eauto.
Qed.

Lemma precedes_irrefl p : precedes p p = false.
Proof. induction p as [|[s| |] p IH]; cbn; try done. by rewrite decide_True. Qed.

Lemma precedes_asym p q : precedes p q = true -> precedes q p = false.
Proof.
  revert q. induction p as [|[s| |] p IH]; intros [|[s'| |] q]; cbn; try done.
  - case_decide as E; [subst s'; rewrite decide_True by done; apply IH|done].
  - apply IH.
Qed.

(** Routes that overlap are ordered. *)
Lemma table_ordered r r' : r ∈ router -> r' ∈ router -> overlap (r_pattern r) (r_pattern r') = true ->
  r = r' \/ precedes (r_pattern r) (r_pattern r') = true \/ precedes (r_pattern r') (r_pattern r) = true.
Proof.
  assert (Forall (fun r => Forall (fun r' => overlap (r_pattern r) (r_pattern r') = true ->
    r = r' \/ precedes (r_pattern r) (r_pattern r') = true \/ precedes (r_pattern r') (r_pattern r) = true) router) router) as H.
  { apply (bool_decide_unpack _). vm_compute. exact I. }
  intros Hr Hr' Ho. rewrite Forall_forall in H. specialize (H r Hr). rewrite Forall_forall in H. by apply H.
Qed.

Lemma precedes_trans p q r : precedes p q = true -> precedes q r = true -> precedes p r = true.
Proof.
  revert q r. induction p as [|[s| |] p IH]; intros [|[s'| |] q] [|[s''| |] r]; cbn; try done.
  - case_decide; [|done]. case_decide; [|done]. subst. rewrite decide_True by done. apply IH.
  - apply IH.
Qed.

(** ** A matcher *)

Definition better (path : list bytes) (best : option (route * list bytes)) (r : route) : option (route * list bytes) :=
  match captures (r_pattern r) path with
  | None => best
  | Some caps =>
      match best with
      | Some (b, _) => if precedes (r_pattern r) (r_pattern b) then Some (r, caps) else best
      | None => Some (r, caps)
      end
  end.

Definition reference_matcher : RouteMatcher := {| find_route path := fold_left (better path) router None |}.

(** The best of the routes seen so far. *)
Definition best_of (path : list bytes) (seen : list route) (best : option (route * list bytes)) : Prop :=
  match best with
  | None => forall r, r ∈ seen -> captures (r_pattern r) path = None
  | Some (b, caps) => b ∈ seen /\ captures (r_pattern b) path = Some caps
      /\ forall r, r ∈ seen -> is_Some (captures (r_pattern r) path) -> r = b \/ precedes (r_pattern b) (r_pattern r) = true
  end.

Ltac in_seen := apply elem_of_app; first [by left | right; by apply list_elem_of_singleton].

Lemma better_best path seen best r : seen ⊆ router -> r ∈ router -> best_of path seen best -> best_of path (seen ++ [r]) (better path best r).
Proof.
  intros Hsub Hr Hb. unfold better. destruct (captures (r_pattern r) path) as [caps|] eqn:Hc.
  - destruct best as [[b bc]|]; cbn in Hb.
    + destruct Hb as (Hin & Hbc & Hbest).
      destruct (table_ordered r b Hr (Hsub _ Hin) (overlap_sound _ _ path caps bc (captures_shape _ _ _ Hc) (captures_shape _ _ _ Hbc)))
        as [->|[Hp|Hp]].
      * rewrite precedes_irrefl. split; [in_seen|]. split; [done|]. intros r' [Hr'| ->%list_elem_of_singleton]%elem_of_app Hm; eauto.
      * rewrite Hp. split; [in_seen|]. split; [done|]. intros r' [Hr'| ->%list_elem_of_singleton]%elem_of_app Hm; [right|by left].
        destruct (Hbest r' Hr' Hm) as [->|Hbr]; [done|]. by eapply precedes_trans.
      * rewrite (precedes_asym _ _ Hp). split; [in_seen|]. split; [done|]. intros r' [Hr'| ->%list_elem_of_singleton]%elem_of_app Hm; eauto.
    + split; [in_seen|]. split; [done|]. intros r' [Hr'| ->%list_elem_of_singleton]%elem_of_app Hm; [|by left].
      rewrite (Hb r' Hr') in Hm. by destruct Hm.
  - destruct best as [[b bc]|]; cbn in *.
    + destruct Hb as (Hin & Hbc & Hbest). split; [in_seen|]. split; [done|].
      intros r' [Hr'| ->%list_elem_of_singleton]%elem_of_app Hm; [eauto|]. rewrite Hc in Hm. by destruct Hm.
    + intros r' [Hr'| ->%list_elem_of_singleton]%elem_of_app; auto.
Qed.

Lemma fold_best path todo seen best : seen ++ todo ⊆ router -> best_of path seen best ->
  best_of path (seen ++ todo) (fold_left (better path) todo best).
Proof.
  revert seen best. induction todo as [|r todo IH]; intros seen best Hsub Hb; cbn; [by rewrite app_nil_r|].
  replace (seen ++ r :: todo) with ((seen ++ [r]) ++ todo) in * by (by rewrite <- (assoc_L (++))).
  apply IH; [done|]. apply better_best; [set_solver|set_solver|done].
Qed.

Lemma reference_matcher_laws : @RouteMatcherLaws reference_matcher.
Proof.
  assert (forall path, best_of path router (@find_route reference_matcher path)) as H.
  { intros path. apply (fold_best path router [] None); [done|]. intros r []%elem_of_nil. }
  split; intros path.
  - intros r caps E. specialize (H path). by rewrite E in H.
  - intros E. specialize (H path). by rewrite E in H.
Qed.

(** ** Paths and objects *)

(** The object a data route names: what the agent keys its requests by. *)
Definition object_of (r : resource) (path : list bytes) (caps : list bytes) : option (bytes * bytes) :=
  match r, caps with
  | RArtifact, [_; digest_] => Some (lit "artifact", digest_)
  | RBazelCas, [hash] => Some (lit "artifact", hash)
  | RBazelAc, [hash] => Some (lit "bazel-action", hash)
  | RHttpCache, [key] => Some (lit "http-cache", key)
  | RReference, [reference] => Some (lit "reference", reference)
  | (RGo | RPythonRoot | RPythonSimple | RPythonFile | RNpm | RCargoConfig | RCargoIndex | RCargoCrate), _ =>
      match path with _ :: protocol :: rest => Some (protocol, join [slash] rest) | _ => None end
  | _, _ => None
  end.

Definition is_build_cache (r : resource) : bool := match r with RHttpCache | RBazelAc | RBazelCas => true | _ => false end.

Lemma trim_first path x segments : path_segments path = Some (x :: segments) -> x ≠ [] ->
  split_slash (trim_start_slashes path) = x :: segments.
Proof.
  intros H Hx. destruct path as [|c rest]; [done|]. unfold path_segments in H. destruct (bool_decide (c = slash)) eqn:E; [|done].
  injection H as H. cbn [trim_start_slashes]. rewrite E. destruct rest as [|c' rest]; [by injection H as <- _|].
  destruct (bool_decide (c' = slash)) eqn:E'.
  - cbn in H. rewrite E' in H. by injection H as <- _.
  - cbn [trim_start_slashes]. by rewrite E'.
Qed.

(** Splits what a path's shape says of its segments. *)
Ltac split_shape :=
  repeat match goal with
  | H : shape _ _ _ |- _ => progress cbn [shape] in H
  | H : exists _, _ |- _ => destruct H as [? H]
  | H : _ /\ _ |- _ => destruct H
  end; subst.

(** Evaluates the patterns of the table. *)
Ltac eval_shape H := match type of H with shape ?p _ _ => let q := eval vm_compute in p in change p with q in H end.

Ltac by_cases_of_rest :=
  try match goal with H : not (@eq (list (list ascii)) ?l _) |- _ => is_var l; destruct l as [|? [|? [|? ?]]]; [done|..] end;
  (eexists _, _; split; [reflexivity|]; try split; reflexivity).

(** A bare data path names its object to the agent and to the shard's logs alike. *)
Lemma data_object (x : string * resource) path segments caps m matched : x ∈ data_router -> path_segments path = Some segments ->
  captures (parse_pattern (lit x.1)) segments = Some caps ->
  exists kind id, object_of x.2 segments caps = Some (kind, id) /\ server_request_identity path matched = (kind, id)
    /\ classify m path = {| routed_kind := kind; routed_id := id;
                            routed_class := if is_build_cache x.2 then build_cache_class m else Passthrough |}.
Proof.
  intros Hx Hp Hc%captures_shape. unfold data_router in Hx.
  repeat (apply elem_of_cons in Hx as [->|Hx]); [..|by apply elem_of_nil in Hx].
  all: eval_shape Hc; split_shape; pose proof (trim_first _ _ _ Hp ltac:(discriminate)) as Hs.
  all: cbn [snd is_build_cache]; unfold classify, server_request_identity; rewrite Hs; by_cases_of_rest.
Qed.

(** The same path under a channel names the same object to the shard. *)
Lemma scoped_object (x : string * resource) path c segments caps matched : x ∈ data_router ->
  path_segments path = Some (lit "channels" :: c :: segments) -> captures (parse_pattern (lit x.1)) segments = Some caps ->
  exists kind id, object_of x.2 segments caps = Some (kind, id) /\ server_request_identity path matched = (kind, id).
Proof.
  intros Hx Hp Hc%captures_shape. unfold data_router in Hx.
  repeat (apply elem_of_cons in Hx as [->|Hx]); [..|by apply elem_of_nil in Hx].
  all: eval_shape Hc; split_shape; pose proof (trim_first _ _ _ Hp ltac:(discriminate)) as Hs.
  all: cbn [snd]; unfold server_request_identity; rewrite Hs; by_cases_of_rest.
Qed.

(** ** Theorems *)

Section Claims.
Context {RM : RouteMatcher} {RML : RouteMatcherLaws}.

(** the route table leaves the matcher no choice: any matcher that puts static segments before
    parameters and parameters before wildcards finds, for every path, the route and the captures that
    the reference matcher computes. *)
Theorem routes_are_determined path : find_route path = @find_route reference_matcher path.
Proof.
  destruct (find_route path) as [[r caps]|] eqn:E1, (@find_route reference_matcher path) as [[r' caps']|] eqn:E2; [| | |done].
  - apply found_matches in E1 as (H1 & C1 & B1).
    apply (@found_matches reference_matcher reference_matcher_laws) in E2 as (H2 & C2 & B2).
    assert (r' = r) as ->; [|congruence]. destruct (B1 r' H2) as [|P1]; [by eexists|done|]. destruct (B2 r H1) as [|P2]; [by eexists|done|].
    rewrite (precedes_asym _ _ P1) in P2. done.
  - apply found_matches in E1 as (H1 & C1 & _). rewrite (@not_found reference_matcher reference_matcher_laws _ E2 r H1) in C1. done.
  - apply (@found_matches reference_matcher reference_matcher_laws) in E2 as (H2 & C2 & _). rewrite (not_found _ E1 r' H2) in C2. done.
Qed.

Definition is_data (r : resource) : bool := match r with RLive | RReady | RMetrics | RChannels | RChannel => false | _ => true end.

Lemma route_cases r : r ∈ router -> is_data (r_resource r) = true ->
  exists x, x ∈ data_router /\ r_resource r = x.2 /\ (r = unscoped x \/ r = nested x).
Proof.
  assert (Forall (fun r => is_data (r_resource r) = true -> Exists (fun x => r_resource r = x.2 /\ (r = unscoped x \/ r = nested x)) data_router) router) as H.
  { apply (bool_decide_unpack _). vm_compute. exact I. }
  intros Hr Hd. rewrite Forall_forall in H. by apply Exists_exists, H.
Qed.

Lemma parse_nested (x : string * resource) : x ∈ data_router ->
  r_pattern (nested x) = Seg (lit "channels") :: Param :: parse_pattern (lit x.1).
Proof.
  assert (Forall (fun x => r_pattern (nested x) = Seg (lit "channels") :: Param :: parse_pattern (lit x.1)) data_router) as H.
  { apply (bool_decide_unpack _). vm_compute. exact I. }
  rewrite Forall_forall in H. apply H.
Qed.

Lemma split_join path : join [slash] (split_slash path) = path.
Proof.
  induction path as [|c path IH]; [done|]. cbn [split_slash]. case_bool_decide as E.
  - subst c. destruct (split_slash path) as [|s l] eqn:Es; [by destruct path; cbn in Es; repeat case_match|]. cbn in *. by rewrite IH.
  - destruct (split_slash path) as [|s [|s' l]] eqn:Es; cbn in *; by rewrite <- IH.
Qed.

Lemma scoped_path path c segments : path_segments path = Some (lit "channels" :: c :: segments) -> is_channel_path path = true.
Proof.
  intros H. destruct path as [|x rest]; [done|]. unfold path_segments in H. case_bool_decide as E; [|done]. subst x. injection H as H.
  apply (f_equal (join [slash])) in H. rewrite split_join in H. subst rest. unfold is_channel_path. apply orb_true_iff. right. reflexivity.
Qed.

(** A bare data path starts with something else than a channel. *)
Lemma bare_path (x : string * resource) path segments caps : x ∈ data_router -> path_segments path = Some segments ->
  captures (parse_pattern (lit x.1)) segments = Some caps -> is_channel_path path = false.
Proof.
  intros Hx Hp Hc%captures_shape. assert (exists s rest, segments = s :: rest /\ take 4 s ≠ lit "chan" /\ (4 <= length s)%nat) as (s & rest & -> & Hs & Hl).
  { unfold data_router in Hx. repeat (apply elem_of_cons in Hx as [->|Hx]); [..|by apply elem_of_nil in Hx].
    all: eval_shape Hc; split_shape; eexists _, _; split; [reflexivity|]; split; [discriminate|cbn; lia]. }
  destruct path as [|c path]; [done|]. unfold path_segments in Hp. case_bool_decide as E; [|done]. subst c. injection Hp as Hp.
  apply (f_equal (join [slash])) in Hp. rewrite split_join in Hp. subst path. unfold is_channel_path. apply orb_false_iff.
  assert (take 4 (join [slash] (s :: rest)) = take 4 s) as Ht.
  { destruct rest; cbn [join]; [done|]. by rewrite take_app_le. }
  revert Ht. generalize (join [slash] (s :: rest)). intros whole Ht. split.
  - apply bool_decide_eq_false. intros H. unfold lit in H. cbn in H. injection H as ->. by apply Hs.
  - destruct (starts_with _ _) eqn:Es; [|done]. exfalso. apply Hs. rewrite <- Ht.
    apply starts_with_spec in Es as [k Es]. cbn in Es. injection Es as ->. reflexivity.
Qed.

(** C33: the agent and the shard agree on what a request is about.  When the shard routes a path to a
    data route, its logs name the object of the route's captures, under a channel or not; the agent
    keys the bare path by the same object, with the degraded answers of the build cache for the
    build-cache routes only; and it refuses the paths under a channel, as it does no others the shard
    serves data on. *)
Theorem agent_mirrors_router path segments r caps m matched :
  path_segments path = Some segments -> find_route segments = Some (r, caps) -> is_data (r_resource r) = true ->
  exists kind id, server_request_identity path matched = (kind, id)
    /\ is_channel_path path = r_scoped r
    /\ if r_scoped r
       then exists c bare, segments = lit "channels" :: c :: bare /\ caps = c :: drop 1 caps
              /\ object_of (r_resource r) bare (drop 1 caps) = Some (kind, id)
       else object_of (r_resource r) segments caps = Some (kind, id)
         /\ classify m path = {| routed_kind := kind; routed_id := id;
                                routed_class := if is_build_cache (r_resource r) then build_cache_class m else Passthrough |}.
Proof.
  intros Hp (Hin & Hc & _)%found_matches Hd. destruct (route_cases r Hin Hd) as (x & Hx & -> & [-> | ->]).
  - destruct (data_object x path segments caps m matched Hx Hp Hc) as (kind & id & H1 & H2 & H3). exists kind, id. split; [done|]. split; [|done].
    exact (bare_path x path segments caps Hx Hp Hc).
  - rewrite (parse_nested x Hx) in Hc. cbn in Hc. destruct segments as [|s [|[|c0 c] bare]]; [done| |..].
    1-2: case_bool_decide; done.
    case_bool_decide as Es; [subst s|done]. apply fmap_Some in Hc as (caps' & Hc & ->).
    destruct (scoped_object x path (c0 :: c) bare caps' matched Hx Hp Hc) as (kind & id & H1 & H2). exists kind, id. split; [done|].
    split; [by eapply scoped_path|]. cbn. eauto.
Qed.
End Claims.

(** ** Protected channels *)

Section Protected.
Context {UL : UlidLib} {ULL : UlidLaws} {HX : HexLib} {HXL : HexLaws} {SH : Sha256Lib} {BS : Base64Lib}.
Context {ZS : ZstdLib} {ZSL : ZstdLaws} {DH : DefaultHasherLib}.
Context {URL : UrlLib} {JS : JsonLib} {HT : HtmlLib} {RM : RouteMatcher} {RML : RouteMatcherLaws}.
Context {S : Type} {MS : MetadataStore S} {ML : MetadataLaws S}.
Implicit Types (k : PackageState (S:=S)) (s : ServerState (S:=S)).

Definition app_of s : AppState (S:=S) := pk_app (sv_packages s).

(** A path below a channel is a data route of that channel, or no route. *)
Definition channel_shape (r : route) : bool :=
  match r_pattern r with
  | Seg x :: Param :: p => negb (bool_decide (x = lit "channels")) || (r_scoped r && is_data (r_resource r)) || bool_decide (p = [])
  | Seg x :: p => negb (bool_decide (x = lit "channels")) || bool_decide (p = [])
  | _ => false
  end.

Lemma channel_routes (seg : bytes) rest r caps : find_route (lit "channels" :: seg :: rest) = Some (r, caps) -> rest ≠ [] ->
  r_scoped r = true /\ is_data (r_resource r) = true /\ exists caps', caps = seg :: caps'.
Proof.
  intros (Hin & Hc & _)%found_matches Hne.
  assert (forallb channel_shape router = true) as Hall by (vm_compute; reflexivity).
  rewrite forallb_forall in Hall. specialize (Hall r (proj1 (list_elem_of_In _ _) Hin)). apply captures_shape in Hc. unfold channel_shape in Hall.
  destruct (r_pattern r) as [|[x| |] p]; try done. destruct Hc as (path' & [= <- <-] & Hc).
  destruct p as [|[y| |] p]; cbn in Hc, Hall; try done.
  - by destruct Hc.
  - destruct Hc as (z & rest' & caps' & [= <- <-] & -> & _ & Hc). apply orb_true_iff in Hall as [[H1 H2]%andb_true_iff|H]; [eauto|].
    apply bool_decide_eq_true in H as ->. by destruct Hc.
Qed.

(** What a request to a data route of a channel comes to: a call of that channel, or a refusal. *)
Definition of_channel (channel : bytes) (hs : headers) (x : served) : Prop :=
  match x with
  | ByShard call => data_scope call = Some (Some channel, hs)
  | ByPackages channel' _ => channel' = Some channel
  | _ => False
  end.

Lemma method_call_channel fr res channel caps rq : is_data res = true ->
  let x := method_call fr res (Some channel) caps rq in
  of_channel channel (rq_headers rq) x \/ x = Refused 500 \/ (x = Refused 405 /\ handled res (rq_method rq) = false).
Proof.
  intros Hd. cbv zeta. destruct res; try done; unfold method_call, handled; repeat case_match; subst;
    first [left; reflexivity | right; left; reflexivity | right; right; split; [reflexivity|]].
  all: rewrite ?orb_false_iff, ?bool_decide_eq_false; auto.
Qed.

Lemma method_call_unreadable fr res channel caps rq call code : method_call fr res channel caps rq = ByShard call ->
  unreadable_payload call = Some code ->
  res = RReference /\ rq_method rq = PUT /\ (rq_json rq = JsonRejected code \/ code = 422).
Proof.
  intros H Hu. unfold method_call in H. repeat (case_match; try discriminate); injection H as <-; cbn in Hu; try discriminate.
  all: repeat (case_match; try discriminate); injection Hu as <-; auto.
Qed.

(** A call of a channel whose context is refused. *)
Lemma run_served_refused cfg svc net encoded fr channel hs x k r a : of_channel channel hs x ->
  channel_context (Some channel) hs (pk_app k) = (Err r, a) ->
  run_served cfg svc net encoded fr hs x k
  = (Answer (FromShard (match x with ByShard call => match unreadable_payload call with Some code => plain code | None => r end | _ => r end)), set_app a k).
Proof.
  intros Hx Hc. destruct x as [call|ch call| | |]; try done; cbn [run_served].
  - rewrite (dispatch_context cfg call _ _ _ _ _ Hx Hc). done.
  - cbn in Hx. subst ch. destruct call; cbn [package_handler]; unfold go, fetch_python_simple, python_file, npm, cargo_config, cargo_index, cargo_crate,
      in_app, mbind, M_bind, raising, zoom; by rewrite Hc.
Qed.

(** C26: A protected channel is closed to requests without its token.  Any request to a path below
    [/channels/<channel>/], artifact, reference, build-cache or package route, read or write, whose
    credential does not hash to the stored digest is answered 401, counted as a denial, or 500 (the
    store cannot be read); and it takes no foreground slot, changes no row of the store and no file,
    and contacts no upstream.  Only requests that would be refused to anyone are answered otherwise:
    404 for a path that is no route, 405 for a method the route has no handler for, 400 for captures
    that do not decode, and, the one body that is looked at first, the JSON of a reference's [PUT]
    when it does not parse. *)
Theorem protected_channel_is_closed cfg svc net encoded fr rq (seg : bytes) rest channel c record d v s :
  viewed v (world (app_of s)) ->
  path_segments (rq_path rq) = Some (lit "channels" :: seg :: rest) -> rest ≠ [] ->
  fr_decode fr seg = Some channel -> ChannelId_from_str channel = Ok c ->
  mv_channels v !! c = Some record -> access record = Token d ->
  (forall token, credential (rq_headers rq) = Some token -> sha256 token ≠ token_digest d) ->
  let '(r, _, s') := serve_request cfg svc net encoded fr rq s in
  (response_status r = 401
     /\ authorization_denials (w_metrics (world (app_of s'))) = authorization_denials (w_metrics (world (app_of s))) + 1
   \/ response_status r = 500
   \/ match find_route (lit "channels" :: seg :: rest) with
      | None => response_status r = 404
      | Some (route_, caps) =>
          response_status r = 405 /\ handled (r_resource route_) (rq_method rq) = false
          \/ response_status r = 400 /\ mapM (fr_decode fr) caps = None
          \/ r_resource route_ = RReference /\ rq_method rq = PUT
             /\ (rq_json rq = JsonRejected (response_status r) \/ response_status r = 422)
      end)
  /\ foreground (app_of s') = foreground (app_of s) /\ viewed v (world (app_of s')) /\ w_fs (world (app_of s')) = w_fs (world (app_of s))
  /\ pk_up (sv_packages s') = pk_up (sv_packages s).
Proof.
  intros Hv Hp Hne Hdec Hid Hrec Hacc Hcred. unfold serve_request, route_request. rewrite Hp.
  set (s0 := set_packages _ s). set (k := sv_packages s0).
  assert (exists resp k', run_served cfg svc net encoded fr (rq_headers rq)
      (match find_route (lit "channels" :: seg :: rest) with
       | None => Refused 404
       | Some (r, caps) =>
           match mapM (fr_decode fr) caps with
           | None => Refused (if handled (r_resource r) (rq_method rq) then 400 else 405)
           | Some caps =>
               match r_scoped r, caps with
               | true, c :: caps => method_call fr (r_resource r) (Some c) caps rq
               | _, _ => method_call fr (r_resource r) None caps rq
               end
           end
       end) k = (resp, k')
    /\ (response_status resp = 401
        /\ authorization_denials (w_metrics (world (pk_app k'))) = authorization_denials (w_metrics (world (app_of s))) + 1
       \/ response_status resp = 500
       \/ match find_route (lit "channels" :: seg :: rest) with
          | None => response_status resp = 404
          | Some (route_, caps) =>
              response_status resp = 405 /\ handled (r_resource route_) (rq_method rq) = false
              \/ response_status resp = 400 /\ mapM (fr_decode fr) caps = None
              \/ r_resource route_ = RReference /\ rq_method rq = PUT
                 /\ (rq_json rq = JsonRejected (response_status resp) \/ response_status resp = 422)
          end)
    /\ foreground (pk_app k') = foreground (app_of s) /\ viewed v (world (pk_app k')) /\ w_fs (world (pk_app k')) = w_fs (world (app_of s))
    /\ pk_up k' = pk_up (sv_packages s)) as (resp & k' & Hrun & Hstatus & Hrest).
  { assert (viewed v (world (pk_app k))) as Hvk by exact Hv.
    destruct (protected_context channel (rq_headers rq) c record d v (pk_app k) Hvk Hid Hrec Hacc Hcred) as (bad & s1 & Hctx & Hbad & Hf & Hv1 & Hfs).
    destruct (find_route _) as [[r caps]|] eqn:Er; [|eexists _, _; split; [reflexivity|]; split; [right; by right|done]].
    destruct (channel_routes seg rest r caps Er Hne) as (Hsc & Hd & caps' & ->). cbn [mapM]. rewrite Hdec. cbn [mbind option_bind].
    destruct (mapM (fr_decode fr) caps') as [decoded|] eqn:Em; cbn [mbind option_bind].
    2: { eexists _, _. split; [reflexivity|]. split; [|done]. right. right.
         destruct (handled _ _); cbn; auto. }
    rewrite Hsc. cbn [mret option_ret].
    destruct (method_call_channel fr (r_resource r) channel decoded rq Hd) as [Hx|[Hx|[Hx Hh]]].
    - rewrite (run_served_refused cfg svc net encoded fr channel _ _ k bad s1 Hx Hctx). eexists _, _. split; [reflexivity|].
      split; [|split; [exact Hf|]; split; [exact Hv1|]; split; [exact Hfs|done]].
      destruct (method_call fr (r_resource r) (Some channel) decoded rq) as [call|? call| | |] eqn:Emc; try done; cbn [response_status].
      + destruct (unreadable_payload call) as [code|] eqn:Eu; [|destruct Hbad as [Hb|Hb]; [left; exact Hb|right; by left]].
        destruct (method_call_unreadable _ _ _ _ _ _ _ Emc Eu) as (H1 & H2 & H3). right. right. right. right. cbn. naive_solver.
      + destruct Hbad as [Hb|Hb]; [left; exact Hb|right; by left].
    - rewrite Hx. eexists _, _. split; [reflexivity|]. split; [right; by left|done].
    - rewrite Hx. eexists _, _. split; [reflexivity|]. split; [right; right; by left|done]. }
  set (route_call := match find_route _ with None => _ | Some _ => _ end).
  destruct (find_route _) as [[r caps]|] eqn:Er; subst route_call; cbv beta iota zeta;
    destruct (is_prefetch (rq_headers rq)); cbn [set_prefetch sv_packages]; fold k;
    repeat match goal with |- context [observation_start ?a ?b ?c ?d ?e] => destruct (observation_start a b c d e) as [o rec] end;
    cbn [set_prefetch sv_packages]; fold k; rewrite Hrun; cbn [sv_prefetch observe_http_request set_packages];
    repeat match goal with |- context [set_status ?a ?b ?c] => destruct (set_status a b c) as [o' rec'] end; split; assumption.
Qed.
End Protected.

Section Witness.
#[local] Existing Instances toy_ulid toy_ulid_laws real_hex real_hex_laws toy_sha256 toy_zstd toy_zstd_laws.
#[local] Existing Instances toy_base64 toy_hasher toy_store toy_store_laws toy_url toy_json toy_html reference_matcher reference_matcher_laws.

(** A package asked for without a token. *)
Definition anonymous_package : HttpRequest := {|
  rq_method := GET; rq_path := lit "/channels/" ++ ChannelId_to_string channel_a ++ lit "/proxy/npm/left-pad"; rq_headers := []; rq_stream := [];
  rq_json := JsonRejected 415 |}.

Definition fresh_request : Fresh := {|
  fr_decode := Some; fr_channel := channel_a; fr_secret := sample_secret; fr_name := lit "t"; fr_now := 0; fr_answered := 1 |}.

Definition protected_server : ServerState (S:=MemDB) := {|
  sv_packages := {| pk_app := with_slots protected_shard; pk_up := idle |}; sv_prefetch := zero_shard_prefetch; sv_durations := [] |}.

Definition refused_package :=
  serve_request sample_http sample_service package_net (Ok []) fresh_request anonymous_package protected_server.

Lemma anonymous_segments : path_segments (rq_path anonymous_package)
  = Some [lit "channels"; ChannelId_to_string channel_a; lit "proxy"; lit "npm"; lit "left-pad"].
Proof. vm_compute. reflexivity. Qed.

Lemma refused_package_status : response_status refused_package.1.1 = 401.
Proof. vm_compute. reflexivity. Qed.

Lemma protected_channel_is_closed_witness :
  response_status refused_package.1.1 = 401 /\ up_log (pk_up (sv_packages refused_package.2)) = [].
Proof.
  destruct protected_view as (v & record & d & Hv & Hl & Ha).
  assert (forall token, credential [] = Some token -> sha256 token ≠ token_digest d) as Hc by discriminate.
  pose proof (protected_channel_is_closed sample_http sample_service package_net (Ok []) fresh_request anonymous_package
    (ChannelId_to_string channel_a) [lit "proxy"; lit "npm"; lit "left-pad"] (ChannelId_to_string channel_a) channel_a record d v protected_server
    Hv anonymous_segments ltac:(discriminate) eq_refl channel_text Hl Ha Hc) as H.
  fold refused_package in H. pose proof refused_package_status as E.
  destruct refused_package as [[r o] s']. destruct H as (_ & _ & _ & _ & H).
  split; [exact E|]. cbn [snd]. rewrite H. reflexivity.
Defined.
End Witness.

Lemma routes_are_determined_witness :
  @find_route reference_matcher [lit "proxy"; lit "python"; lit "simple"; []] = @find_route reference_matcher [lit "proxy"; lit "python"; lit "simple"; []]
  /\ (r_resource ∘ fst) <$> @find_route reference_matcher [lit "proxy"; lit "python"; lit "simple"; []] = Some RPythonRoot
  /\ (r_resource ∘ fst) <$> @find_route reference_matcher [lit "proxy"; lit "cargo"; lit "index"; lit "config.json"] = Some RCargoConfig.
Proof.
  split; [exact (@routes_are_determined reference_matcher reference_matcher_laws _)|]. split; vm_compute; reflexivity.
Defined.

Lemma agent_mirrors_router_witness : exists kind id,
  server_request_identity (lit "/channels/c/build-cache/http/k") None = (kind, id) /\ is_channel_path (lit "/channels/c/build-cache/http/k") = true.
Proof.
  destruct (@agent_mirrors_router reference_matcher reference_matcher_laws (lit "/channels/c/build-cache/http/k")
    [lit "channels"; lit "c"; lit "build-cache"; lit "http"; lit "k"]
    (nested ("/build-cache/http/{key}"%string, RHttpCache)) [lit "c"; lit "k"] GET None) as (kind & id & H1 & H2 & _).
  - vm_compute. reflexivity.
  - vm_compute. reflexivity.
  - reflexivity.
  - exists kind, id. split; [exact H1|exact H2].
Defined.
