(* ===== verification/Cli.v ===== *)
(** * The command line ([cli.rs], [main.rs])

    The arguments of the three commands with their defaults, the configuration they make, and what
    [main] does before it hands over to a command.  [Arguments] reads them from the command line and the
    environment. *)

From S2P Require Import Prelude Externals Text Filesystem Web Config Ring Manifest.

(** ** Arguments *)

Record ServeArgs := {
  sa_listen : SocketAddr;
  sa_data_dir : path;
  sa_max_upload_bytes : Z;
  sa_default_expiry_seconds : Z;
  sa_foreground_concurrency : nat;
  sa_reservation_extent_bytes : Z;
  sa_low_watermark_bytes : Z;
  sa_high_watermark_bytes : Z;
  sa_emergency_headroom_bytes : Z;
  sa_bloom_bits : Z;
  sa_reclaim_candidate_limit : nat;
  sa_reclaim_byte_limit : Z;
  sa_orphan_scan_limit : nat;
  sa_go_upstream : bytes;
  sa_python_upstream : bytes;
  sa_npm_upstream : bytes;
  sa_cargo_index_upstream : bytes;
  sa_cargo_crate_upstream : bytes;
  sa_proxy_revalidation_seconds : Z;
  sa_proxy_concurrency : nat;
  sa_upstream_timeout_seconds : Z;
  sa_proxy_allowed_origins : list bytes
}.

Definition loopback (p : Z) : SocketAddr := {| ip := V4 (Z.shiftl 127 24 + 1); port := p |}.

(** The arguments when nothing is given; a relative directory is one of the working directory. *)
Definition default_serve_args (cwd : path) : ServeArgs := {|
  sa_listen := loopback 8080;
  sa_data_dir := cwd ++ [lit "flywheel-data"];
  sa_max_upload_bytes := 10 * 1024 * 1024 * 1024;
  sa_default_expiry_seconds := 7 * 24 * 60 * 60;
  sa_foreground_concurrency := 256;
  sa_reservation_extent_bytes := 64 * 1024 * 1024;
  sa_low_watermark_bytes := 2 * 1024 * 1024 * 1024;
  sa_high_watermark_bytes := 8 * 1024 * 1024 * 1024;
  sa_emergency_headroom_bytes := 1024 * 1024 * 1024;
  sa_bloom_bits := Z.shiftl 1 20;
  sa_reclaim_candidate_limit := 256;
  sa_reclaim_byte_limit := 8 * 1024 * 1024 * 1024;
  sa_orphan_scan_limit := 4096;
  sa_go_upstream := lit "https://proxy.golang.org/";
  sa_python_upstream := lit "https://pypi.org/simple/";
  sa_npm_upstream := lit "https://registry.npmjs.org/";
  sa_cargo_index_upstream := lit "https://index.crates.io/";
  sa_cargo_crate_upstream := lit "https://static.crates.io/crates/";
  sa_proxy_revalidation_seconds := 300;
  sa_proxy_concurrency := 64;
  sa_upstream_timeout_seconds := 30;
  sa_proxy_allowed_origins := [] |}.

(** [ServeArgs::config] *)
Definition ServeArgs_config (a : ServeArgs) : Config := {|
  data_dir := sa_data_dir a;
  max_upload_bytes := sa_max_upload_bytes a;
  default_expiry_seconds := sa_default_expiry_seconds a;
  go_upstream := sa_go_upstream a;
  python_upstream := sa_python_upstream a;
  npm_upstream := sa_npm_upstream a;
  cargo_index_upstream := sa_cargo_index_upstream a;
  cargo_crate_upstream := sa_cargo_crate_upstream a;
  proxy_revalidation_seconds := sa_proxy_revalidation_seconds a;
  proxy_concurrency := sa_proxy_concurrency a;
  upstream_timeout_seconds := sa_upstream_timeout_seconds a;
  proxy_allowed_origins := sa_proxy_allowed_origins a;
  foreground_concurrency := sa_foreground_concurrency a;
  reservation_extent_bytes := sa_reservation_extent_bytes a;
  low_watermark_bytes := sa_low_watermark_bytes a;
  high_watermark_bytes := sa_high_watermark_bytes a;
  emergency_headroom_bytes := sa_emergency_headroom_bytes a;
  bloom_bits := sa_bloom_bits a;
  reclaim_candidate_limit := sa_reclaim_candidate_limit a;
  reclaim_byte_limit := sa_reclaim_byte_limit a;
  orphan_scan_limit := sa_orphan_scan_limit a |}.

Record AgentArgs := {
  aa_listen : SocketAddr;
  aa_srv : bytes;
  aa_refresh_max : Z;
  aa_failure_limit : Z;
  aa_retry_timeout : Z;
  aa_connect_timeout : Z;
  aa_deadline : Z
}.

(** The service name has no default. *)
Definition default_agent_args (srv : bytes) : AgentArgs := {|
  aa_listen := loopback 9080; aa_srv := srv; aa_refresh_max := 30; aa_failure_limit := 1; aa_retry_timeout := 30;
  aa_connect_timeout := 5; aa_deadline := 60 |}.

Record CacheprogArgs := {
  ca_url : bytes;
  ca_token : option bytes;
  ca_cache_dir : option path;
  ca_ephemeral_cache : bool;
  ca_session : option bytes;
  ca_prune_days : Z;
  ca_prefetch_concurrency : nat
}.

Definition default_cacheprog_args (url_ : bytes) : CacheprogArgs := {|
  ca_url := url_; ca_token := None; ca_cache_dir := None; ca_ephemeral_cache := false; ca_session := None;
  ca_prune_days := MANIFEST_MAX_AGE_SECONDS / (24 * 60 * 60); ca_prefetch_concurrency := 8 |}.

(** ** [main] *)

Inductive Command := Serve (arguments : ServeArgs) | Cacheprog (arguments : CacheprogArgs) | Agent (arguments : AgentArgs).
Record Cli := { debug : bool; cli_command : Command }.

Inductive Stream := Stdout | Stderr.

(** Where log records go: a cacheprog's standard output is its protocol. *)
Definition log_stream (c : Command) : Stream := match c with Cacheprog _ => Stderr | Serve _ | Agent _ => Stdout end.

(** [init_logging]: the directives added to those of the environment *)
Definition log_directives (debug_ : bool) : list string := if debug_ then ["flywheel=debug"; "tower_http=debug"]%string else [].

(** What a command writes to its standard output besides its log. *)
Definition protocol_stream (c : Command) : option Stream := match c with Cacheprog _ => Some Stdout | _ => None end.

(** Log records never reach the protocol of a cacheprog. *)
Lemma logs_spare_protocol (c : Command) : protocol_stream c ≠ Some (log_stream c).
Proof. by destruct c. Qed.

(** The two sets of defaults, which are kept apart, agree. *)
Lemma serve_defaults_agree (cwd : path) : ServeArgs_config (default_serve_args cwd) = Config_new (cwd ++ [lit "flywheel-data"]).
Proof. reflexivity. Qed.
