(* ===== verification/Arguments.v ===== *)
(** * Reading the command line ([cli.rs])

    The options of the three commands, by name, environment variable and default, and the arguments
    their texts make.  Splitting the command line into options, choosing between it and the
    environment, and what a number looks like are clap's: [ClapLib]. *)

From S2P Require Import Prelude Externals Filesystem Text Ring Web Config StartupClaims Manifest Protocol Cacheprog Cli.

(** ** [std::net]: parsing socket addresses *)

Section Addresses.

Definition hex_value (c : ascii) : option Z :=
  match digit_value c with
  | Some d => Some d
  | None =>
      let v := byte_value c in
      if (97 <=? v) && (v <=? 102) then Some (v - 87) else if (65 <=? v) && (v <=? 70) then Some (v - 55) else None
  end.

Definition radix_value (hex : bool) (c : ascii) : option Z := if hex then hex_value c else digit_value c.

(** The digits at the start of the text: their value unless it exceeds [max], their number, the rest. *)
Fixpoint read_digits (hex : bool) (max acc : Z) (count : nat) (s : bytes) : option (Z * nat * bytes) :=
  match s with
  | [] => Some (acc, count, [])
  | c :: rest =>
      match radix_value hex c with
      | None => Some (acc, count, s)
      | Some d =>
          let acc := acc * (if hex then 16 else 10) + d in
          if acc <=? max then read_digits hex max acc (Datatypes.S count) rest else None
      end
  end.

(** [Parser::read_number] *)
Definition read_number (hex : bool) (max : Z) (max_digits : option nat) (allow_zero_prefix : bool) (s : bytes) : option (Z * bytes) :=
  '(n, count, rest) ← read_digits hex max 0 0 s;
  if Nat.eqb count 0 then None
  else if match max_digits with Some m => Nat.ltb m count | None => false end then None
  else if negb allow_zero_prefix && starts_with (lit "0") s && Nat.ltb 1 count then None
  else Some (n, rest).

Definition read_char (c : ascii) (s : bytes) : option bytes :=
  match s with c' :: s => if bool_decide (c' = c) then Some s else None | [] => None end.

(** [Parser::read_ipv4_addr]; the address is its 32 bits *)
Definition read_ipv4 (s : bytes) : option (Z * bytes) :=
  let octet := read_number false 255 (Some 3%nat) false in
  '(a, s) ← octet s; s ← read_char "." s;
  '(b, s) ← octet s; s ← read_char "." s;
  '(c, s) ← octet s; s ← read_char "." s;
  '(d, s) ← octet s;
  Some (((a * 256 + b) * 256 + c) * 256 + d, s).

Definition read_separated {A} (first : bool) (read : bytes -> option (A * bytes)) (s : bytes) : option (A * bytes) :=
  if first then read s else s ← read_char ":" s; read s.

(** [read_groups]: up to [limit] groups of sixteen bits, the last two possibly as an IPv4 address *)
Fixpoint read_groups (limit : nat) (first : bool) (s : bytes) : list Z * bool * bytes :=
  match limit with
  | O => ([], false, s)
  | Datatypes.S limit' =>
      match (match limit' with O => None | Datatypes.S _ => read_separated first read_ipv4 s end) with
      | Some (v4, s) => ([v4 / 65536; v4 mod 65536], true, s)
      | None =>
          match read_separated first (read_number true 65535 (Some 4%nat) true) s with
          | None => ([], false, s)
          | Some (g, s) => let '(gs, v4, s) := read_groups limit' false s in (g :: gs, v4, s)
          end
      end
  end.

Definition groups_value (gs : list Z) : Z := fold_left (fun acc g => acc * 65536 + g) gs 0.

(** [Parser::read_ipv6_addr] *)
Definition read_ipv6 (s : bytes) : option (Z * bytes) :=
  let '(head, v4, s) := read_groups 8 true s in
  if Nat.eqb (length head) 8 then Some (groups_value head, s)
  else if v4 then None
  else
    s ← read_char ":" s; s ← read_char ":" s;
    let '(tail, _, s) := read_groups (8 - (length head + 1)) true s in
    Some (groups_value (head ++ repeat 0 (8 - length head - length tail) ++ tail), s).

Definition read_port (s : bytes) : option (Z * bytes) := s ← read_char ":" s; read_number false 65535 None true s.

(** [Parser::read_scope_id] *)
Definition skip_scope_id (s : bytes) : bytes :=
  match (s ← read_char "%" s; read_number false (2 ^ 32 - 1) None true s) with Some (_, s) => s | None => s end.

(** [SocketAddr::from_str]; a scope identifier is not part of the model's addresses *)
Definition parse_socket_addr (s : bytes) : option SocketAddr :=
  let v4 := '(a, s) ← read_ipv4 s; '(p, s) ← read_port s; Some ({| ip := V4 a; port := p |}, s) in
  let v6 := s ← read_char "[" s; '(a, s) ← read_ipv6 s; s ← read_char "]" (skip_scope_id s); '(p, s) ← read_port s;
            Some ({| ip := V6 a; port := p |}, s) in
  match (match v4 with Some x => Some x | None => v6 end) with Some (address_, []) => Some address_ | _ => None end.
End Addresses.

(** ** Options *)

(** An option: its name, its variable, and its default. *)
Record Opt := { long : string; variable : string; fallback : option bytes }.

Definition opt (long_ variable_ : string) (fallback_ : bytes) : Opt := {| long := long_; variable := variable_; fallback := Some fallback_ |}.
Definition required (long_ variable_ : string) : Opt := {| long := long_; variable := variable_; fallback := None |}.

(** What a process is started with: the texts after every option of its command line, the switches set
    there, and its environment. *)
Record Invocation := {
  flags : string -> list bytes;
  switches : string -> bool;
  environment : string -> option bytes
}.

Inductive UsageError := Missing (o : string) | Malformed (o : string) | Repeated (o : string).

Class ClapLib := {
  (** the text of an option that takes one *)
  clap_value : Invocation -> Opt -> result UsageError (option bytes);
  (** the elements of an option that takes several between commas *)
  clap_values : Invocation -> Opt -> list bytes;
  (** a switch with a variable *)
  clap_switch : Invocation -> Opt -> result UsageError bool;
  (** a number up to the given one *)
  clap_number : Z -> bytes -> option Z;
  (** the text of a path *)
  clap_path : bytes -> option bytes
}.

(** A number clap accepts is one of the field's type. *)
Class ClapLaws {CL : ClapLib} : Prop := {
  clap_number_range max s n : clap_number max s = Some n -> 0 <= n <= max
}.

Section Parsing.
Context {CL : ClapLib}.

Definition u32_max : Z := 2 ^ 32 - 1.

(** An argument that must be there. *)
Definition need {A} (parse : bytes -> option A) (inv : Invocation) (o : Opt) : result UsageError A :=
  match clap_value inv o with
  | Err e => Err e
  | Ok None => Err (Missing (long o))
  | Ok (Some text) => match parse text with Some x => Ok x | None => Err (Malformed (long o)) end
  end.

(** An argument that may be absent. *)
Definition may {A} (parse : bytes -> option A) (inv : Invocation) (o : Opt) : result UsageError (option A) :=
  match clap_value inv o with
  | Err e => Err e
  | Ok None => Ok None
  | Ok (Some text) => match parse text with Some x => Ok (Some x) | None => Err (Malformed (long o)) end
  end.

Definition size_of (s : bytes) : option nat := Z.to_nat <$> clap_number u64_max s.

(** A directory, from the one the process runs in. *)
Definition dir_of (cwd : path) (s : bytes) : option path := path_join cwd <$> clap_path s.

#[local] Notation "x ⇐ m ; k" := (match m with Ok x => k | Err e => Err e end) (at level 100, m at next level, right associativity).

Definition number (n : Z) : bytes := dec_string n.

Definition o_listen := opt "listen" "FLYWHEEL_LISTEN" (lit "127.0.0.1:8080").
Definition o_data_dir := opt "data-dir" "FLYWHEEL_DATA_DIR" (lit "./flywheel-data").
Definition o_max_upload_bytes := opt "max-upload-bytes" "FLYWHEEL_MAX_UPLOAD_BYTES" (number (10 * 1024 * 1024 * 1024)).
Definition o_default_expiry_seconds := opt "default-expiry-seconds" "FLYWHEEL_DEFAULT_EXPIRY_SECONDS" (number (7 * 24 * 60 * 60)).
Definition o_foreground_concurrency := opt "foreground-concurrency" "FLYWHEEL_FOREGROUND_CONCURRENCY" (number 256).
Definition o_reservation_extent_bytes := opt "reservation-extent-bytes" "FLYWHEEL_RESERVATION_EXTENT_BYTES" (number (64 * 1024 * 1024)).
Definition o_low_watermark_bytes := opt "low-watermark-bytes" "FLYWHEEL_LOW_WATERMARK_BYTES" (number (2 * 1024 * 1024 * 1024)).
Definition o_high_watermark_bytes := opt "high-watermark-bytes" "FLYWHEEL_HIGH_WATERMARK_BYTES" (number (8 * 1024 * 1024 * 1024)).
Definition o_emergency_headroom_bytes := opt "emergency-headroom-bytes" "FLYWHEEL_EMERGENCY_HEADROOM_BYTES" (number (1024 * 1024 * 1024)).
Definition o_bloom_bits := opt "bloom-bits" "FLYWHEEL_BLOOM_BITS" (number (Z.shiftl 1 20)).
Definition o_reclaim_candidate_limit := opt "reclaim-candidate-limit" "FLYWHEEL_RECLAIM_CANDIDATE_LIMIT" (number 256).
Definition o_reclaim_byte_limit := opt "reclaim-byte-limit" "FLYWHEEL_RECLAIM_BYTE_LIMIT" (number (8 * 1024 * 1024 * 1024)).
Definition o_orphan_scan_limit := opt "orphan-scan-limit" "FLYWHEEL_ORPHAN_SCAN_LIMIT" (number 4096).
Definition o_go_upstream := opt "go-upstream" "FLYWHEEL_GO_UPSTREAM" (lit "https://proxy.golang.org/").
Definition o_python_upstream := opt "python-upstream" "FLYWHEEL_PYTHON_UPSTREAM" (lit "https://pypi.org/simple/").
Definition o_npm_upstream := opt "npm-upstream" "FLYWHEEL_NPM_UPSTREAM" (lit "https://registry.npmjs.org/").
Definition o_cargo_index_upstream := opt "cargo-index-upstream" "FLYWHEEL_CARGO_INDEX_UPSTREAM" (lit "https://index.crates.io/").
Definition o_cargo_crate_upstream := opt "cargo-crate-upstream" "FLYWHEEL_CARGO_CRATE_UPSTREAM" (lit "https://static.crates.io/crates/").
Definition o_proxy_revalidation_seconds := opt "proxy-revalidation-seconds" "FLYWHEEL_PROXY_REVALIDATION_SECONDS" (number 300).
Definition o_proxy_concurrency := opt "proxy-concurrency" "FLYWHEEL_PROXY_CONCURRENCY" (number 64).
Definition o_upstream_timeout_seconds := opt "upstream-timeout-seconds" "FLYWHEEL_UPSTREAM_TIMEOUT_SECONDS" (number 30).
Definition o_proxy_allowed_origins := required "proxy-allowed-origin" "FLYWHEEL_PROXY_ALLOWED_ORIGINS".

(** [ServeArgs]; the binding stops at the first text that is no value of its option *)
Definition parse_serve (inv : Invocation) (cwd : path) : result UsageError ServeArgs :=
  let u64 := need (clap_number u64_max) inv in
  let usize := need size_of inv in
  let string_ := need Some inv in
  listen ⇐ need parse_socket_addr inv o_listen;
  data_dir_ ⇐ need (dir_of cwd) inv o_data_dir;
  max_upload ⇐ u64 o_max_upload_bytes;
  expiry ⇐ u64 o_default_expiry_seconds;
  foreground ⇐ usize o_foreground_concurrency;
  extent ⇐ u64 o_reservation_extent_bytes;
  low ⇐ u64 o_low_watermark_bytes;
  high ⇐ u64 o_high_watermark_bytes;
  headroom ⇐ u64 o_emergency_headroom_bytes;
  bloom ⇐ u64 o_bloom_bits;
  candidates ⇐ usize o_reclaim_candidate_limit;
  reclaim ⇐ u64 o_reclaim_byte_limit;
  orphans ⇐ usize o_orphan_scan_limit;
  go ⇐ string_ o_go_upstream;
  python ⇐ string_ o_python_upstream;
  npm ⇐ string_ o_npm_upstream;
  cargo_index ⇐ string_ o_cargo_index_upstream;
  cargo_crate ⇐ string_ o_cargo_crate_upstream;
  revalidation ⇐ u64 o_proxy_revalidation_seconds;
  proxy ⇐ usize o_proxy_concurrency;
  timeout_ ⇐ u64 o_upstream_timeout_seconds;
  Ok {| sa_listen := listen; sa_data_dir := data_dir_; sa_max_upload_bytes := max_upload; sa_default_expiry_seconds := expiry;
        sa_foreground_concurrency := foreground; sa_reservation_extent_bytes := extent; sa_low_watermark_bytes := low;
        sa_high_watermark_bytes := high; sa_emergency_headroom_bytes := headroom; sa_bloom_bits := bloom;
        sa_reclaim_candidate_limit := candidates; sa_reclaim_byte_limit := reclaim; sa_orphan_scan_limit := orphans;
        sa_go_upstream := go; sa_python_upstream := python; sa_npm_upstream := npm; sa_cargo_index_upstream := cargo_index;
        sa_cargo_crate_upstream := cargo_crate; sa_proxy_revalidation_seconds := revalidation; sa_proxy_concurrency := proxy;
        sa_upstream_timeout_seconds := timeout_; sa_proxy_allowed_origins := clap_values inv o_proxy_allowed_origins |}.

Definition a_listen := opt "listen" "FLYWHEEL_AGENT_LISTEN" (lit "127.0.0.1:9080").
Definition a_srv := required "srv" "FLYWHEEL_AGENT_SRV".
Definition a_refresh_max := opt "refresh-max" "FLYWHEEL_AGENT_REFRESH_MAX" (number 30).
Definition a_failure_limit := opt "failure-limit" "FLYWHEEL_AGENT_FAILURE_LIMIT" (number 1).
Definition a_retry_timeout := opt "retry-timeout" "FLYWHEEL_AGENT_RETRY_TIMEOUT" (number 30).
Definition a_connect_timeout := opt "connect-timeout" "FLYWHEEL_AGENT_CONNECT_TIMEOUT" (number 5).
Definition a_deadline := opt "deadline" "FLYWHEEL_AGENT_DEADLINE" (number 60).

(** [AgentArgs] *)
Definition parse_agent (inv : Invocation) : result UsageError AgentArgs :=
  let u64 := need (clap_number u64_max) inv in
  listen ⇐ need parse_socket_addr inv a_listen;
  srv ⇐ need Some inv a_srv;
  refresh ⇐ u64 a_refresh_max;
  limit ⇐ need (clap_number u32_max) inv a_failure_limit;
  retry ⇐ u64 a_retry_timeout;
  connect ⇐ u64 a_connect_timeout;
  deadline_ ⇐ u64 a_deadline;
  Ok {| aa_listen := listen; aa_srv := srv; aa_refresh_max := refresh; aa_failure_limit := limit; aa_retry_timeout := retry;
        aa_connect_timeout := connect; aa_deadline := deadline_ |}.

Definition c_url := required "url" "FLYWHEEL_CACHEPROG_URL".
Definition c_token := required "token" "FLYWHEEL_CACHEPROG_TOKEN".
Definition c_cache_dir := required "cache-dir" "FLYWHEEL_CACHEPROG_DIR".
Definition c_ephemeral_cache := required "ephemeral-cache" "FLYWHEEL_CACHEPROG_EPHEMERAL_CACHE".
Definition c_session := required "session" "FLYWHEEL_SESSION".
Definition c_prune_days := opt "prune-days" "FLYWHEEL_CACHEPROG_PRUNE_DAYS" (number (MANIFEST_MAX_AGE_SECONDS / (24 * 60 * 60))).
Definition c_prefetch_concurrency := opt "prefetch-concurrency" "FLYWHEEL_CACHEPROG_PREFETCH_CONCURRENCY" (number 8).

(** [CacheprogArgs] *)
Definition parse_cacheprog (inv : Invocation) (cwd : path) : result UsageError CacheprogArgs :=
  url_ ⇐ need Some inv c_url;
  token_ ⇐ may Some inv c_token;
  cache_dir ⇐ may (dir_of cwd) inv c_cache_dir;
  ephemeral ⇐ clap_switch inv c_ephemeral_cache;
  session_ ⇐ may Some inv c_session;
  days ⇐ need (clap_number u64_max) inv c_prune_days;
  concurrency ⇐ need size_of inv c_prefetch_concurrency;
  Ok {| ca_url := url_; ca_token := token_; ca_cache_dir := cache_dir; ca_ephemeral_cache := ephemeral; ca_session := session_;
        ca_prune_days := days; ca_prefetch_concurrency := concurrency |}.

(** [Cli]: the command's name and the options found *)
Inductive command_name := NamedServe | NamedCacheprog | NamedAgent.

Definition parse_command (name : command_name) (inv : Invocation) (cwd : path) : result UsageError Command :=
  match name with
  | NamedServe => a ⇐ parse_serve inv cwd; Ok (Serve a)
  | NamedCacheprog => a ⇐ parse_cacheprog inv cwd; Ok (Cli.Cacheprog a)
  | NamedAgent => a ⇐ parse_agent inv; Ok (Agent a)
  end.

Definition parse_cli (name : command_name) (inv : Invocation) (cwd : path) : result UsageError Cli :=
  command_ ⇐ parse_command name inv cwd; Ok {| debug := switches inv "debug"; cli_command := command_ |}.
End Parsing.

(** * What a command line gives

    Every number of a command line that is accepted is one of its field's type: the configuration a
    shard starts from is in range before [Config::validate] looks at it. *)

Section Claims.
Context {CL : ClapLib} {CLL : ClapLaws}.
Implicit Types (inv : Invocation) (o : Opt) (c : Command).

(** The numbers of a command, each with the largest of its type. *)
Definition numbers_of c : list (Opt * Z * Z) :=
  match c with
  | Serve a =>
      [(o_max_upload_bytes, u64_max, sa_max_upload_bytes a); (o_default_expiry_seconds, u64_max, sa_default_expiry_seconds a);
       (o_foreground_concurrency, u64_max, Z.of_nat (sa_foreground_concurrency a));
       (o_reservation_extent_bytes, u64_max, sa_reservation_extent_bytes a); (o_low_watermark_bytes, u64_max, sa_low_watermark_bytes a);
       (o_high_watermark_bytes, u64_max, sa_high_watermark_bytes a);
       (o_emergency_headroom_bytes, u64_max, sa_emergency_headroom_bytes a); (o_bloom_bits, u64_max, sa_bloom_bits a);
       (o_reclaim_candidate_limit, u64_max, Z.of_nat (sa_reclaim_candidate_limit a));
       (o_reclaim_byte_limit, u64_max, sa_reclaim_byte_limit a); (o_orphan_scan_limit, u64_max, Z.of_nat (sa_orphan_scan_limit a));
       (o_proxy_revalidation_seconds, u64_max, sa_proxy_revalidation_seconds a);
       (o_proxy_concurrency, u64_max, Z.of_nat (sa_proxy_concurrency a));
       (o_upstream_timeout_seconds, u64_max, sa_upstream_timeout_seconds a)]
  | Cli.Cacheprog a =>
      [(c_prune_days, u64_max, ca_prune_days a); (c_prefetch_concurrency, u64_max, Z.of_nat (ca_prefetch_concurrency a))]
  | Agent a =>
      [(a_refresh_max, u64_max, aa_refresh_max a); (a_failure_limit, u32_max, aa_failure_limit a);
       (a_retry_timeout, u64_max, aa_retry_timeout a); (a_connect_timeout, u64_max, aa_connect_timeout a);
       (a_deadline, u64_max, aa_deadline a)]
  end.

Definition in_range (n : Opt * Z * Z) : Prop := 0 <= n.2 <= n.1.2.

Definition name_of c : command_name :=
  match c with Serve _ => NamedServe | Cli.Cacheprog _ => NamedCacheprog | Agent _ => NamedAgent end.
Ltac range := unfold in_range, is_u64 in *; cbn [fst snd] in *; lia.

Lemma need_in_range inv o max n : need (clap_number max) inv o = Ok n -> in_range (o, max, n).
Proof.
  unfold need. destruct (clap_value inv o) as [[text|]|]; try done. destruct (clap_number max text) eqn:H; [|done].
  intros [= <-]. by apply clap_number_range in H.
Qed.

Lemma size_in_range inv o n : need size_of inv o = Ok n -> in_range (o, u64_max, Z.of_nat n).
Proof.
  unfold need, size_of. destruct (clap_value inv o) as [[text|]|]; try done. destruct (clap_number u64_max text) eqn:H; [|done].
  intros [= <-]. apply clap_number_range in H. range.
Qed.

(** The command's arguments, one accepted text at a time. *)
Ltac accepted H :=
  repeat match type of H with
  | match ?m with Ok _ => _ | Err _ => _ end = Ok _ => let E := fresh "E" in destruct m eqn:E; [|discriminate H]
  end; injection H as <-.

Ltac ranges :=
  cbn [numbers_of]; repeat (apply Forall_cons; split; [first [by eapply need_in_range | by eapply size_in_range]|]); apply Forall_nil; exact I.

Lemma serve_in_range inv (cwd : path) a : parse_serve inv cwd = Ok a -> Forall in_range (numbers_of (Serve a)).
Proof. unfold parse_serve. intros H. accepted H. ranges. Qed.

Lemma agent_in_range inv a : parse_agent inv = Ok a -> Forall in_range (numbers_of (Agent a)).
Proof. unfold parse_agent. intros H. accepted H. ranges. Qed.

Lemma cacheprog_in_range inv (cwd : path) a : parse_cacheprog inv cwd = Ok a -> Forall in_range (numbers_of (Cli.Cacheprog a)).
Proof. unfold parse_cacheprog. intros H. accepted H. ranges. Qed.
Lemma command_in_range name inv (cwd : path) c : parse_command name inv cwd = Ok c -> name_of c = name /\ Forall in_range (numbers_of c).
Proof.
  unfold parse_command. destruct name; intros H; accepted H; (split; [done|]).
  - by eapply serve_in_range.
  - by eapply cacheprog_in_range.
  - by eapply agent_in_range.
Qed.

Lemma config_in_range a : Forall in_range (numbers_of (Serve a)) -> config_u64 (ServeArgs_config a).
Proof. intros H. unfold numbers_of in H. repeat (apply Forall_cons in H as [? H]). repeat split; cbn; range. Qed.

End Claims.

(** ** A reading of numbers and paths that obeys the laws *)

#[local] Instance toy_clap : ClapLib := {|
  clap_value inv o :=
    match flags inv (long o) with
    | [] => Ok match environment inv (variable o) with Some text => Some text | None => fallback o end
    | [text] => Ok (Some text)
    | _ => Err (Repeated (long o))
    end;
  clap_values inv o :=
    match flags inv (long o) with
    | [] => match environment inv (variable o) with Some text => split_on "," text | None => [] end
    | texts => concat (map (split_on ",") texts)
    end;
  clap_switch inv o :=
    if switches inv (long o) then Ok true
    else match environment inv (variable o) with
         | None => Ok false
         | Some text => if bool_decide (text = lit "true") then Ok true else if bool_decide (text = lit "false") then Ok false else Err (Malformed (long o))
         end;
  clap_number max s := n ← parse_u64 s; if n <=? max then Some n else None;
  clap_path s := match s with [] => None | _ => Some s end
|}.

Lemma toy_clap_laws : @ClapLaws toy_clap.
Proof.
  constructor; cbn -[parse_u64]. intros max s n H. destruct (parse_u64 s) as [m|] eqn:E; cbn in H; [|done].
  apply parse_u64_range in E. unfold is_u64 in E. destruct (m <=? max) eqn:Hm; [|done]. injection H as <-. lia.
Qed.

(** An agent told its service and failure limit on the command line and its deadline by the environment. *)
Definition agent_invocation : Invocation := {|
  flags name := if bool_decide (name = "srv"%string) then [lit "_flywheel._tcp.cache"]
                else if bool_decide (name = "failure-limit"%string) then [lit "3"] else [];
  switches _ := false;
  environment name := if bool_decide (name = "FLYWHEEL_AGENT_DEADLINE"%string) then Some (lit "120")
                      else if bool_decide (name = "FLYWHEEL_AGENT_FAILURE_LIMIT"%string) then Some (lit "9") else None
|}.

Definition told_arguments : AgentArgs := {|
  aa_listen := loopback 9080; aa_srv := lit "_flywheel._tcp.cache"; aa_refresh_max := 30; aa_failure_limit := 3;
  aa_retry_timeout := 30; aa_connect_timeout := 5; aa_deadline := 120 |}.

(** A shard given an upload limit of 2^64. *)
Definition oversized : Invocation := {|
  flags name := if bool_decide (name = "max-upload-bytes"%string) then [lit "18446744073709551616"] else [];
  switches _ := false; environment _ := None |}.

(** The command line goes before the environment and the environment before the default. *)
Example agent_invocation_read :
  parse_cli NamedAgent agent_invocation [] = Ok {| debug := false; cli_command := Agent told_arguments |}.
Proof. vm_compute. reflexivity. Qed.

Example oversized_refused : parse_cli NamedServe oversized [] = Err (Malformed "max-upload-bytes").
Proof. vm_compute. reflexivity. Qed.

(** With nothing given, [serve] gets its documented defaults. *)
Example nothing_given : parse_cli NamedServe {| flags _ := []; switches _ := false; environment _ := None |} []
  = Ok {| debug := false; cli_command := Serve (default_serve_args []) |}.
Proof. vm_compute. reflexivity. Qed.
