(* ===== verification/Server.v ===== *)
(** * The serving process ([main.rs], [lib.rs])

    A shard from its start to its shutdown: opening, requests and the bodies their answers leave
    open, maintenance bursts, and the last pass.  Requests and bursts follow one another here; how
    the operations within them interleave is [Concurrent]'s. *)

From S2P Require Import Prelude Externals Domain Metadata MetadataView MetadataStore Space RecentUse Filesystem ArtifactFiles World Config Channels Cache Text Ring Http HttpClaims Web Negotiation Proxy Packages Startup Manifest Cli Telemetry Routes.

Section Server.
Context {UL : UlidLib} {HX : HexLib} {SH : Sha256Lib} {BS : Base64Lib} {ZS : ZstdLib} {DH : DefaultHasherLib}.
Context {URL : UrlLib} {JS : JsonLib} {HT : HtmlLib} {RM : RouteMatcher}.
Context {S : Type} {MS : MetadataStore S}.

(** The server and the number of bodies being streamed, each of which holds a foreground permit. *)
Record Server := { sr_state : ServerState (S:=S); sr_streaming : nat }.

Definition sr_world (s : Server) : World S := world (pk_app (sv_packages (sr_state s))).
Definition on_app (f : AppState -> AppState) (s : ServerState (S:=S)) : ServerState :=
  set_packages (set_app (f (pk_app (sv_packages s))) (sv_packages s)) s.

(** What [open_internal] makes of the opened services. *)
Definition server_start (c : Config) (w : World S) : Server := {|
  sr_state := {|
    sv_packages := {| pk_app := {| world := w; foreground := foreground_concurrency c |};
                      pk_up := {| up_log := []; up_permits := proxy_concurrency c; up_flights := ∅ |} |};
    sv_prefetch := zero_shard_prefetch; sv_durations := [] |};
  sr_streaming := 0 |}.

(** An answer whose body is streamed under a permit. *)
Definition answer_streams (r : server_response) : bool := match r with Answer (FromShard r) => holds_permit r | _ => false end.

(** A wake-up of the worker brings a burst with what its passes observe. *)
Inductive server_event :=
| Arrives (net : Network) (encoded : result string bytes) (fr : Fresh) (rq : HttpRequest)
| BodyEnds
| Wakes (observations : nat -> option Z) (cancelled : nat -> bool) (passes : nat).

Definition server_step (fw : Flywheel) (e : server_event) (s : Server) : Server :=
  match e with
  | Arrives net encoded fr rq =>
      let '(response, _, s') := serve_request (fw_http fw) (fw_proxy fw) net encoded fr rq (sr_state s) in
      {| sr_state := s'; sr_streaming := sr_streaming s + (if answer_streams response then 1 else 0) |}
  | BodyEnds =>
      match sr_streaming s with
      | O => s
      | Datatypes.S n => {| sr_state := on_app release_foreground (sr_state s); sr_streaming := n |}
      end
  | Wakes observations cancelled passes =>
      {| sr_state := on_app (fun a => set_world (run_maintenance_burst fw observations cancelled passes (world a)).2 a) (sr_state s);
         sr_streaming := sr_streaming s |}
  end.

Definition server_run (fw : Flywheel) (events : list server_event) (s : Server) : Server :=
  fold_left (fun s e => server_step fw e s) events s.

Inductive ServeError := OpenFailed (e : StartupError) | BindFailed.

(** [serve]: open, bind, serve until shutdown, and one more pass whatever it returns.  What is left is
    the store and the disk. *)
Definition serve (arguments : ServeArgs) (sample : option Z) (bound : bool) (events : list server_event) (last : option Z)
    (w : World S) : result ServeError unit * World S :=
  let c := ServeArgs_config arguments in
  match open_internal c sample (boot c w) with
  | (Err e, w) => (Err (OpenFailed e), w)
  | (Ok fw, w) =>
      if negb bound then (Err BindFailed, w)
      else
        let s := server_run fw events (server_start c w) in
        (Ok tt, (flywheel_maintenance (http_cache (fw_http fw)) last (fw_candidate_limit fw) (sr_world s)).2)
  end.
End Server.
