(* ===== verification/ServerLemmas.v ===== *)
(** * Invariants through the handlers

    What the services promise of an invariant of the shard, and that every handler keeps it then:
    the channel, artifact, reference and build-cache routes, the package routes, and maintenance. *)

From S2P Require Import Prelude Externals Domain Metadata MetadataView MetadataRefinement MetadataStore Space RecentUse Filesystem ArtifactFiles FilesLemmas World Config Channels ChannelLemmas Cache CacheLemmas CacheConsistency CacheMaintenance Shard Text Ring Http HttpClaims Web Negotiation Proxy Packages ProxyLemmas ProxyFetch Startup Manifest Cli Telemetry Routes Server.

Section Lemmas.
Context {UL : UlidLib} {ULL : UlidLaws} {HX : HexLib} {HXL : HexLaws} {SH : Sha256Lib} {BS : Base64Lib}.
Context {ZS : ZstdLib} {ZSL : ZstdLaws} {DH : DefaultHasherLib}.
Context {URL : UrlLib} {JS : JsonLib} {HT : HtmlLib} {RM : RouteMatcher}.
Context {S : Type} {MS : MetadataStore S} {ML : MetadataLaws S}.

(** The services keep the invariant, whatever fails in them. *)
Class ServiceInvariant (cfg : CacheConfig) (I : World S -> Prop) : Prop := {
  si_metrics m w : I w -> I (set_metrics m w);
  si_now : preserves I (now : M (World S) CacheError Z);
  si_authorize id credential_ : preserves I (authorize id credential_);
  si_lease id credential_ : triple I (authorize_with_lease id credential_) (fun r w => 0 <= expiry_seconds r /\ I w) (fun _ => I);
  si_update lease expiry : 0 <= expiry -> preserves I (update_expiry lease expiry);
  si_register id secret protected expiry : 0 <= expiry -> preserves I (register id secret protected expiry);
  si_delete id credential_ : preserves I (delete_channel (cache_files cfg) id credential_);
  si_publish name request : request_wf (max_upload_bytes cfg) (req_content_length request) -> preserves I (publish_or_reject cfg name request);
  si_locate c a : preserves I (locate cfg c a);
  si_file : preserves I file_io;
  si_resolve c n : preserves I (resolve_reference c n);
  si_bind c n a e l d : preserves I (bind_reference_with_validators c n a e l d);
  si_unbind c n : preserves I (cache_delete_reference c n);
  si_ready : preserves I (ready cfg);
  si_maintain observation limit : (forall x, observation = Some x -> is_u64 x) -> preserves I (flywheel_maintenance cfg observation limit);
  si_reclaiming w : I w -> I (is_reclaiming w).2
}.

Section Invariant.
Context (cfg : HttpConfig) (I : World S -> Prop) {SI : ServiceInvariant (http_cache cfg) I}.
Hypothesis (upload_limit : 0 <= max_upload_bytes (http_cache cfg)) (default_expiry : 0 <= default_expiry_seconds cfg).

(** ** Handlers of the shard *)

Definition kept (s : AppState (S:=S)) : Prop := I (world s).

Lemma kept_cache {A} (m : M (World S) CacheError A) : preserves I m -> preserves kept (cache m).
Proof. intros H. apply preserves_try, (preserves_zoom world set_world kept I); auto. Qed.
Lemma kept_channels {A} (m : M (World S) ChannelError A) : preserves I m -> preserves kept (channels m).
Proof. intros H. apply preserves_try, (preserves_zoom world set_world kept I); auto. Qed.

Lemma kept_count f s : kept s -> kept (count f s).
Proof. unfold kept. intros H. by apply (si_metrics (cfg:=http_cache cfg)). Qed.

Lemma kept_after {T E A} (J : T -> Prop) (h : M T E A) s : preserves J h -> J s -> J (h s).2.
Proof. intros H Hs. specialize (H s Hs). by destruct (h s) as [[] s']. Qed.

Lemma kept_respond h s : preserves kept h -> kept s -> kept (respond h s).2.
Proof. intros H Hs. unfold respond. specialize (H s Hs). by destruct (h s) as [[] s']. Qed.

Lemma kept_permit h : preserves kept h -> preserves kept (with_permit h).
Proof.
  intros H s Hs. unfold with_permit, acquire_foreground. destruct (foreground s) as [|n]; [by apply kept_count|].
  assert (kept (count (foreground_metrics 1 0) {| world := world s; foreground := n |})) as Hk by (by apply kept_count).
  pose proof (kept_respond h _ H Hk) as Hr. destruct (respond h _) as [r s']. case_bool; [done|]. by apply kept_count.
Qed.

Lemma kept_deny {A} e : preserves kept (deny e : Handler (S:=S) A).
Proof. intros s Hs. unfold deny, channel_denied. destruct e; try done. by apply kept_count. Qed.

Lemma kept_failing f e : (forall s, kept s -> kept (f e s).2) -> preserves kept (failing (S:=S) f e).
Proof. intros H s Hs. unfold failing. specialize (H s Hs). by destruct (f e s). Qed.

Lemma kept_write_failure e s : kept s -> kept (cache_write_failure e s).2 /\ kept (cache_write_failure_with_bypass e s).2.
Proof. intros Hs. destruct e as [[]| | | |]; split; try done; by apply kept_count. Qed.

Lemma kept_authorize channel hs : preserves kept (authorize_channel (S:=S) channel hs).
Proof.
  unfold authorize_channel. destruct (ChannelId_from_str channel) as [c|]; [|apply preserves_throw].
  apply preserves_bind; [apply kept_channels, si_authorize|]. intros [r|e]; [apply preserves_ret|apply kept_deny].
Qed.

Lemma kept_context channel hs : preserves kept (channel_context (S:=S) channel hs).
Proof.
  unfold channel_context. destruct channel; [|apply preserves_ret].
  apply preserves_bind; [apply kept_authorize|]. intros r. apply preserves_ret.
Qed.

Lemma kept_publish name request : request_wf (max_upload_bytes (http_cache cfg)) (req_content_length request) ->
  preserves I (cache_publish (http_cache cfg) name request).
Proof.
  intros H. unfold cache_publish. apply preserves_bind; [by apply si_publish|]. intros []; [apply preserves_ret|apply preserves_throw].
Qed.

Lemma kept_upload name c target hs stream d e : preserves kept (upload cfg name c target hs stream d e).
Proof. apply kept_cache, kept_publish. split; [exact upload_limit|]. intros n. apply content_length_nonneg. Qed.

Lemma kept_serve_artifact c a hs head : preserves kept (serve_artifact cfg c a hs head).
Proof.
  apply kept_permit, preserves_bind; [apply kept_cache, si_locate|]. intros [[l|]|e]; auto with flywheel.
  case_bool; [|apply preserves_ret]. apply preserves_bind; [apply kept_cache, (si_file (cfg:=http_cache cfg))|].
  intros [|]; auto with flywheel.
Qed.

Lemma kept_resolve c n : preserves kept (resolve_with_permit (S:=S) c n).
Proof.
  intros s Hs. unfold resolve_with_permit, acquire_foreground. destruct (foreground s) as [|k]; [by apply kept_count|].
  assert (kept (count (foreground_metrics 1 0) {| world := world s; foreground := k |})) as Hk by (by apply kept_count).
  pose proof (kept_cache _ (si_resolve c n) _ Hk) as H. destruct (cache _ _) as [[r|r] s']; by apply kept_count.
Qed.

Lemma kept_serve_reference c n hs head : preserves kept (serve_reference_artifact cfg c n hs head).
Proof.
  apply preserves_bind; [apply kept_resolve|]. intros [[r|]|e]; [apply kept_serve_artifact|apply preserves_throw..].
Qed.

Lemma kept_put_build name c reference hs stream : preserves kept (put_build cfg name c reference hs stream).
Proof.
  apply kept_permit, preserves_bind; [apply kept_upload|]. intros [p|e]; [apply preserves_ret|]. apply kept_failing.
  intros s Hs. by apply kept_write_failure.
Qed.

(** A put under the artifact's own identity. *)
Lemma kept_put_by_id name c a hs stream (k : Publication -> Response) :
  preserves kept (with_permit (outcome ← upload cfg name c (ById a) hs stream Durable Identity;
    match outcome with Ok p => mret (k p) | Err e => failing cache_write_failure e end)).
Proof.
  apply kept_permit, preserves_bind; [apply kept_upload|]. intros [p|e]; [apply preserves_ret|]. apply kept_failing.
  intros s Hs. by apply kept_write_failure.
Qed.

Lemma kept_patch channel hs patch : (forall x, patch = Some (Some x) -> 0 <= x) -> preserves kept (patch_channel (S:=S) channel hs patch).
Proof.
  intros Hp. unfold patch_channel. destruct patch as [patch|]; [|apply preserves_throw].
  apply (triple_bind _ _ _ _ (fun r s => 0 <= expiry_seconds r /\ kept s) (fun _ => kept)).
  - unfold channel_lease. destruct (ChannelId_from_str channel) as [c|]; [|intros s Hs; exact Hs].
    intros s Hs. unfold channels, mbind, M_bind, try, zoom.
    pose proof (si_lease c (credential hs) (world s) Hs) as H. destruct (authorize_with_lease _ _ _) as [[r|e] w]; [done|].
    apply (kept_deny (A:=ChannelRecord) e (set_world w s)). exact H.
  - intros lease. apply triple_pure. intros He. case_bool; [apply preserves_throw|].
    apply preserves_bind; [|intros [r|e]; apply preserves_ret]. apply kept_channels, si_update.
    destruct patch as [x|]; [by apply Hp|exact He].
Qed.

(** The numbers of a payload are unsigned. *)
Definition http_call_wf (call : http_call) : Prop :=
  match call with
  | RegisterChannel _ _ _ expiry => forall x, expiry = Some x -> 0 <= x
  | PatchChannel _ _ patch => forall x, patch = Some (Some x) -> 0 <= x
  | _ => True
  end.

Lemma kept_reference_call {A} c (m : ChannelId -> M (World S) CacheError A) (k : result CacheError A -> Handler (S:=S) Response) :
  preserves I (m c) -> (forall x, preserves kept (k x)) -> preserves kept (with_permit (outcome ← cache (m c); k outcome)).
Proof. intros Hm Hk. apply kept_permit, preserves_bind; [by apply kept_cache|done]. Qed.

Lemma kept_dispatch call : http_call_wf call -> preserves kept (dispatch cfg call).
Proof.
  intros Hwf. destruct call; cbn [dispatch];
    try (apply preserves_bind; [apply kept_context|]; intros context);
    try apply kept_serve_reference;
    try (destruct (Reference_parse reference) as [n|]; [|apply preserves_throw]);
    try (destruct (ArtifactId_parse _ _) as [a|]; [|apply preserves_throw]);
    try (case_bool; [apply preserves_throw|apply kept_put_build]);
    try apply kept_put_by_id; try apply kept_serve_artifact.
  - apply preserves_bind; [apply preserves_try, kept_context|]. intros context. destruct payload as [[algorithm digest_]|]; [|apply preserves_throw].
    apply preserves_bind; [apply preserves_lift|]. intros ctx. destruct (Reference_parse reference) as [n|]; [|apply preserves_throw].
    destruct (ArtifactId_parse _ _) as [a|]; [|apply preserves_throw].
    apply (kept_reference_call _ (fun c => cache_bind_reference c n a)); [apply si_bind|]. intros []; apply preserves_ret.
  - apply (kept_reference_call _ (fun c => resolve_reference c n)); [apply si_resolve|]. intros [[]|]; apply preserves_ret.
  - apply (kept_reference_call _ (fun c => cache_delete_reference c n)); [apply si_unbind|]. intros []; apply preserves_ret.
  - unfold register_channel. case_bool; [apply preserves_throw|]. apply preserves_bind; [|intros []; apply preserves_ret].
    apply kept_channels, si_register. destruct expiry as [x|]; [by apply Hwf|exact default_expiry].
  - unfold get_channel. apply preserves_bind; [apply kept_authorize|]. intros r. apply preserves_ret.
  - by apply kept_patch.
  - unfold handle_delete_channel. destruct (ChannelId_from_str channel); [|apply preserves_throw].
    apply preserves_bind; [apply kept_channels, si_delete|]. intros []; apply preserves_ret.
  - unfold handle_ready. apply preserves_bind; [apply kept_cache, si_ready|]. intros []; apply preserves_ret.
Qed.

(** ** The proxy *)

Section Packages.
Context (svc : ProxyService) (net : Network).
Hypothesis (same_cache : proxy_cache svc = http_cache cfg).

Definition kept_proxy (p : ProxyState (S:=S)) : Prop := I (p_world p).

Lemma kept_p_world {A} f (m : M (World S) CacheError A) : preserves I m -> preserves kept_proxy (p_world_op f m).
Proof. intros H. apply preserves_raising, (preserves_zoom p_world set_p_world kept_proxy I); auto. Qed.
Lemma kept_p_cache {A} (m : M (World S) CacheError A) : preserves I m -> preserves kept_proxy (p_cache m).
Proof. apply kept_p_world. Qed.

(** What touches nothing but the upstream state. *)
Lemma kept_outside {A} (m : M (ProxyState (S:=S)) ProxyError A) : (forall p, p_world (m p).2 = p_world p) -> preserves kept_proxy m.
Proof. intros H p Hp. specialize (H p). unfold kept_proxy in *. destruct (m p) as [[] p']; cbn in H; by rewrite H. Qed.

Lemma kept_attempts n call : preserves kept_proxy (attempts net n call).
Proof.
  induction n as [|n IH]; cbn [attempts]; [apply preserves_ret|]. apply preserves_bind; [by apply kept_outside|].
  intros [candidate|e]; case_bool; auto with flywheel.
Qed.

Lemma kept_hops pr hs n target : preserves kept_proxy (hops svc net pr hs n target).
Proof.
  revert target. induction n as [|n IH]; intros target; cbn [hops]; [apply preserves_throw|].
  apply preserves_bind; [apply kept_attempts|]. intros answered. apply preserves_bind; [apply preserves_ok_or|]. intros response.
  case_bool; [apply preserves_ret|]. apply preserves_bind; [apply preserves_ok_or|]. intros location.
  apply preserves_bind; [apply preserves_lift|]. intros next. apply preserves_bind; [apply preserves_lift|]. intros _. apply IH.
Qed.

Lemma kept_flight {A} key (m : M (ProxyState (S:=S)) ProxyError A) : preserves kept_proxy m -> preserves kept_proxy (with_flight key m).
Proof.
  intros H p Hp. unfold with_flight. specialize (H (on_up (enter_flight key) p) Hp). by destruct (m _) as [[] p'].
Qed.

Lemma kept_up_permit {A} (m : M (ProxyState (S:=S)) ProxyError A) : preserves kept_proxy m -> preserves kept_proxy (with_upstream_permit m).
Proof.
  intros H p Hp. unfold with_upstream_permit. destruct (up_permits (p_up p)) as [|n]; [done|].
  specialize (H (on_up (set_permits n) p) Hp). by destruct (m _) as [[] p'].
Qed.

Lemma kept_p_locate c a : preserves kept_proxy (p_cache (locate (proxy_cache svc) c a)).
Proof. rewrite same_cache. apply kept_p_cache, si_locate. Qed.
Lemma kept_p_bind c n a e l d : preserves kept_proxy (p_cache (bind_reference_with_validators c n a e l d)).
Proof. apply kept_p_cache, (si_bind (cfg:=http_cache cfg)). Qed.

Lemma kept_cached_outcome c a u t : preserves kept_proxy (cached_outcome svc c a u t).
Proof.
  destruct t; cbn [cached_outcome]; [apply preserves_ret|..];
    (apply preserves_bind; [apply kept_p_locate|]; intros [located|]; [|apply preserves_ret];
     case_bool; [apply preserves_throw|]; apply preserves_bind; [apply kept_p_world, (si_file (cfg:=http_cache cfg))|]; intros _;
     apply preserves_bind; [apply preserves_lift|]; intros b; apply preserves_ret).
Qed.

Lemma kept_fresh_outcome c record u t : preserves kept_proxy (fresh_outcome svc c record u t).
Proof.
  destruct record as [r|]; cbn [fresh_outcome]; [|apply preserves_ret].
  apply preserves_bind; [apply kept_p_cache, (si_now (cfg:=http_cache cfg))|]. intros time. case_bool; [apply kept_cached_outcome|apply preserves_ret].
Qed.

Lemma kept_revalidated c n current u t : preserves kept_proxy (revalidated svc c n current u t).
Proof.
  unfold revalidated. apply preserves_bind; [apply preserves_ok_or|]. intros r. apply preserves_bind; [apply kept_p_bind|]. intros _.
  apply preserves_bind; [apply kept_cached_outcome|]. intros o. apply preserves_ok_or.
Qed.

Lemma kept_handle_response name c n u t response : preserves kept_proxy (handle_response svc name c n u t response).
Proof.
  unfold handle_response. case_bool; [apply preserves_bind; [apply preserves_ok_or|intros b; apply preserves_ret]|].
  assert (forall raw rewritten ct e l, preserves kept_proxy (serve_metadata svc name c n ct e l raw rewritten)) as Hm.
  { intros. apply preserves_bind.
    - apply preserves_try, kept_p_cache. rewrite same_cache. apply kept_publish. split; [exact upload_limit|]. intros x [= <-]. lia.
    - intros [pub|e0]; [apply preserves_bind; [apply kept_p_bind|intros _; apply preserves_ret]|].
      destruct e0 as [| | | | | | |[[]| | | |]]; apply preserves_throw || apply preserves_ret. }
  destruct t.
  2-4: apply preserves_bind; [apply preserves_ok_or|]; intros raw; apply preserves_bind; [apply preserves_lift|]; intros; apply Hm.
  unfold serve_raw. apply preserves_bind.
  - apply kept_p_cache. rewrite same_cache. apply si_publish. split; [exact upload_limit|]. intros x. apply content_length_nonneg.
  - intros [pub|stream]; [|apply preserves_ret]. apply preserves_bind; [apply kept_p_bind|]. intros _. apply preserves_ret.
Qed.

Lemma kept_fetch_url name c pr u t : preserves kept_proxy (fetch_url svc net name c pr u t).
Proof.
  assert (forall n, preserves kept_proxy (p_cache (resolve_reference c n))) as Hr.
  { intros n. apply kept_p_cache, (si_resolve (cfg:=http_cache cfg)). }
  apply preserves_bind; [apply Hr|]. intros cached. apply preserves_bind; [apply kept_fresh_outcome|].
  intros [o|]; [apply preserves_ret|]. apply kept_flight, preserves_bind; [apply Hr|]. intros current.
  apply preserves_bind; [apply kept_fresh_outcome|]. intros [o|]; [apply preserves_ret|].
  apply kept_up_permit, preserves_bind; [apply kept_hops|]. intros response.
  case_bool; [apply kept_revalidated|apply kept_handle_response].
Qed.

(** ** Package routes *)

(** The foreground permit an answer's body holds. *)
Definition held (r : PackageResponse) : nat := match r with FromShard r => if holds_permit r then 1 else 0 | _ => 0 end.

Definition pk_ok (k : PackageState (S:=S)) : Prop := I (world (pk_app k)) /\ flights_wf (proxy_view k).
Definition same_upstream (k k' : PackageState (S:=S)) : Prop :=
  up_permits (pk_up k') = up_permits (pk_up k) /\ up_flights (pk_up k') = up_flights (pk_up k).

(** A step that gives back what it takes; an answer it returns early holds nothing. *)
Definition steady_step {A} (h : PackageHandler (S:=S) A) : Prop := forall k, pk_ok k ->
  pk_ok (h k).2 /\ same_upstream k (h k).2 /\ foreground (pk_app (h k).2) = foreground (pk_app k)
  /\ match (h k).1 with Ok _ => True | Err r => held r = 0%nat end.

(** A handler that keeps nothing but the permit of its answer. *)
Definition orderly (h : PackageHandler (S:=S) PackageResponse) : Prop := forall k, pk_ok k ->
  pk_ok (h k).2 /\ same_upstream k (h k).2
  /\ (foreground (pk_app (h k).2) + held (match (h k).1 with Ok r | Err r => r end) = foreground (pk_app k))%nat.

Lemma orderly_bind {A} (h : PackageHandler A) (f : A -> PackageHandler PackageResponse) :
  steady_step h -> (forall x, orderly (f x)) -> orderly (h ≫= f).
Proof.
  intros Hh Hf k Hk. unfold mbind, M_bind. destruct (Hh k Hk) as (H1 & H2 & H3 & H4). destruct (h k) as [[x|r] k1]; cbn in *.
  - destruct (Hf x k1 H1) as (H5 & [H6 H6'] & H7). destruct H2. split; [done|]. split; [split; congruence|]. by rewrite H7.
  - split; [done|]. split; [done|]. lia.
Qed.

Lemma orderly_ret r : held r = 0%nat -> orderly (mret r).
Proof. intros Hr k Hk. cbn. rewrite Hr. split; [done|]. split; [done|lia]. Qed.
Lemma orderly_throw r : held r = 0%nat -> orderly (throw r).
Proof. intros Hr k Hk. cbn. rewrite Hr. split; [done|]. split; [done|lia]. Qed.

Lemma in_app_steady {A} (h : Handler A) : preserves kept h -> no_slot h -> steady_step (in_app h).
Proof.
  intros Hp Hn k [Hi Hf]. specialize (Hp (pk_app k) Hi). specialize (Hn (pk_app k)). unfold in_app, raising, zoom.
  destruct (h (pk_app k)) as [[x|r] a]; cbn.
  - split; [done|]. split; [done|]. done.
  - destruct Hn as [Hn Hr]. split; [done|]. split; [done|]. split; [done|]. by rewrite Hr.
Qed.

Lemma in_app_orderly (h : Handler Response) : preserves kept h -> balanced h -> orderly (r ← in_app h; mret (FromShard r)).
Proof.
  intros Hp Hb k [Hi Hf]. pose proof (kept_respond h _ Hp Hi) as Hk. specialize (Hb (pk_app k)).
  unfold respond in Hb, Hk. unfold mbind, M_bind, in_app, raising, zoom. destruct (h (pk_app k)) as [[r|r] a]; cbn in *; done.
Qed.

Lemma in_proxy_steady {A} (m : M ProxyState ProxyError A) : preserves kept_proxy m -> settles_up m -> steady_step (in_proxy m).
Proof.
  intros Hp Hs k [Hi Hf]. specialize (Hs (proxy_view k) Hf) as [Hs1 Hs2]. pose proof (kept_after _ m (proxy_view k) Hp Hi) as Hk.
  unfold in_proxy, try, zoom. destruct (m (proxy_view k)) as [r p]. cbn in *.
  split; [split; [exact Hk|]|done]. unfold flights_wf in *. cbn in *. by rewrite Hs2.
Qed.

Lemma answer_orderly c m : preserves kept_proxy m -> settles_up m -> orderly (answer cfg c m).
Proof.
  intros Hp Hs. unfold answer. apply orderly_bind; [by apply in_proxy_steady|]. intros [[]|e]; cbn [outcome_response].
  - apply in_app_orderly; [apply kept_serve_artifact|apply serve_artifact_balanced].
  - by apply orderly_ret.
  - by apply orderly_ret.
  - by apply orderly_ret.
  - apply orderly_ret. by destruct e.
Qed.

Lemma fetch_orderly name c pr path_ t : orderly (package_fetch cfg svc net name c pr path_ t).
Proof.
  apply answer_orderly.
  - apply preserves_bind; [apply preserves_lift|]. intros u. apply kept_fetch_url.
  - apply settles_bind; [apply settles_quiet|]. intros u. apply settles_fetch_url.
Qed.

Lemma encoded_orderly name c pr encoded suffix : orderly (fetch_encoded cfg svc net name c pr encoded suffix).
Proof.
  apply answer_orderly.
  - apply preserves_bind; [apply preserves_lift|]. intros u. apply kept_fetch_url.
  - apply settles_bind; [apply settles_quiet|]. intros u. apply settles_fetch_url.
Qed.

Lemma package_orderly name channel hs call : orderly (package_handler cfg svc net name channel hs call).
Proof.
  assert (steady_step (in_app (channel_context (S:=S) channel hs))) as Hc.
  { apply in_app_steady; [apply kept_context|apply channel_context_slot]. }
  destruct call; cbn [package_handler]; (apply orderly_bind; [exact Hc|]; intros context).
  - apply fetch_orderly.
  - destruct (python_simple _ _ _); [apply fetch_orderly|by apply orderly_throw].
  - destruct (split_sidecar encoded). apply encoded_orderly.
  - destruct (strip_prefix _ _); [apply encoded_orderly|]. destruct (npm_metadata _ _); [apply fetch_orderly|by apply orderly_throw].
  - by apply orderly_ret.
  - apply fetch_orderly.
  - case_bool; [by apply orderly_throw|apply fetch_orderly].
Qed.
End Packages.
End Invariant.
End Lemmas.
