(* ===== verification/ServerClaims.v ===== *)
(** * What a serving process guarantees

    Whatever requests arrive and whatever fails, the server stays well formed from its start to its
    shutdown; and what it leaves behind can be served again, for any number of lifetimes. *)

From S2P Require Import Prelude Externals Domain Records Concrete Metadata MetadataView MetadataRefinement MetadataStore MetadataClaims Space RecentUse Filesystem ArtifactFiles FilesLemmas FilesClaims World Config Channels ChannelLemmas ChannelClaims Cache CacheLemmas CacheConsistency CacheMaintenance Shard DiskTree Samples CacheClaims Text Ring Http HttpClaims Web Negotiation Proxy Packages ProxyLemmas ProxyFetch WebConcrete ProxyClaims Startup StartupClaims Manifest Cli Telemetry Routes RoutesClaims Server ServerLemmas.

Section Claims.
Context {UL : UlidLib} {ULL : UlidLaws} {HX : HexLib} {HXL : HexLaws} {SH : Sha256Lib} {BS : Base64Lib}.
Context {ZS : ZstdLib} {ZSL : ZstdLaws} {DH : DefaultHasherLib}.
Context {URL : UrlLib} {JS : JsonLib} {HT : HtmlLib} {RM : RouteMatcher}.
Context {S : Type} {MS : MetadataStore S} {ML : MetadataLaws S}.
Implicit Types (w : World S) (c : Config).

(** ** The services keep a shard whole *)

Lemma whole_metrics files m w : whole files w -> whole files (set_metrics m w).
Proof. intros (Hs & Hd & Ht). split; [by eapply sound_of_store; [..|exact Hs]|done]. Qed.

Lemma ready_sound cfg : preserves sound (ready (S:=S) cfg).
Proof.
  unfold ready. apply preserves_bind; [apply sound_health|]. intros _. apply preserves_bind; [apply sound_local|]. intros _.
  apply preserves_bind; [apply preserves_get|]. intros w. case_bool; auto with flywheel.
Qed.

Lemma ready_disk files cfg : preserves (disk_ok 0 files) (ready (S:=S) cfg).
Proof.
  unfold ready. apply preserves_bind; [apply disk_ok_meta|]. intros _. apply preserves_bind.
  - apply disk_ok_local. unfold files_health. apply preserves_bind; [|intros []; auto with flywheel].
    apply local_ok_fs, syscall_preserves; [intros t Ht; by repeat case_match|done].
  - intros _. apply preserves_bind; [apply preserves_get|]. intros w. case_bool; auto with flywheel.
Qed.

#[local] Hint Resolve t_publish t_locate t_bind t_unbind t_ready t_maintain t_authorize t_lease t_update t_register t_delete
  closed_invariant : flywheel.

Lemma update_sound (lease : ChannelRecord) expiry : 0 <= expiry -> preserves sound (update_expiry (S:=S) lease expiry).
Proof. intros He. unfold update_expiry. apply preserves_bind; [by apply store_sound|]. intros _. apply preserves_ret. Qed.

Lemma whole_services cfg : files_wf (cache_files cfg) -> ServiceInvariant cfg (whole (S:=S) (cache_files cfg)).
Proof.
  intros Hf. split.
  - apply whole_metrics.
  - intros w (Hs & Hd & Ht). split; [by eapply sound_of_store; [..|exact Hs]|done].
  - intros id cr. apply whole_and; [|apply authorize_disk|auto with flywheel].
    intros w Hw. pose proof (authorize_sound id cr w Hw) as H. destruct (authorize id cr w) as [[] w']; tauto.
  - intros id cr w (Hs & Hd & Ht). pose proof (lease_sound id cr w Hs) as H1. pose proof (lease_disk 0 (cache_files cfg) id cr w Hd) as H2.
    pose proof (t_lease tree_closed id cr w Ht) as H3. destruct (authorize_with_lease id cr w) as [[r|e] w'].
    + destruct H1. split; [done|]. split; [done|]. split; done.
    + done.
  - intros lease expiry He. apply whole_and; [by apply update_sound| |auto with flywheel].
    unfold update_expiry. apply preserves_bind; [apply ch_store_disk|]. intros _. apply preserves_ret.
  - intros id secret protected expiry He. apply whole_and; [by apply register_sound|apply channel_calls_disk|auto with flywheel].
  - intros id cr. apply whole_and; [apply delete_sound|apply channel_calls_disk|auto with flywheel].
  - intros name request Hq. apply whole_and; [apply publish_sound|by apply publish_request_disk|auto with flywheel].
  - intros ch a. apply whole_and; [apply locate_sound|apply locate_disk|auto with flywheel].
  - apply whole_and; [apply sound_local|apply disk_ok_local, touch_local_ok, local_ok_of_tree|apply t_local, j_l_fs_op, touch_preserves].
  - intros ch n. apply whole_and; [apply sound_read_reference|apply disk_ok_meta|apply t_meta].
  - intros ch n a e l d. apply whole_and; [apply bind_sound|apply bind_disk|auto with flywheel].
  - intros ch n. apply whole_and; [apply cache_delete_reference_sound|apply cache_delete_reference_disk|auto with flywheel].
  - apply whole_and; [apply ready_sound|apply ready_disk|auto with flywheel].
  - intros observation limit Ho. apply whole_and; [apply flywheel_sound|by apply flywheel_disk|auto with flywheel].
  - intros w (Hs & [Hh Hi] & Ht). unfold is_reclaiming. pose proof (holds_mode 0 (w_space w) Hh) as Hm.
    destruct (mode (w_space w)) as [md sp]. split; [by eapply sound_of_store; [..|exact Hs]|]. done.
Qed.

(** ** What opening yields *)

Lemma proxy_new_cache cache_ c svc : ProxyService_new cache_ c = Ok svc -> proxy_cache svc = cache_.
Proof. unfold ProxyService_new. intros H. repeat case_match; try done. by injection H as <-. Qed.

Lemma open_yields c sample w fw w' : open_internal (S:=S) c sample w = (Ok fw, w') ->
  validate c = Ok tt /\ fw_http fw = {| http_cache := cache_config c (artifacts_of c); default_expiry_seconds := Config.default_expiry_seconds c |}
  /\ proxy_cache (fw_proxy fw) = cache_config c (artifacts_of c).
Proof.
  unfold open_internal. intros H. apply bind_ok in H as ([] & w1 & Hv & H). split; [by destruct (validate c) as [[]|]|].
  apply bind_ok in H as (? & w2 & _ & H). apply bind_ok in H as (? & w3 & _ & H). apply bind_ok in H as (files & w4 & Hf & H).
  assert (files = artifacts_of c) as ->.
  { unfold start_fs in Hf. destruct (ArtifactFiles_open _ _ (w_fs w3)) as [[opened|e] fs] eqn:E; [|done].
    injection Hf as <- _. by apply open_files_dirs in E as [-> _]. }
  apply bind_ok in H as (? & w5 & _ & H). apply bind_ok in H as (? & w6 & _ & H). apply bind_ok in H as (? & w7 & _ & H).
  apply bind_ok in H as (? & w8 & _ & H). apply bind_ok in H as (proxy & w9 & Hp & H). injection H as <- _. split; [done|]. cbn.
  injection Hp as Hp _. destruct (ProxyService_new _ _) as [svc|] eqn:E; [|done]. injection Hp as <-. by eapply proxy_new_cache.
Qed.

(** ** One step *)

(** What a request and the worker are given is in range: JSON numbers are unsigned, and so are the
    samples of free space. *)
Definition rq_wf (rq : HttpRequest) : Prop :=
  match rq_json rq with JsonRegister _ (Some x) | JsonPatch (Some x) => 0 <= x | _ => True end.

Definition event_wf (e : server_event) : Prop :=
  match e with
  | Arrives _ _ _ rq => rq_wf rq
  | BodyEnds => True
  | Wakes observations _ _ => forall i x, observations i = Some x -> is_u64 x
  end.

Lemma method_call_wf fr res channel caps rq call : rq_wf rq -> method_call fr res channel caps rq = ByShard call -> http_call_wf call.
Proof.
  intros Hq H. unfold rq_wf in Hq. unfold method_call in H. repeat (case_match; try discriminate); injection H as <-; cbn; try done.
  all: intros y Hy; repeat case_match; simplify_eq; done.
Qed.

Lemma route_request_wf fr rq call : rq_wf rq -> (route_request fr rq).2 = ByShard call -> http_call_wf call.
Proof.
  intros Hq. unfold route_request. destruct (path_segments _); [|done]. destruct (find_route _) as [[r caps]|]; [|done]. cbn.
  destruct (mapM _ caps) as [caps'|]; [|done]. intros H. repeat case_match; by eapply method_call_wf.
Qed.

(** The server holds what its open bodies hold, and nothing of the upstream. *)
Record server_ok (files : ArtifactFiles) (slots permits : nat) (s : Server (S:=S)) : Prop := {
  sk_whole : whole files (sr_world s);
  sk_slots : (foreground (pk_app (sv_packages (sr_state s))) + sr_streaming s = slots)%nat;
  sk_permits : up_permits (pk_up (sv_packages (sr_state s))) = permits;
  sk_flights : up_flights (pk_up (sv_packages (sr_state s))) = ∅
}.

Lemma run_served_ok cfg svc net encoded fr hs x k slots :
  files_wf (cache_files (http_cache cfg)) -> 0 <= max_upload_bytes (http_cache cfg) -> 0 <= default_expiry_seconds cfg ->
  proxy_cache svc = http_cache cfg -> (forall call, x = ByShard call -> http_call_wf call) ->
  whole (cache_files (http_cache cfg)) (world (pk_app k)) -> flights_wf (proxy_view k) -> foreground (pk_app k) = slots ->
  let '(r, k') := run_served (S:=S) cfg svc net encoded fr hs x k in
  whole (cache_files (http_cache cfg)) (world (pk_app k')) /\ same_upstream k k'
  /\ (foreground (pk_app k') + (if answer_streams r then 1 else 0) = slots)%nat.
Proof.
  intros Hf Hu He Hsvc Hx Hw Hfl <-. pose proof (whole_services (http_cache cfg) Hf) as SI. destruct x; cbn.
  - pose proof (foreground_slots_conserved cfg call (pk_app k)) as Hs.
    pose proof (kept_respond (whole (cache_files (http_cache cfg))) (dispatch cfg call) (pk_app k)
      (kept_dispatch cfg _ Hu He call (Hx call eq_refl)) Hw) as Hk.
    destruct (respond _ _) as [r s']. done.
  - destruct (package_orderly cfg (whole (cache_files (http_cache cfg))) Hu svc net Hsvc (fr_name fr) channel hs call k (conj Hw Hfl))
      as ([H1 _] & H2 & H3).
    destruct (package_handler _ _ _ _ _ _ _ k) as [[r|r] k']; cbn in *; (split; [done|]; split; [done|]; rewrite <- H3; by destruct r).
  - split; [done|]. split; [done|lia].
  - split; [done|]. split; [done|lia].
  - split; [done|]. split; [done|lia].
Qed.

(** ** Runs *)

Section Running.
Context (c : Config) (fw : Flywheel (URL:=URL)).
Hypothesis (Hvalid : validate c = Ok tt)
  (Hhttp : fw_http fw = {| http_cache := cache_config c (artifacts_of c); default_expiry_seconds := Config.default_expiry_seconds c |})
  (Hproxy : proxy_cache (fw_proxy fw) = cache_config c (artifacts_of c)) (Hc : config_u64 c).

Lemma config_files_wf : files_wf (artifacts_of c).
Proof. destruct Hc as [Hu _]. clear - Hu. unfold files_wf, is_u64, u64_max in *. cbn [reservation_extent artifacts_of]. lia. Qed.

Lemma request_keeps net encoded fr rq s slots permits : rq_wf rq -> server_ok (artifacts_of c) slots permits s ->
  server_ok (artifacts_of c) slots permits (server_step fw (Arrives net encoded fr rq) s).
Proof.
  intros Hq [Hw Hs Hp Hf]. cbn [server_step]. unfold serve_request.
  set (k0 := sv_packages (sr_state s)) in *.
  set (k1 := set_app (count metric_request (pk_app k0)) k0).
  pose proof (route_request_wf fr rq) as Hcall. destruct (route_request fr rq) as [matched x]. cbn [snd] in Hcall.
  assert (sv_packages (set_packages k1 (sr_state s)) = k1) as E1 by done.
  destruct (if is_prefetch (rq_headers rq) then _ else _) as [observation st] eqn:Eo.
  assert (sv_packages st = k1) as E2.
  { destruct (is_prefetch _); [destruct (observation_start _ _ _ _ _) as [o r]|]; injection Eo as _ <-; done. }
  rewrite E2. apply validate_ok in Hvalid as Hpos.
  pose proof (run_served_ok (fw_http fw) (fw_proxy fw) net encoded fr (rq_headers rq) x k1 (foreground (pk_app k1))) as H.
  rewrite Hhttp in H. cbn [http_cache cache_files cache_config max_upload_bytes default_expiry_seconds] in H.
  assert (0 <= Config.max_upload_bytes c /\ 0 <= Config.default_expiry_seconds c) as [Hmax Hexp] by (clear - Hpos; lia).
  specialize (H config_files_wf Hmax Hexp Hproxy (fun call E => Hcall call Hq E)).
  specialize (H (whole_metrics (artifacts_of c) _ _ Hw)). rewrite <- Hhttp in H.
  assert (flights_wf (proxy_view k1)) as Hfl by (unfold flights_wf; cbn; subst k1 k0; cbn; rewrite Hf; apply map_Forall_empty).
  specialize (H Hfl eq_refl). destruct (run_served _ _ _ _ _ _ _ k1) as [response k'].
  destruct H as (H1 & [H2 H3] & H4).
  destruct observation as [o|]; split; cbn; try done; cbn in H2, H3, H4; (lia || congruence).
Qed.

Lemma burst_keeps observations cancelled n w : (forall i x, observations i = Some x -> is_u64 x) ->
  whole (artifacts_of c) w -> whole (artifacts_of c) (run_maintenance_burst fw observations cancelled n w).2.
Proof.
  revert observations cancelled w. induction n as [|n IH]; intros obs canc w Ho Hw; [done|]. cbn [run_maintenance_burst].
  pose proof (whole_services (cache_config c (artifacts_of c)) config_files_wf) as SI. rewrite Hhttp. cbn [http_cache].
  pose proof (si_maintain (cfg:=cache_config c (artifacts_of c)) (obs 0%nat) (fw_candidate_limit fw) (Ho 0%nat) w Hw) as H.
  destruct (flywheel_maintenance _ _ _ w) as [[r|e] w1]; [|done].
  pose proof (si_reclaiming (cfg:=cache_config c (artifacts_of c)) w1 H) as H2. destruct (is_reclaiming w1) as [pressed w2]. cbn in H2.
  case_bool; [done|]. specialize (IH (fun i => obs (Datatypes.S i)) (fun i => canc (Datatypes.S i)) w2 (fun i => Ho _) H2).
  by destruct (run_maintenance_burst _ _ _ n w2).
Qed.

Lemma step_keeps e s slots permits : event_wf e -> server_ok (artifacts_of c) slots permits s ->
  server_ok (artifacts_of c) slots permits (server_step fw e s).
Proof.
  intros He Hs. destruct e as [net encoded fr rq| |observations cancelled passes].
  - by apply request_keeps.
  - cbn. destruct Hs as [Hw Hs Hp Hf]. destruct (sr_streaming s) as [|n] eqn:E; [split; try done; by rewrite E|].
    split; cbn; [by apply whole_metrics|lia|done|done].
  - destruct Hs as [Hw Hs Hp Hf]. split; cbn; [by apply burst_keeps|done..].
Qed.

Lemma run_keeps events s slots permits : Forall event_wf events -> server_ok (artifacts_of c) slots permits s ->
  server_ok (artifacts_of c) slots permits (server_run fw events s).
Proof.
  intros HF. revert s. induction HF as [|e events He _ IH]; intros s Hs; [done|]. cbn. by apply IH, step_keeps.
Qed.

(** What the counters of a run count. *)
Definition arrivals (P : HttpRequest -> bool) (events : list server_event) : nat :=
  length (List.filter (fun e => match e with Arrives _ _ _ rq => P rq | _ => false end) events).

Lemma run_counts events s :
  length (sv_durations (sr_state (server_run fw events s))) = (length (sv_durations (sr_state s)) + arrivals (fun _ => true) events)%nat
  /\ sp_requests (sv_prefetch (sr_state (server_run fw events s)))
     = sp_requests (sv_prefetch (sr_state s)) + Z.of_nat (arrivals (fun rq => is_prefetch (rq_headers rq)) events).
Proof.
  revert s. induction events as [|e events IH]; intros s; [cbn; lia|]. cbn [server_run fold_left].
  change (fold_left (fun s e => server_step fw e s) events (server_step fw e s)) with (server_run fw events (server_step fw e s)).
  destruct (IH (server_step fw e s)) as [-> ->]. unfold arrivals. cbn [List.filter].
  destruct e as [net encoded fr rq| |observations cancelled passes].
  - cbn [server_step]. unfold serve_request. destruct (route_request fr rq) as [matched x].
    destruct (is_prefetch (rq_headers rq)) eqn:Ep; cbn; destruct (run_served _ _ _ _ _ _ _ _) as [response k']; cbn; lia.
  - cbn [server_step]. destruct (sr_streaming s); cbn; lia.
  - cbn. lia.
Qed.
End Running.

Lemma recoverable_boot files c w : config_u64 c -> whole files w -> whole files (boot c w).
Proof.
  intros Hc (Hs & [_ Hi] & Ht). split; [by eapply sound_of_store; [..|exact Hs]|]. split; [|done].
  split; [by apply (new_ledger_holds c None)|done].
Qed.

Lemma start_ok c w : whole (artifacts_of c) w ->
  server_ok (artifacts_of c) (foreground_concurrency c) (proxy_concurrency c) (server_start (S:=S) c w).
Proof. intros Hw. split; cbn; [done|lia|done|done]. Qed.

(** C5: A serving process stays well formed: from its start on, whatever requests arrive (on any
    route, with any headers, bodies and upstream answers; each handler runs to its end before the next
    begins), whatever bodies end and whatever maintenance runs, with any store write and system call failing, the store is sound, no byte is
    left reserved, every published file is intact in a tree where every entry has its directory;
    foreground permits are exactly those free and those of the bodies being streamed, every upstream
    permit is back and no coalescing entry is left; and every request is timed once, every prefetch
    counted once. *)
Theorem server_stays_wellformed c sample w0 fw w1 events :
  config_u64 c -> (forall x, sample = Some x -> is_u64 x) -> Forall event_wf events ->
  whole (artifacts_of c) w0 -> open_internal c sample (boot c w0) = (Ok fw, w1) ->
  let s := server_run fw events (server_start c w1) in
  server_ok (artifacts_of c) (foreground_concurrency c) (proxy_concurrency c) s
  /\ length (sv_durations (sr_state s)) = arrivals (fun _ => true) events
  /\ sp_requests (sv_prefetch (sr_state s)) = Z.of_nat (arrivals (fun rq => is_prefetch (rq_headers rq)) events).
Proof.
  intros Hc Hs He Hw H s. destruct (open_yields c sample _ fw w1 H) as (Hv & Hh & Hp).
  pose proof (open_keeps_whole c sample Hc Hs _ (recoverable_boot _ c w0 Hc Hw)) as Hw1. rewrite H in Hw1.
  split; [|apply (run_counts fw events (server_start c w1))]. apply run_keeps; [done..|]. by apply start_ok.
Qed.

(** *** Lifetimes *)

Record lifetime := {
  lt_arguments : ServeArgs; lt_sample : option Z; lt_bound : bool; lt_events : list server_event; lt_last : option Z
}.

Definition lifetime_wf (dir : path) (l : lifetime) : Prop :=
  sa_data_dir (lt_arguments l) = dir /\ config_u64 (ServeArgs_config (lt_arguments l))
  /\ (forall x, lt_sample l = Some x -> is_u64 x) /\ (forall x, lt_last l = Some x -> is_u64 x) /\ Forall event_wf (lt_events l).

Definition live (l : lifetime) w : World S := (serve (lt_arguments l) (lt_sample l) (lt_bound l) (lt_events l) (lt_last l) w).2.

(** What is on the disk of a data directory, whatever the other settings are. *)
Lemma whole_same_dir c c' w : data_dir c = data_dir c' -> whole (artifacts_of c) w -> config_u64 c' -> whole (artifacts_of c') (boot c' w).
Proof.
  intros E (Hs & [_ Hi] & Ht) Hu. split; [by eapply sound_of_store; [..|exact Hs]|]. split; [split; [by apply (new_ledger_holds c' None)|]|done].
  cbn. intros ch a content. specialize (Hi ch a content). unfold artifact_path, channel_dir, artifacts_of in *. cbn [root] in *. by rewrite <- E.
Qed.

Lemma live_whole c l w : lifetime_wf (data_dir c) l -> whole (artifacts_of c) w ->
  whole (artifacts_of (ServeArgs_config (lt_arguments l))) (live l w).
Proof.
  intros (Hd & Hu & Hs & Hl & He) Hw. unfold live, serve. set (c' := ServeArgs_config (lt_arguments l)) in *.
  assert (whole (artifacts_of c') (boot c' w)) as Hb by (apply (whole_same_dir c); [by symmetry|done|done]).
  pose proof (open_keeps_whole c' (lt_sample l) Hu Hs _ Hb) as Ho.
  destruct (open_internal c' (lt_sample l) (boot c' w)) as [[fw|e] w1] eqn:E; [|done].
  destruct (open_yields c' _ _ fw w1 E) as (Hv & Hh & Hp). case_bool; [done|].
  pose proof (run_keeps c' fw Hv Hh Hp Hu (lt_events l) _ _ _ He (start_ok c' w1 Ho)) as [Hr _ _ _].
  pose proof (whole_services (cache_config c' (artifacts_of c')) (config_files_wf c' Hu)) as SI.
  rewrite Hh. apply (kept_after _ _ _ (si_maintain (cfg:=cache_config c' (artifacts_of c')) (lt_last l) (fw_candidate_limit fw) Hl) Hr).
Qed.

(** What lifetimes of any settings leave of one data directory. *)
Lemma lifetimes_leave_whole (dir : path) lifetimes c w : Forall (lifetime_wf dir) lifetimes -> data_dir c = dir -> whole (artifacts_of c) w ->
  exists c', data_dir c' = dir /\ whole (artifacts_of c') (fold_left (fun w l => live l w) lifetimes w).
Proof.
  intros HF. revert c w. induction HF as [|l ls Hl _ IH]; intros c w Hd Hw; [by exists c|].
  cbn. apply (IH (ServeArgs_config (lt_arguments l))); [exact (proj1 Hl)|]. apply (live_whole c); [by rewrite Hd|done].
Qed.

Lemma lifetimes_keep_shard c sample lifetimes w0 :
  config_u64 c -> (forall x, sample = Some x -> is_u64 x) -> Forall (lifetime_wf (data_dir c)) lifetimes ->
  whole (artifacts_of c) w0 ->
  let '(started_, w) := open_internal c sample (boot c (fold_left (fun w l => live l w) lifetimes w0)) in
  whole (artifacts_of c) w
  /\ (is_ok started_ = true -> exists v, viewed v w /\ default_ok v /\ channels_active v).
Proof.
  intros Hu Hs HF Hw.
  destruct (lifetimes_leave_whole (data_dir c) lifetimes c w0 HF eq_refl Hw) as (c' & Hd & Hw').
  pose proof (whole_same_dir c' c _ Hd Hw' Hu) as Hb. pose proof (open_keeps_whole c sample Hu Hs _ Hb) as Ho.
  destruct (open_internal _ _ _) as [[fw|e] w] eqn:E; [|done]. split; [done|]. intros _.
  destruct (startup_channels c sample _ fw w Hu Hb E) as (_ & _ & v0 & v & _ & Hv & Hopen & Hact & _). by exists v.
Qed.
End Claims.

Section Witnesses.
#[local] Existing Instances toy_ulid toy_ulid_laws real_hex real_hex_laws toy_sha256 toy_zstd toy_zstd_laws.
#[local] Existing Instances toy_base64 toy_hasher toy_store toy_store_laws toy_url toy_json toy_html reference_matcher.

Definition small_args : ServeArgs :=
  let a := default_serve_args [] in
  {| sa_listen := sa_listen a; sa_data_dir := [lit "data"]; sa_max_upload_bytes := sa_max_upload_bytes a;
     sa_default_expiry_seconds := sa_default_expiry_seconds a; sa_foreground_concurrency := sa_foreground_concurrency a;
     sa_reservation_extent_bytes := sa_reservation_extent_bytes a; sa_low_watermark_bytes := sa_low_watermark_bytes a;
     sa_high_watermark_bytes := sa_high_watermark_bytes a; sa_emergency_headroom_bytes := sa_emergency_headroom_bytes a;
     sa_bloom_bits := 128; sa_reclaim_candidate_limit := sa_reclaim_candidate_limit a; sa_reclaim_byte_limit := sa_reclaim_byte_limit a;
     sa_orphan_scan_limit := sa_orphan_scan_limit a; sa_go_upstream := sa_go_upstream a; sa_python_upstream := sa_python_upstream a;
     sa_npm_upstream := sa_npm_upstream a; sa_cargo_index_upstream := sa_cargo_index_upstream a;
     sa_cargo_crate_upstream := sa_cargo_crate_upstream a; sa_proxy_revalidation_seconds := sa_proxy_revalidation_seconds a;
     sa_proxy_concurrency := sa_proxy_concurrency a; sa_upstream_timeout_seconds := sa_upstream_timeout_seconds a;
     sa_proxy_allowed_origins := sa_proxy_allowed_origins a |}.

Definition fresh_values : Fresh := {|
  fr_decode := Some; fr_channel := channel_a; fr_secret := secret; fr_name := lit "upload"; fr_now := 0; fr_answered := 1 |}.

(** A registration, a burst that ends the pressure, a build-cache write, and its read, which leaves a
    body. *)
Definition busy_day : list (server_event (UL:=toy_ulid) (URL:=toy_url)) := [
  Arrives (fun _ _ => Err {| error_is_connect := true; error_is_timeout := false |}) (Ok []) fresh_values
    {| rq_method := POST; rq_path := lit "/channels"; rq_headers := []; rq_stream := []; rq_json := JsonRegister None (Some 60) |};
  Wakes sample_observations (fun _ => false) 5;
  Arrives (fun _ _ => Err {| error_is_connect := true; error_is_timeout := false |}) (Ok []) fresh_values
    {| rq_method := PUT; rq_path := lit "/build-cache/http/key"; rq_headers := []; rq_stream := [Ok (lit "hello")]; rq_json := JsonRejected 415 |};
  Arrives (fun _ _ => Err {| error_is_connect := true; error_is_timeout := false |}) (Ok []) fresh_values
    {| rq_method := GET; rq_path := lit "/build-cache/http/key"; rq_headers := [(lit "x-flywheel-request-purpose", lit "prefetch")];
       rq_stream := []; rq_json := JsonRejected 415 |};
  BodyEnds
].

Lemma busy_day_wf : Forall event_wf busy_day.
Proof.
  constructor; [cbn; lia|]. constructor; [exact sample_observations_u64|]. do 3 (constructor; [exact Logic.I|]). constructor.
Qed.

Lemma crashed_whole : whole (artifacts_of small_config) crashed_world.
Proof.
  split; [exact crashed_sound|]. split; [split; [|exact crashed_intact]|exact interrupted_closed].
  vm_compute. repeat split; discriminate.
Qed.

Lemma server_stays_wellformed_witness : exists fw,
  server_ok (artifacts_of small_config) 256 64 (server_run fw busy_day (server_start small_config started.2))
  /\ length (sv_durations (sr_state (server_run fw busy_day (server_start small_config started.2)))) = 3%nat.
Proof.
  destruct (ok_run (open_internal small_config (Some 1000)) (boot small_config crashed_world) started_ok) as [fw Hfw].
  exists fw. destruct (server_stays_wellformed (S:=MemDB) small_config (Some 1000) crashed_world fw started.2 busy_day) as (H1 & H2 & _).
  - exact small_config_u64.
  - exact sample_u64.
  - exact busy_day_wf.
  - exact crashed_whole.
  - exact Hfw.
  - split; [exact H1|exact H2].
Defined.
End Witnesses.
