(* ===== verification/AgentProcess.v ===== *)
(** * The agent process ([agent/mod.rs])

    The settings of the routing agent, its routes and pages, what surrounds a forwarded request, and
    the discovery task beside it. *)

From S2P Require Import Prelude Externals Domain Text Web Filesystem ArtifactFiles World Ring Discovery Agent Cli Telemetry.

(** ** Settings *)

Record AgentOptions := {
  o_srv : bytes;
  o_refresh_max : Z;
  o_failure_limit : Z;
  o_retry_timeout : Z;
  o_connect_timeout : Z;
  o_deadline : Z
}.

(** [run]: the options made of the arguments, in seconds *)
Definition agent_options (a : AgentArgs) : AgentOptions := {|
  o_srv := aa_srv a;
  o_refresh_max := Z.max (aa_refresh_max a) 1;
  o_failure_limit := aa_failure_limit a;
  o_retry_timeout := aa_retry_timeout a;
  o_connect_timeout := Z.max (aa_connect_timeout a) 1;
  o_deadline := Z.max (aa_deadline a) 1 |}.

(** [RouteClass::as_str] *)
Definition class_str (c : RouteClass) : string :=
  match c with BuildCacheRead => "build_cache_read" | BuildCacheWrite => "build_cache_write" | Passthrough => "passthrough" end%string.

Section Process.
Context {SH : Sha256Lib} {HX : HexLib}.
Context {R : Type} {PR : PrometheusLib R} {RN : RandLib}.

(** The agent with all its collectors; [pr_backoff] is the local of the discovery task. *)
Record AgentProcess := {
  pr_options : AgentOptions;
  pr_state : AgentState;
  pr_registry : R;
  pr_prefetch : AgentPrefetch;
  pr_durations : list Z;
  pr_ring_members : Z;
  pr_ring_ejected : Z;
  pr_backoff : Z
}.

(** [Agent::new], and the discovery task about to start *)
Definition Agent_new (options : AgentOptions) : result string AgentProcess :=
  match AgentMetrics_new with
  | Err e => Err e
  | Ok registry => Ok {|
      pr_options := options;
      pr_state := {| agent_ring := RingState_new (o_failure_limit options) (o_retry_timeout options);
                     agent_metrics := zero_agent_metrics; agent_sent := [] |};
      pr_registry := registry; pr_prefetch := zero_agent_prefetch; pr_durations := []; pr_ring_members := 0; pr_ring_ejected := 0;
      pr_backoff := from_secs 1 |}
  end.

Definition set_agent (st : AgentState) (p : AgentProcess) : AgentProcess := {|
  pr_options := pr_options p; pr_state := st; pr_registry := pr_registry p; pr_prefetch := pr_prefetch p;
  pr_durations := pr_durations p; pr_ring_members := pr_ring_members p; pr_ring_ejected := pr_ring_ejected p; pr_backoff := pr_backoff p |}.

(** ** Pages *)

Record AgentStatus := { as_srv : bytes; as_ring : RingStatus }.

Definition agent_status (now : Z) (p : AgentProcess) : AgentStatus :=
  {| as_srv := o_srv (pr_options p); as_ring := Discovery.status now (agent_ring (pr_state p)) |}.

Definition count_ejected (s : RingStatus) : Z := Z.of_nat (length (List.filter status_ejected (status_members s))).

(** [AgentMetrics::encode]: the gauges are set from the status *)
Definition set_gauges (members_ ejected : Z) (p : AgentProcess) : AgentProcess := {|
  pr_options := pr_options p; pr_state := pr_state p; pr_registry := pr_registry p; pr_prefetch := pr_prefetch p;
  pr_durations := pr_durations p; pr_ring_members := saturating_i64 members_; pr_ring_ejected := saturating_i64 ejected;
  pr_backoff := pr_backoff p |}.

Definition agent_metrics_page (now : Z) (encoded : result string bytes) (p : AgentProcess) : metrics_page * AgentProcess :=
  let s := Discovery.status now (agent_ring (pr_state p)) in
  (metrics_response encoded, set_gauges (Z.of_nat (length (status_members s))) (count_ejected s) p).

(** ** Forwarding *)

Definition SESSION_HEADER : bytes := lit "x-flywheel-session".
Definition CONCURRENCY_HEADER : bytes := lit "x-flywheel-prefetch-concurrency".

Definition wants_prefetch (hs : headers) : bool := bool_decide (header REQUEST_PURPOSE_HEADER hs = Some REQUEST_PURPOSE_PREFETCH).
Definition request_session (hs : headers) : option bytes := value ← header SESSION_HEADER hs; to_str value.
Definition request_concurrency (hs : headers) : option Z :=
  value ← header CONCURRENCY_HEADER hs; value ← to_str value; parse_u64 value.

(** [forward] with its telemetry: the clock of the ring reads [now] and [later], the stopwatch
    [started] and [answered]. *)
Definition observed_forward (now later started answered : Z) (send : UpstreamRequest -> result SendError HttpResponse)
    (request : AgentRequest) (p : AgentProcess) : HttpResponse * option PrefetchObservation * AgentProcess :=
  let hs := a_headers request in
  let '(observation, recorder) :=
    if wants_prefetch hs then
      let '(o, r) := observation_start started None (request_session hs) (request_concurrency hs) (pr_prefetch p) in (Some o, r)
    else (None, pr_prefetch p) in
  let '(response, st) := forward now later send request (pr_state p) in
  let '(observation, recorder) :=
    match observation with
    | Some o => let '(o, r) := set_status (resp_status response) o recorder in (Some o, r)
    | None => (None, recorder)
    end in
  (response, observation,
   {| pr_options := pr_options p; pr_state := st; pr_registry := pr_registry p; pr_prefetch := recorder;
      pr_durations := (answered - started) :: pr_durations p; pr_ring_members := pr_ring_members p;
      pr_ring_ejected := pr_ring_ejected p; pr_backoff := pr_backoff p |}).

(** ** Routes *)

Inductive AgentPage :=
| AgentAlive
| AgentMetricsPage (page : metrics_page)
| AgentStatusPage (s : AgentStatus)
| AgentForwarded (response : HttpResponse) (observation : option PrefetchObservation)
| AgentMethodRefused.

(** The routes answered by the agent itself; everything else is forwarded. *)
Definition own_route (path_ : bytes) : bool :=
  bool_decide (path_ ∈ map lit ["/health/live"; "/health/ready"; "/metrics"; "/status"]%string).

Definition reads (m : Method) : bool := match m with GET | HEAD => true | _ => false end.

Record AgentClock := { ck_now : Z; ck_later : Z; ck_started : Z; ck_answered : Z }.

Definition agent_handle (clock : AgentClock) (send : UpstreamRequest -> result SendError HttpResponse) (encoded : result string bytes)
    (request : AgentRequest) (p : AgentProcess) : AgentPage * AgentProcess :=
  if own_route (a_path request) then
    if negb (reads (a_method request)) then (AgentMethodRefused, p)
    else if bool_decide (a_path request = lit "/metrics") then
      let '(page, p) := agent_metrics_page (ck_now clock) encoded p in (AgentMetricsPage page, p)
    else if bool_decide (a_path request = lit "/status") then (AgentStatusPage (agent_status (ck_now clock) p), p)
    else (AgentAlive, p)
  else
    let '(response, observation, p) :=
      observed_forward (ck_now clock) (ck_later clock) (ck_started clock) (ck_answered clock) send request p in
    (AgentForwarded response observation, p).

(** ** Discovery *)

(** One turn of [run_discovery], [rng] the state of the random generator; [None] is a panic,
    otherwise the delay slept, in nanoseconds. *)
Definition discover (now rng : Z) (resolver : Resolver) (p : AgentProcess) : option Z * AgentProcess :=
  let '(turn, ring) := discovery_turn resolver (o_srv (pr_options p)) now rng (from_secs (o_refresh_max (pr_options p))) (pr_backoff p)
    (agent_ring (pr_state p)) in
  let p := set_agent (on_ring (fun _ => ring) (pr_state p)) p in
  match turn with
  | None => (None, p)
  | Some (backoff, delay) => (Some delay, {|
      pr_options := pr_options p; pr_state := pr_state p; pr_registry := pr_registry p; pr_prefetch := pr_prefetch p;
      pr_durations := pr_durations p; pr_ring_members := pr_ring_members p; pr_ring_ejected := pr_ring_ejected p; pr_backoff := backoff |})
  end.

(** ** The process *)

(** The end of a prefetch response's body is [PrefetchObservation]'s, in [Telemetry]. *)
Inductive agent_event :=
| AgentRequested (clock : AgentClock) (send : UpstreamRequest -> result SendError HttpResponse) (encoded : result string bytes)
    (request : AgentRequest)
| AgentDiscovers (now rng : Z) (resolver : Resolver).

Definition agent_step (e : agent_event) (p : AgentProcess) : AgentProcess :=
  match e with
  | AgentRequested clock send encoded request => (agent_handle clock send encoded request p).2
  | AgentDiscovers now rng resolver => (discover now rng resolver p).2
  end.

Definition agent_run (events : list agent_event) (p : AgentProcess) : AgentProcess := fold_left (fun p e => agent_step e p) events p.
End Process.
