(* ===== verification/AgentProcessClaims.v ===== *)
(** * What the agent process guarantees

    Through any requests and any discovery turns: pages report what is routed, discovery always
    comes back, and the counters add up. *)

From S2P Require Import Prelude Externals Concrete Text Web Filesystem ArtifactFiles World Lists Ring RingClaims Discovery DiscoveryClaims Agent AgentClaims Cli Telemetry TelemetryClaims AgentProcess.

Section Claims.
Context {SH : Sha256Lib} {HX : HexLib}.
Context {R : Type} {PR : PrometheusLib R} {RN : RandLib}.
Implicit Types (p q r : AgentProcess (R:=R)) (st : AgentState) (send : UpstreamRequest -> result SendError HttpResponse).

(** ** The ring through a run *)

(** What a forwarded request leaves in the log of what was sent. *)
Lemma forward_sent now later send request st :
  agent_sent (forward now later send request st).2 = agent_sent st
  \/ exists m pos, owner (current_ring now (agent_ring st)).1 pos = Some m
     /\ agent_sent (forward now later send request st).2 = upstream_request request (address m) :: agent_sent st.
Proof.
  pose proof (forward_cases now later send request st) as H. destruct (forward now later send request st) as [response st']. cbn [snd].
  destruct H as [(_ & H & _)|(_ & H)]; [by left|]. unfold object_owner in H. destruct (key_position _ _) as [pos|]; cbn in H; [|left; apply H].
  destruct (owner _ pos) as [m|] eqn:Eo; [right; exists m, pos; split; [done|apply H]|left; apply H].
Qed.

Record agent_ok p : Prop := {
  ao_ring : ring_ok (inner (agent_ring (pr_state p)));
  ao_refresh : 1 <= o_refresh_max (pr_options p);
  ao_backoff : from_secs 1 <= pr_backoff p <= from_secs (o_refresh_max (pr_options p))
}.

Lemma send_failure_ok now id e st : ring_ok (inner (agent_ring st)) -> ring_ok (inner (agent_ring (record_send_failure now id e st))).
Proof.
  intros H. unfold record_send_failure. case_bool; [done|]. pose proof (record_failure_ok now id (agent_ring st) H) as Hr.
  cbn [agent_ring count] in *. destruct (record_failure now id (agent_ring st)) as [ejected ring]. by destruct ejected.
Qed.

Lemma forward_ring_ok now later send request st : ring_ok (inner (agent_ring st)) ->
  ring_ok (inner (agent_ring (forward now later send request st).2)).
Proof.
  intros H. unfold forward, forward_request. set (prefetch := bool_decide _). case_bool; [done|].
  destruct (key_position _ _) as [pos|]; [|done]. pose proof (current_ring_spec now (agent_ring st) H) as (_ & Hr & _). cbn [agent_ring count].
  destruct (current_ring now (agent_ring st)) as [ring rs]. cbn [snd] in Hr. destruct (owner ring pos) as [m|].
  - destruct (send _) as [response|error].
    + cbn [snd]. rewrite (proj1 (count_if_ring _ _ _)). cbn. by apply record_success_ok.
    + rewrite (proj1 (degrade_ring _ _ _)), (proj1 (count_if_ring _ _ _)). by apply send_failure_ok.
  - by rewrite (proj1 (degrade_ring _ _ _)), (proj1 (count_if_ring _ _ _)).
Qed.

Lemma observed_forward_state now later started answered send request p :
  let p' := (observed_forward now later started answered send request p).2 in
  pr_state p' = (forward now later send request (pr_state p)).2 /\ pr_options p' = pr_options p /\ pr_backoff p' = pr_backoff p
  /\ length (pr_durations p') = Datatypes.S (length (pr_durations p))
  /\ ap_requests (pr_prefetch p') = ap_requests (pr_prefetch p) + (if wants_prefetch (a_headers request) then 1 else 0).
Proof.
  unfold observed_forward. destruct (wants_prefetch _); cbn; destruct (forward _ _ _ _ _) as [response st]; cbn; repeat split; lia.
Qed.

Lemma handle_ok clock send encoded request p : agent_ok p -> agent_ok (agent_handle clock send encoded request p).2.
Proof.
  intros [Hr Hm Hb]. unfold agent_handle. repeat case_bool; try done.
  pose proof (observed_forward_state (ck_now clock) (ck_later clock) (ck_started clock) (ck_answered clock) send request p) as H.
  destruct (observed_forward _ _ _ _ _ _ _) as [[response o] p']. cbn in *. destruct H as (H1 & H2 & H3 & _).
  split; rewrite ?H1, ?H2, ?H3; [by apply forward_ring_ok|done..].
Qed.

(** A turn of the discovery task in a well-formed agent. *)
Lemma discover_ok now rng resolver p : agent_ok p ->
  agent_ok (discover now rng resolver p).2 /\ pr_options (discover now rng resolver p).2 = pr_options p.
Proof.
  intros [Hr Hm Hb]. unfold discover. set (bound := from_secs (o_refresh_max (pr_options p))) in *.
  assert (ring_ok (inner (discovery_turn resolver (o_srv (pr_options p)) now rng bound (pr_backoff p) (agent_ring (pr_state p))).2)
    /\ forall backoff delay, (discovery_turn resolver (o_srv (pr_options p)) now rng bound (pr_backoff p) (agent_ring (pr_state p))).1 = Some (backoff, delay) ->
        from_secs 1 <= backoff <= bound) as [Ht Hd].
  { pose proof (ring_step_ok (agent_ring (pr_state p)) (CallRefresh now resolver (o_srv (pr_options p))) Hr) as Hs. cbn in Hs.
    unfold discovery_turn. destruct (refresh_once _ _ _ _) as [[ttl|e] ring]; cbn in Hs; cbn [fst snd]; split.
    - done.
    - intros backoff delay (d & _ & (d' & _ & [= <- <-])%bind_Some)%bind_Some. lia.
    - by apply (ring_step_ok ring (CallRefreshError e)).
    - intros backoff delay (d & _ & (d' & _ & [= <- <-])%bind_Some)%bind_Some. lia. }
  destruct (discovery_turn _ _ _ _ _ _ _) as [[[backoff delay]|] ring]; cbn [snd fst] in *; (split; [|reflexivity]); constructor; cbn; try done. by apply (Hd backoff delay).
Qed.

Lemma agent_step_ok e p : agent_ok p -> agent_ok (agent_step e p) /\ pr_options (agent_step e p) = pr_options p.
Proof.
  intros H. destruct e as [clock send encoded request|now rng resolver]; cbn.
  - split; [by apply handle_ok|]. unfold agent_handle. repeat case_bool; try done.
    pose proof (observed_forward_state (ck_now clock) (ck_later clock) (ck_started clock) (ck_answered clock) send request p) as Hf.
    destruct (observed_forward _ _ _ _ _ _ _) as [[response o] p']. apply Hf.
  - by apply discover_ok.
Qed.

Lemma agent_run_ok events p : agent_ok p -> agent_ok (agent_run events p) /\ pr_options (agent_run events p) = pr_options p.
Proof.
  revert p. induction events as [|e events IH]; intros p H; [done|]. cbn. destruct (agent_step_ok e p H) as [H1 <-]. by apply IH.
Qed.

Lemma new_ok options p : 1 <= o_refresh_max options -> Agent_new options = Ok p -> agent_ok p /\ pr_options p = options.
Proof.
  unfold Agent_new. intros Hm. destruct AgentMetrics_new; [|done]. intros [= <-]. split; [|done]. split; cbn [pr_options pr_state pr_backoff agent_ring]; [|done|unfold from_secs; lia].
  split; [constructor|done|done].
Qed.

Lemma started_ok_run arguments events p : Agent_new (agent_options arguments) = Ok p ->
  agent_ok (agent_run events p) /\ pr_options (agent_run events p) = agent_options arguments.
Proof.
  intros H. apply new_ok in H as [Hok Ho]; [|cbn; lia]. rewrite <- Ho. by apply agent_run_ok.
Qed.

(** C32: An agent's discovery never stalls, whatever its arguments (a refresh bound below 2^63
    seconds, so that no backoff within it overflows a [Duration] when doubled), its traffic and what
    DNS answers or fails to: every turn ends with a next one due, after a successful lookup in 70 to
    90 % of the answer's lifetime, that lifetime held between one second and the refresh bound (a
    second when the operator gave none), and after a failed one in 50 to 100 % of the backoff, which
    is between one second and the bound.  So the clamp is never given bounds out of order, and no
    delay is under half a second or above the bound (up to a billionth, for rounding). *)
Theorem discovery_always_returns arguments events p now rng resolver :
  Agent_new (agent_options arguments) = Ok p -> aa_refresh_max arguments < 2^63 ->
  let q := agent_run events p in
  let bound := from_secs (Z.max (aa_refresh_max arguments) 1) in
  exists delay, (discover now rng resolver q).1 = Some delay
    /\ match resolve_srv resolver (aa_srv arguments) with
       | Ok answer => portion (Z.min (Z.max (srv_ttl answer) (from_secs 1)) bound) 699999999 900000001 delay
       | Err _ => portion (pr_backoff q) 499999999 1000000001 delay
           /\ pr_backoff (discover now rng resolver q).2 = Z.min (2 * pr_backoff q) bound
       end
    /\ from_secs 1 <= pr_backoff q <= bound.
Proof.
  intros H Hu. cbv zeta. destruct (started_ok_run arguments events p H) as [[_ _ Hb] Ho]. set (q := agent_run events p) in *.
  unfold discover. rewrite Ho in *. cbn [o_srv o_refresh_max agent_options] in *.
  destruct (discovery_loop_bounded resolver (aa_srv arguments) now rng (from_secs (Z.max (aa_refresh_max arguments) 1)) (pr_backoff q)
    (agent_ring (pr_state q))) as (backoff & delay & Ht & _ & Hd); [unfold from_secs; lia|done|].
  destruct (discovery_turn _ _ _ _ _ _ _) as [turn ring]. cbn [fst] in Ht. subst turn. exists delay. split; [done|]. split; [|done].
  destruct (resolve_srv _ _) as [answer|e]; [apply Hd|]. destruct Hd as (E & Hp & _). split; [done|exact E].
Qed.

(** ** Counters *)

(** A request the agent answers without looking for a backend. *)
Definition refused_locally (rq : AgentRequest) : bool :=
  is_channel_path (a_path rq)
  || bool_decide (key_position (routed_kind (classify (a_method rq) (a_path rq))) (routed_id (classify (a_method rq) (a_path rq))) = None).

Definition prefetch_outcomes (m : AgentMetrics) : Z := m_prefetch_hits m + m_prefetch_misses m + m_prefetch_unavailable m.

Lemma prefetch_balance now later send rq st :
  prefetch_outcomes (agent_metrics (forward now later send rq st).2)
  = prefetch_outcomes (agent_metrics st) + (if wants_prefetch (a_headers rq) && negb (refused_locally rq) then 1 else 0).
Proof.
  assert (forall class empty (s : AgentState),
    prefetch_outcomes (agent_metrics (degrade class empty s).2) = prefetch_outcomes (agent_metrics s)) as Hd.
  { intros class empty s. unfold prefetch_outcomes. destruct class; cbn; lia. }
  assert (forall id e (s : AgentState),
    prefetch_outcomes (agent_metrics (record_send_failure later id e s)) = prefetch_outcomes (agent_metrics s)) as Hf.
  { intros id e s. unfold record_send_failure, prefetch_outcomes. case_bool; [done|]. destruct (record_failure _ _ _) as [[] ring]; cbn; lia. }
  assert (forall b (x : AgentMetrics) (s : AgentState),
    prefetch_outcomes (agent_metrics (count_if b x s)) = prefetch_outcomes (agent_metrics s) + (if b then prefetch_outcomes x else 0)) as Hc.
  { intros b x s. unfold prefetch_outcomes. destruct b; cbn; lia. }
  unfold forward, forward_request, refused_locally. fold (wants_prefetch (a_headers rq)). set (prefetch := wants_prefetch _).
  destruct (is_channel_path _); [cbn; rewrite andb_false_r; unfold prefetch_outcomes; cbn; lia|]. cbn [orb].
  destruct (key_position _ _) as [pos|].
  2: { rewrite bool_decide_true by done. rewrite andb_false_r. unfold prefetch_outcomes. cbn. lia. }
  rewrite bool_decide_false by done. rewrite andb_true_r. cbn [agent_ring count]. destruct (current_ring now (agent_ring st)) as [ring rs].
  destruct (owner ring pos) as [m|].
  - destruct (send _) as [answer|error].
    + cbn [snd]. rewrite Hc. replace (prefetch_outcomes (prefetch_outcome (resp_status answer))) with 1.
      * unfold prefetch_outcomes. cbn. lia.
      * unfold prefetch_outcome. by repeat case_bool.
    + rewrite Hd, Hc, Hf. unfold prefetch_outcomes. cbn. destruct prefetch; cbn; lia.
  - rewrite Hd, Hc. unfold prefetch_outcomes. cbn. destruct prefetch; cbn; lia.
Qed.

(** The requests of a run that reached [forward], and how many of them satisfy a test. *)
Definition reached (e : agent_event) : option AgentRequest :=
  match e with AgentRequested _ _ _ rq => if own_route (a_path rq) then None else Some rq | AgentDiscovers _ _ _ => None end.

Definition tally (test : AgentRequest -> bool) (events : list agent_event) : Z := Z.of_nat (length (List.filter test (omap reached events))).

(** What a run adds to the counters. *)
Definition tallied (events : list agent_event) p q : Prop :=
  m_requests (agent_metrics (pr_state q)) = m_requests (agent_metrics (pr_state p)) + tally (fun _ => true) events
  /\ outcomes (agent_metrics (pr_state q)) = outcomes (agent_metrics (pr_state p)) + tally (fun rq => negb (refused_locally rq)) events
  /\ Z.of_nat (length (pr_durations q)) = Z.of_nat (length (pr_durations p)) + tally (fun _ => true) events
  /\ ap_requests (pr_prefetch q) = ap_requests (pr_prefetch p) + tally (fun rq => wants_prefetch (a_headers rq)) events
  /\ prefetch_outcomes (agent_metrics (pr_state q)) = prefetch_outcomes (agent_metrics (pr_state p))
     + tally (fun rq => wants_prefetch (a_headers rq) && negb (refused_locally rq)) events.

Lemma tallied_trans e events p q r : tallied [e] p q -> tallied events q r -> tallied (e :: events) p r.
Proof.
  unfold tallied. assert (forall test, tally test (e :: events) = tally test [e] + tally test events) as Ht.
  { intros test. unfold tally. cbn. destruct (reached e) as [rq|]; cbn; [destruct (test rq); cbn; lia|lia]. }
  rewrite !Ht. lia.
Qed.

Lemma tallied_nothing e p q : reached e = None -> agent_metrics (pr_state q) = agent_metrics (pr_state p) ->
  pr_durations q = pr_durations p -> pr_prefetch q = pr_prefetch p -> tallied [e] p q.
Proof. intros H E1 E2 E3. unfold tallied, tally. cbn. rewrite H, E1, E2, E3. cbn. lia. Qed.

Lemma step_tallied e p : tallied [e] p (agent_step e p).
Proof.
  destruct e as [clock send encoded rq|now rng resolver]; cbn [agent_step].
  - unfold agent_handle. destruct (own_route (a_path rq)) eqn:Eo.
    { assert (reached (AgentRequested clock send encoded rq) = None) as Hr by (cbn; by rewrite Eo).
      repeat case_bool; apply tallied_nothing; done. }
    pose proof (observed_forward_state (ck_now clock) (ck_later clock) (ck_started clock) (ck_answered clock) send rq p) as H.
    destruct (observed_forward _ _ _ _ _ _ _) as [[response o] q]. cbn in H |- *. destruct H as (H1 & _ & _ & H2 & H3).
    destruct (agent_counters_balance (ck_now clock) (ck_later clock) send rq (pr_state p)) as [B1 B2].
    pose proof (prefetch_balance (ck_now clock) (ck_later clock) send rq (pr_state p)) as B3. rewrite <- H1 in B1, B2, B3.
    fold (refused_locally rq) in B2. unfold tallied, tally. cbn. rewrite Eo. cbn. rewrite B1, B2, B3, H2, H3.
    destruct (refused_locally rq), (wants_prefetch (a_headers rq)); cbn; lia.
  - unfold discover. destruct (discovery_turn _ _ _ _ _ _ _) as [[[b d]|] ring]; by apply tallied_nothing.
Qed.

Lemma run_tallied events p : tallied events p (agent_run events p).
Proof.
  revert p. induction events as [|e events IH]; intros p; [unfold tallied, tally; cbn; lia|].
  exact (tallied_trans e events p (agent_step e p) _ (step_tallied e p) (IH _)).
Qed.

(** C31: The agent's books balance over its whole life, as long as clients wait for their answers: it
    counts and times every request it did not answer from its own pages; each of them, unless refused locally (a channel path or an oversized
    key), ends in exactly one outcome, forwarded, synthesized miss, write bypass or unavailable; and
    every prefetch among them is counted as received and, unless refused, in exactly one of hit, miss
    and unavailable. *)
Theorem agent_books_balance options events p :
  Agent_new options = Ok p ->
  let q := agent_run events p in
  m_requests (agent_metrics (pr_state q)) = tally (fun _ => true) events
  /\ outcomes (agent_metrics (pr_state q)) = tally (fun rq => negb (refused_locally rq)) events
  /\ Z.of_nat (length (pr_durations q)) = tally (fun _ => true) events
  /\ ap_requests (pr_prefetch q) = tally (fun rq => wants_prefetch (a_headers rq)) events
  /\ prefetch_outcomes (agent_metrics (pr_state q)) = tally (fun rq => wants_prefetch (a_headers rq) && negb (refused_locally rq)) events.
Proof.
  unfold Agent_new. destruct AgentMetrics_new as [registry|]; [|done]. intros [= <-]. cbn zeta.
  pose proof (run_tallied events {| pr_options := options; pr_state := {|
    agent_ring := RingState_new (o_failure_limit options) (o_retry_timeout options); agent_metrics := zero_agent_metrics; agent_sent := [] |};
    pr_registry := registry; pr_prefetch := zero_agent_prefetch; pr_durations := []; pr_ring_members := 0; pr_ring_ejected := 0; pr_backoff := from_secs 1 |}) as H.
  exact H.
Qed.

(** ** Pages *)

Lemma nodup_filter {A B} (f : A -> B) (keep : A -> bool) l : NoDup (map f l) -> NoDup (map f (List.filter keep l)).
Proof.
  induction l as [|x l IH]; cbn; [done|]. intros [Hx Hl]%NoDup_cons. destruct (keep x); cbn; [|by apply IH].
  apply NoDup_cons. split; [|by apply IH]. intros (y & E & [Hy _]%list_elem_of_In%filter_In)%list_elem_of_fmap.
  apply Hx, list_elem_of_fmap. exists y. split; [done|by apply list_elem_of_In].
Qed.

Lemma owner_member (r : Ring) pos m : owner r pos = Some m -> m ∈ members r.
Proof.
  unfold owner. destruct (points r) as [|x l]; [done|]. intros (x' & _ & H)%bind_Some. destruct x'. by eapply list_elem_of_lookup_2.
Qed.

Lemma length_eligible ms now : NoDup (map health_id ms) ->
  length (members (Ring_new (map health_member (List.filter (eligible now) ms)))) = length (List.filter (eligible now) ms).
Proof.
  intros Hn. cbn. rewrite sorted_unique_nodup.
  - by rewrite (Permutation_length (sort_by_perm _ _)), length_map.
  - change (NoDup (map member_id (map health_member (List.filter (eligible now) ms)))). rewrite map_map. by apply (nodup_filter health_id).
Qed.

(** A member's line of the status page. *)
Definition status_line (now : Z) (h : MemberHealth) : MemberStatus := {|
  status_id := health_id h; status_address := address (health_member h); status_failures := failures h; status_next_retry := next_retry h;
  status_ejected := match next_retry h with Some deadline => now <? deadline | None => false end |}.

Lemma ejected_eligible now h : status_ejected (status_line now h) = negb (eligible now h).
Proof. unfold eligible. cbn. destruct (next_retry h); [|done]. by rewrite Z.leb_antisym, negb_involutive. Qed.

Lemma ejected_count now ms :
  (length (List.filter status_ejected (map (status_line now) ms)) + length (List.filter (eligible now) ms) = length ms)%nat.
Proof.
  induction ms as [|h ms IH]; [done|]. cbn [map List.filter]. rewrite ejected_eligible. destruct (eligible now h); cbn; lia.
Qed.

(** The agent's pages tell the truth about its routing, whatever it went through: at any moment
    the members the status page does not call ejected are exactly those a request may be routed to,
    each listed once and under the address a request is sent to; and the gauges of the metrics page
    are the number of members and that number less the members of the continuum. *)
Theorem pages_report_routing arguments events p now encoded :
  Agent_new (agent_options arguments) = Ok p ->
  let q := agent_run events p in
  let ring := (current_ring now (agent_ring (pr_state q))).1 in
  let page := status_members (as_ring (agent_status now q)) in
  let gauges := (agent_metrics_page now encoded q).2 in
  NoDup (map status_id page)
  /\ (forall m, m ∈ members ring <-> exists line, line ∈ page /\ status_ejected line = false
        /\ status_id line = member_id m /\ status_address line = address m)
  /\ (forall later started answered send request u,
        agent_sent (pr_state (observed_forward now later started answered send request q).2) = u :: agent_sent (pr_state q) ->
        exists line, line ∈ page /\ status_ejected line = false /\ up_address u = status_address line)
  /\ pr_ring_members gauges = saturating_i64 (Z.of_nat (length page))
  /\ pr_ring_ejected gauges = saturating_i64 (Z.of_nat (length page) - Z.of_nat (length (members ring))).
Proof.
  intros H q ring page gauges. destruct (started_ok_run arguments events p H) as [[Hr _ _] _]. fold q in Hr.
  set (ms := discovered (inner (agent_ring (pr_state q)))).
  assert (page = map (status_line now) ms) as Hpage by done.
  assert (NoDup (map health_id ms)) as Hn by (apply (key_lt_nodup health_id bytes_le), Hr).
  assert (ring = Ring_new (map health_member (List.filter (eligible now) ms))) as Hring by (by apply current_ring_spec).
  assert (forall m, m ∈ members ring <-> exists line, line ∈ page /\ status_ejected line = false
        /\ status_id line = member_id m /\ status_address line = address m) as Hmem.
  { intros m. rewrite Hring, Hpage. cbn. split.
    - intros (h & -> & [Hh He]%list_elem_of_In%filter_In)%sorted_unique_elem%list_elem_of_fmap.
      exists (status_line now h). split; [apply list_elem_of_fmap; exists h; split; [done|by apply list_elem_of_In]|].
      split; [by rewrite ejected_eligible, He|done].
    - intros (line & (h & -> & Hh)%list_elem_of_fmap & He & Hid & Ha). rewrite ejected_eligible in He. apply negb_false_iff in He.
      assert (m = health_member h) as ->. { cbn in Hid, Ha. unfold health_id in Hid. destruct m, (health_member h). cbn in *. congruence. }
      rewrite sorted_unique_nodup.
      + rewrite (sort_by_perm _ _). apply list_elem_of_fmap. exists h. split; [done|]. apply list_elem_of_In, filter_In. by rewrite <- list_elem_of_In.
      + change (NoDup (map member_id (map health_member (List.filter (eligible now) ms)))). rewrite map_map. by apply (nodup_filter health_id). }
  split; [rewrite Hpage, map_map; exact Hn|]. split; [exact Hmem|]. split; [|split].
  - intros later started answered send request u Hu.
    destruct (observed_forward_state now later started answered send request q) as (Hst & _). rewrite Hst in Hu.
    destruct (forward_sent now later send request (pr_state q)) as [E|(m & pos & Ho & E)]; rewrite E in Hu.
    + apply (f_equal length) in Hu. cbn in Hu. lia.
    + injection Hu as <-. apply owner_member, Hmem in Ho as (line & H1 & H2 & _ & H4). by exists line.
  - done.
  - change (pr_ring_ejected gauges) with (saturating_i64 (count_ejected (as_ring (agent_status now q)))). f_equal.
    unfold count_ejected. fold page. rewrite Hring, length_eligible by done. rewrite Hpage. rewrite length_map.
    pose proof (ejected_count now ms). lia.
Qed.
End Claims.

Section Witnesses.
#[local] Existing Instances toy_sha256 real_hex list_registry toy_rand.

Definition sample_arguments : AgentArgs := default_agent_args (lit "_flywheel._tcp.cache").

(** Two shards are discovered, the first request ejects one, a prefetch is answered, DNS fails. *)
Definition sample_resolver : Resolver := {|
  resolve_srv := fun _ => Ok {| srv_records := [{| srv_target := lit "shard-0.cache."; srv_port := 80 |}; {| srv_target := lit "shard-1.cache"; srv_port := 80 |}];
                                srv_ttl := from_secs 300 |};
  resolve_ips := fun _ => Ok [V4 1; V4 2] |}.
Definition broken_resolver : Resolver := {| resolve_srv := fun _ => Err (lit "timeout"); resolve_ips := fun _ => Err (lit "timeout") |}.

Definition agent_get (path_ : bytes) (hs : headers) : AgentRequest :=
  {| a_method := GET; a_path := path_; a_path_and_query := path_; a_headers := hs; a_body := [] |}.
Definition clock_at (t : Z) : AgentClock := {| ck_now := t; ck_later := t; ck_started := t; ck_answered := t + 1 |}.

Definition sample_events : list agent_event := [
  AgentDiscovers 100 7 sample_resolver;
  AgentRequested (clock_at 101) (fun _ => Err {| is_connect := true; is_timeout := false |}) (Ok []) (agent_get (lit "/build-cache/http/key") []);
  AgentRequested (clock_at 102) (fun _ => Ok (status_only 200)) (Ok [])
    (agent_get (lit "/build-cache/http/key") [(REQUEST_PURPOSE_HEADER, REQUEST_PURPOSE_PREFETCH)]);
  AgentRequested (clock_at 103) (fun _ => Ok (status_only 200)) (Ok []) (agent_get (lit "/status") []);
  AgentDiscovers 104 8 broken_resolver
].

Definition sample_process : result string (AgentProcess (R:=list string)) := Agent_new (agent_options sample_arguments).

Lemma sample_process_ok : is_ok sample_process = true.
Proof. vm_compute. reflexivity. Qed.

Lemma discovery_always_returns_witness : exists p delay, sample_process = Ok p
  /\ (discover 105 9 broken_resolver (agent_run sample_events p)).1 = Some delay
  /\ portion (pr_backoff (agent_run sample_events p)) 499999999 1000000001 delay.
Proof.
  destruct sample_process as [p|] eqn:E; [|pose proof sample_process_ok as H; rewrite E in H; discriminate H].
  destruct (discovery_always_returns (R:=list string) sample_arguments sample_events p 105 9 broken_resolver E eq_refl) as (delay & H1 & H2 & _).
  exists p, delay. split; [reflexivity|]. split; [exact H1|]. exact (proj1 H2).
Defined.

Lemma agent_books_balance_witness : exists p, sample_process = Ok p
  /\ m_requests (agent_metrics (pr_state (agent_run sample_events p))) = 2
  /\ ap_requests (pr_prefetch (agent_run sample_events p)) = 1.
Proof.
  destruct sample_process as [p|] eqn:E; [|pose proof sample_process_ok as H; rewrite E in H; discriminate H].
  destruct (agent_books_balance (R:=list string) (agent_options sample_arguments) sample_events p E) as (H1 & _ & _ & H4 & _).
  exists p. split; [reflexivity|]. split; [exact H1|exact H4].
Defined.

Lemma pages_report_routing_witness : exists p, sample_process = Ok p
  /\ NoDup (map status_id (status_members (as_ring (agent_status 105 (agent_run sample_events p))))).
Proof.
  destruct sample_process as [p|] eqn:E; [|pose proof sample_process_ok as H; rewrite E in H; discriminate H].
  exists p. split; [reflexivity|]. exact (proj1 (pages_report_routing (R:=list string) sample_arguments sample_events p 105 (Ok []) E)).
Defined.
End Witnesses.
