(* ===== verification/SessionLabel.v ===== *)
(** * The label of a build session ([cacheprog/session.rs])

    The label under which consecutive builds find each other's manifest: given, or made of the Go
    module and the platform built for, or the working directory. *)

From S2P Require Import Prelude Externals Domain Filesystem ArtifactFiles World Channels Cache Text Http Web Proxy Manifest Protocol Cacheprog CacheprogLemmas Cli.

(** ** Text *)

(** [char::is_whitespace], each character in UTF-8 *)
Definition white_space : list bytes :=
  map (map (fun n => ascii_of_N n)) [[9%N]; [10%N]; [11%N]; [12%N]; [13%N]; [32%N]; [194%N; 133%N]; [194%N; 160%N]; [225%N; 154%N; 128%N];
    [226%N; 128%N; 128%N]; [226%N; 128%N; 129%N]; [226%N; 128%N; 130%N]; [226%N; 128%N; 131%N]; [226%N; 128%N; 132%N];
    [226%N; 128%N; 133%N]; [226%N; 128%N; 134%N]; [226%N; 128%N; 135%N]; [226%N; 128%N; 136%N]; [226%N; 128%N; 137%N];
    [226%N; 128%N; 138%N]; [226%N; 128%N; 168%N]; [226%N; 128%N; 169%N]; [226%N; 128%N; 175%N]; [226%N; 129%N; 159%N];
    [227%N; 128%N; 128%N]].

(** The first of the prefixes that the text starts with, taken off. *)
Fixpoint strip_one (prefixes : list bytes) (s : bytes) : option bytes :=
  match prefixes with
  | [] => None
  | p :: prefixes => match strip_prefix p s with Some rest => Some rest | None => strip_one prefixes s end
  end.

Fixpoint strip_all (prefixes : list bytes) (fuel : nat) (s : bytes) : bytes :=
  match fuel with
  | O => s
  | Datatypes.S fuel => match strip_one prefixes s with Some rest => strip_all prefixes fuel rest | None => s end
  end.

(** [str::trim] *)
Definition trim_text (s : bytes) : bytes :=
  let s := strip_all white_space (length s) s in
  rev (strip_all (map (@rev ascii) white_space) (length s) (rev s)).

(** [str::lines]: no line after a final newline, and no carriage return before one *)
Definition LF : ascii := ascii_of_N 10.
Definition CR : ascii := ascii_of_N 13.

Definition strip_cr (line : bytes) : bytes :=
  match rev line with c :: rest => if bool_decide (c = CR) then rev rest else line | [] => [] end.

Definition text_lines (s : bytes) : list bytes :=
  match rev (split_on LF s) with
  | [] => []
  | last_ :: whole =>
      map strip_cr (rev whole) ++ match last_ with [] => [] | _ :: _ => [last_] end
  end.

(** [line.split(sep).next()] for [//] *)
Fixpoint before_comment (s : bytes) : bytes :=
  match s with
  | [] => []
  | c :: rest => if starts_with (lit "//") s then [] else c :: before_comment rest
  end.

(** [String::from_utf8_lossy]: every maximal ill-formed piece becomes a replacement character *)
Definition REPLACEMENT : bytes := map ascii_of_N [239%N; 191%N; 189%N].

Fixpoint lossy_fuel (fuel : nat) (s : bytes) : bytes :=
  match fuel with
  | O => []
  | Datatypes.S fuel =>
      match s with
      | [] => []
      | a :: s1 =>
          let bad rest := REPLACEMENT ++ lossy_fuel fuel rest in
          if in_range 0 127 a then a :: lossy_fuel fuel s1
          else if in_range 194 223 a then
            match s1 with
            | b :: s2 => if tail_byte b then a :: b :: lossy_fuel fuel s2 else bad s1
            | [] => bad s1
            end
          else if in_range 224 239 a then
            match s1 with
            | b :: s2 =>
                if in_range (if byte_value a =? 224 then 160 else 128) (if byte_value a =? 237 then 159 else 191) b then
                  match s2 with
                  | c :: s3 => if tail_byte c then a :: b :: c :: lossy_fuel fuel s3 else bad s2
                  | [] => bad s2
                  end
                else bad s1
            | [] => bad s1
            end
          else if in_range 240 244 a then
            match s1 with
            | b :: s2 =>
                if in_range (if byte_value a =? 240 then 144 else 128) (if byte_value a =? 244 then 143 else 191) b then
                  match s2 with
                  | c :: s3 =>
                      if tail_byte c then
                        match s3 with
                        | d :: s4 => if tail_byte d then a :: b :: c :: d :: lossy_fuel fuel s4 else bad s3
                        | [] => bad s3
                        end
                      else bad s2
                  | [] => bad s2
                  end
                else bad s1
            | [] => bad s1
            end
          else bad s1
      end
  end.
Definition from_utf8_lossy (s : bytes) : bytes := lossy_fuel (length s) s.

(** ** The label *)

(** [parse_module_path] *)
Fixpoint module_of_lines (lines : list bytes) : option bytes :=
  match lines with
  | [] => None
  | line :: lines =>
      match strip_prefix (lit "module") (trim_text (before_comment line)) with
      | Some rest => match trim_quotes (trim_text rest) with [] => module_of_lines lines | (_ :: _) as p => Some p end
      | None => module_of_lines lines
      end
  end.
Definition parse_module_path (go_mod : bytes) : option bytes := module_of_lines (text_lines go_mod).

(** [read_to_string] *)
Definition read_to_string (p : path) : M FS io_error bytes :=
  content ← open_read p;
  if is_utf8 content then mret content else throw (IoOther "stream did not contain valid UTF-8").

(** The directories from [cwd] up to the root, the first [go.mod] that can be read deciding. *)
Fixpoint find_in (directories : list path) : M FS io_error (option bytes) :=
  match directories with
  | [] => mret None
  | directory :: directories =>
      contents ← try (read_to_string (directory ++ [lit "go.mod"]));
      match (contents : result io_error bytes) with
      | Ok contents => mret (parse_module_path contents)
      | Err _ => find_in directories
      end
  end.

(** [Path::ancestors] of an absolute path *)
Definition directories_above (cwd : path) : list path := map (fun n => take (length cwd - n) cwd) (seq 0 (Datatypes.S (length cwd))).

Definition find_module_path (cwd : path) : M FS io_error (option bytes) := find_in (directories_above cwd).

(** [env] is [std::env::var], failures left out *)
Definition go_env (env : bytes -> option bytes) (name fallback : bytes) : bytes :=
  match env name with Some ((_ :: _) as value) => value | _ => fallback end.

(** [os] and [arch] are what the binary was compiled for *)
Definition host_goos (os : bytes) : bytes := if bool_decide (os = lit "macos") then lit "darwin" else os.
Definition host_goarch (arch : bytes) : bytes :=
  if bool_decide (arch = lit "x86_64") then lit "amd64"
  else if bool_decide (arch = lit "aarch64") then lit "arm64"
  else if bool_decide (arch = lit "x86") then lit "386" else arch.

Definition path_text (cwd : path) : bytes := match cwd with [] => lit "/" | _ :: _ => path_string cwd end.

Definition compose_label (module : option bytes) (goos goarch : bytes) (cwd : path) : bytes :=
  match module with
  | Some module => module ++ lit " " ++ goos ++ lit "/" ++ goarch
  | None => from_utf8_lossy (path_text cwd)
  end.

Record Host := { host_env : bytes -> option bytes; host_os : bytes; host_arch : bytes }.

Definition session_label (h : Host) (explicit : option bytes) (cwd : path) : M FS io_error bytes :=
  match explicit with
  | Some label => mret label
  | None =>
      module ← find_module_path cwd;
      mret (compose_label module (go_env (host_env h) (lit "GOOS") (host_goos (host_os h)))
              (go_env (host_env h) (lit "GOARCH") (host_goarch (host_arch h))) cwd)
  end.

(** * What a session's label guarantees

    Builds of one module for one platform share a label wherever in the module they run; builds of
    other modules or for other platforms do not. *)

(** ** What a [go.mod] names

    A module path is made of visible characters other than quotes, with no [//] in it and no slash
    at its end.  The clause may be indented, quoted, and followed by a comment. *)

Definition visible (c : ascii) : bool := in_range 33 126 c.
Definition quote : ascii := "034"%char.
Definition blank (c : ascii) : Prop := c = " "%char \/ c = "009"%char \/ c = CR.

Definition module_name (p : bytes) : Prop :=
  p ≠ [] /\ (forall c, c ∈ p -> visible c = true /\ c ≠ quote) /\ (forall y z, p ++ lit "/" ≠ y ++ lit "//" ++ z).

Inductive module_clause (p : bytes) : bytes -> Prop :=
| ModuleClause indent space quoted tail_ comment :
    Forall blank indent -> Forall blank space -> space ≠ [] -> Forall blank tail_ ->
    quoted = [] \/ quoted = [quote] ->
    comment = [] \/ (exists text, comment = lit "//" ++ text) ->
    module_clause p (indent ++ lit "module" ++ space ++ quoted ++ p ++ quoted ++ tail_ ++ comment).

(** A line that does not begin with [module], whatever white space is before it. *)
Definition other_line (line : bytes) : Prop :=
  forall ws rest, Forall (fun w => w ∈ white_space) ws -> line ≠ concat ws ++ lit "module" ++ rest.

(** The first line that begins with [module] is a clause for [p]. *)
Definition names_module (contents p : bytes) : Prop :=
  module_name p /\ exists before line after,
    split_on LF contents = before ++ line :: after /\ Forall other_line before /\ module_clause p line.

(** ** Trimming *)

Definition starts_hidden (p : bytes) : bool := match p with x :: _ => negb (visible x) | [] => false end.

Lemma strip_one_none ps c s : forallb starts_hidden ps = true -> visible c = true -> strip_one ps (c :: s) = None.
Proof.
  intros Hp Hc. induction ps as [|[|x p] ps IH]; cbn in *; [done|done|]. apply andb_true_iff in Hp as [Hx Hp].
  case_bool_decide as E; [|by apply IH]. subst x. by rewrite Hc in Hx.
Qed.

(** The blanks before the first visible character are what is taken off. *)
Lemma strip_all_blanks ps n (w s : bytes) c : forallb starts_hidden ps = true ->
  (forall x s', blank x -> strip_one ps (x :: s') = Some s') -> Forall blank w -> visible c = true -> (length w <= n)%nat ->
  strip_all ps n (w ++ c :: s) = c :: s.
Proof.
  intros Hp Hb Hw Hc. revert n. induction Hw as [|x w Hx _ IH]; intros n Hn; cbn [app].
  - destruct n; cbn [strip_all]; [done|]. by rewrite strip_one_none.
  - destruct n as [|n]; [cbn in Hn; lia|]. cbn [strip_all]. rewrite Hb by done. apply IH. cbn in Hn. lia.
Qed.

Lemma strip_blank x s : blank x -> strip_one white_space (x :: s) = Some s.
Proof. by intros [->|[->| ->]]. Qed.

Lemma strip_blank_rev x s : blank x -> strip_one (map (@rev ascii) white_space) (x :: s) = Some s.
Proof. by intros [->|[->| ->]]. Qed.

(** A text between blanks, whose ends are visible. *)
Definition framed (s : bytes) : Prop := exists a t t' b, s = a :: t /\ s = t' ++ [b] /\ visible a = true /\ visible b = true.

Lemma trim_framed (w w' s : bytes) : Forall blank w -> Forall blank w' -> framed s -> trim_text (w ++ s ++ w') = s.
Proof.
  intros Hw Hw' (a & t & t' & b & E & E' & Ha & Hb). unfold trim_text.
  assert (strip_all white_space (length (w ++ s ++ w')) (w ++ s ++ w') = s ++ w') as ->.
  { rewrite E. cbn [app]. apply strip_all_blanks; [done|apply strip_blank|done|done|]. rewrite length_app. lia. }
  rewrite E', !rev_app_distr. cbn [rev app]. rewrite strip_all_blanks; [|done|apply strip_blank_rev|by apply Forall_rev|done|].
  - by rewrite <- rev_unit, rev_involutive.
  - rewrite length_rev, !length_app. lia.
Qed.

Lemma framed_app (s t : bytes) : framed s -> framed t -> forall m, framed (s ++ m ++ t).
Proof.
  intros (a & x & _ & _ & -> & _ & Ha & _) (_ & _ & y & b & _ & -> & _ & Hb) m. exists a, (x ++ m ++ y ++ [b]), (a :: x ++ m ++ y), b.
  split; [done|]. split; [|done]. cbn. f_equal. by rewrite <- !(assoc_L (++)).
Qed.

Lemma framed_name p : module_name p -> framed p.
Proof.
  intros (Hne & Hc & _). destruct p as [|a p]; [done|]. destruct (exists_last Hne) as (t & b & E). exists a, p, t, b. split; [done|]. split; [done|].
  split; [apply Hc; by left|]. apply Hc. rewrite E. apply elem_of_app. right. by left.
Qed.

Lemma trim_quotes_name quoted p : quoted = [] \/ quoted = [quote] -> module_name p -> trim_quotes (quoted ++ p ++ quoted) = p.
Proof.
  intros Hq (Hne & Hc & _).
  assert (forall q (s : bytes) c, q = [] \/ q = [quote] -> c ≠ quote -> trim_quotes_start (q ++ c :: s) = c :: s) as H.
  { intros q s c [-> | ->] Hn; cbn; repeat case_bool_decide; try done; by unfold quote in *. }
  assert (exists t b, p = t ++ [b] /\ b ≠ quote) as (t & b & -> & Hb).
  { destruct (exists_last Hne) as (t & b & ->). exists t, b. split; [done|]. apply Hc, elem_of_app. right. by left. }
  unfold trim_quotes. destruct (t ++ [b]) as [|a t'] eqn:E; [by destruct t|]. cbn [app]. rewrite H; [|done|by apply Hc; left].
  change (a :: t' ++ quoted) with ((a :: t') ++ quoted). rewrite <- E, !rev_app_distr. cbn [rev app].
  assert (rev quoted = quoted) as -> by (by destruct Hq as [-> | ->]). rewrite H by done. by rewrite <- rev_unit, rev_involutive.
Qed.

(** ** Lines *)

Lemma before_comment_plain (x rest : bytes) : "/"%char ∉ x -> before_comment (x ++ rest) = x ++ before_comment rest.
Proof.
  induction x as [|c x IH]; [done|]. intros [Hc Hx]%not_elem_of_cons. cbn [app before_comment].
  assert (starts_with (lit "//") (c :: x ++ rest) = false) as ->; [|by rewrite IH].
  cbn. rewrite bool_decide_false by congruence. done.
Qed.

Lemma before_comment_name (x rest : bytes) : (forall y z, x ++ lit "/" ≠ y ++ lit "//" ++ z) -> before_comment (x ++ rest) = x ++ before_comment rest.
Proof.
  induction x as [|c x IH]; [done|]. intros H. cbn [app before_comment].
  assert (starts_with (lit "//") (c :: x ++ rest) = false) as ->.
  { apply not_true_iff_false. cbn. intros [E1%bool_decide_eq_true E2]%andb_true_iff. subst c. destruct x as [|d x]; [by apply (H [] [])|].
    cbn in E2. apply andb_true_iff in E2 as [E2%bool_decide_eq_true _]. subst d. by apply (H [] (x ++ lit "/")). }
  rewrite IH; [done|]. intros y z E. apply (H (c :: y) z). exact (f_equal (cons c) E).
Qed.

Lemma blanks_plain w : Forall blank w -> "/"%char ∉ w.
Proof. intros Hw Hin. rewrite Forall_forall in Hw. by destruct (Hw _ Hin) as [?|[?|?]]. Qed.

Lemma clause_parsed p line : module_name p -> module_clause p line ->
  exists rest, strip_prefix (lit "module") (trim_text (before_comment line)) = Some rest /\ trim_quotes (trim_text rest) = p.
Proof.
  intros Hp [indent space quoted tail_ comment Hi Hs Hne Ht Hq Hc].
  assert ("/"%char ∉ quoted) as Hqs by (destruct Hq as [-> | ->]; [by apply not_elem_of_nil|]; intros ?%list_elem_of_singleton; done).
  assert ("/"%char ∉ lit "module") as Hm by (apply (bool_decide_eq_false_1 ("/"%char ∈ lit "module")); by vm_compute).
  assert (before_comment (indent ++ lit "module" ++ space ++ quoted ++ p ++ quoted ++ tail_ ++ comment)
    = indent ++ (lit "module" ++ space ++ quoted ++ p ++ quoted) ++ tail_) as ->.
  { rewrite (before_comment_plain indent), (before_comment_plain (lit "module")), (before_comment_plain space), (before_comment_plain quoted),
      (before_comment_name p), (before_comment_plain quoted), (before_comment_plain tail_) by first [done|by apply blanks_plain|exact (proj2 (proj2 Hp))].
    assert (before_comment comment = []) as -> by (by destruct Hc as [->|[text ->]]). rewrite app_nil_r. by rewrite <- !(assoc_L (++)). }
  assert (framed (quoted ++ p ++ quoted)) as Hf.
  { destruct Hq as [-> | ->]; [rewrite app_nil_r; by apply framed_name|]. apply framed_app; by exists quote, [], [], quote. }
  rewrite trim_framed; [|done|done|].
  - exists (space ++ quoted ++ p ++ quoted). split; [done|]. rewrite <- (app_nil_r (quoted ++ p ++ quoted)), trim_framed by done.
    by apply trim_quotes_name.
  - apply (framed_app (lit "module")); [|done]. by exists "m"%char, (lit "odule"), (lit "modul"), "e"%char.
Qed.

Lemma clause_strip_cr p line : module_name p -> module_clause p line -> module_clause p (strip_cr line).
Proof.
  intros Hp Hcl. unfold strip_cr. destruct (rev line) as [|c r] eqn:E.
  - apply (f_equal (@rev ascii)) in E. rewrite rev_involutive in E. by rewrite E in Hcl.
  - case_bool_decide as Hc; [|done]. subst c. assert (line = rev r ++ [CR]) as El by (by rewrite <- (rev_involutive line), E).
    clear E. revert El. destruct Hcl as [indent space quoted tail_ comment Hi Hs Hne Ht Hq Hc]. intros El.
    destruct (decide (comment = [])) as [-> | Hcomment].
    + destruct (decide (tail_ = [])) as [-> | Htail].
      * exfalso. assert (framed (quoted ++ p ++ quoted)) as (a & t & t' & b & _ & E & _ & Hb).
        { destruct Hq as [-> | ->]; [rewrite app_nil_r; by apply framed_name|]. apply framed_app; by exists quote, [], [], quote. }
        rewrite !app_nil_r, E in El. rewrite !(assoc_L (++)) in El. apply app_inj_tail in El as [_ ->]. done.
      * destruct (exists_last Htail) as (t & b & ->). rewrite app_nil_r, !(assoc_L (++)) in El. apply app_inj_tail in El as [<- _].
        apply Forall_app in Ht as [Ht _]. rewrite <- !(assoc_L (++)), <- (app_nil_r t). constructor; auto.
    + destruct Hc as [?|[text ->]]; [done|]. destruct (exists_last Hcomment) as (t & b & Et). rewrite Et, !(assoc_L (++)) in El.
      apply app_inj_tail in El as [<- ->]. rewrite <- !(assoc_L (++)). constructor; auto. right.
      destruct t as [|c1 [|c2 t]]; [done|done|]. cbn in Et. injection Et as <- <- _. by exists t.
Qed.

Lemma strip_all_prefix ps n s : exists ws, Forall (fun w => w ∈ ps) ws /\ s = concat ws ++ strip_all ps n s.
Proof.
  assert (forall ps s r, strip_one ps s = Some r -> exists w, w ∈ ps /\ s = w ++ r) as H.
  { clear. intros ps s r. induction ps as [|w ps IH]; [done|]. cbn. destruct (strip_prefix w s) as [r'|] eqn:E.
    - intros [= <-]. exists w. split; [by left|by apply strip_prefix_inv].
    - intros (w' & Hw & ->)%IH. exists w'. split; [by right|done]. }
  revert s. induction n as [|n IH]; intros s; cbn [strip_all]; [by exists []|]. destruct (strip_one ps s) as [r|] eqn:E; [|by exists []].
  apply H in E as (w & Hw & ->). destruct (IH r) as (ws & Hws & Er). exists (w :: ws). split; [by constructor|]. cbn. rewrite <- (assoc_L (++)). by f_equal.
Qed.

Lemma trim_prefix s : exists ws suffix, Forall (fun w => w ∈ white_space) ws /\ s = concat ws ++ trim_text s ++ suffix.
Proof.
  unfold trim_text. destruct (strip_all_prefix white_space (length s) s) as (ws & Hws & E). set (t := strip_all white_space _ _) in *.
  destruct (strip_all_prefix (map (@rev ascii) white_space) (length t) (rev t)) as (ws' & _ & E').
  exists ws, (rev (concat ws')). split; [done|]. rewrite E at 1. f_equal. rewrite <- (rev_involutive t) at 1. rewrite E' at 1. by rewrite rev_app_distr.
Qed.

Lemma before_comment_prefix s : exists r, s = before_comment s ++ r.
Proof.
  induction s as [|c s [r IH]]; [by exists []|]. cbn [before_comment]. destruct (starts_with _ _); [by eexists|]. exists r. cbn. by f_equal.
Qed.

Lemma strip_cr_prefix s : exists r, s = strip_cr s ++ r.
Proof.
  unfold strip_cr. destruct (rev s) as [|c r] eqn:E; [by exists s|]. case_bool_decide; [|exists []; by rewrite app_nil_r].
  exists [c]. by rewrite <- (rev_involutive s), E.
Qed.

Lemma other_line_skipped line s : other_line line -> (exists r, line = s ++ r) -> strip_prefix (lit "module") (trim_text (before_comment s)) = None.
Proof.
  intros Ho [r ->]. destruct (strip_prefix _ _) as [rest|] eqn:E; [|done]. apply strip_prefix_inv in E.
  destruct (before_comment_prefix s) as [r' Es]. destruct (trim_prefix (before_comment s)) as (ws & suffix & Hws & Et).
  destruct (Ho ws (rest ++ suffix ++ r' ++ r)); [done|]. rewrite Es, Et, E. by rewrite <- !(assoc_L (++)).
Qed.

Lemma module_of_others before after : Forall (fun l => exists line, other_line line /\ exists r, line = l ++ r) before ->
  module_of_lines (before ++ after) = module_of_lines after.
Proof.
  induction 1 as [|l before (line & Ho & Hr) _ IH]; [done|]. cbn [app module_of_lines]. by rewrite (other_line_skipped line l).
Qed.

(** The lines of a text, each as it was or without its carriage return. *)
Lemma text_lines_split s : exists last_, split_on LF s = removelast (split_on LF s) ++ [last_]
  /\ text_lines s = map strip_cr (removelast (split_on LF s)) ++ match last_ with [] => [] | _ :: _ => [last_] end.
Proof.
  assert (split_on LF s ≠ []) as Hne by apply split_on_ne. destruct (exists_last Hne) as (whole & last_ & E). exists last_.
  unfold text_lines. rewrite E, rev_unit, removelast_last, rev_involutive. done.
Qed.

(** The module a [go.mod] names is found. *)
Lemma parse_module contents p : names_module contents p -> parse_module_path contents = Some p.
Proof.
  intros (Hp & before & line & after & E & Hb & Hcl). unfold parse_module_path.
  assert (forall l rest, module_clause p l -> module_of_lines (l :: rest) = Some p) as Hfound.
  { intros l rest (r & E1 & E2)%clause_parsed; [|done]. cbn [module_of_lines]. rewrite E1, E2. by destruct Hp as [? _], p. }
  assert (Forall (fun l => exists line, other_line line /\ exists r, line = l ++ r) (map strip_cr before)) as Hskip.
  { apply Forall_fmap. eapply Forall_impl; [exact Hb|]. intros l Hl. exists l. split; [done|]. apply strip_cr_prefix. }
  destruct (text_lines_split contents) as (last_ & Es & ->). destruct (decide (after = [])) as [-> | Hafter].
  - rewrite E, removelast_last in Es |- *. apply app_inj_tail in Es as [_ ->]. rewrite module_of_others by done.
    destruct last_ as [|c l]; [|by apply Hfound]. destruct (clause_parsed p [] Hp Hcl) as (r & Hr & _). done.
  - destruct (exists_last Hafter) as (middle & x & ->). assert (split_on LF contents = (before ++ line :: middle) ++ [x]) as E'
      by (rewrite E; by rewrite <- (assoc_L (++))).
    rewrite E', removelast_last, map_app. cbn [map]. rewrite <- (assoc_L (++)), module_of_others by done. by apply Hfound, clause_strip_cr.
Qed.

(** ** The module around a directory *)

(** What [go.mod] says to a build: its contents when it is a readable file. *)
Definition go_mod (t : tree) (directory : path) : option bytes :=
  match t !! (directory ++ [lit "go.mod"]) with Some (File content) => if is_utf8 content then Some content else None | _ => None end.

Lemma read_go_mod fs directory : script fs = [] ->
  match go_mod (nodes fs) directory with
  | Some content => read_to_string (directory ++ [lit "go.mod"]) fs = (Ok content, fs)
  | None => exists e, read_to_string (directory ++ [lit "go.mod"]) fs = (Err e, fs)
  end.
Proof.
  intros Hs. destruct fs as [t sc]. cbn in Hs. subst sc. unfold read_to_string, open_read, go_mod, mbind, M_bind, syscall. cbn [script nodes].
  destruct (t !! (directory ++ [lit "go.mod"])) as [[|content]|]; [by eexists| |by eexists].
  destruct (is_utf8 content); [done|by eexists].
Qed.

Lemma find_in_skips fs ds ds' : script fs = [] -> Forall (fun d => go_mod (nodes fs) d = None) ds ->
  find_in (ds ++ ds') fs = find_in ds' fs.
Proof.
  intros Hs HF. induction HF as [|d ds Hd _ IH]; [done|]. cbn [app find_in]. unfold mbind at 1, M_bind at 1, try.
  pose proof (read_go_mod fs d Hs) as H. rewrite Hd in H. destruct H as [e ->]. exact IH.
Qed.

Lemma find_in_finds fs d ds content : script fs = [] -> go_mod (nodes fs) d = Some content ->
  find_in (d :: ds) fs = (Ok (parse_module_path content), fs).
Proof.
  intros Hs Hd. cbn [find_in]. unfold mbind, M_bind, try. pose proof (read_go_mod fs d Hs) as H. rewrite Hd in H. by rewrite H.
Qed.

Lemma directories_above_app (root sub : path) :
  directories_above (root ++ sub) = map (fun n => root ++ take (length sub - n) sub) (seq 0 (length sub)) ++ directories_above root.
Proof.
  unfold directories_above. rewrite length_app.
  replace (Datatypes.S (length root + length sub)) with (length sub + Datatypes.S (length root))%nat by lia.
  rewrite seq_app, map_app. f_equal.
  - apply map_ext_in. intros n Hn%in_seq. rewrite take_app. f_equal; [rewrite take_ge; [done|lia]|f_equal; lia].
  - cbn [Nat.add]. rewrite <- (Nat.add_0_r (length sub)) at 1. rewrite <- fmap_add_seq, map_map.
    apply map_ext_in. intros n Hn%in_seq. rewrite take_app_le by lia. f_equal. lia.
Qed.

(** A platform's name. *)
Definition plain_name (s : bytes) : Prop := " "%char ∉ s /\ "/"%char ∉ s.

Lemma app_last_inj (sep : ascii) (a a' b b' : bytes) : sep ∉ b -> sep ∉ b' -> a ++ sep :: b = a' ++ sep :: b' -> a = a' /\ b = b'.
Proof.
  intros Hb Hb' H. apply (f_equal (@rev ascii)) in H. rewrite !rev_app_distr in H. cbn in H. rewrite <- !(assoc_L (++)) in H. cbn in H.
  assert (split_once sep (rev b ++ sep :: rev a) = Some (rev b, rev a)) as H1.
  { apply split_once_app. intros Hx%list_elem_of_In%in_rev. by apply Hb, list_elem_of_In. }
  assert (split_once sep (rev b' ++ sep :: rev a') = Some (rev b', rev a')) as H2.
  { apply split_once_app. intros Hx%list_elem_of_In%in_rev. by apply Hb', list_elem_of_In. }
  rewrite H, H2 in H1. injection H1 as E1 E2. apply (f_equal (@rev ascii)) in E1, E2. rewrite !rev_involutive in E1, E2. done.
Qed.

Definition platform (h : Host) : bytes * bytes :=
  (go_env (host_env h) (lit "GOOS") (host_goos (host_os h)), go_env (host_env h) (lit "GOARCH") (host_goarch (host_arch h))).

Definition sealed (t : tree) (root sub : path) : Prop :=
  forall n, (0 < n <= length sub)%nat -> go_mod t (root ++ take n sub) = None.

Lemma label_of_module (h : Host) (fs : FS) (root sub : path) (contents p : bytes) : script fs = [] ->
  go_mod (nodes fs) root = Some contents -> sealed (nodes fs) root sub -> names_module contents p ->
  (session_label h None (root ++ sub) fs).1 = Ok (p ++ lit " " ++ (platform h).1 ++ lit "/" ++ (platform h).2).
Proof.
  intros Hs Hg Hsealed Hn. unfold session_label, mbind, M_bind, find_module_path.
  rewrite directories_above_app, find_in_skips; [|done|].
  - assert (exists ds, directories_above root = root :: ds) as [ds ->].
    { unfold directories_above. cbn [seq map]. rewrite Nat.sub_0_r, firstn_all. eauto. }
    rewrite (find_in_finds _ _ _ _ Hs Hg). by rewrite (parse_module contents p).
  - apply Forall_fmap, Forall_seq. intros n Hn'. apply Hsealed. lia.
Qed.

(** C35: Consecutive builds find each other, and only each other.  Without a label of their own,
    builds run anywhere below a directory whose readable [go.mod] names a module, with no other
    readable [go.mod] in between, get the label of the module and the platform.  The module clause is
    the first line, on the first or any later line of the file and with or without a newline after
    it, that begins with [module]; it may be indented, its path quoted, and followed by blanks and a
    comment.  Labels of two such builds are equal only if module, operating system and architecture
    are, the platform's names having neither spaces nor slashes.  (No system call fails here: an
    unreadable [go.mod] is passed over.) *)
Theorem session_label_identifies (h h' : Host) (fs fs' : FS) (root sub root' sub' : path) (contents p contents' p' : bytes) :
  script fs = [] -> script fs' = [] ->
  go_mod (nodes fs) root = Some contents -> sealed (nodes fs) root sub -> names_module contents p ->
  go_mod (nodes fs') root' = Some contents' -> sealed (nodes fs') root' sub' -> names_module contents' p' ->
  plain_name (platform h).1 -> plain_name (platform h).2 -> plain_name (platform h').1 -> plain_name (platform h').2 ->
  (session_label h None (root ++ sub) fs).1 = Ok (p ++ lit " " ++ (platform h).1 ++ lit "/" ++ (platform h).2)
  /\ ((session_label h None (root ++ sub) fs).1 = (session_label h' None (root' ++ sub') fs').1 <-> p = p' /\ platform h = platform h').
Proof.
  intros Hs Hs' Hg Hsl Hn Hg' Hsl' Hn' [A1 A2] [B1 B2] [A1' A2'] [B1' B2'].
  rewrite (label_of_module h fs root sub contents p), (label_of_module h' fs' root' sub' contents' p') by done. split; [done|]. split.
  - intros [= E]. change (lit " ") with [" "%char] in E. change (lit "/") with ["/"%char] in E. cbn [app] in E.
    assert ((p ++ " "%char :: (platform h).1) ++ "/"%char :: (platform h).2 = (p' ++ " "%char :: (platform h').1) ++ "/"%char :: (platform h').2) as E'.
    { rewrite <- !(assoc_L (++)). exact E. }
    apply app_last_inj in E' as [E1 E2]; [|done..]. apply app_last_inj in E1 as [-> E3]; [|done..]. split; [done|].
    destruct (platform h), (platform h'). cbn in *. congruence.
  - intros [-> ->]. done.
Qed.

(** A module built from its root and from a directory of it; the clause is quoted, commented, and
    the first line of the file. *)
Definition sample_clause : bytes := lit "module " ++ [quote] ++ lit "example.com/app" ++ [quote] ++ lit " " ++ lit "// the app".
Definition sample_go_mod : bytes := sample_clause ++ LF :: lit "go 1.24".
Definition sample_module : FS := {| nodes := {[ [lit "src"; lit "go.mod"] := File sample_go_mod ]}; script := [] |}.
Definition sample_host : Host := {| host_env := fun _ => None; host_os := lit "linux"; host_arch := lit "x86_64" |}.

Lemma sample_names : names_module sample_go_mod (lit "example.com/app").
Proof.
  assert (Forall (fun c => visible c = true /\ c ≠ quote) (lit "example.com/app")) as Hc by (apply (bool_decide_unpack _); vm_compute; exact Logic.I).
  split; [split; [discriminate|]; split; [by apply Forall_forall|]|].
  - intros y z E. assert (Forall (fun n => starts_with (lit "//") (drop n (lit "example.com/app" ++ lit "/")) = false) (seq 0 17)) as H
      by (apply (bool_decide_unpack _); vm_compute; exact Logic.I).
    rewrite E, Forall_forall in H. specialize (H (length y)). rewrite drop_app_length in H. discriminate H.
    apply elem_of_seq. apply (f_equal length) in E. rewrite !length_app in E. cbn in E. lia.
  - exists [], sample_clause, [lit "go 1.24"]. split; [vm_compute; reflexivity|]. split; [constructor|].
    apply (ModuleClause (lit "example.com/app") [] (lit " ") [quote] (lit " ") (lit "// the app")); unfold blank; auto; try discriminate.
    + repeat constructor.
    + repeat constructor.
    + right. by exists (lit " the app").
Qed.

Lemma sample_sealed : sealed (nodes sample_module) [lit "src"] [lit "cmd"].
Proof. intros n Hn. assert (n = 1%nat) as -> by (cbn in Hn; lia). vm_compute. reflexivity. Qed.

Lemma sample_plain : plain_name (lit "linux") /\ plain_name (lit "amd64").
Proof. unfold plain_name. repeat split; apply (bool_decide_unpack _); vm_compute; exact Logic.I. Qed.

Lemma session_label_identifies_witness :
  (session_label sample_host None ([lit "src"] ++ [lit "cmd"]) sample_module).1 = Ok (lit "example.com/app linux/amd64")
  /\ (session_label sample_host None ([lit "src"] ++ [lit "cmd"]) sample_module).1 = (session_label sample_host None ([lit "src"] ++ []) sample_module).1.
Proof.
  destruct (session_label_identifies sample_host sample_host sample_module sample_module [lit "src"] [lit "cmd"] [lit "src"] []
    sample_go_mod (lit "example.com/app") sample_go_mod (lit "example.com/app")) as [H1 H2].
  - reflexivity.
  - reflexivity.
  - vm_compute. reflexivity.
  - exact sample_sealed.
  - exact sample_names.
  - vm_compute. reflexivity.
  - intros n Hn. cbn in Hn. lia.
  - exact sample_names.
  - exact (proj1 sample_plain).
  - exact (proj2 sample_plain).
  - exact (proj1 sample_plain).
  - exact (proj2 sample_plain).
  - split; [exact H1|]. apply H2. split; reflexivity.
Defined.
