(* ===== verification/Dns.v ===== *)
(** * The production resolver ([agent/discovery.rs])

    What [DnsResolver] makes of the answers of hickory's resolver, and what the agent makes of it: an
    authoritative answer without records empties the membership, a failure keeps it. *)

From S2P Require Import Prelude Externals Concrete Text Web Filesystem ArtifactFiles World Lists Ring RingClaims Discovery DiscoveryClaims Agent AgentClaims Cli Telemetry TelemetryClaims AgentProcess AgentProcessClaims.

(** ** What hickory answers *)

Inductive RData := SRV (target : bytes) (port_ : Z) | OtherData.
Record Lookup := { answers : list RData; valid_until : Z }.
Inductive NetError := NoRecordsFound (negative_ttl : option Z) (message : bytes) | OtherNetError (message : bytes).

(** The resolver: a lookup of service records and of addresses. *)
Record TokioResolver := {
  srv_lookup : bytes -> result NetError Lookup;
  lookup_ip : bytes -> result NetError (list IpAddr)
}.

Definition EMPTY_ANSWER_TTL : Z := from_secs 5.

(** [to_string] *)
Definition net_error_text (e : NetError) : bytes := match e with NoRecordsFound _ m | OtherNetError m => m end.

Definition srv_record (r : RData) : option SrvRecord :=
  match r with SRV target p => Some {| srv_target := target; srv_port := p |} | OtherData => None end.

(** [<DnsResolver as Resolver>::srv], the monotonic clock reading [instant]; times in nanoseconds *)
Definition dns_srv (r : TokioResolver) (instant : Z) (name : bytes) : result bytes SrvSnapshot :=
  match srv_lookup r name with
  | Ok lookup => Ok {| srv_records := omap srv_record (answers lookup); srv_ttl := Z.max (valid_until lookup - instant) 0 |}
  | Err (NoRecordsFound negative_ttl _) => Ok {| srv_records := []; srv_ttl := default EMPTY_ANSWER_TTL (from_secs <$> negative_ttl) |}
  | Err e => Err (net_error_text e)
  end.

(** [<DnsResolver as Resolver>::ips] *)
Definition dns_ips (r : TokioResolver) (target : bytes) : result bytes (list IpAddr) :=
  match lookup_ip r target with Ok l => Ok l | Err e => Err (net_error_text e) end.

Definition DnsResolver (r : TokioResolver) (instant : Z) : Resolver := {| resolve_srv := dns_srv r instant; resolve_ips := dns_ips r |}.

(** ** The process ([agent/mod.rs]) *)

Section Run.
Context {SH : Sha256Lib} {HX : HexLib}.
Context {R : Type} {PR : PrometheusLib R} {RN : RandLib}.

Inductive RunError := NoResolver (e : bytes) | NoMetrics (e : string) | NoListener.

(** What befalls a running agent: requests, and turns of discovery at the ring's and the resolver's
    clocks, [r] being how the resolver answers then. *)
Inductive run_event :=
| Asked (clock : AgentClock) (send : UpstreamRequest -> result SendError HttpResponse) (encoded : result string bytes) (request : AgentRequest)
| Refreshes (now rng instant : Z) (r : TokioResolver).

Definition on_dns (e : run_event) : agent_event :=
  match e with
  | Asked clock send encoded request => AgentRequested clock send encoded request
  | Refreshes now rng instant r => AgentDiscovers now rng (DnsResolver r instant)
  end.

(** [run]: [system] is what becomes of the resolver's configuration, [bound] whether the listener
    could be bound; what the agent has become when it is shut down. *)
Definition run (arguments : AgentArgs) (system : result bytes unit) (bound : bool) (events : list run_event)
    : result RunError (AgentProcess (R:=R)) :=
  let options := agent_options arguments in
  match system with
  | Err e => Err (NoResolver e)
  | Ok _ =>
      match Agent_new options with
      | Err e => Err (NoMetrics e)
      | Ok agent => if bound then Ok (agent_run (map on_dns events) agent) else Err NoListener
      end
  end.
End Run.

Section Claims.
Context {SH : Sha256Lib} {HX : HexLib}.
Context {R : Type} {PR : PrometheusLib R} {RN : RandLib}.
Implicit Types (p : AgentProcess (R:=R)).

Lemma empty_snapshot now st : discovered (inner (apply_snapshot now [] st)) = [].
Proof. unfold apply_snapshot, with_inner. cbn [inner]. by rewrite rebuild_discovered. Qed.

(** What a turn leaves of the ring. *)
Lemma turn_ring resolver name now rng refresh_max backoff st :
  (discovery_turn resolver name now rng refresh_max backoff st).2 =
  match resolve_srv resolver name with
  | Ok answer => apply_snapshot now (omap (refresh_member resolver (list_to_map (rev (known_addresses st)))) (srv_records answer)) st
  | Err e => record_refresh_error e st
  end.
Proof. unfold discovery_turn, refresh_once. by destruct (resolve_srv _ _). Qed.

(** A member after a refresh is one the answer lists. *)
Lemma snapshot_listed r instant now known (data : list RData) st id :
  id ∈ map health_id (discovered (inner (apply_snapshot now (omap (refresh_member (DnsResolver r instant) known) (omap srv_record data)) st))) ->
  exists target port_, SRV target port_ ∈ data /\ canonical_member_id target = id.
Proof.
  intros (health & -> & Hh)%list_elem_of_fmap.
  assert (is_Some (find_health (discovered (inner (apply_snapshot now (omap (refresh_member (DnsResolver r instant) known)
    (omap srv_record data)) st))) (health_id health))) as Hid.
  { exists health. apply find_health_spec; [apply apply_snapshot_ok|]. done. }
  apply snapshot_ids in Hid. apply list_elem_of_fmap in Hid as (m & -> & (record & Hrec & Hm')%list_elem_of_omap).
  apply list_elem_of_omap in Hrec as ([target port_|] & Hin & Hs); [|done]. injection Hs as <-. exists target, port_. split; [done|].
  unfold refresh_member in Hm'. cbn [srv_target] in Hm'.
  destruct (resolve_ips _ _) as [[|first rest]|]; [|by injection Hm' as <-|];
    apply bind_Some in Hm' as (? & _ & Hm'); by injection Hm' as <-.
Qed.

(** C36: What DNS says decides the membership, what it fails to say does not.  In an agent that was
    started and has run for any time, a turn whose lookup finds an authoritative absence of records
    leaves no member and no owner for any key, and is repeated in 70 to 90 % of the negative lifetime
    (five seconds when there is none), that lifetime held between a second and the refresh bound; a
    turn whose lookup fails leaves membership and continuum as they were, records the error and is
    repeated in 50 to 100 % of the backoff (up to a billionth for rounding, and for a refresh bound
    below 2^63 seconds); and records of other types in an answer are not members. *)
Theorem dns_decides_membership arguments system bound events q r instant now rng :
  run arguments system bound events = Ok q -> aa_refresh_max arguments < 2^63 ->
  let '(delay, q') := discover now rng (DnsResolver r instant) q in
  match srv_lookup r (aa_srv arguments) with
  | Err (NoRecordsFound negative_ttl _) =>
      discovered (inner (agent_ring (pr_state q'))) = []
      /\ (forall later pos, owner (current_ring later (agent_ring (pr_state q'))).1 pos = None)
      /\ exists d, delay = Some d
         /\ portion (from_secs (Z.min (Z.max (default 5 negative_ttl) 1) (Z.max (aa_refresh_max arguments) 1))) 699999999 900000001 d
  | Err (OtherNetError e) =>
      discovered (inner (agent_ring (pr_state q'))) = discovered (inner (agent_ring (pr_state q)))
      /\ active_ring (inner (agent_ring (pr_state q'))) = active_ring (inner (agent_ring (pr_state q)))
      /\ last_error (inner (agent_ring (pr_state q'))) = Some e
      /\ exists d, delay = Some d /\ portion (pr_backoff q) 499999999 1000000001 d
  | Ok lookup =>
      forall id, id ∈ map health_id (discovered (inner (agent_ring (pr_state q')))) ->
        exists target port_, SRV target port_ ∈ answers lookup /\ canonical_member_id target = id
  end.
Proof.
  unfold run. destruct system as [u|]; [|done]. destruct (Agent_new (agent_options arguments)) as [p|e] eqn:H; [|done]. destruct bound; [|done]. intros [= <-] Hu.
  set (q := agent_run _ p). destruct (started_ok_run arguments (map on_dns events) p H) as [[_ _ Hb] Ho]. fold q in Hb, Ho.
  unfold discover. rewrite Ho in *. cbn [o_srv o_refresh_max agent_options] in *.
  destruct (discovery_loop_bounded (DnsResolver r instant) (aa_srv arguments) now rng (from_secs (Z.max (aa_refresh_max arguments) 1)) (pr_backoff q)
    (agent_ring (pr_state q))) as (backoff & delay & Ht & _ & Hd); [unfold from_secs; lia|done|].
  pose proof (turn_ring (DnsResolver r instant) (aa_srv arguments) now rng (from_secs (Z.max (aa_refresh_max arguments) 1)) (pr_backoff q)
    (agent_ring (pr_state q))) as Hring.
  destruct (discovery_turn _ _ _ _ _ _ _) as [turn ring]. cbn [fst snd] in Ht, Hd, Hring. subst turn.
  cbn [pr_state set_agent on_ring agent_ring]. cbn [resolve_srv DnsResolver] in Hd, Hring. unfold dns_srv in Hd, Hring.
  destruct (srv_lookup r (aa_srv arguments)) as [lookup|[negative_ttl message|e]]; cbn [srv_records srv_ttl net_error_text] in Hd, Hring.
  - intros id Hid. subst ring. by apply (snapshot_listed r instant) in Hid.
  - subst ring. split; [apply empty_snapshot|]. split; [|exists delay; split; [done|]].
    + intros later pos. cbn [omap list_omap].
      rewrite (proj1 (current_ring_spec later _ (apply_snapshot_ok now [] _))), empty_snapshot. done.
    + destruct Hd as [_ Hd]. unfold EMPTY_ANSWER_TTL in Hd. unfold from_secs in *.
      replace (Z.min _ _ * _) with (Z.min (Z.max (default (5 * 1000000000) ((fun secs => secs * 1000000000) <$> negative_ttl)) (1 * 1000000000))
        (Z.max (aa_refresh_max arguments) 1 * 1000000000)) by (destruct negative_ttl; cbn; lia). exact Hd.
  - destruct Hd as (_ & Hp & H1 & H2 & H3). repeat split; try done. by exists delay.
Qed.
End Claims.

Section Witnesses.
#[local] Existing Instances toy_sha256 real_hex list_registry toy_rand.

(** The name still exists, but lists no shard. *)
Definition drained : TokioResolver := {| srv_lookup := fun _ => Err (NoRecordsFound (Some 7) (lit "no records")); lookup_ip := fun _ => Ok [] |}.

Definition listing : TokioResolver := {|
  srv_lookup := fun _ => Ok {| answers := [SRV (lit "shard-0.cache.") 8080; OtherData]; valid_until := from_secs 30 |}; lookup_ip := fun _ => Ok [V4 1] |}.

Definition drained_run : result RunError AgentProcess := run sample_arguments (Ok tt) true [Refreshes 100 7 0 listing].

Lemma drained_run_members : match drained_run with Ok q => length (discovered (inner (agent_ring (pr_state q)))) = 1%nat | Err _ => False end.
Proof. vm_compute. reflexivity. Qed.

(** A shard was listed before. *)
Lemma dns_decides_membership_witness : exists q d, drained_run = Ok q /\ length (discovered (inner (agent_ring (pr_state q)))) = 1%nat
  /\ discovered (inner (agent_ring (pr_state (discover 200 9 (DnsResolver drained 0) q).2))) = []
  /\ (discover 200 9 (DnsResolver drained 0) q).1 = Some d /\ portion (from_secs 7) 699999999 900000001 d.
Proof.
  pose proof drained_run_members as Hm. destruct drained_run as [q|] eqn:E; [|destruct Hm].
  pose proof (dns_decides_membership (R:=list string) sample_arguments (Ok tt) true [Refreshes 100 7 0 listing] q drained 0 200 9 E eq_refl) as H.
  destruct (discover 200 9 (DnsResolver drained 0) q) as [delay q'] eqn:Ed. destruct H as (H1 & _ & d & H2 & H3).
  exists q, d. split; [reflexivity|]. split; [exact Hm|]. rewrite Ed. split; [exact H1|]. split; [exact H2|exact H3].
Defined.
End Witnesses.
