(* ===== verification/BuildCacheClaims.v ===== *)
(** * What the build cache guarantees its clients

    A write and the reads that follow it, through the handlers. *)

From S2P Require Import Prelude Externals Domain Records Concrete Metadata MetadataView MetadataRefinement MetadataStore Space RecentUse Filesystem ArtifactFiles FilesLemmas FilesClaims World Channels ChannelLemmas ChannelClaims Cache CacheLemmas CacheConsistency Samples CacheClaims Text Http HttpClaims.

Section Claims.
Context {UL : UlidLib} {ULL : UlidLaws} {HX : HexLib} {HXL : HexLaws} {SH : Sha256Lib} {BS : Base64Lib}.
Context {ZS : ZstdLib} {ZSL : ZstdLaws} {DH : DefaultHasherLib}.
Context {S : Type} {MS : MetadataStore S} {ML : MetadataLaws S}.
Implicit Types (v : MetaView) (cfg : HttpConfig) (s : AppState (S:=S)).

(** The state after a handler that read the store or failed to. *)
Lemma resolve_steady files c n v s r s' :
  steady files v (world s) -> resolve_with_permit c n s = (r, s') ->
  steady files v (world s')
  /\ match r with
     | Ok (Ok found) => found = mv_references v !! (c, n)
     | Ok (Err _) => True
     | Err response => response = busy_response
     end.
Proof.
  intros Hst H. unfold resolve_with_permit, acquire_foreground in H. destruct (foreground s) as [|k].
  { injection H as <- <-. split; [by eapply steady_other|done]. }
  unfold cache, try, zoom, resolve_reference in H. cbn zeta iota in H. set (s1 := count _ _) in H.
  assert (steady files v (world s1)) as (Hv & Hok & Hk & Hc) by (by eapply steady_other).
  unfold c_meta, raising in H. pose proof (in_db_spec (ms_reference c n) (v_reference c n) v (world s1) (reference_law c n) Hv) as Hs.
  destruct (in_db (ms_reference c n) (world s1)) as [[x|e] w1]; injection H as <- <-.
  - destruct Hs as ([= ->] & Hv' & Hw). split; [|done]. apply (steady_other _ _ w1); [done..|]. split; [exact Hv'|]. rewrite Hw. done.
  - destruct Hs as (Hw & Hs). split; [|done]. apply (steady_other _ _ w1); [done..|].
    split; [by destruct Hs as [[_ ?]|[_ [?|?]]]|]. rewrite Hw. done.
Qed.

Lemma context_status channel hs s r s' : channel_context channel hs s = (Err r, s') -> status r ≠ 200.
Proof.
  unfold channel_context. destruct channel as [text|]; [|done]. unfold authorize_channel.
  destruct (ChannelId_from_str text) as [c|]; [|by intros [= <- _]]. unfold mbind, M_bind, channels, try, zoom.
  destruct (authorize c (credential hs) (world s)) as [[x|e] w1]; [done|]. unfold deny, channel_denied. destruct e; by intros [= <- _].
Qed.

(** The part of [channel_context_ok] that needs nothing of the disk. *)
Lemma context_steady files channel hs v s ctx s' :
  steady files v (world s) -> channel_context channel hs s = (Ok ctx, s') ->
  steady files v (world s') /\ names_channel channel (ctx_channel ctx).
Proof.
  intros Hst H. unfold channel_context in H. destruct channel as [text|]; [|by injection H as <- <-].
  unfold authorize_channel in H. cbn. destruct (ChannelId_from_str text) as [c|]; [|done].
  apply bind_ok in H as (record & s1 & H1 & H). injection H as <- <-.
  unfold mbind, M_bind, channels, try, zoom in H1. destruct (authorize c (credential hs) (world s)) as [[r|e] w1] eqn:E; [|done].
  injection H1 as <- <-. apply (authorize_ok v) in E as (Hv & Hw & _ & Hid & _); [|apply Hst].
  destruct Hst as (_ & ? & ? & ?). rewrite Hid. split; [|done]. split; [exact Hv|]. cbn. rewrite Hw. done.
Qed.

Lemma names_channel_unique channel (c c' : ChannelId) : names_channel channel c -> names_channel channel c' -> c = c'.
Proof. destruct channel; cbn; congruence. Qed.

(** *** The bypass counter *)

Definition bypasses (w : World S) : Z := build_cache_bypasses (w_metrics w).

Lemma b_local {A} n (m : M (Local SpaceLedger) LocalError A) : preserves (fun w => bypasses w = n) (c_local m : M (World S) CacheError A).
Proof. intros w Hw. unfold c_local, raising, in_local, zoom. by destruct (m (get_local w)) as [[] l]. Qed.
Lemma b_meta {A} n (m : M S MetadataError A) : preserves (fun w => bypasses w = n) (c_meta m).
Proof. intros w Hw. unfold c_meta, raising, in_db, zoom. by destruct (m (w_db w)) as [[] db]. Qed.
Lemma b_modify n f : (forall w, bypasses (f w) = bypasses w) -> preserves (fun w => bypasses w = n) (modify f : M (World S) CacheError unit).
Proof. intros Hf. apply preserves_modify. intros w Hw. by rewrite Hf. Qed.

Lemma publish_bypasses n cfg name request : preserves (fun w => bypasses w = n) (cache_publish (S:=S) (http_cache cfg) name request).
Proof.
  assert (preserves (fun w => bypasses w = n) (now : M (World S) CacheError Z)) as Hnow by (intros w Hw; exact Hw).
  assert (forall c a staged cm e r k, preserves (fun w => bypasses w = n) (commit_published (S:=S) c a staged cm e r k)) as Hcommit.
  { intros. unfold commit_published. apply preserves_bind; [exact Hnow|]. intros t. apply preserves_bind; [apply preserves_try, b_meta|].
    intros [created|x]; (apply preserves_bind; [by apply b_modify|]); intros _; [apply preserves_ret|apply preserves_throw]. }
  unfold cache_publish. apply preserves_bind; [|intros []; auto with flywheel].
  unfold publish_or_reject. apply preserves_bind; [apply b_local|]. intros [staged|rejected]; [|apply preserves_ret].
  apply preserves_bind; [by apply b_modify|]. intros _. apply preserves_bind.
  { destruct (req_target request) as [a|[x|]]; auto with flywheel. }
  intros [a reference]. apply preserves_bind; [|intros p; apply preserves_ret].
  unfold commit_staged. apply preserves_bind.
  { apply preserves_try. unfold channel_fence. apply preserves_bind; [by apply b_modify|]. intros _.
    apply preserves_bind; [apply b_meta|]. intros [r|]; [case_bool_decide|]; auto with flywheel. }
  intros [expiry|x].
  - apply preserves_bind; [apply b_local|]. intros [r|r]; apply Hcommit.
  - apply preserves_bind; [by apply b_modify|]. intros _. apply preserves_throw.
Qed.

Lemma context_bypasses channel hs s ctx s' : channel_context channel hs s = (Ok ctx, s') -> bypasses (world s') = bypasses (world s).
Proof.
  unfold channel_context. destruct channel as [text|]; [|by intros [= _ <-]]. intros H. apply bind_ok in H as (record & s1 & H & [= _ <-]).
  unfold authorize_channel in H. destruct (ChannelId_from_str text) as [c|]; [|done]. unfold mbind, M_bind, channels, try, zoom in H.
  destruct (authorize c (credential hs) (world s)) as [[r|e] w1] eqn:E; [|done]. injection H as _ <-. cbn.
  assert (preserves (fun w => bypasses w = bypasses (world s)) (authorize (S:=S) c (credential hs))) as HP.
  { unfold authorize. apply preserves_bind.
    - intros w Hw. unfold ch_store, raising, in_db, zoom. by destruct (ms_channel c (w_db w)) as [[] db].
    - intros [x|]; [|apply preserves_throw]. apply preserves_bind; [apply preserves_lift|]. intros _. case_bool; auto with flywheel. }
  specialize (HP (world s) eq_refl). by rewrite E in HP.
Qed.

Definition get_answers (r : Response) (hs : headers) (content : bytes) : Prop :=
  (status r = 200 /\ whole r content /\ (ContentEncodingZstd ∈ resp_headers r -> accepts_zstd hs = true))
  \/ (status r = 206 /\ part r content)
  \/ (status r = 416 /\ unsatisfiable_range hs (Z.of_nat (length content))).

(** Reading a reference that is bound. *)
Lemma bound_reference_served cfg c n hs v s x : steady (cache_files (http_cache cfg)) v (world s) ->
  mv_references v !! (c, n) = Some x -> is_Some (mv_artifacts v !! (c, ref_artifact x)) ->
  let '(r, s') := respond (serve_reference_artifact cfg c n hs false) s in
  status r = 429 \/ status r = 500
  \/ exists content, sha256 content = digest_array (digest (ref_artifact x)) /\ get_answers r hs content.
Proof.
  intros Hst Hx [m Hm]. unfold respond, serve_reference_artifact, mbind, M_bind.
  destruct (resolve_with_permit c n s) as [r s1] eqn:E. apply (resolve_steady (cache_files (http_cache cfg)) _ _ v) in E as [Hst1 Hr]; [|done].
  destruct r as [[found|e]|response].
  - subst found. rewrite Hx. pose proof (serve_artifact_cases cfg c (ref_artifact x) hs v s1 Hst1) as H. unfold respond in H.
    rewrite Hm in H. unfold get_answers. destruct (serve_artifact _ _ _ _ _ _) as [[r|r] s2]; naive_solver.
  - cbn. right. by left.
  - subst response. cbn. by left.
Qed.

(** What a successful build-cache write did. *)
Lemma put_build_cases rest cfg name ctx reference hs stream v s :
  0 <= rest -> files_wf (cache_files (http_cache cfg)) -> request_wf (max_upload_bytes (http_cache cfg)) (content_length hs) ->
  disk_ok rest (cache_files (http_cache cfg)) (world s) -> steady (cache_files (http_cache cfg)) v (world s) ->
  let '(r, s') := respond (put_build cfg name ctx reference hs stream) s in
  status r = 200 ->
  bypasses (world s') = bypasses (world s) + 1
  \/ bypasses (world s') = bypasses (world s) /\ exists chunks v' x, stream = Ok <$> chunks /\ steady (cache_files (http_cache cfg)) v' (world s')
     /\ mv_references v' !! (ctx_channel ctx, reference) = Some x
     /\ digest_array (digest (ref_artifact x)) = sha256 (concat chunks)
     /\ is_Some (mv_artifacts v' !! (ctx_channel ctx, ref_artifact x)).
Proof.
  intros Hr Hf Hq Hd Hst. unfold respond at 1, put_build, with_permit, acquire_foreground. destruct (foreground s) as [|n]; [done|].
  set (s1 := count _ _). cbn zeta iota. unfold upload, respond, cache, try, zoom, mbind, M_bind, mret, M_ret.
  set (request := Build_PublishRequest _ _ _ _ _ _ _).
  assert (disk_ok rest (cache_files (http_cache cfg)) (world s1)) as Hd1 by exact Hd.
  assert (steady (cache_files (http_cache cfg)) v (world s1)) as Hst1 by (by eapply steady_other).
  pose proof (publish_bypasses (bypasses (world s)) cfg name request (world s1) eq_refl) as Hby.
  destruct (cache_publish (http_cache cfg) name request (world s1)) as [[pub|e] w1] eqn:Ep.
  - cbn. intros _. right. split; [exact Hby|]. unfold cache_publish in Ep. apply bind_ok in Ep as ([p|rejected] & w2 & Ep & E2); [|done]. injection E2 as -> ->.
    eapply (publish_request_ok rest) in Ep as (v' & bdy & Hst' & (chunks & Hs & ->) & _ & Hdig & _ & Hrow & _ & Href & _); [|done..].
    destruct (Href reference eq_refl) as (x & Hx & Ha). exists chunks, v', x. rewrite Ha. split; [done|].
    split; [by eapply steady_other|]. done.
  - destruct e as [[]| | | |]; cbn; try done. intros _. left. unfold bypasses in *. cbn. lia.
Qed.

(** C7: The build cache gives back what it was given.  A write of a key answered 200 was either counted
    as a bypass, or received to the end; and then, in the state it left, a [GET] of the key in the
    same channel that passes its own authorization is never a miss: it fails with 429 or 500, or is
    answered with a body that has the written body's digest, the whole of it (compressed only for a
    client that accepts zstd) or the slice its Content-Range names, or with 416, and that only when
    its Range header asks for no byte of the body: a range that starts past the end, or an empty
    suffix. *)
Theorem build_cache_roundtrip rest cfg name channel key hs hs' stream v s :
  0 <= rest -> files_wf (cache_files (http_cache cfg)) -> request_wf (max_upload_bytes (http_cache cfg)) (content_length hs) ->
  disk_ok rest (cache_files (http_cache cfg)) (world s) -> steady (cache_files (http_cache cfg)) v (world s) ->
  let '(r, s') := respond (put_http_cache cfg name channel key hs stream) s in
  status r = 200 ->
  bypasses (world s') = bypasses (world s) + 1
  \/ bypasses (world s') = bypasses (world s) /\ exists chunks, stream = Ok <$> chunks
     /\ (is_ok (channel_context channel hs' s').1 = true ->
         let '(r', _) := respond (get_http_cache cfg channel key GET hs') s' in
         status r' = 429 \/ status r' = 500
         \/ exists content, sha256 content = sha256 (concat chunks) /\ get_answers r' hs' content).
Proof.
  intros Hr Hf Hq Hd Hst. unfold put_http_cache, respond at 1, mbind at 1, M_bind at 1.
  destruct (channel_context channel hs s) as [[ctx|r] s0] eqn:Ec.
  2: { intros E. by apply context_status in Ec. }
  pose proof (context_bypasses _ _ _ _ _ Ec) as Hby.
  apply (channel_context_ok rest (cache_files (http_cache cfg)) _ _ v) in Ec as (Hd0 & Hst0 & Hn); [|done..].
  case_bool; [done|].
  pose proof (put_build_cases rest cfg name ctx (build_reference (lit "http") key) hs stream v s0 Hr Hf Hq Hd0 Hst0) as H.
  unfold respond at 1 in H. destruct (put_build _ _ _ _ _ _ s0) as [[r|r] s']; intros E.
  all: rewrite Hby in H; destruct (H E) as [Hp|(Hb & chunks & v' & x & Hs & Hst' & Hx & Hdig & Ha)]; [by left|right].
  all: split; [done|]; exists chunks; split; [done|]; intros Hok; unfold get_http_cache, respond at 1, mbind, M_bind.
  all: destruct (channel_context channel hs' s') as [[ctx'|bad] s2] eqn:Ec'; [|done].
  all: pose proof Ec' as Ec2; apply (context_steady (cache_files (http_cache cfg)) _ _ v') in Ec2 as [Hst2 Hn2]; [|done].
  all: assert (ctx_channel ctx' = ctx_channel ctx) as -> by (eapply names_channel_unique; done).
  all: pose proof (bound_reference_served cfg (ctx_channel ctx) (build_reference (lit "http") key) hs' v' s2 x Hst2 Hx Ha) as Hserve.
  all: rewrite Hdig in Hserve; exact Hserve.
Qed.
End Claims.

#[local] Existing Instances toy_ulid toy_ulid_laws real_hex real_hex_laws toy_sha256 toy_zstd toy_zstd_laws.
#[local] Existing Instances toy_base64 toy_hasher toy_store toy_store_laws.

Definition sample_key : bytes := lit "key".
Definition sample_channel : option bytes := Some (ChannelId_to_string channel_a).

Definition put_key : Response * AppState (S:=MemDB) :=
  respond (put_http_cache sample_http (lit "t") sample_channel sample_key [] sample_stream) (with_slots (open_shard [] [])).

(** A hello world written under a key: not a bypass, and the read that follows is answered. *)
Lemma build_cache_roundtrip_witness :
  exists chunks, sample_stream = Ok <$> chunks
  /\ exists content, sha256 content = sha256 (concat chunks)
     /\ get_answers (respond (get_http_cache sample_http sample_channel sample_key GET []) put_key.2).1 [] content.
Proof.
  destruct open_shard_steady as [v Hv].
  pose proof (build_cache_roundtrip 0 sample_http (lit "t") sample_channel sample_key [] [] sample_stream v (with_slots (open_shard [] []))
    ltac:(discriminate) sample_files_wf sample_request (open_shard_disk [] []) Hv) as H.
  change (respond (put_http_cache sample_http (lit "t") sample_channel sample_key [] sample_stream)
    (with_slots (open_shard [] []))) with put_key in H.
  assert (status put_key.1 = 200) as Hs by (by vm_compute).
  assert (bypasses (world put_key.2) = 0) as Hb by (by vm_compute).
  assert (is_ok (channel_context sample_channel [] put_key.2).1 = true) as Ho by (by vm_compute).
  assert (status (respond (get_http_cache sample_http sample_channel sample_key GET []) put_key.2).1 = 200) as Hg by (by vm_compute).
  destruct put_key as [r s']. cbn [fst snd] in *. destruct (H Hs) as [Hp|(_ & chunks & Hc & Hread)].
  { rewrite Hb in Hp. vm_compute in Hp. discriminate Hp. }
  exists chunks. split; [exact Hc|]. specialize (Hread Ho).
  destruct (respond (get_http_cache sample_http sample_channel sample_key GET []) s') as [r' s2]. cbn [fst] in *.
  rewrite Hg in Hread. destruct Hread as [E|[E|E]]; [discriminate E..|exact E].
Defined.
