(* ===== verification/Main.v ===== *)
(** * The process entry ([main.rs])

    A command line is read, logging is set up, and one of the three commands runs to its end: a shard,
    a build-cache helper, which is taken up to its event loop, or a routing agent. *)

From S2P Require Import Prelude Externals Domain Records Concrete Metadata MetadataView MetadataRefinement MetadataStore MetadataClaims Space RecentUse Filesystem ArtifactFiles FilesLemmas FilesClaims World Channels ChannelLemmas Samples ChannelClaims Cache CacheLemmas CacheConsistency CacheMaintenance Shard DiskTree CacheClaims Text Ring Discovery DiscoveryClaims Http HttpClaims Negotiation Web Config Proxy Packages ProxyLemmas ProxyFetch WebConcrete ProxyClaims Startup StartupClaims Manifest Protocol Cacheprog Telemetry TelemetryClaims Routes RoutesClaims Cli Arguments Server ServerLemmas ServerClaims AgentProcess SessionLabel Dns.

Section Main.
Context {UL : UlidLib} {HX : HexLib} {SH : Sha256Lib} {BS : Base64Lib} {ZS : ZstdLib} {DH : DefaultHasherLib}.
Context {URL : UrlLib} {JS : JsonLib} {HT : HtmlLib} {RM : RouteMatcher} {CL : ClapLib}.
Context {S : Type} {MS : MetadataStore S} {R : Type} {PR : PrometheusLib R} {RN : RandLib}.

(** What a process meets: free space, whether its listener could be bound and what befalls it; the
    system's resolver; and the helper's host, its identifier and its input. *)
Record Surroundings := {
  su_sample : option Z; su_bound : bool; su_events : list server_event; su_last : option Z;
  su_system : result bytes unit; su_routed : list run_event;
  su_host : Host; su_temp : path; su_name : bytes; su_input : list ProtocolMessage; su_end : polled
}.

(** The disks a process works on: a shard's with its store, and a helper's. *)
Record Machine := { mc_shard : World S; mc_helper : Client }.

Definition this_client : M Client ClientError Client := fun c => (Ok c, c).

(** [cacheprog::run] up to its loop *)
Definition cacheprog_run (a : CacheprogArgs) (cwd : path) (su : Surroundings) : M Client ClientError (ClientConfig * Helper) :=
  cfg ← open_client (ca_url a) (ca_token a) (su_temp su) (ca_cache_dir a) (ca_ephemeral_cache a) (su_name su)
          (on_disk (session_label (su_host su) (ca_session a) cwd)) (ca_prefetch_concurrency a);
  c ← this_client;
  mret (cfg, helper_start c (su_input su) (su_end su)).

(** How a process ends, or for a helper how it begins. *)
Inductive ended :=
| Unusable (e : UsageError)
| Served (r : result ServeError unit)
| Helping (r : result ClientError (ClientConfig * Helper))
| Routed (r : result RunError (AgentProcess (R:=R))).

Record Launch := { ln_name : command_name; ln_invocation : Invocation; ln_cwd : path; ln_surroundings : Surroundings }.

(** The logging set up: where records go and the directives added. *)
Definition init_logging (cli : Cli) : Stream * list string := (log_stream (cli_command cli), log_directives (debug cli)).

Definition main (l : Launch) (m : Machine) : option (Stream * list string) * ended * Machine :=
  let su := ln_surroundings l in
  match parse_cli (ln_name l) (ln_invocation l) (ln_cwd l) with
  | Err e => (None, Unusable e, m)
  | Ok cli =>
      let '(outcome, m) :=
        match cli_command cli with
        | Serve arguments =>
            let '(r, w) := serve arguments (su_sample su) (su_bound su) (su_events su) (su_last su) (mc_shard m) in
            (Served r, {| mc_shard := w; mc_helper := mc_helper m |})
        | Cli.Cacheprog arguments =>
            let '(r, c) := cacheprog_run arguments (ln_cwd l) su (mc_helper m) in
            (Helping r, {| mc_shard := mc_shard m; mc_helper := c |})
        | Agent arguments => (Routed (run arguments (su_system su) (su_bound su) (su_routed su)), m)
        end in
      (Some (init_logging cli), outcome, m)
  end.

Definition launch (m : Machine) (l : Launch) : Machine := (main l m).2.
End Main.

(** * What processes guarantee one another

    A shard's data directory through any sequence of processes, started from any command lines. *)

Section Claims.
Context {UL : UlidLib} {ULL : UlidLaws} {HX : HexLib} {HXL : HexLaws} {SH : Sha256Lib} {BS : Base64Lib}.
Context {ZS : ZstdLib} {ZSL : ZstdLaws} {DH : DefaultHasherLib}.
Context {URL : UrlLib} {JS : JsonLib} {HT : HtmlLib} {RM : RouteMatcher} {CL : ClapLib} {CLL : ClapLaws}.
Context {S : Type} {MS : MetadataStore S} {ML : MetadataLaws S} {R : Type} {PR : PrometheusLib R} {RN : RandLib}.
Implicit Types (l : Launch) (m : Machine (S:=S)).

Notation launch := (launch (S:=S) (R:=R)).

(** A process that is a shard, if it is one, of this directory; sizes are what [statvfs] can report. *)
Definition launch_wf (dir : path) l : Prop :=
  (forall cli a, parse_cli (ln_name l) (ln_invocation l) (ln_cwd l) = Ok cli -> cli_command cli = Serve a -> sa_data_dir a = dir)
  /\ (forall x, su_sample (ln_surroundings l) = Some x -> is_u64 x) /\ (forall x, su_last (ln_surroundings l) = Some x -> is_u64 x)
  /\ Forall event_wf (su_events (ln_surroundings l)).

(** The life of the shard a command line starts. *)
Definition lifetime_of l : option lifetime :=
  match parse_cli (ln_name l) (ln_invocation l) (ln_cwd l) with
  | Ok {| cli_command := Serve a |} =>
      let su := ln_surroundings l in
      Some {| lt_arguments := a; lt_sample := su_sample su; lt_bound := su_bound su; lt_events := su_events su; lt_last := su_last su |}
  | _ => None
  end.

Lemma launch_lives l m : mc_shard (launch m l) = match lifetime_of l with Some x => live x (mc_shard m) | None => mc_shard m end.
Proof.
  unfold Main.launch, main, lifetime_of, live. destruct (parse_cli _ _ _) as [[d [a|a|a]]|e]; cbn [cli_command]; [..|done].
  - cbn [lt_arguments lt_sample lt_bound lt_events lt_last]. by destruct (serve _ _ _ _ _ _).
  - by destruct (cacheprog_run _ _ _ _).
  - done.
Qed.

Lemma launches_live ls m : mc_shard (fold_left launch ls m) = fold_left (fun w x => live x w) (omap lifetime_of ls) (mc_shard m).
Proof.
  revert m. induction ls as [|l ls IH]; intros m; cbn; [done|]. rewrite IH, launch_lives. by destruct (lifetime_of l).
Qed.

Lemma lifetime_of_wf (dir : path) l x : launch_wf dir l -> lifetime_of l = Some x -> lifetime_wf dir x.
Proof.
  intros (Hd & Hs & Hl & He). unfold lifetime_of. destruct (parse_cli _ _ _) as [[d [a|a|a]]|e] eqn:E; try done. intros [= <-].
  split; [exact (Hd _ _ eq_refl eq_refl)|]. split; [|done]. apply config_in_range.
  unfold parse_cli in E. destruct (parse_command _ _ _) as [c|] eqn:Ec; [|done]. injection E as _ ->. by apply command_in_range in Ec as [_ Hr].
Qed.

Lemma lifetimes_of_wf (dir : path) ls : Forall (launch_wf dir) ls -> Forall (lifetime_wf dir) (omap lifetime_of ls).
Proof.
  intros HF. apply Forall_forall. intros x (l & Hl & Hx)%list_elem_of_omap. rewrite Forall_forall in HF. by eapply lifetime_of_wf; [apply HF|].
Qed.

(** C11: What processes leave behind can be served again: after any number of lifetimes on a data
    directory, each started from whatever command line and environment, some of them failing to start, each serving whatever
    requests with whatever failures, a start that succeeds finds the default channel open and no
    channel half deleted; and succeeding or not it leaves the store sound, nothing reserved and the
    disk whole. *)
Theorem shard_survives_command_lines l launches m cli a :
  parse_cli (ln_name l) (ln_invocation l) (ln_cwd l) = Ok cli -> cli_command cli = Serve a ->
  Forall (launch_wf (sa_data_dir a)) (launches ++ [l]) -> whole (artifacts_of (ServeArgs_config a)) (mc_shard m) ->
  let m' := fold_left launch launches m in
  whole (artifacts_of (ServeArgs_config a)) (mc_shard (launch m' l))
  /\ let '(started_, w) := open_internal (ServeArgs_config a) (su_sample (ln_surroundings l)) (boot (ServeArgs_config a) (mc_shard m')) in
     whole (artifacts_of (ServeArgs_config a)) w
     /\ (is_ok started_ = true -> exists v, viewed v w /\ default_ok v /\ channels_active v).
Proof.
  intros Hp Ha HF Hw m'. apply Forall_app in HF as [HF [Hl _]%Forall_cons].
  assert (exists x, lifetime_of l = Some x /\ lt_arguments x = a) as (x & Hx & Hxa).
  { unfold lifetime_of. rewrite Hp. destruct cli as [d c]. cbn in Ha. subst c. by eexists. }
  pose proof (lifetime_of_wf _ l x Hl Hx) as Hlife. pose proof (proj1 (proj2 Hlife)) as Hu. rewrite Hxa in Hu.
  split.
  - rewrite launch_lives, Hx. unfold m'. rewrite launches_live.
    destruct (lifetimes_leave_whole (sa_data_dir a) _ (ServeArgs_config a) _ (lifetimes_of_wf _ _ HF) eq_refl Hw) as (c' & Hd & Hw').
    rewrite <- Hxa. apply (live_whole c'); [by rewrite Hd|done].
  - unfold m'. rewrite launches_live. apply lifetimes_keep_shard; [done|apply (proj1 (proj2 Hl))|by apply lifetimes_of_wf|done].
Qed.
End Claims.

Section Witnesses.
#[local] Existing Instances toy_ulid toy_ulid_laws real_hex real_hex_laws toy_sha256 toy_zstd toy_zstd_laws.
#[local] Existing Instances toy_base64 toy_hasher toy_store toy_store_laws toy_url toy_json toy_html reference_matcher list_registry toy_rand.
#[local] Existing Instances toy_clap toy_clap_laws.

(** A shard with its data in [/data], a filter size from the environment. *)
Definition serve_line : Invocation := {|
  flags name := if bool_decide (name = "data-dir"%string) then [lit "/data"] else [];
  switches _ := false;
  environment name := if bool_decide (name = "FLYWHEEL_BLOOM_BITS"%string) then Some (lit "128") else None |}.

Definition busy_surroundings : Surroundings (UL:=toy_ulid) (URL:=toy_url) := {|
  su_sample := Some 1000; su_bound := true; su_events := busy_day; su_last := None;
  su_system := Ok tt; su_routed := []; su_host := {| host_env := fun _ => None; host_os := lit "linux"; host_arch := lit "x86_64" |};
  su_temp := [lit "tmp"]; su_name := []; su_input := []; su_end := EndOfInput |}.

(** A day of service, a helper whose options are not usable, and an agent that finds no resolver. *)
Definition launches_before : list (Launch (UL:=toy_ulid) (URL:=toy_url)) := [
  {| ln_name := NamedServe; ln_invocation := serve_line; ln_cwd := []; ln_surroundings := busy_surroundings |};
  {| ln_name := NamedCacheprog; ln_invocation := serve_line; ln_cwd := []; ln_surroundings := busy_surroundings |};
  {| ln_name := NamedAgent; ln_invocation := agent_invocation; ln_cwd := []; ln_surroundings := busy_surroundings |} ].

Definition next_launch : Launch (UL:=toy_ulid) (URL:=toy_url) :=
  {| ln_name := NamedServe; ln_invocation := serve_line; ln_cwd := [lit "home"]; ln_surroundings := busy_surroundings |}.

Definition idle_machine : Machine := {|
  mc_shard := crashed_world;
  mc_helper := {| c_fs := {| nodes := ∅; script := [] |}; c_modified := ∅; Cacheprog.c_session := {| manifest := None; used := ∅; inflight := ∅ |};
                  c_log := []; c_clock := fun _ => 0; c_ticks := 0 |} |}.

Lemma serve_line_parsed (cwd : path) : parse_cli NamedServe serve_line cwd = Ok {| debug := false; cli_command := Serve small_args |}.
Proof. vm_compute. reflexivity. Qed.

Lemma small_args_config : ServeArgs_config small_args = small_config.
Proof. reflexivity. Qed.

Lemma idle_whole : whole (artifacts_of small_config) (mc_shard idle_machine).
Proof. unfold idle_machine. cbn [mc_shard]. exact crashed_whole. Qed.

Lemma usages_refused : parse_cli NamedCacheprog serve_line [] = Err (Missing "url").
Proof. vm_compute. reflexivity. Qed.

Lemma agent_line_parsed : parse_cli NamedAgent agent_invocation [] = Ok {| debug := false; cli_command := Agent told_arguments |}.
Proof. vm_compute. reflexivity. Qed.

Lemma launches_wf : Forall (launch_wf (sa_data_dir small_args)) (launches_before ++ [next_launch]).
Proof.
  assert (Hrest : forall (P : Prop), P -> P /\ (forall x, su_sample busy_surroundings = Some x -> is_u64 x)
    /\ (forall x, su_last busy_surroundings = Some x -> is_u64 x) /\ Forall event_wf (su_events busy_surroundings)).
  { intros P HP. split; [exact HP|]. split; [exact sample_u64|]. split; [discriminate|exact busy_day_wf]. }
  repeat (apply Forall_cons; split); [..|apply Forall_nil; exact I]; apply Hrest; intros cli a.
  - unfold ln_name, ln_invocation, ln_cwd. rewrite serve_line_parsed. by intros [= <-] [= <-].
  - unfold ln_name, ln_invocation, ln_cwd. by rewrite usages_refused.
  - unfold ln_name, ln_invocation, ln_cwd. rewrite agent_line_parsed. by intros [= <-].
  - unfold next_launch, ln_name, ln_invocation, ln_cwd. rewrite serve_line_parsed. by intros [= <-] [= <-].
Qed.

Lemma shard_survives_command_lines_witness :
  whole (artifacts_of small_config) (mc_shard (launch (R:=list string) (fold_left (launch (R:=list string)) launches_before idle_machine) next_launch)).
Proof.
  pose proof (shard_survives_command_lines (S:=MemDB) (R:=list string) next_launch launches_before idle_machine _ small_args
    (serve_line_parsed _) eq_refl launches_wf) as H. cbv zeta in H. rewrite small_args_config in H. specialize (H idle_whole). destruct H as [H _]. exact H.
Defined.
End Witnesses.
