(* ===== verification/Spans.v ===== *)
(** * Request identifiers and spans ([telemetry.rs], [agent/mod.rs], [transport/http/mod.rs])

    Around its router each process gives a request an identifier unless it brings one, opens a span
    that names it, and returns it with the answer.  The layers are tower-http's: [RequestIdLib]. *)

From S2P Require Import Prelude Externals Domain Records Concrete Metadata MetadataView MetadataStore MetadataClaims Space RecentUse Filesystem ArtifactFiles World Channels Samples Cache CacheClaims Text Ring Discovery DiscoveryClaims Agent AgentClaims Http HttpClaims Negotiation Web Proxy Packages WebConcrete Startup StartupClaims Telemetry TelemetryClaims Routes RoutesClaims Cli Server ServerLemmas ServerClaims AgentProcess AgentProcessClaims.

(** ** Identifiers *)

Definition REQUEST_ID_HEADER : bytes := lit "x-request-id".

(** [SetRequestId] with the header's name, the identifier made and the request's headers;
    [PropagateRequestId] with the name, the request's headers and the answer's. *)
Class RequestIdLib := {
  set_request_id : bytes -> bytes -> headers -> headers;
  propagate_request_id : bytes -> headers -> headers -> headers
}.

Class RequestIdLaws {RI : RequestIdLib} : Prop := {
  set_given name made hs v : header name hs = Some v -> set_request_id name made hs = hs;
  set_missing name made hs : header name hs = None -> header name (set_request_id name made hs) = Some made;
  propagated name hs answer v : header name hs = Some v -> header name answer = None \/ header name answer = Some v ->
    header name (propagate_request_id name hs answer) = Some v
}.

Section Identifiers.
Context {UL : UlidLib}.

(** [MakeRequestUlid]: the text as a header's value, [None] where [expect] panics *)
Definition make_request_id (u : Ulid) : option bytes := to_str (ulid_array_to_str u).

Lemma request_id_made {ULL : UlidLaws} u : make_request_id u = Some (ulid_array_to_str u).
Proof.
  unfold make_request_id, to_str. assert (forallb visible (ulid_array_to_str u) = true) as ->; [|done].
  apply forallb_forall. intros c Hc. pose proof (ulid_str_alphabet u) as H. rewrite List.Forall_forall in H. specialize (H c Hc).
  unfold is_crockford, visible in *. zify_bool. lia.
Qed.
End Identifiers.

(** ** Spans *)

Record Span := {
  sp_component : string; sp_request_id : bytes; sp_method : Method;
  sp_operation : option bytes; sp_key : option bytes; sp_class : option bytes
}.

(** What a span shows of the identifier. *)
Definition shown (id : option bytes) : bytes := default (lit "invalid") (value ← id; to_str value).

Definition span_record (operation key class : bytes) (s : Span) : Span := {|
  sp_component := sp_component s; sp_request_id := sp_request_id s; sp_method := sp_method s;
  sp_operation := Some operation; sp_key := Some key; sp_class := Some class |}.

(** [agent_request_span]; [matched] is the route axum matched *)
Definition agent_request_span (matched : option bytes) (request : AgentRequest) : Span :=
  let span := {| sp_component := "agent"; sp_request_id := shown (header REQUEST_ID_HEADER (a_headers request)); sp_method := a_method request;
                 sp_operation := None; sp_key := None; sp_class := None |} in
  match matched with
  | Some path_ => span_record path_ [] (lit "control") span
  | None => span
  end.

(** [forward_request]: what it records of the request it routes *)
Definition record_routed (routed : RoutedKey) (s : Span) : Span :=
  span_record (routed_kind routed) (routed_id routed) (lit (class_str (routed_class routed))) s.

(** [server_request_span] *)
Definition server_request_span (matched : option bytes) (rq : HttpRequest) : Span :=
  let '(operation, key) := server_request_identity (rq_path rq) matched in
  {| sp_component := "server"; sp_request_id := shown (header REQUEST_ID_HEADER (rq_headers rq)); sp_method := rq_method rq;
     sp_operation := Some operation; sp_key := Some key; sp_class := None |}.

(** ** The layers *)

Section Layers.
Context {UL : UlidLib} {SH : Sha256Lib} {HX : HexLib} {RI : RequestIdLib}.

Definition identify (made : Ulid) (hs : headers) : headers :=
  match make_request_id made with Some id => set_request_id REQUEST_ID_HEADER id hs | None => hs end.

Section Agent.
Context {R : Type} {PR : PrometheusLib R} {RN : RandLib}.

Definition with_headers (hs : headers) (request : AgentRequest) : AgentRequest := {|
  a_method := a_method request; a_path := a_path request; a_path_and_query := a_path_and_query request; a_headers := hs; a_body := a_body request |}.

(** The headers an answer brings from upstream; the agent's own pages set no identifier. *)
Definition page_headers (page : AgentPage) : headers := match page with AgentForwarded response _ => Agent.resp_headers response | _ => [] end.

(** [Agent::router] with its layers: the answer, its headers, and the span it ran in *)
Definition agent_layered (made : Ulid) (clock : AgentClock) (send : UpstreamRequest -> result SendError HttpResponse)
    (encoded : result string bytes) (request : AgentRequest) (p : AgentProcess (R:=R)) : AgentPage * headers * Span * AgentProcess :=
  let request := with_headers (identify made (a_headers request)) request in
  let own := own_route (a_path request) in
  let span := agent_request_span (if own then Some (a_path request) else None) request in
  let '(page, p) := agent_handle clock send encoded request p in
  let span := if own then span else record_routed (classify (a_method request) (a_path request)) span in
  (page, propagate_request_id REQUEST_ID_HEADER (a_headers request) (page_headers page), span, p).
End Agent.

Section Shard.
Context {BS : Base64Lib} {ZS : ZstdLib} {DH : DefaultHasherLib} {URL : UrlLib} {JS : JsonLib} {HT : HtmlLib} {RM : RouteMatcher}.
Context {S : Type} {MS : MetadataStore S}.

Definition identified (made : Ulid) (rq : HttpRequest) : HttpRequest := {|
  rq_method := rq_method rq; rq_path := rq_path rq; rq_headers := identify made (rq_headers rq); rq_stream := rq_stream rq; rq_json := rq_json rq |}.

(** [router] with its layers; no handler of a shard sets an identifier of its own *)
Definition server_layered (made : Ulid) (cfg : HttpConfig) (svc : ProxyService) (net : Network) (encoded : result string bytes) (fr : Fresh)
    (rq : HttpRequest) (s : ServerState (S:=S)) : server_response * option PrefetchObservation * headers * Span * ServerState :=
  let rq := identified made rq in
  let span := server_request_span (r_text <$> (route_request fr rq).1) rq in
  let '(response, observation, s) := serve_request cfg svc net encoded fr rq s in
  (response, observation, propagate_request_id REQUEST_ID_HEADER (rq_headers rq) [], span, s).
End Shard.
End Layers.

(** * What identifiers and spans guarantee

    A request has one identifier in the agent and in the shard that serves it. *)

Section Claims.
Context {UL : UlidLib} {ULL : UlidLaws} {SH : Sha256Lib} {HX : HexLib} {RI : RequestIdLib} {RIL : RequestIdLaws}.
Context {R : Type} {PR : PrometheusLib R} {RN : RandLib}.
Context {BS : Base64Lib} {ZS : ZstdLib} {DH : DefaultHasherLib} {URL : UrlLib} {JS : JsonLib} {HT : HtmlLib} {RM : RouteMatcher}.
Context {S : Type} {MS : MetadataStore S}.
Implicit Types (send : UpstreamRequest -> result SendError HttpResponse) (hs : headers).

(** The identifier of a request: the one it brings, else the one made for it. *)
Definition identifier (made : Ulid) hs : bytes := default (ulid_array_to_str made) (header REQUEST_ID_HEADER hs).

Lemma identify_header made hs : header REQUEST_ID_HEADER (identify made hs) = Some (identifier made hs).
Proof.
  unfold identify, identifier. rewrite request_id_made. destruct (header REQUEST_ID_HEADER hs) eqn:E; [by rewrite (set_given _ _ _ _ E)|].
  by apply set_missing.
Qed.

Lemma header_kept (keep : bytes -> bool) name hs : keep name = true -> header name (List.filter (fun h => keep h.1) hs) = header name hs.
Proof.
  intros Hk. unfold header. f_equal. induction hs as [|[n v] hs IH]; cbn; [done|]. destruct (keep n) eqn:E; cbn.
  - by rewrite IH.
  - rewrite IH, bool_decide_false; [done|]. intros ->. congruence.
Qed.

Lemma upstream_identifier request a :
  header REQUEST_ID_HEADER (Agent.up_headers (upstream_request request a)) = header REQUEST_ID_HEADER (a_headers request).
Proof. by apply (header_kept (fun n => negb (skip_request_header n))). Qed.

(** An upstream that answers with the identifier it was sent, or with none. *)
Definition echoes send : Prop := forall u r, send u = Ok r ->
  header REQUEST_ID_HEADER (Agent.resp_headers r) = None
  \/ header REQUEST_ID_HEADER (Agent.resp_headers r) = header REQUEST_ID_HEADER (Agent.up_headers u).

Definition brings hs request : Prop :=
  header REQUEST_ID_HEADER hs = None \/ header REQUEST_ID_HEADER hs = header REQUEST_ID_HEADER (a_headers request).

Lemma degrade_headers class empty st : Agent.resp_headers (degrade class empty st).1 = [].
Proof. by destruct class. Qed.

Lemma forward_brings now later send request st : echoes send -> brings (Agent.resp_headers (forward now later send request st).1) request.
Proof.
  intros He. unfold forward, forward_request. set (prefetch := bool_decide _). case_bool; [by left|].
  destruct (key_position _ _); [|by left]. destruct (current_ring _ _) as [ring rs]. destruct (owner ring _) as [m|].
  - destruct (send _) as [r|e] eqn:Es; [|left; by rewrite degrade_headers].
    specialize (He _ _ Es). rewrite upstream_identifier in He. unfold brings. cbn [fst proxied_response Agent.resp_headers].
    by rewrite (header_kept (fun n => negb (skip_response_header n))).
  - left. by rewrite degrade_headers.
Qed.

Lemma handle_brings clock send encoded request (p : AgentProcess (R:=R)) : echoes send ->
  brings (page_headers (agent_handle clock send encoded request p).1) request.
Proof.
  intros He. unfold agent_handle. destruct (own_route _); [left; by repeat case_match|].
  unfold observed_forward. pose proof (forward_brings (ck_now clock) (ck_later clock) send request (pr_state p) He) as Hb.
  destruct (if wants_prefetch _ then _ else _) as [o r]. destruct (forward _ _ _ _ _) as [response st]. cbn in Hb.
  destruct o as [o|]; [destruct (set_status _ _ _)|]; exact Hb.
Qed.

(** Agent and shard see the same object in a path that names one. *)
Lemma identities_agree m path matched : route_of (split_slash (trim_start_slashes path)) ≠ Fallback ->
  server_request_identity path matched = (routed_kind (classify m path), routed_id (classify m path)).
Proof.
  unfold server_request_identity, classify. set (segments := split_slash _). intros H.
  assert (Hc : forall a rest, segments = a :: rest -> is_lit "channels" a = false).
  { intros a rest E. destruct (is_lit "channels" a) eqn:Ea; [|done]. apply bool_decide_eq_true in Ea. subst a. exfalso. apply H. rewrite E.
    by destruct rest as [|? [|? [|? [|]]]]. }
  clearbody segments. destruct segments as [|a [|b rest]]; [done|done|]. rewrite (Hc a (b :: rest) eq_refl). clear Hc.
  destruct rest as [|c [|d [|e rest]]]; cbn [route_of first_is andb] in *.
  - by destruct (is_lit "references" a).
  - rewrite bool_decide_true, andb_true_r by done. destruct (is_lit "artifacts" a), (is_lit "build-cache" a && is_lit "http" b), (is_lit "proxy" a); done.
  - rewrite bool_decide_false, andb_false_r by done.
    destruct (is_lit "build-cache" a && is_lit "bazel" b && is_lit "cas" c), (is_lit "build-cache" a && is_lit "bazel" b && is_lit "ac" c), (is_lit "proxy" a); done.
  - rewrite bool_decide_false, andb_false_r by done. by destruct (is_lit "proxy" a).
Qed.
Lemma handle_sent clock send encoded request (p : AgentProcess (R:=R)) u :
  agent_sent (pr_state (agent_handle clock send encoded request p).2) = u :: agent_sent (pr_state p) ->
  own_route (a_path request) = false /\ exists a, u = upstream_request request a.
Proof.
  unfold agent_handle, agent_metrics_page.
  destruct (own_route _); [intros H; exfalso; apply (f_equal length) in H; repeat case_match; cbn in H; lia|].
  intros H. split; [done|].
  destruct (observed_forward_state (ck_now clock) (ck_later clock) (ck_started clock) (ck_answered clock) send request p) as [Hst _].
  destruct (observed_forward _ _ _ _ _ _ _) as [[response o] p']. cbn in H, Hst. rewrite Hst in H.
  destruct (forward_sent (ck_now clock) (ck_later clock) send request (pr_state p)) as [E|(m & pos & _ & E)]; rewrite E in H.
  - apply (f_equal length) in H. cbn in H. lia.
  - injection H as <-. by eexists.
Qed.

(** C37: One request, one identifier, through both processes.  The identifier is the one the client
    sent, or the one the agent made for it; the agent's span shows it, and the agent's answer carries it
    whatever became of the request, as long as an upstream does not answer with another one.  A request
    the agent passes on reaches the shard under the same identifier: the shard's span shows it, its
    answer returns it, which is what is asked of an upstream, and where the path names an object the two
    spans name the same one. *)
Theorem requests_keep_their_identifier made made' clock send encoded request (p p' : AgentProcess (R:=R)) page hs span :
  echoes send -> agent_layered made clock send encoded request p = (page, hs, span, p') ->
  let id := identifier made (a_headers request) in
  header REQUEST_ID_HEADER hs = Some id /\ sp_request_id span = shown (Some id)
  /\ forall cfg svc net encoded' fr rq (s s' : ServerState (S:=S)) response observation hs' span' u,
       agent_sent (pr_state p') = u :: agent_sent (pr_state p) -> rq_headers rq = Agent.up_headers u -> rq_path rq = a_path request ->
       server_layered made' cfg svc net encoded' fr rq s = (response, observation, hs', span', s') ->
       header REQUEST_ID_HEADER hs' = header REQUEST_ID_HEADER (Agent.up_headers u) /\ header REQUEST_ID_HEADER hs' = Some id
       /\ sp_request_id span' = sp_request_id span
       /\ (route_of (split_slash (trim_start_slashes (a_path request))) ≠ Fallback ->
           sp_operation span' = sp_operation span /\ sp_key span' = sp_key span).
Proof.
  intros He H id. unfold agent_layered in H. set (request' := with_headers _ request) in H.
  assert (Hid : header REQUEST_ID_HEADER (a_headers request') = Some id) by apply identify_header.
  pose proof (handle_brings clock send encoded request' p He) as Hb. pose proof (handle_sent clock send encoded request' p) as Hs.
  destruct (agent_handle clock send encoded request' p) as [page_ p_]. injection H as <- <- <- <-. cbn [fst snd] in Hb, Hs.
  assert (Hspan : forall b x, sp_request_id (if b : bool then agent_request_span x request' else record_routed (classify (a_method request') (a_path request'))
    (agent_request_span x request')) = shown (Some id)) by (intros [] []; unfold agent_request_span, record_routed, span_record; cbn [sp_request_id]; by rewrite Hid).
  split; [|split; [apply Hspan|]].
  - apply propagated; [done|]. unfold brings in Hb. by rewrite Hid in Hb.
  - intros cfg svc net encoded' fr rq s s' response observation hs' span' u Hu Hrq Hpath Hserved.
    destruct (Hs u Hu) as (Hown & a & ->). rewrite upstream_identifier, Hid, Hspan.
    assert (Hrid : header REQUEST_ID_HEADER (rq_headers rq) = Some id) by by rewrite Hrq, upstream_identifier.
    assert (Hset : header REQUEST_ID_HEADER (rq_headers (identified made' rq)) = Some id).
    { cbn [identified rq_headers]. rewrite identify_header. unfold identifier. by rewrite Hrid. }
    unfold server_layered in Hserved. destruct (serve_request _ _ _ _ _ _ _) as [[response_ o] s_]. injection Hserved as <- <- <- <- <-.
    rewrite (propagated _ _ _ _ Hset) by by left. split; [done|]. split; [done|].
    unfold server_request_span. split; [destruct (server_request_identity _ _); cbn [sp_request_id]; by rewrite Hset|].
    intros Hroute. cbn [rq_path identified]. rewrite Hpath, (identities_agree (a_method request) _ _ Hroute).
    change (a_path request') with (a_path request) in Hown |- *. by rewrite Hown.
Qed.
End Claims.

(** ** A client's request through an agent and its shard *)

#[local] Instance toy_request_ids : RequestIdLib := {|
  set_request_id name made hs := match header name hs with Some _ => hs | None => (name, made) :: hs end;
  propagate_request_id name hs answer :=
    match header name answer, header name hs with None, Some v => (name, v) :: answer | _, _ => answer end |}.

Lemma toy_request_ids_laws : @RequestIdLaws toy_request_ids.
Proof.
  constructor; cbn [set_request_id propagate_request_id toy_request_ids].
  - by intros name made hs v ->.
  - intros name made hs ->. unfold header. cbn. by rewrite bool_decide_true.
  - intros name hs answer v Hv [E|E]; rewrite E; [|exact E]. rewrite Hv. unfold header. cbn. by rewrite bool_decide_true.
Qed.

Section Witnesses.
#[local] Existing Instances toy_ulid toy_ulid_laws real_hex real_hex_laws toy_sha256 toy_zstd toy_zstd_laws.
#[local] Existing Instances toy_base64 toy_hasher toy_store toy_store_laws toy_url toy_json toy_html reference_matcher list_registry toy_rand toy_request_ids_laws.

Definition client_request : AgentRequest := agent_get (lit "/build-cache/http/key") [(REQUEST_ID_HEADER, lit "client-7")].

(** A shard that returns the identifier it is sent. *)
Definition echo_send (u : UpstreamRequest) : result SendError HttpResponse :=
  Ok {| resp_status := 404; Agent.resp_headers := match header REQUEST_ID_HEADER (Agent.up_headers u) with Some v => [(REQUEST_ID_HEADER, v)] | None => [] end;
        resp_body := [] |}.

Definition discovered_agent (p : AgentProcess (R:=list string)) : AgentProcess := (discover 100 7 sample_resolver p).2.

Definition agent_exchange (p : AgentProcess (R:=list string)) : AgentPage * headers * Span * AgentProcess :=
  agent_layered toy_nil (clock_at 101) echo_send (Ok []) client_request (discovered_agent p).

Definition arriving (u : UpstreamRequest) : HttpRequest := {|
  rq_method := Agent.up_method u; rq_path := lit "/build-cache/http/key"; rq_headers := Agent.up_headers u; rq_stream := []; rq_json := JsonRejected 415 |}.

Lemma exchange_sent : match sample_process with
  | Ok p => length (agent_sent (pr_state (agent_exchange p).2)) = 1%nat /\ agent_sent (pr_state (discovered_agent p)) = []
            /\ sp_operation (agent_exchange p).1.2 = Some (lit "http-cache")
  | Err _ => False
  end.
Proof. vm_compute. repeat split. Qed.

Lemma echo_echoes : echoes echo_send.
Proof.
  intros u r [= <-]. cbn [Agent.resp_headers]. destruct (header REQUEST_ID_HEADER (Agent.up_headers u)); [right|by left].
  unfold header. cbn. by rewrite bool_decide_true.
Qed.

Lemma requests_keep_their_identifier_witness : exists p fw u, sample_process = Ok p
  /\ header REQUEST_ID_HEADER (agent_exchange p).1.1.2 = Some (lit "client-7")
  /\ agent_sent (pr_state (agent_exchange p).2) = [u]
  /\ let '(_, _, hs, span, _) := server_layered toy_nil (fw_http fw) (fw_proxy fw) (fun _ _ => Err {| error_is_connect := true; error_is_timeout := false |})
       (Ok []) fresh_values (arriving u) (sr_state (server_start small_config started.2)) in
     header REQUEST_ID_HEADER hs = Some (lit "client-7") /\ sp_request_id span = lit "client-7" /\ sp_operation span = Some (lit "http-cache").
Proof.
  pose proof exchange_sent as Hx. destruct sample_process as [p|] eqn:Ep; [|destruct Hx]. destruct Hx as (Hlen & Hnone & Hop).
  destruct (ok_run (open_internal small_config (Some 1000)) (boot small_config crashed_world) started_ok) as [fw _].
  unfold agent_exchange in *. destruct (agent_layered _ _ _ _ _ _) as [[[page hs] span] p'] eqn:Ea.
  destruct (requests_keep_their_identifier (UL:=toy_ulid) (S:=MemDB) (RM:=reference_matcher) toy_nil toy_nil _ _ _ _ _ _ _ _ _ echo_echoes Ea) as (H1 & H2 & H3).
  cbn [fst snd] in *. destruct (agent_sent (pr_state p')) as [|u [|]] eqn:Eu; [discriminate Hlen| |discriminate Hlen].
  exists p, fw, u. rewrite Ea. split; [reflexivity|]. split; [exact H1|]. split; [exact Eu|].
  destruct (server_layered _ _ _ _ _ _ _ _) as [[[[response o] hs'] span'] s'] eqn:Es.
  rewrite Hnone in H3. destruct (H3 _ _ _ _ _ (arriving u) _ _ _ _ _ _ u eq_refl eq_refl eq_refl Es) as (_ & H4 & H5 & H6).
  split; [exact H4|]. split; [rewrite H5, H2; reflexivity|].
  rewrite <- Hop. apply H6. vm_compute. discriminate.
Defined.
End Witnesses.
